(* ===== verification/_CoqProject ===== *)
-Q . S2P
Prelude.v
GoStd.v
Sha256.v
Spans.v
Inflight.v
CacheKey.v
Lru.v
Store.v
StoreTrace.v
MetaLru.v
StoreBytes.v
StoreQuota.v
HttpParser.v
UringParser.v
RespHead.v
RespWriter.v
Classify.v
BodyHandle.v
Rewrite.v
HostAllow.v
NetUrl.v
Warm.v
Server.v
Fallback.v
Deadlines.v
PerIP.v
Lifecycle.v
PatGate.v
Auth.v
Models.v
Listing.v
LinkHeader.v
ProxyHeaders.v
Location.v
Upstream.v
ColdPath.v
StoreStream.v
Handler.v
BlobStore.v
Registry.v
Upload.v
CommitBody.v
RegistryHandler.v
Ring.v
SendFile.v
Platform.v
Reactor.v
HubClient.v
Logx.v
Snapshot.v
Importer.v
AdminStore.v
AdminApi.v
Login.v
GoFlag.v
Config.v
Main.v
DbCli.v
