(* ===== verification/Prelude.v ===== *)
(** * Verification of Pulsys

    Pulsys is a caching proxy for the Hugging Face Hub with a small registry of
    its own.  Clients send HTTP requests for model files; the proxy
    authenticates them, answers from an on-disk cache when it can, and
    otherwise fetches from the Hub, streaming the bytes to the client and to
    disk at once.  An admin API manages tokens, settings, imports and the cache
    for tenants who log in through an identity provider.  This library is a
    shallow embedding of that code (paths below are under src/internal/, programs under src/cmd/):
    every operation is a Rocq function or a step relation on explicit state,
    executable unless it is a relation.

    ** How the parts fit together

    The process ([Main.main]) reads its flags ([Config.ParseFlags]), refuses to
    start without its Hub token and its database, opens the listeners
    ([Platform]) and builds the server; accept loops, reactors and their
    shutdown are in [Lifecycle].

    A connection is read by [Server.serveConn] (coreserver/server.go), with the
    clock in [Deadlines]: it parses
    a request ([HttpParser.readRequest]), asks the token gate ([PatGate]), tries
    the warm path ([Warm.tryServeWarm]) and falls back through the bridge of
    [Fallback] to the handler ([Handler.ServeHTTP]) behind a response writer
    ([RespWriter]).  A warm body
    leaves through one of the transports of [SendFile].  On Linux the io_uring
    [Reactor] does the same over a [Ring] shared with the kernel, with the parser
    of [UringParser] on its own buffer.  Both
    the warm path and the handler derive a key ([CacheKey.KeyHex]), load the
    metadata of the entry ([Store.LoadMeta]) and ask whether its spans cover the
    range ([Spans.Covers]).  A miss claims the byte range ([Inflight]), sends a
    filtered request ([ProxyHeaders.forward_headers]) to a permitted host
    ([HostAllow], [Upstream.Do]), and tees the answer into the store
    ([ColdPath]); a redirect is rewritten so that it leads back ([Location]).  Client code
    uses the metadata cache through the interface [MetaCache]; [MetaLru] shows
    that the linked table of [Lru] meets it.

    The registry handler ([RegistryHandler]) is in front of the proxy handler:
    it answers for repositories of its own, whose commits ([CommitBody],
    [Upload]) go to the tables of [Registry] and the files of [BlobStore].  The
    [HubClient] downloads snapshots; [Snapshot] runs it against the registry.
    The [Importer] runs it against the proxy from a job queue, a parameter whose
    documented laws are the class [River] with [river_laws].

    The admin plane is [AdminStore] (the tables), [AdminApi] (the handlers and
    the audit trail) and [Login] (OpenID Connect, sessions), behind the chain of
    [Auth]; [AdminApi.pg_store] is the [AuthStore] that chain is proved over, and
    a revocation reaches the cache of the [PatGate].  The operators' program
    ([DbCli]) works on the same tables.

    ** Files

    - Prelude, GoStd, Sha256, NetUrl, GoFlag: bytes, 64-bit integers with
      wrap-around, results, tactics; the Go standard library functions the
      sources call: strings, SHA-256, net/url and path, flag and time parsing.
    - Spans, CacheKey (cache/key.go, keyhex_cache.go); Lru, MetaLru
      (cache/lru.go); Inflight (cache/inflight.go); BodyHandle
      (cache/bodyhandle.go).
    - Store, StoreTrace, StoreBytes, StoreQuota, StoreStream (cache/store.go): the store over
      an explicit file system, its histories, what they preserve.
    - HttpParser, RespHead, Warm, Server, PerIP, Deadlines, Lifecycle
      (coreserver/server.go, header_buf.go, iouring_reactor_linux.go,
      iouring_linux.go); RespWriter, Fallback (coreserver/bridge.go);
      UringParser (coreserver/iouring_parser_linux.go,
      iouring_reactor_linux.go); Platform (coreserver/sendfile_darwin.go,
      listener.go).
    - Ring (coreserver/iouring_ring_linux.go); SendFile (sendfile_unix.go,
      sendfile_with_header_other.go, iouring_linux.go, write_deadline.go);
      Reactor (iouring_reactor_linux.go).
    - Classify, Rewrite, Location, HostAllow, Upstream (classify, rewrite,
      hostallow, upstream).
    - LinkHeader, ProxyHeaders, ColdPath, Handler (proxy/handler.go, util.go).
    - PatGate, Auth (auth, admin/api/authz.go, admin/server.go); Models, Listing
      (admin/models/cache.go, admin/api/handler.go).
    - BlobStore (blobstore/local.go, store.go); Registry (registry/store.go,
      types.go); Upload, CommitBody (proxy/upload_handler.go); RegistryHandler
      (proxy/registry_handler.go, upload_handler.go).
    - HubClient (hfhub/client.go); Snapshot (the client against the registry);
      Importer (importer, importmsg, admin/store/import_jobs.go).
    - AdminStore (auth/store/pg.go, admin/store/admin.go, auth/token.go,
      db/migrations); AdminApi (admin/api/handler.go, admin/audit,
      admin/server.go); Login (auth/oidc, auth/httpx).
    - Logx (logx/logx.go); Config (config/config.go); Main (cmd/pulsys/main.go,
      pprof.go); DbCli (cmd/pulsys-db, db).

    ** What the theorems show

    - Cache contents: over any interleaving of writers, failed system calls and
      restarts, bytes served are upstream bytes; the quota holds and the
      counters equal the disk totals; a purge keeps other owners' entries.
    - Composition: a fetched object or range is a hit afterwards with the same
      bytes, through the handler and without upstream; whatever the request,
      upstream sees only permitted hosts and no client credential; a warm hit
      reaches the client over every transport.
    - Concurrency: no byte is fetched twice at once and no waiter is lost;
      a file handle stays open while it is held; a digest never names other
      bytes in the blob store; a ring is two bounded queues under every
      interleaving with the kernel, and the reactor never mixes connections.
    - Protocol: which requests the two parsers accept, that they agree, that
      framing is unambiguous; responses decode to what was written.
    - Time: every connection ends, within bounds set by the timeouts, and a
      prompt client sees no difference to the loop without the clock; a reactor
      told to stop stops, and Close returns within its bounds.
    - Transport: the bridge gives every request its own body; the request that
      goes upstream is the one asked for; a rewritten redirect leads back to
      the host, path and query it named.
    - Start-up: a command line means what it says, an accepted configuration is
      well formed, and a running process serves authenticated requests only;
      a failing operator's command leaves the database as it was.
    - Access: served requests were admitted by the gate; admin routes need role
      or scope; private addresses are refused; a token works from its minting to
      its expiry and is locked out everywhere once revoked; a login gives the
      role of the user's groups, a logout is final.
    - Tenants: a request changes and shows rows of its caller's tenant only,
      settings lose no update, mutations are in the audit trail.
    - Registry: the tables stay well formed, a commit yields exactly the tree it
      describes, a retried commit is applied once within bounded attempts and
      waits, an upload within the cap is stored under its digest; what is pushed
      can be pulled, by a plain request and by the client, which writes exactly
      the objects over retries, cut connections and concurrent writers.
    - Some theorems establish that the code departs from its intent, for
      example a purge during a write; the manifest lists them as findings.

    ** Conventions, bounds and fuel

    A Go string is a list of bytes, an int64 a [Z] with [wrap64] written out at
    each operation that can overflow.  A call that can fail takes its outcome
    as an argument, so theorems hold for all outcomes.  Loops over data are
    structural; the few that are not carry fuel: the length of their input,
    which every iteration shortens, or 20 decimal (16 hexadecimal) digits for
    printing 64-bit numbers.  The retry loops are bounded by the code itself.
    A mutex-protected section is one step.  A helper cut out of a function stands
    for a part of the lines of that function, with which it is mapped.  The
    Unicode tables, the database, the job queue, the migration library and the
    HTTP exchange with upstream are arguments, with hypotheses named where a
    theorem needs them.

    ** Not modelled

    TLS and HTTP transports, and what http.ReadRequest makes of a header block;
    the mapping of the rings and a reactor that leaves its loop on a ring error;
    telemetry and its export; signal handling and the order of the shutdown of
    the process; JSON encodings and cookie attributes; go-oidc; row-level
    security; power failure with unsynced data; a database commit whose
    acknowledgement is lost.  The tier and policy interfaces of the cache and
    the set-up of the importer have no behaviour of their own on a request.  The mock hub,
    test harnesses, benchmarks, the fake upstream and chart scripts are not part
    of the service and are left out. *)

From stdpp Require Import base gmap list strings numbers sorting.

Declare Scope go_scope.
Delimit Scope go_scope with go.

(** ** Bytes and Go strings

    A Go [string] or [[]byte] is a finite sequence of octets; an octet is the
    integer between 0 and 255 it denotes. *)

Abbreviation bytes := (list Z).

(** The octets of a source literal. *)
Definition bs (s : string) : bytes :=
  (fun a => Z.of_N (Ascii.N_of_ascii a)) <$> String.list_ascii_of_string s.

Definition is_byte (c : Z) : Prop := (0 ≤ c < 256)%Z.

(** ** Machine integers *)

(** Two's complement wrap-around of Go's [int64]. *)
Definition wrap64 (z : Z) : Z := ((z + 2 ^ 63) mod 2 ^ 64 - 2 ^ 63)%Z.

Definition int64_min : Z := (- 2 ^ 63)%Z.
Definition int64_max : Z := (2 ^ 63 - 1)%Z.
Definition is_int64 (z : Z) : Prop := (int64_min ≤ z ≤ int64_max)%Z.

Notation "a +64 b" := (wrap64 (a + b)) (at level 50, left associativity) : go_scope.
Notation "a -64 b" := (wrap64 (a - b)) (at level 50, left associativity) : go_scope.

(** ** Results of fallible operations *)

Inductive result (E A : Type) : Type :=
| Ok (a : A)
| Err (e : E).
Arguments Ok {E A} _.
Arguments Err {E A} _.

Definition result_bind {E A B} (r : result E A) (f : A → result E B) : result E B :=
  match r with Ok a => f a | Err e => Err e end.

Notation "'try' x ← r ; k" := (result_bind r (fun x => k))
  (at level 100, x pattern, r at level 99, k at level 200, right associativity) : go_scope.

(** ** Tactics *)

(** Splits the head [if]/[match] of a hypothesis or of the goal and discards
    the branches the context refutes. *)
Ltac branch := repeat (case_match; simplify_eq/=; try done).

(** A closed decidable goal, by evaluating its decision procedure. *)
Ltac vm_decide := apply (bool_decide_unpack _); vm_compute; exact I.

(** Arithmetic after unfolding the machine-integer constants. *)
Ltac zlia := unfold is_byte, is_int64, int64_min, int64_max in *; lia.

Create HintDb pulsys.
#[export] Hint Constants Opaque : pulsys.

(** ** Machine integers: lemmas *)

Lemma wrap64_id z : is_int64 z → wrap64 z = z.
Proof. intros H. unfold wrap64. rewrite Z.mod_small; zlia. Qed.

Lemma wrap64_range z : is_int64 (wrap64 z).
Proof.
  unfold wrap64.
  pose proof (Z.mod_pos_bound (z + 2 ^ 63) (2 ^ 64) eq_refl). zlia.
Qed.

Lemma wrap64_congr z : ∃ k, wrap64 z = (z + k * 2 ^ 64)%Z.
Proof.
  exists (- ((z + 2 ^ 63) / 2 ^ 64))%Z. unfold wrap64.
  pose proof (Z.div_mod (z + 2 ^ 63) (2 ^ 64) ltac:(lia)). lia.
Qed.

#[export] Hint Resolve wrap64_range : pulsys.

(** ** Lists: lemmas *)

Section lists.
Context {A : Type}.
Implicit Types l k : list A.

(** The part of two equal concatenations before a separator that occurs in
    neither left part is the same. *)
Lemma app_sep_inj l1 l2 k1 k2 (x : A) :
  x ∉ l1 → x ∉ l2 → l1 ++ x :: k1 = l2 ++ x :: k2 → l1 = l2 ∧ k1 = k2.
Proof.
  revert l2. induction l1 as [|a l1 IH]; intros [|b l2] H1 H2 H; simplify_eq/=.
  - done.
  - set_solver.
  - set_solver.
  - destruct (IH l2) as [-> ->]; set_solver.
Qed.

Lemma StronglySorted_weaken (R S : relation A) l :
  (∀ x y, R x y → S x y) → StronglySorted R l → StronglySorted S l.
Proof.
  intros HRS. induction 1 as [|x l _ IH Hx]; constructor; [done|].
  eapply Forall_impl; [exact Hx | apply HRS].
Qed.

(** Pairwise relations that are symmetric do not depend on the order. *)
Lemma StronglySorted_perm (R : relation A) l k :
  Symmetric R → l ≡ₚ k → StronglySorted R l → StronglySorted R k.
Proof.
  intros HR. induction 1 as [|x l k Hp IH|x y l|l k m _ IH1 _ IH2]; intros H; auto.
  - apply StronglySorted_inv in H as [H Hx]. constructor; [auto | by rewrite <-Hp].
  - apply StronglySorted_inv in H as [H Hy]. apply StronglySorted_inv in H as [H Hx].
    apply Forall_cons in Hy as [Hyx Hy]. repeat constructor; auto.
Qed.

Lemma StronglySorted_elem (R : relation A) l k x y m :
  StronglySorted R (l ++ x :: k ++ y :: m) → R x y.
Proof.
  induction l as [|z l IH]; cbn; intros H; apply StronglySorted_inv in H as [H Hz]; [|auto].
  rewrite Forall_app, Forall_cons in Hz. tauto.
Qed.
End lists.

(** ** Sums over finite maps *)

Local Open Scope Z_scope.

Section gsum.
Context `{Countable K} {A : Type} (f : A → Z).
Implicit Type m : gmap K A.

Definition gsum m : Z := map_fold (fun _ x acc => f x + acc) 0 m.

Lemma gsum_empty : gsum ∅ = 0.
Proof. apply map_fold_empty. Qed.

Lemma gsum_insert_None m k x : m !! k = None → gsum (<[k := x]> m) = f x + gsum m.
Proof. intros Hk. unfold gsum. rewrite map_fold_insert_L; [done|lia|done]. Qed.

Lemma gsum_delete m k x : m !! k = Some x → gsum (delete k m) = gsum m - f x.
Proof.
  intros Hk. rewrite <-(insert_delete_id m k x Hk) at 2.
  rewrite gsum_insert_None by apply lookup_delete_eq. lia.
Qed.

Lemma gsum_insert m k x : gsum (<[k := x]> m) = gsum m - from_option f 0 (m !! k) + f x.
Proof.
  destruct (m !! k) as [y|] eqn:Hk; cbn.
  - rewrite <-insert_delete_eq, gsum_insert_None by apply lookup_delete_eq.
    rewrite (gsum_delete m k y Hk). lia.
  - rewrite gsum_insert_None by done. lia.
Qed.

Lemma gsum_nonneg m : (∀ k x, m !! k = Some x → 0 ≤ f x) → 0 ≤ gsum m.
Proof.
  induction m as [|k x m Hk IH] using map_ind; intros Hf; [by rewrite gsum_empty|].
  rewrite gsum_insert_None by done. assert (0 ≤ f x) by (apply (Hf k), lookup_insert_eq).
  assert (0 ≤ gsum m); [|lia]. apply IH. intros k' y Hy. apply (Hf k'). rewrite lookup_insert_ne; congruence.
Qed.

Lemma gsum_lookup m k x : (∀ k x, m !! k = Some x → 0 ≤ f x) → m !! k = Some x → f x ≤ gsum m.
Proof.
  intros Hf Hk. pose proof (gsum_delete m k x Hk) as Hd.
  assert (0 ≤ gsum (delete k m)); [|lia]. apply gsum_nonneg.
  intros k' y [_ Hy]%lookup_delete_Some. eauto.
Qed.
End gsum.

Lemma wrap64_add_l a b : wrap64 (wrap64 a + b) = wrap64 (a + b).
Proof.
  unfold wrap64.
  replace ((a + 2 ^ 63) `mod` 2 ^ 64 - 2 ^ 63 + b + 2 ^ 63) with ((a + 2 ^ 63) `mod` 2 ^ 64 + b) by lia.
  rewrite Zplus_mod_idemp_l. do 2 f_equal. lia.
Qed.
