(* ===== verification/GoStd.v ===== *)
(** * The parts of the Go standard library the sources use

    [strings], [bytes], [strconv] and [encoding/hex] on byte sequences.  These
    are not definitions of the repository: they are the vocabulary its files
    are translated into.  Functions keep their Go names.

    Unicode: [strings.ToLower] and [strings.ToUpper] have an ASCII path and,
    for a string with a byte above 0x7f, a table-driven path
    [strings.Map(unicode.ToLower, s)].  The ASCII path is defined here; the
    table-driven one is the parameter [GoUnicode] of every definition that
    uses it, so no theorem depends on the Unicode tables.  [strings.TrimSpace]
    is exact: the White_Space code points are few and listed. *)

From stdpp Require Import base gmap list strings numbers.
From S2P Require Import Prelude.

Local Open Scope Z_scope.

Class GoUnicode := {
  map_unicode_lower : bytes → bytes;
  map_unicode_upper : bytes → bytes;
}.

(** ** Bytes *)

Definition lower_byte (c : Z) : Z := if (65 <=? c) && (c <=? 90) then c + 32 else c.
Definition upper_byte (c : Z) : Z := if (97 <=? c) && (c <=? 122) then c - 32 else c.
Definition is_digit (c : Z) : bool := (48 <=? c) && (c <=? 57).
Definition is_ascii (s : bytes) : bool := forallb (fun c => c <? 128) s.

Definition beq (a b : bytes) : bool := bool_decide (a = b).

Section unicode.
Context `{GoUnicode}.

Definition ToLower (s : bytes) : bytes :=
  if is_ascii s then lower_byte <$> s else map_unicode_lower s.

Definition ToUpper (s : bytes) : bytes :=
  if is_ascii s then upper_byte <$> s else map_unicode_upper s.
End unicode.

(** ** Searching *)

Fixpoint HasPrefix (s p : bytes) : bool :=
  match p, s with
  | [], _ => true
  | a :: p', b :: s' => (a =? b) && HasPrefix s' p'
  | _ :: _, [] => false
  end.

Definition HasSuffix (s p : bytes) : bool := HasPrefix (reverse s) (reverse p).

Definition TrimPrefix (s p : bytes) : bytes :=
  if HasPrefix s p then drop (length p) s else s.

Definition TrimSuffix (s p : bytes) : bytes :=
  if HasSuffix s p then take (length s - length p) s else s.

(** [strings.CutPrefix] *)
Definition CutPrefix (s p : bytes) : option bytes :=
  if HasPrefix s p then Some (drop (length p) s) else None.

(** [strings.Index]; [None] stands for -1. *)
Fixpoint Index (s sub : bytes) : option nat :=
  if HasPrefix s sub then Some 0%nat
  else match s with [] => None | _ :: s' => S <$> Index s' sub end.

Definition Contains (s sub : bytes) : bool := bool_decide (is_Some (Index s sub)).

Fixpoint IndexByte (s : bytes) (c : Z) : option nat :=
  match s with
  | [] => None
  | a :: s' => if a =? c then Some 0%nat else S <$> IndexByte s' c
  end.

(** [strings.LastIndex] of a one-byte string *)
Definition LastIndexByte (s : bytes) (c : Z) : option nat :=
  (fun i => length s - 1 - i)%nat <$> IndexByte (reverse s) c.

(** [strings.ContainsAny] with an ASCII set *)
Definition ContainsAny (s : bytes) (set : list Z) : bool :=
  existsb (fun c => bool_decide (c ∈ set)) s.

(** [strings.IndexAny] with an ASCII set *)
Fixpoint IndexAny (s : bytes) (set : list Z) : option nat :=
  match s with
  | [] => None
  | a :: s' => if bool_decide (a ∈ set) then Some 0%nat else S <$> IndexAny s' set
  end.

(** Go's [<] on strings: bytewise. *)
Fixpoint str_lt (a b : bytes) : bool :=
  match a, b with
  | _, [] => false
  | [], _ :: _ => true
  | x :: a, y :: b => if x <? y then true else if y <? x then false else str_lt a b
  end.

(** ** Splitting and joining *)

(** [strings.Split] at a one-byte separator *)
Fixpoint Split (s : bytes) (c : Z) : list bytes :=
  match s with
  | [] => [[]]
  | a :: s' =>
      if a =? c then [] :: Split s' c
      else match Split s' c with
           | [] => [[a]]
           | w :: ws => (a :: w) :: ws
           end
  end.

(** [strings.SplitN(s, sep, 2)] at a one-byte separator *)
Definition SplitN2 (s : bytes) (c : Z) : list bytes :=
  match IndexByte s c with
  | None => [s]
  | Some i => [take i s; drop (S i) s]
  end.

Fixpoint Join (ws : list bytes) (sep : bytes) : bytes :=
  match ws with
  | [] => []
  | [w] => w
  | w :: ws' => w ++ sep ++ Join ws' sep
  end.

(** ** Trimming *)

Definition ascii_space (c : Z) : bool :=
  (c =? 9) || (c =? 10) || (c =? 11) || (c =? 12) || (c =? 13) || (c =? 32).

(** UTF-8 encodings of the White_Space code points above 0x7f: U+0085, U+00A0
    on two bytes; U+1680, U+2000-U+200A, U+2028, U+2029, U+202F, U+205F and
    U+3000 on three. *)
Definition space2 (a b : Z) : bool := (a =? 194) && ((b =? 133) || (b =? 160)).
Definition space3 (a b c : Z) : bool :=
  ((a =? 225) && (b =? 154) && (c =? 128))
  || ((a =? 226) && (b =? 128) &&
      (((128 <=? c) && (c <=? 138)) || (c =? 168) || (c =? 169) || (c =? 175)))
  || ((a =? 226) && (b =? 129) && (c =? 159))
  || ((a =? 227) && (b =? 128) && (c =? 128)).

Fixpoint trim_space_left (s : bytes) : bytes :=
  match s with
  | [] => []
  | a :: s1 =>
      if ascii_space a then trim_space_left s1
      else match s1 with
           | [] => s
           | b :: s2 =>
               if space2 a b then trim_space_left s2
               else match s2 with
                    | [] => s
                    | c :: s3 => if space3 a b c then trim_space_left s3 else s
                    end
           end
  end.

(** The same from the right, on the reversed string. *)
Fixpoint trim_space_right_rev (s : bytes) : bytes :=
  match s with
  | [] => []
  | a :: s1 =>
      if ascii_space a then trim_space_right_rev s1
      else match s1 with
           | [] => s
           | b :: s2 =>
               if space2 b a then trim_space_right_rev s2
               else match s2 with
                    | [] => s
                    | c :: s3 => if space3 c b a then trim_space_right_rev s3 else s
                    end
           end
  end.

(** [strings.TrimSpace] and [bytes.TrimSpace] *)
Definition TrimSpace (s : bytes) : bytes :=
  reverse (trim_space_right_rev (reverse (trim_space_left s))).

Fixpoint drop_while (p : Z → bool) (s : bytes) : bytes :=
  match s with
  | [] => []
  | a :: s' => if p a then drop_while p s' else s
  end.

(** [strings.Trim] with an ASCII cutset *)
Definition Trim (s : bytes) (set : list Z) : bytes :=
  let p := fun c => bool_decide (c ∈ set) in
  reverse (drop_while p (reverse (drop_while p s))).

(** ** Numbers *)

(** Value of a decimal numeral, most significant digit first; [None] when a
    character is not a digit. *)
Fixpoint digits_val (acc : Z) (s : bytes) : option Z :=
  match s with
  | [] => Some acc
  | c :: s' => if is_digit c then digits_val (acc * 10 + (c - 48)) s' else None
  end.

(** [strconv.ParseInt(s, 10, 64)]; [None] stands for a syntax or range error. *)
Definition ParseInt (s : bytes) : option Z :=
  let signed (neg : bool) (ds : bytes) :=
    match ds with
    | [] => None
    | _ =>
        match digits_val 0 ds with
        | None => None
        | Some v =>
            let v' := if neg then - v else v in
            if (int64_min <=? v') && (v' <=? int64_max) then Some v' else None
        end
    end in
  match s with
  | [] => None
  | c :: s' =>
      if c =? 43 then signed false s'
      else if c =? 45 then signed true s'
      else signed false s
  end.

(** Decimal digits of a non-negative number, at most [fuel] of them. *)
Fixpoint dec_digits (fuel : nat) (v : Z) : bytes :=
  match fuel with
  | O => []
  | S f => (if 10 <=? v then dec_digits f (v / 10) else []) ++ [48 + v mod 10]
  end.

(** Twenty digits are enough for every [uint64]. *)
Definition FormatUint (v : Z) : bytes := dec_digits 20 v.

(** [strconv.FormatInt(v, 10)] *)
Definition FormatInt (v : Z) : bytes :=
  if v <? 0 then 45 :: FormatUint (- v) else FormatUint v.

(** ** [http.StatusText] *)

Definition status_texts : list (Z * string) :=
  [(100, "Continue"); (101, "Switching Protocols"); (102, "Processing"); (103, "Early Hints");
   (200, "OK"); (201, "Created"); (202, "Accepted"); (203, "Non-Authoritative Information");
   (204, "No Content"); (205, "Reset Content"); (206, "Partial Content"); (207, "Multi-Status");
   (208, "Already Reported"); (226, "IM Used"); (300, "Multiple Choices"); (301, "Moved Permanently");
   (302, "Found"); (303, "See Other"); (304, "Not Modified"); (305, "Use Proxy");
   (307, "Temporary Redirect"); (308, "Permanent Redirect"); (400, "Bad Request");
   (401, "Unauthorized"); (402, "Payment Required"); (403, "Forbidden"); (404, "Not Found");
   (405, "Method Not Allowed"); (406, "Not Acceptable"); (407, "Proxy Authentication Required");
   (408, "Request Timeout"); (409, "Conflict"); (410, "Gone"); (411, "Length Required");
   (412, "Precondition Failed"); (413, "Request Entity Too Large"); (414, "Request URI Too Long");
   (415, "Unsupported Media Type"); (416, "Requested Range Not Satisfiable");
   (417, "Expectation Failed"); (418, "I'm a teapot"); (421, "Misdirected Request");
   (422, "Unprocessable Entity"); (423, "Locked"); (424, "Failed Dependency"); (425, "Too Early");
   (426, "Upgrade Required"); (428, "Precondition Required"); (429, "Too Many Requests");
   (431, "Request Header Fields Too Large"); (451, "Unavailable For Legal Reasons");
   (500, "Internal Server Error"); (501, "Not Implemented"); (502, "Bad Gateway");
   (503, "Service Unavailable"); (504, "Gateway Timeout"); (505, "HTTP Version Not Supported");
   (506, "Variant Also Negotiates"); (507, "Insufficient Storage"); (508, "Loop Detected");
   (510, "Not Extended"); (511, "Network Authentication Required")].

Definition StatusText (code : Z) : bytes :=
  match List.find (fun p => p.1 =? code) status_texts with Some p => bs p.2 | None => [] end.

(** ** Hexadecimal *)

Definition hex_digit (d : Z) : Z := if d <? 10 then 48 + d else 87 + d.

(** [hex.EncodeToString] *)
Fixpoint hex_encode (s : bytes) : bytes :=
  match s with
  | [] => []
  | c :: s' => hex_digit (c / 16) :: hex_digit (c mod 16) :: hex_encode s'
  end.

(** ** Lemmas: equality tests and case folding *)

Lemma beq_true a b : beq a b = true ↔ a = b.
Proof. apply bool_decide_eq_true. Qed.

Lemma beq_false a b : beq a b = false ↔ a ≠ b.
Proof. apply bool_decide_eq_false. Qed.

Lemma beq_refl a : beq a a = true.
Proof. by apply beq_true. Qed.

Lemma lower_byte_idemp c : lower_byte (lower_byte c) = lower_byte c.
Proof. unfold lower_byte. repeat case_match; lia. Qed.

Lemma lower_byte_ascii c : c < 128 → lower_byte c < 128.
Proof. unfold lower_byte. repeat case_match; lia. Qed.

(** ** Lemmas: prefixes and suffixes *)

Lemma HasPrefix_spec s p : HasPrefix s p = true ↔ ∃ t, s = p ++ t.
Proof.
  revert s. induction p as [|a p IH]; intros s; simpl.
  { split; [by exists s | by destruct s]. }
  destruct s as [|b s]; simpl.
  { split; [done | by intros [t ?]]. }
  rewrite andb_true_iff, IH, Z.eqb_eq. split.
  - intros [-> [t ->]]. by exists t.
  - intros [t [= -> ->]]. eauto.
Qed.

Lemma HasPrefix_app p t : HasPrefix (p ++ t) p = true.
Proof. apply HasPrefix_spec. by exists t. Qed.

Lemma HasPrefix_nil s : HasPrefix s [] = true.
Proof. by destruct s. Qed.

Lemma HasSuffix_spec s p : HasSuffix s p = true ↔ ∃ t, s = t ++ p.
Proof.
  unfold HasSuffix. rewrite HasPrefix_spec. split; intros [t Ht].
  - exists (reverse t). apply (inj reverse). by rewrite reverse_app, reverse_involutive.
  - exists (reverse t). by rewrite Ht, reverse_app.
Qed.

Lemma TrimPrefix_app p t : TrimPrefix (p ++ t) p = t.
Proof. unfold TrimPrefix. by rewrite HasPrefix_app, drop_app_length. Qed.

Lemma CutPrefix_app p t : CutPrefix (p ++ t) p = Some t.
Proof. unfold CutPrefix. by rewrite HasPrefix_app, drop_app_length. Qed.

Lemma CutPrefix_Some s p t : CutPrefix s p = Some t ↔ s = p ++ t.
Proof.
  split; [|intros ->; apply CutPrefix_app].
  unfold CutPrefix. case_match eqn:E; [|done]. intros [= <-].
  apply HasPrefix_spec in E as [t ->]. by rewrite drop_app_length.
Qed.

(** ** Lemmas: searching *)

Lemma Index_Some s sub i :
  Index s sub = Some i →
  ∃ k, s = take i s ++ sub ++ k ∧ length (take i s) = i.
Proof.
  revert i. induction s as [|a s IH]; intros i; cbn [Index].
  - case_match eqn:E; [|done]. intros [= <-].
    apply HasPrefix_spec in E as [t ?]. exists t. eauto.
  - case_match eqn:E.
    + intros [= <-]. apply HasPrefix_spec in E as [t ?]. exists t. eauto.
    + rewrite fmap_Some. intros [j [Hj ->]].
      destruct (IH j Hj) as [k [Hk Hl]]. exists k. cbn. by rewrite <-Hk, Hl.
Qed.

Lemma Index_complete a sub b : is_Some (Index (a ++ sub ++ b) sub).
Proof.
  induction a as [|x a IH].
  - cbn [app]. destruct (sub ++ b) eqn:E; cbn [Index];
      rewrite <-E, HasPrefix_app; eauto.
  - cbn [app Index]. case_match; [eauto|]. destruct IH as [i ->]. cbn. eauto.
Qed.

(** [Index] finds the first occurrence. *)
Lemma Index_first s sub i a b :
  Index s sub = Some i → s = a ++ sub ++ b → (i ≤ length a)%nat.
Proof.
  revert i a. induction s as [|c s IH]; intros i a; cbn [Index].
  - case_match; [|done]. intros [= <-]. lia.
  - case_match eqn:E.
    + intros [= <-] _. lia.
    + rewrite fmap_Some. intros [j [Hj ->]] Hs.
      destruct a as [|x a]; cbn in Hs.
      * rewrite Hs, HasPrefix_app in E. done.
      * injection Hs as -> Hs. specialize (IH j a Hj Hs). cbn. lia.
Qed.

Lemma Index_None s sub : Index s sub = None ↔ ¬ ∃ a b, s = a ++ sub ++ b.
Proof.
  rewrite eq_None_not_Some. split; intros H.
  - intros (a & b & ->). apply H, Index_complete.
  - intros [i Hi]. apply H. apply Index_Some in Hi as [k [Hk _]]. eauto.
Qed.

Lemma Contains_spec s sub : Contains s sub = true ↔ ∃ a b, s = a ++ sub ++ b.
Proof.
  unfold Contains. rewrite bool_decide_eq_true. split.
  - intros [i Hi]. apply Index_Some in Hi as [k [Hk _]]. eauto.
  - intros (a & b & ->). apply Index_complete.
Qed.

Lemma IndexByte_Some s c i :
  IndexByte s c = Some i ↔ ∃ k, s = take i s ++ c :: k ∧ length (take i s) = i ∧ c ∉ take i s.
Proof.
  revert i. induction s as [|a s IH]; intros i; cbn [IndexByte].
  - split; [done|]. intros (k & H & _). by destruct (take i []).
  - destruct (a =? c) eqn:E.
    + apply Z.eqb_eq in E as ->. split.
      * intros [= <-]. exists s. cbn. set_solver.
      * intros (k & H & Hl & Hn). destruct i; [done|]. cbn in Hn. set_solver.
    + apply Z.eqb_neq in E. rewrite fmap_Some. split.
      * intros [j [Hj ->]]. apply IH in Hj as (k & Hk & Hl & Hn).
        exists k. cbn. rewrite <-Hk, Hl. set_solver.
      * intros (k & H & Hl & Hn). destruct i as [|i].
        { cbn in H. congruence. }
        exists i. split; [|done]. apply IH. exists k. cbn in *.
        injection H as H. injection Hl as Hl. set_solver.
Qed.

Lemma IndexByte_app a c b : c ∉ a → IndexByte (a ++ c :: b) c = Some (length a).
Proof.
  intros H. apply IndexByte_Some. exists b. by rewrite take_app_length.
Qed.

Lemma IndexByte_app_l s x c i : IndexByte s c = Some i → IndexByte (s ++ x) c = Some i.
Proof.
  revert i. induction s as [|a s IH]; intros i; cbn [IndexByte app]; [done|]. destruct (a =? c); [done|].
  destruct (IndexByte s c) as [j|]; [|done]. by rewrite (IH j eq_refl).
Qed.

Lemma IndexByte_lt s c i : IndexByte s c = Some i → (i < length s)%nat.
Proof.
  revert i. induction s as [|a s IH]; intros i; cbn [IndexByte length]; [done|]. destruct (a =? c); [intros [= <-]; lia|].
  destruct (IndexByte s c) as [j|]; [|done]. intros [= <-]. specialize (IH j eq_refl). lia.
Qed.

Lemma IndexByte_app_r s x c i : IndexByte s c = None → IndexByte (s ++ x) c = Some i → (length s ≤ i)%nat.
Proof.
  revert i. induction s as [|a s IH]; intros i; cbn [IndexByte app length]; [lia|]. destruct (a =? c); [done|].
  destruct (IndexByte s c); [done|]. intros _. destruct (IndexByte (s ++ x) c) as [j|]; [|done].
  intros [= <-]. specialize (IH j eq_refl eq_refl). lia.
Qed.

Lemma IndexByte_None s c : IndexByte s c = None ↔ c ∉ s.
Proof.
  induction s as [|a s IH]; cbn [IndexByte]; [set_solver|].
  destruct (a =? c) eqn:E.
  - apply Z.eqb_eq in E as ->. set_solver.
  - apply Z.eqb_neq in E. rewrite fmap_None, IH. set_solver.
Qed.

Lemma ContainsAny_false s set : ContainsAny s set = false ↔ Forall (fun c => c ∉ set) s.
Proof.
  unfold ContainsAny. induction s as [|a s IH]; cbn; [by split|].
  rewrite orb_false_iff, bool_decide_eq_false, Forall_cons_iff. by rewrite IH.
Qed.

(** ** Lemmas: splitting and joining *)

Lemma Split_nonempty s c : Split s c ≠ [].
Proof. destruct s as [|a s]; cbn; [done|]. by repeat case_match. Qed.

Lemma Split_no_sep s c : c ∉ s → Split s c = [s].
Proof.
  induction s as [|a s IH]; intros H; [done|]. cbn.
  destruct (a =? c) eqn:E; [apply Z.eqb_eq in E; set_solver|].
  rewrite IH by set_solver. done.
Qed.

Lemma Split_app_sep s t c : c ∉ s → Split (s ++ c :: t) c = s :: Split t c.
Proof.
  induction s as [|a s IH]; intros H; cbn.
  - by rewrite Z.eqb_refl.
  - destruct (a =? c) eqn:E; [apply Z.eqb_eq in E; set_solver|].
    rewrite IH by set_solver. done.
Qed.

Lemma Split_elem s c w : w ∈ Split s c → c ∉ w.
Proof.
  revert w. induction s as [|a s IH]; intros w; cbn.
  { rewrite list_elem_of_singleton. intros ->. apply not_elem_of_nil. }
  destruct (a =? c) eqn:E.
  { rewrite elem_of_cons. intros [->|H]; [apply not_elem_of_nil | by apply IH]. }
  apply Z.eqb_neq in E.
  destruct (Split s c) as [|x xs] eqn:Es; [by apply Split_nonempty in Es|].
  rewrite elem_of_cons. intros [->|H]; [|by apply IH, elem_of_cons; right].
  apply not_elem_of_cons. split; [congruence|]. apply IH, elem_of_cons. by left.
Qed.

Lemma Join_Split s c : Join (Split s c) [c] = s.
Proof.
  induction s as [|a s IH]; [done|]. cbn [Split].
  destruct (a =? c) eqn:E.
  - apply Z.eqb_eq in E as ->. pose proof (Split_nonempty s c).
    destruct (Split s c) eqn:Es; [done|]. cbn in *. by rewrite IH.
  - pose proof (Split_nonempty s c).
    destruct (Split s c) as [|w [|w2 ws]] eqn:Es; [done| |]; cbn in *; by rewrite IH.
Qed.

Lemma Join_cons w ws sep : ws ≠ [] → Join (w :: ws) sep = w ++ sep ++ Join ws sep.
Proof. by destruct ws. Qed.

Lemma Split_Join ws c :
  ws ≠ [] → Forall (fun w => c ∉ w) ws → Split (Join ws [c]) c = ws.
Proof.
  induction ws as [|w ws IH]; intros Hne Hall; [done|].
  inversion Hall as [|? ? Hw Hws]; subst.
  destruct ws as [|w2 ws]; [cbn; by apply Split_no_sep|].
  rewrite Join_cons by done.
  change ([c] ++ Join (w2 :: ws) [c]) with (c :: Join (w2 :: ws) [c]).
  rewrite Split_app_sep by done. by rewrite IH.
Qed.

Lemma Join_app ws vs sep :
  ws ≠ [] → vs ≠ [] → Join (ws ++ vs) sep = Join ws sep ++ sep ++ Join vs sep.
Proof.
  intros Hw Hv. induction ws as [|w ws IH]; [done|].
  destruct ws as [|w2 ws].
  - cbn [app]. by rewrite Join_cons.
  - cbn [app]. rewrite Join_cons, (Join_cons w (w2 :: ws)) by done.
    change (w2 :: ws ++ vs) with ((w2 :: ws) ++ vs). rewrite IH by done.
    by rewrite <-!app_assoc.
Qed.

(** ** Lemmas: trimming *)

(** Visible ASCII: neither white space nor part of a multi-byte one. *)
Definition visible (c : Z) : Prop := 33 ≤ c < 128.

Lemma trim_space_left_visible a s : visible a → trim_space_left (a :: s) = a :: s.
Proof.
  unfold visible. intros Ha. cbn [trim_space_left].
  destruct (ascii_space a) eqn:E1; [unfold ascii_space in E1; lia|].
  destruct s as [|b s]; [done|].
  destruct (space2 a b) eqn:E2; [unfold space2 in E2; lia|].
  destruct s as [|c s]; [done|].
  destruct (space3 a b c) eqn:E3; [unfold space3 in E3; lia|]. done.
Qed.

Lemma trim_space_right_rev_visible a s :
  visible a → trim_space_right_rev (a :: s) = a :: s.
Proof.
  unfold visible. intros Ha. cbn [trim_space_right_rev].
  destruct (ascii_space a) eqn:E1; [unfold ascii_space in E1; lia|].
  destruct s as [|b s]; [done|].
  destruct (space2 b a) eqn:E2; [unfold space2 in E2; lia|].
  destruct s as [|c s]; [done|].
  destruct (space3 c b a) eqn:E3; [unfold space3 in E3; lia|]. done.
Qed.

(** A string whose first and last bytes are visible is left alone. *)
Lemma TrimSpace_ends a s b : visible a → visible b → TrimSpace (a :: s ++ [b]) = a :: s ++ [b].
Proof.
  intros Ha Hb. unfold TrimSpace. rewrite trim_space_left_visible by done.
  rewrite app_comm_cons, reverse_snoc, trim_space_right_rev_visible by done.
  by rewrite reverse_cons, reverse_involutive.
Qed.

Lemma TrimSpace_visible s : Forall visible s → TrimSpace s = s.
Proof.
  intros H. destruct s as [|a s]; [done|]. inversion H as [|? ? Ha Hs]; subst.
  destruct s as [|b s _] using rev_ind.
  - unfold TrimSpace. rewrite trim_space_left_visible by done.
    change (reverse [a]) with [a]. by rewrite trim_space_right_rev_visible.
  - apply Forall_app in Hs as [_ Hb]. inversion Hb; subst. by apply TrimSpace_ends.
Qed.

(** Bytes that can belong to a white-space code point. *)
Definition space_byte (c : Z) : bool := ascii_space c || (128 <=? c).

(** A string that does not start with white space, and the reversal of one
    that does not end with it. *)
Definition starts_space (s : bytes) : bool :=
  match s with
  | [] => false
  | [a] => ascii_space a
  | [a; b] => ascii_space a || space2 a b
  | a :: b :: c :: _ => ascii_space a || space2 a b || space3 a b c
  end.

Definition ends_space_rev (s : bytes) : bool :=
  match s with
  | [] => false
  | [a] => ascii_space a
  | [a; b] => ascii_space a || space2 b a
  | a :: b :: c :: _ => ascii_space a || space2 b a || space3 c b a
  end.

Definition trimmed (s : bytes) : Prop := starts_space s = false ∧ ends_space_rev (reverse s) = false.

Lemma space2_bytes a b : space2 a b = true → space_byte a = true ∧ space_byte b = true.
Proof. unfold space2, space_byte, ascii_space. lia. Qed.

Lemma space3_bytes a b c :
  space3 a b c = true → space_byte a = true ∧ space_byte b = true ∧ space_byte c = true.
Proof. unfold space3, space_byte, ascii_space. lia. Qed.

Lemma ascii_space_byte a : ascii_space a = true → space_byte a = true.
Proof. unfold space_byte. by intros ->. Qed.

(** What trimming removes is white space, and what it leaves does not start
    (end) with white space. *)
Lemma trim_space_left_spec s :
  (∃ p, s = p ++ trim_space_left s ∧ Forall (fun c => space_byte c = true) p) ∧
  starts_space (trim_space_left s) = false.
Proof.
  induction s as [s IH] using (induction_ltof1 _ (@length Z)). unfold ltof in IH.
  assert (∀ p t, s = p ++ t → p ≠ [] → Forall (fun c => space_byte c = true) p →
    trim_space_left s = trim_space_left t →
    (∃ p, s = p ++ trim_space_left s ∧ Forall (fun c => space_byte c = true) p) ∧
    starts_space (trim_space_left s) = false) as Hstep.
  { intros p t -> Hne Hp ->. destruct (IH t) as [(p' & Ht & Hp') Hs].
    { rewrite length_app. destruct p; [done|cbn; lia]. }
    split; [|done]. exists (p ++ p'). split; [by rewrite <-app_assoc, <-Ht|by apply Forall_app]. }
  assert (∀ t, t = s → starts_space t = false → trim_space_left t = t →
    (∃ p, t = p ++ trim_space_left t ∧ Forall (fun c => space_byte c = true) p) ∧
    starts_space (trim_space_left t) = false) as Hstop.
  { intros t _ Ht ->. split; [by exists []|done]. }
  destruct s as [|a s]; [by apply Hstop|].
  destruct (ascii_space a) eqn:E1.
  { apply (Hstep [a] s); [done|done| |cbn; by rewrite E1]. repeat constructor. by apply ascii_space_byte. }
  destruct s as [|b s]; [apply Hstop; cbn; by rewrite ?E1|].
  destruct (space2 a b) eqn:E2.
  { apply (Hstep [a; b] s); [done|done| |cbn; by rewrite E1, E2]. destruct (space2_bytes _ _ E2). by repeat constructor. }
  destruct s as [|c s]; [apply Hstop; cbn; by rewrite ?E1, ?E2|].
  destruct (space3 a b c) eqn:E3.
  { apply (Hstep [a; b; c] s); [done|done| |cbn; by rewrite E1, E2, E3].
    destruct (space3_bytes _ _ _ E3) as (? & ? & ?). by repeat constructor. }
  apply Hstop; cbn; by rewrite ?E1, ?E2, ?E3.
Qed.

Lemma trim_space_right_rev_spec s :
  (∃ p, s = p ++ trim_space_right_rev s ∧ Forall (fun c => space_byte c = true) p) ∧
  ends_space_rev (trim_space_right_rev s) = false.
Proof.
  induction s as [s IH] using (induction_ltof1 _ (@length Z)). unfold ltof in IH.
  assert (∀ p t, s = p ++ t → p ≠ [] → Forall (fun c => space_byte c = true) p →
    trim_space_right_rev s = trim_space_right_rev t →
    (∃ p, s = p ++ trim_space_right_rev s ∧ Forall (fun c => space_byte c = true) p) ∧
    ends_space_rev (trim_space_right_rev s) = false) as Hstep.
  { intros p t -> Hne Hp ->. destruct (IH t) as [(p' & Ht & Hp') Hs].
    { rewrite length_app. destruct p; [done|cbn; lia]. }
    split; [|done]. exists (p ++ p'). split; [by rewrite <-app_assoc, <-Ht|by apply Forall_app]. }
  assert (∀ t, t = s → ends_space_rev t = false → trim_space_right_rev t = t →
    (∃ p, t = p ++ trim_space_right_rev t ∧ Forall (fun c => space_byte c = true) p) ∧
    ends_space_rev (trim_space_right_rev t) = false) as Hstop.
  { intros t _ Ht ->. split; [by exists []|done]. }
  destruct s as [|a s]; [by apply Hstop|].
  destruct (ascii_space a) eqn:E1.
  { apply (Hstep [a] s); [done|done| |cbn; by rewrite E1]. repeat constructor. by apply ascii_space_byte. }
  destruct s as [|b s]; [apply Hstop; cbn; by rewrite ?E1|].
  destruct (space2 b a) eqn:E2.
  { apply (Hstep [a; b] s); [done|done| |cbn; by rewrite E1, E2]. destruct (space2_bytes _ _ E2). by repeat constructor. }
  destruct s as [|c s]; [apply Hstop; cbn; by rewrite ?E1, ?E2|].
  destruct (space3 c b a) eqn:E3.
  { apply (Hstep [a; b; c] s); [done|done| |cbn; by rewrite E1, E2, E3].
    destruct (space3_bytes _ _ _ E3) as (? & ? & ?). by repeat constructor. }
  apply Hstop; cbn; by rewrite ?E1, ?E2, ?E3.
Qed.

Lemma TrimSpace_parts s :
  ∃ w1 w2, s = w1 ++ TrimSpace s ++ w2 ∧
    Forall (fun c => space_byte c = true) w1 ∧ Forall (fun c => space_byte c = true) w2.
Proof.
  destruct (trim_space_left_spec s) as [(w1 & H1 & Hw1) _].
  destruct (trim_space_right_rev_spec (reverse (trim_space_left s))) as [(w2 & H2 & Hw2) _].
  exists w1, (reverse w2). split_and!; [|done|by apply Forall_reverse].
  unfold TrimSpace. rewrite <-reverse_app, <-H2, reverse_involutive. done.
Qed.

Lemma starts_space_prefix u t : starts_space (u ++ t) = false → starts_space u = false.
Proof.
  destruct u as [|a [|b [|c u]]]; [done| | |done].
  - destruct t as [|b [|c t]]; cbn; rewrite ?orb_false_iff; tauto.
  - destruct t as [|c t]; cbn; rewrite ?orb_false_iff; tauto.
Qed.

Lemma TrimSpace_trimmed s : trimmed (TrimSpace s).
Proof.
  destruct (trim_space_left_spec s) as [_ Hl].
  destruct (trim_space_right_rev_spec (reverse (trim_space_left s))) as [(w & Hw & _) Hr].
  split; [|unfold TrimSpace; by rewrite reverse_involutive].
  apply (starts_space_prefix _ (reverse w)). unfold TrimSpace.
  by rewrite <-reverse_app, <-Hw, reverse_involutive.
Qed.

Lemma trim_space_left_fixed s : starts_space s = false → trim_space_left s = s.
Proof.
  destruct s as [|a [|b [|c s]]]; cbn [trim_space_left starts_space]; [done|by destruct (ascii_space a)| |].
  - by destruct (ascii_space a), (space2 a b).
  - by destruct (ascii_space a), (space2 a b), (space3 a b c).
Qed.

Lemma trim_space_right_fixed s : ends_space_rev s = false → trim_space_right_rev s = s.
Proof.
  destruct s as [|a [|b [|c s]]]; cbn [trim_space_right_rev ends_space_rev]; [done|by destruct (ascii_space a)| |].
  - by destruct (ascii_space a), (space2 b a).
  - by destruct (ascii_space a), (space2 b a), (space3 c b a).
Qed.

Lemma TrimSpace_fixed s : trimmed s → TrimSpace s = s.
Proof.
  intros [Hl Hr]. unfold TrimSpace.
  by rewrite trim_space_left_fixed, trim_space_right_fixed, reverse_involutive.
Qed.

Lemma TrimSpace_space s : trimmed s → TrimSpace (32 :: s) = s.
Proof. exact (TrimSpace_fixed s). Qed.

(** ** Lemmas: decimal numerals *)

Lemma digits_val_app acc a b :
  digits_val acc (a ++ b) = digits_val acc a ≫= fun v => digits_val v b.
Proof.
  revert acc. induction a as [|c a IH]; intros acc; cbn; [done|].
  case_match; [apply IH | done].
Qed.

Lemma digits_val_dec fuel v :
  (0 < fuel)%nat → 0 ≤ v < 10 ^ Z.of_nat fuel → digits_val 0 (dec_digits fuel v) = Some v.
Proof.
  revert v. induction fuel as [|f IH]; intros v Hf Hv; [lia|]. cbn [dec_digits].
  assert (0 ≤ v mod 10 < 10) by (apply Z.mod_pos_bound; lia).
  assert (Hd : is_digit (48 + v mod 10) = true) by (unfold is_digit; lia).
  pose proof (Z.div_mod v 10 ltac:(lia)).
  destruct (10 <=? v) eqn:E.
  - rewrite Nat2Z.inj_succ, Z.pow_succ_r in Hv by lia.
    assert (f ≠ 0%nat) by (intros ->; change (10 ^ Z.of_nat 0) with 1 in Hv; lia).
    assert (0 ≤ v / 10 < 10 ^ Z.of_nat f)
      by (split; [apply Z.div_pos | apply Z.div_lt_upper_bound]; lia).
    rewrite digits_val_app, IH by lia. cbn. rewrite Hd. f_equal. lia.
  - cbn. rewrite Hd. f_equal. rewrite Z.mod_small by lia. lia.
Qed.

Lemma dec_digits_digit fuel v : 0 ≤ v → Forall (fun c => is_digit c = true) (dec_digits fuel v).
Proof.
  revert v. induction fuel as [|f IH]; intros v Hv; cbn [dec_digits]; [constructor|].
  assert (0 ≤ v mod 10 < 10) by (apply Z.mod_pos_bound; lia).
  apply Forall_app. split; [case_match; [apply IH, Z.div_pos; lia | constructor]|].
  repeat constructor. unfold is_digit. lia.
Qed.

Lemma dec_digits_nonempty fuel v : (0 < fuel)%nat → dec_digits fuel v ≠ [].
Proof. destruct fuel; cbn; [lia|]. intros _ H. by apply app_nil in H as [_ ?]. Qed.

Lemma FormatUint_nonempty v : FormatUint v ≠ [].
Proof. apply dec_digits_nonempty. lia. Qed.

Lemma FormatUint_digit v : 0 ≤ v → Forall (fun c => is_digit c = true) (FormatUint v).
Proof. apply dec_digits_digit. Qed.

Lemma digits_val_FormatUint v : 0 ≤ v < 2 ^ 64 → digits_val 0 (FormatUint v) = Some v.
Proof. intros H. apply digits_val_dec; [lia|]. change (Z.of_nat 20) with 20. lia. Qed.

(** [strconv.ParseInt] reads back what [strconv.FormatInt] writes. *)
Lemma ParseInt_FormatInt v : is_int64 v → ParseInt (FormatInt v) = Some v.
Proof.
  intros Hv. unfold FormatInt.
  destruct (v <? 0) eqn:E.
  - unfold ParseInt. cbn -[FormatUint]. pose proof (FormatUint_nonempty (- v)).
    destruct (FormatUint (- v)) as [|d ds] eqn:Ed; [done|]. rewrite <-Ed.
    rewrite digits_val_FormatUint by zlia. rewrite Z.opp_involutive.
    case_match; [done | zlia].
  - unfold ParseInt. pose proof (FormatUint_nonempty v).
    pose proof (FormatUint_digit v ltac:(lia)) as Hd.
    destruct (FormatUint v) as [|d ds] eqn:Ed; [done|].
    inversion Hd as [|? ? Hd1 _]; subst. unfold is_digit in Hd1.
    destruct (d =? 43) eqn:E1; [lia|]. destruct (d =? 45) eqn:E2; [lia|].
    rewrite <-Ed, digits_val_FormatUint by zlia. case_match; [done | zlia].
Qed.

Lemma digit_visible c : is_digit c = true → visible c.
Proof. unfold is_digit, visible. lia. Qed.

Lemma FormatInt_visible v : Forall visible (FormatInt v).
Proof.
  unfold FormatInt. destruct (v <? 0) eqn:E; [constructor; [unfold visible; lia|]|];
    eapply Forall_impl; try apply FormatUint_digit; eauto using digit_visible; lia.
Qed.

(** ** Lemmas: hexadecimal *)

Lemma FormatInt_not_in v c : ¬ visible c ∨ (is_digit c = false ∧ 0 ≤ v) → c ∉ FormatInt v.
Proof.
  intros [Hc|[Hc Hv]] Hin.
  - apply Hc. pose proof (FormatInt_visible v) as Hall. rewrite List.Forall_forall in Hall. by apply Hall, list_elem_of_In.
  - unfold FormatInt in Hin. destruct (Z.ltb_spec v 0); [lia|].
    pose proof (FormatUint_digit v Hv) as Hall. rewrite List.Forall_forall in Hall.
    specialize (Hall c (proj1 (list_elem_of_In _ _) Hin)). congruence.
Qed.

Lemma hex_encode_length s : length (hex_encode s) = (2 * length s)%nat.
Proof. induction s; cbn; lia. Qed.

Lemma hex_digit_inj a b : 0 ≤ a < 16 → 0 ≤ b < 16 → hex_digit a = hex_digit b → a = b.
Proof. unfold hex_digit. repeat case_match; lia. Qed.

Lemma hex_encode_inj s t :
  Forall is_byte s → Forall is_byte t → hex_encode s = hex_encode t → s = t.
Proof.
  revert t. induction s as [|a s IH]; intros [|b t] Hs Ht H; try done. cbn in H.
  injection H as H1 H2 H3. inversion Hs as [|? ? Ha Hs']; subst.
  inversion Ht as [|? ? Hb Ht']; subst. unfold is_byte in *.
  assert (∀ c, 0 ≤ c < 256 → 0 ≤ c / 16 < 16 ∧ 0 ≤ c mod 16 < 16 ∧ c = 16 * (c / 16) + c mod 16).
  { intros c Hc. pose proof (Z.mod_pos_bound c 16). pose proof (Z.div_mod c 16).
    repeat split; try apply Z.div_pos; try apply Z.div_lt_upper_bound; lia. }
  destruct (H a Ha) as (? & ? & ?). destruct (H b Hb) as (? & ? & ?).
  apply hex_digit_inj in H1; [|lia..]. apply hex_digit_inj in H2; [|lia..].
  f_equal; [lia | by apply IH].
Qed.
