(* ===== verification/Sha256.v ===== *)
(** * crypto/sha256

    SHA-256 (FIPS 180-4) on byte sequences, executable: cache keys, auth
    buckets and token digests are computed with it.  The facts the theorems
    use are the length and the byte range of a digest; nothing is assumed
    about collisions here. *)

From stdpp Require Import base gmap list strings numbers.
From S2P Require Import Prelude GoStd.

Local Open Scope Z_scope.

Definition w32 (z : Z) : Z := z mod 2 ^ 32.
Definition add32 (a b : Z) : Z := w32 (a + b).
Definition rotr (n x : Z) : Z := w32 (Z.lor (Z.shiftr x n) (Z.shiftl x (32 - n))).
Definition not32 (x : Z) : Z := 2 ^ 32 - 1 - x.

Definition Ch (x y z : Z) : Z := Z.lxor (Z.land x y) (Z.land (not32 x) z).
Definition Maj (x y z : Z) : Z := Z.lxor (Z.lxor (Z.land x y) (Z.land x z)) (Z.land y z).
Definition Sigma0 (x : Z) : Z := Z.lxor (Z.lxor (rotr 2 x) (rotr 13 x)) (rotr 22 x).
Definition Sigma1 (x : Z) : Z := Z.lxor (Z.lxor (rotr 6 x) (rotr 11 x)) (rotr 25 x).
Definition sigma0 (x : Z) : Z := Z.lxor (Z.lxor (rotr 7 x) (rotr 18 x)) (Z.shiftr x 3).
Definition sigma1 (x : Z) : Z := Z.lxor (Z.lxor (rotr 17 x) (rotr 19 x)) (Z.shiftr x 10).

(** The standard derives its constants from the first primes: 32 bits of the
    fractional part of their cube roots (rounds) and square roots (initial
    state). *)
Definition is_prime (n : nat) : bool :=
  (2 <=? n)%nat && forallb (fun d => negb (n mod d =? 0)%nat) (seq 2 (n - 2)).

Definition primes : list Z := Z.of_nat <$> List.filter is_prime (seq 2 310).

(** Integer cube root, one bit at a time from bit [n - 1] down. *)
Fixpoint cbrt_bits (n : nat) (x r : Z) : Z :=
  match n with
  | O => r
  | S n' =>
      let r' := r + 2 ^ Z.of_nat n' in
      cbrt_bits n' x (if r' * r' * r' <=? x then r' else r)
  end.

Definition K256 : list Z :=
  Eval cbv in (fun p => w32 (cbrt_bits 36 (p * 2 ^ 96) 0)) <$> take 64 primes.

Definition H256 : list Z :=
  Eval cbv in (fun p => w32 (Z.sqrt (p * 2 ^ 64))) <$> take 8 primes.

(** Big-endian bytes of a word, and words of a block. *)
Definition be32 (w : Z) : bytes :=
  [Z.shiftr w 24 mod 256; Z.shiftr w 16 mod 256; Z.shiftr w 8 mod 256; w mod 256].

Fixpoint words_of (s : bytes) : list Z :=
  match s with
  | a :: b :: c :: d :: s' => (((a * 256 + b) * 256 + c) * 256 + d) :: words_of s'
  | _ => []
  end.

(** Padding: 0x80, zeros, and the bit length on eight bytes. *)
Definition pad (s : bytes) : bytes :=
  let l := length s in
  let z := (Z.to_nat ((55 - Z.of_nat l) mod 64))%nat in
  s ++ 128 :: replicate z 0
    ++ be32 (Z.shiftr (8 * Z.of_nat l) 32) ++ be32 (w32 (8 * Z.of_nat l)).

(** The message schedule, most recent word first. *)
Fixpoint schedule (n : nat) (w : list Z) : list Z :=
  match n with
  | O => w
  | S n' =>
      let at_ i := nth i w 0 in
      schedule n'
        (add32 (add32 (sigma1 (at_ 1%nat)) (at_ 6%nat)) (add32 (sigma0 (at_ 14%nat)) (at_ 15%nat)) :: w)
  end.

Definition round (st : list Z) (kw : Z * Z) : list Z :=
  match st with
  | [a; b; c; d; e; f; g; h] =>
      let t1 := add32 (add32 h (Sigma1 e)) (add32 (Ch e f g) (add32 kw.1 kw.2)) in
      let t2 := add32 (Sigma0 a) (Maj a b c) in
      [add32 t1 t2; a; b; c; add32 d t1; e; f; g]
  | _ => st
  end.

Definition compress (h : list Z) (block : list Z) : list Z :=
  zip_with add32 h
    (fold_left round (zip K256 (reverse (schedule 48 (reverse block)))) h).

(** Blocks of sixteen words; the fuel is the number of words, which is at
    least the number of blocks. *)
Fixpoint blocks (fuel : nat) (h : list Z) (ws : list Z) : list Z :=
  match fuel, ws with
  | S f, _ :: _ => blocks f (compress h (take 16 ws)) (drop 16 ws)
  | _, _ => h
  end.

(** [sha256.Sum256] *)
Definition Sum256 (s : bytes) : bytes :=
  let ws := words_of (pad s) in
  take 32 (flat_map be32 (blocks (length ws) H256 ws)).

(** ** Test vectors *)

Example sha256_empty :
  hex_encode (Sum256 []) = bs "e3b0c44298fc1c149afbf4c8996fb92427ae41e4649b934ca495991b7852b855".
Proof. vm_compute. reflexivity. Qed.

Example sha256_abc :
  hex_encode (Sum256 (bs "abc"))
  = bs "ba7816bf8f01cfea414140de5dae2223b00361a396177a9cb410ff61f20015ad".
Proof. vm_compute. reflexivity. Qed.

Example sha256_two_blocks :
  hex_encode (Sum256 (bs "abcdbcdecdefdefgefghfghighijhijkijkljklmklmnlmnomnopnopq"))
  = bs "248d6a61d20638b8e5c026930c3e6039a33ce45964ff2167f6ecedd419db06c1".
Proof. vm_compute. reflexivity. Qed.

(** ** Shape of a digest *)

Lemma be32_byte w : Forall is_byte (be32 w).
Proof.
  unfold be32. repeat constructor; unfold is_byte;
    apply Z.mod_pos_bound; lia.
Qed.

Lemma round_length st kw : length st = 8%nat → length (round st kw) = 8%nat.
Proof. intros H. do 9 (destruct st as [|? st]; try done). Qed.

Lemma rounds_length kws st :
  length st = 8%nat → length (fold_left round kws st) = 8%nat.
Proof. revert st. induction kws; intros st H; cbn; auto using round_length. Qed.

Lemma compress_length h b : length h = 8%nat → length (compress h b) = 8%nat.
Proof. intros H. unfold compress. by rewrite length_zip_with, rounds_length, H by done. Qed.

Lemma blocks_length fuel h ws : length h = 8%nat → length (blocks fuel h ws) = 8%nat.
Proof.
  revert h ws. induction fuel as [|f IH]; intros h ws H; cbn; [done|].
  destruct ws; [done|]. apply IH, compress_length, H.
Qed.

Lemma Sum256_length s : length (Sum256 s) = 32%nat.
Proof.
  unfold Sum256. rewrite length_take.
  pose proof (blocks_length (length (words_of (pad s))) H256 (words_of (pad s)) eq_refl) as H.
  generalize dependent (blocks (length (words_of (pad s))) H256 (words_of (pad s))).
  intros l H. do 9 (destruct l as [|? l]; try done).
Qed.

Lemma Sum256_byte s : Forall is_byte (Sum256 s).
Proof.
  unfold Sum256. apply Forall_take. induction (blocks _ _ _) as [|w ws IH]; cbn; [constructor|].
  apply Forall_app_2 with (l1 := be32 w); [apply be32_byte | done].
Qed.

#[export] Hint Resolve Sum256_length Sum256_byte : pulsys.
