(* ===== verification/Spans.v ===== *)
(** * Byte spans of a cached body (src/internal/cache/key.go)

    [Meta.Spans] lists the half-open byte intervals of the body file that are
    populated.  [MergeSpans] keeps the list canonical, [Covers] decides
    whether a requested range can be served from disk.  The reference meaning
    is the set of offsets [covered] by a list of spans. *)

From stdpp Require Import base gmap list numbers sorting.
From S2P Require Import Prelude.

Local Open Scope Z_scope.

(** Span: a half-open byte interval [sp_start, sp_end). *)
Record Span := mkSpan { sp_start : Z; sp_end : Z }.

#[export] Instance Span_eq_dec : EqDecision Span.
Proof. solve_decision. Defined.

(** isSortedAndDisjoint: the loop over neighbours [spans[i-1], spans[i]]. *)
Fixpoint sorted_disjoint_from (prev : Span) (l : list Span) : bool :=
  match l with
  | [] => true
  | s :: l' => if sp_start s <? sp_end prev then false else sorted_disjoint_from s l'
  end.

Definition isSortedAndDisjoint (spans : list Span) : bool :=
  match spans with
  | [] => true
  | s :: l => sorted_disjoint_from s l
  end.

(** The order given to [sort.Slice]: by start, then by end.  Spans that
    compare equal are equal, so the (unstable) sort has one result. *)
Definition span_le (a b : Span) : Prop :=
  sp_start a < sp_start b ∨ (sp_start a = sp_start b ∧ sp_end a ≤ sp_end b).

#[export] Instance span_le_dec : RelDecision span_le.
Proof. intros a b. unfold span_le. apply _. Defined.

(** The merge loop over the sorted copy: [last] is [out[len(out)-1]]. *)
Fixpoint merge_loop (last : Span) (l : list Span) : list Span :=
  match l with
  | [] => [last]
  | s :: l' =>
      if sp_start s <=? sp_end last then
        merge_loop (if sp_end last <? sp_end s
                    then mkSpan (sp_start last) (sp_end s) else last) l'
      else last :: merge_loop s l'
  end.

Definition MergeSpans (spans : list Span) : list Span :=
  match spans with
  | [] => []
  | [s] => [s]
  | _ =>
      if isSortedAndDisjoint spans then spans
      else match merge_sort span_le spans with
           | [] => []
           | s :: l => merge_loop s l
           end
  end.

(** The scan of [Covers] over the merged spans. *)
Fixpoint covers_loop (sp : list Span) (start end_ : Z) : bool :=
  match sp with
  | [] => false
  | s :: sp' =>
      if sp_end s <=? start then covers_loop sp' start end_
      else if start <? sp_start s then false
      else if end_ <=? sp_end s then true
      else if sp_end s >=? end_ then true
      else let start' := sp_end s in
           if start' >=? end_ then true else covers_loop sp' start' end_
  end.

Definition Covers (spans : list Span) (start end_ : Z) : bool :=
  if end_ <=? start then true
  else match spans with
       | [s] => (sp_start s <=? start) && (end_ <=? sp_end s)
       | _ => covers_loop (MergeSpans spans) start end_
       end.

(** ** Reference meaning *)

Definition in_span (s : Span) (x : Z) : Prop := sp_start s ≤ x < sp_end s.
Definition covered (l : list Span) (x : Z) : Prop := ∃ s, s ∈ l ∧ in_span s x.

(** Spans written by the store are never inverted. *)
Definition wf_span (s : Span) : Prop := sp_start s ≤ sp_end s.

(** Canonical form: every span ends before every later one starts. *)
Definition span_before (a b : Span) : Prop := sp_end a ≤ sp_start b.
Definition canonical (l : list Span) : Prop := StronglySorted span_before l.

(** ** Lemmas *)

Lemma covered_nil x : ¬ covered [] x.
Proof. intros (s & Hs & _). by apply not_elem_of_nil in Hs. Qed.

Lemma covered_cons s l x : covered (s :: l) x ↔ in_span s x ∨ covered l x.
Proof.
  unfold covered. split.
  - intros (t & Ht & Hx). apply elem_of_cons in Ht as [->|Ht]; eauto.
  - intros [Hx|(t & Ht & Hx)]; [exists s | exists t]; rewrite elem_of_cons; eauto.
Qed.

Lemma covered_app l k x : covered (l ++ k) x ↔ covered l x ∨ covered k x.
Proof.
  induction l as [|s l IH]; cbn.
  - pose proof (covered_nil x). tauto.
  - rewrite !covered_cons, IH. tauto.
Qed.

Lemma covered_perm l k x : l ≡ₚ k → covered l x ↔ covered k x.
Proof. intros H. unfold covered. by setoid_rewrite H. Qed.

#[export] Hint Rewrite covered_cons covered_app : pulsys.

#[export] Instance span_le_total : Total span_le.
Proof. intros a b. unfold span_le. lia. Qed.

#[export] Instance span_le_trans : Transitive span_le.
Proof. intros a b c. unfold span_le. lia. Qed.

Lemma sorted_disjoint_canonical prev l :
  Forall wf_span (prev :: l) → sorted_disjoint_from prev l = true →
  canonical (prev :: l).
Proof.
  revert prev. induction l as [|s l IH]; intros prev Hwf H.
  { repeat constructor. }
  cbn in H. case_match eqn:E; [done|].
  inversion Hwf as [|? ? Hp Hwf']; subst. specialize (IH s Hwf' H).
  constructor; [done|]. apply StronglySorted_inv in IH as [_ IH].
  inversion Hwf' as [|? ? Hs _]; subst. unfold wf_span, span_before in *.
  constructor; [lia|]. eapply Forall_impl; [exact IH|]. intros t. cbn. lia.
Qed.

Lemma isSortedAndDisjoint_canonical l :
  Forall wf_span l → isSortedAndDisjoint l = true → canonical l.
Proof. destruct l; intros; [constructor | by apply sorted_disjoint_canonical]. Qed.

Lemma canonical_isSortedAndDisjoint l : canonical l → isSortedAndDisjoint l = true.
Proof.
  destruct l as [|s l]; [done|]. cbn. revert s.
  induction l as [|t l IH]; intros s H; [done|]. cbn.
  apply StronglySorted_inv in H as [H1 H2]. inversion H2; subst.
  unfold span_before in *. case_match; [lia|]. by apply IH.
Qed.

(** The merge loop keeps the covered set and produces spans separated by a
    gap, when it is fed spans in [span_le] order. *)
Lemma merge_loop_covered last l x :
  StronglySorted span_le (last :: l) → Forall wf_span (last :: l) →
  covered (merge_loop last l) x ↔ covered (last :: l) x.
Proof.
  revert last. induction l as [|s l IH]; intros last Hs Hwf; cbn [merge_loop]; [done|].
  apply StronglySorted_inv in Hs as [Hs H1]. inversion H1 as [|? ? Hls Hll]; subst.
  inversion Hwf as [|? ? Hw Hwf']; subst. inversion Hwf' as [|? ? Hws Hwl]; subst.
  apply StronglySorted_inv in Hs as [Hs H2].
  assert (Forall (span_le last) l) as H3
    by (eapply Forall_impl; [exact H2|]; intros t Ht; by transitivity s).
  unfold span_le, wf_span in *.
  destruct (sp_start s <=? sp_end last) eqn:E.
  - rewrite IH.
    + rewrite !covered_cons. unfold in_span. case_match; cbn; intuition lia.
    + constructor; [done|]. eapply Forall_impl; [apply Forall_and; split; [exact H2 | exact H3]|].
      intros t [Ht1 Ht2]. unfold span_le in *. case_match; cbn; lia.
    + constructor; [|done]. unfold wf_span in *. case_match; cbn; lia.
  - rewrite covered_cons, IH, !covered_cons by (repeat constructor; done). tauto.
Qed.

(** Merging [s] into [last] keeps the order with the remaining spans. *)
Lemma merge_step_sorted last s l :
  StronglySorted span_le (last :: s :: l) →
  StronglySorted span_le
    ((if sp_end last <? sp_end s then mkSpan (sp_start last) (sp_end s) else last) :: l).
Proof.
  intros Hs. apply StronglySorted_inv in Hs as [Hs H1].
  apply StronglySorted_inv in Hs as [Hs H2]. apply Forall_cons in H1 as [H1 H3].
  constructor; [done|].
  eapply Forall_impl; [apply Forall_and; split; [exact H2 | exact H3]|].
  intros t [Ht1 Ht2]. unfold span_le in *. case_match; cbn; lia.
Qed.

Lemma merge_loop_start last l :
  StronglySorted span_le (last :: l) →
  Forall (fun s => sp_start last ≤ sp_start s) (merge_loop last l).
Proof.
  revert last. induction l as [|s l IH]; intros last Hs; cbn [merge_loop].
  { repeat constructor. lia. }
  destruct (sp_start s <=? sp_end last) eqn:E.
  - apply merge_step_sorted, IH in Hs. by case_match.
  - apply StronglySorted_inv in Hs as [Hs H1]. apply Forall_cons in H1 as [H1 _].
    constructor; [lia|]. eapply Forall_impl; [by apply IH|].
    unfold span_le in *. cbn. lia.
Qed.

Lemma merge_loop_gaps last l :
  StronglySorted span_le (last :: l) → Forall wf_span (last :: l) →
  StronglySorted (fun a b => sp_end a < sp_start b) (merge_loop last l)
  ∧ Forall wf_span (merge_loop last l).
Proof.
  revert last. induction l as [|s l IH]; intros last Hs Hwf; cbn [merge_loop].
  { repeat constructor. by apply Forall_cons in Hwf as [? _]. }
  apply Forall_cons in Hwf as [Hw Hwf]. pose proof Hwf as Hwf'.
  apply Forall_cons in Hwf' as [Hws Hwl]. unfold wf_span in *.
  destruct (sp_start s <=? sp_end last) eqn:E.
  - apply IH; [by apply merge_step_sorted|]. constructor; [|done]. case_match; cbn; lia.
  - apply StronglySorted_inv in Hs as [Hs _]. destruct (IH s Hs Hwf) as [IH1 IH2].
    split; constructor; try done.
    eapply Forall_impl; [by apply merge_loop_start|]. cbn. lia.
Qed.

(** The sorted copy as a non-empty list in [span_le] order. *)
Lemma merge_sort_spans l :
  l ≠ [] → ∃ s k, merge_sort span_le l = s :: k ∧ StronglySorted span_le (s :: k) ∧ s :: k ≡ₚ l.
Proof.
  intros Hne. pose proof (StronglySorted_merge_sort span_le l) as Hs.
  pose proof (merge_sort_Permutation span_le l) as Hp.
  destruct (merge_sort span_le l) as [|s k]; [|by exists s, k].
  by apply Permutation_nil_l in Hp.
Qed.

Lemma MergeSpans_covered l x : Forall wf_span l → covered (MergeSpans l) x ↔ covered l x.
Proof.
  intros Hwf. destruct l as [|s1 [|s2 l]]; [done..|]. unfold MergeSpans.
  case_match; [done|].
  destruct (merge_sort_spans (s1 :: s2 :: l)) as (s & k & -> & Hs & Hp); [done|].
  rewrite merge_loop_covered; [by apply covered_perm | done | by rewrite Hp].
Qed.

Lemma MergeSpans_canonical l :
  Forall wf_span l → canonical (MergeSpans l) ∧ Forall wf_span (MergeSpans l).
Proof.
  intros Hwf. destruct l as [|s1 [|s2 l]]; [repeat constructor.. |].
  { by apply Forall_cons in Hwf as [? _]. }
  unfold MergeSpans. case_match eqn:E; [by split; [apply isSortedAndDisjoint_canonical|]|].
  destruct (merge_sort_spans (s1 :: s2 :: l)) as (s & k & -> & Hs & Hp); [done|].
  destruct (merge_loop_gaps s k Hs) as [H1 H2]; [by rewrite Hp|]. split; [|done].
  eapply StronglySorted_weaken; [|exact H1]. unfold span_before. lia.
Qed.

Lemma MergeSpans_idemp l : Forall wf_span l → MergeSpans (MergeSpans l) = MergeSpans l.
Proof.
  intros Hwf. destruct (MergeSpans_canonical l Hwf) as [Hc _].
  apply canonical_isSortedAndDisjoint in Hc.
  destruct (MergeSpans l) as [|s1 [|s2 k]]; [done..|]. unfold MergeSpans. by rewrite Hc.
Qed.

(** The scan is exact on canonical spans. *)
Lemma covers_loop_spec sp a b :
  canonical sp → Forall wf_span sp → a < b →
  covers_loop sp a b = true ↔ ∀ x, a ≤ x < b → covered sp x.
Proof.
  revert a. induction sp as [|s sp IH]; intros a Hc Hwf Hab; cbn [covers_loop].
  { split; [done|]. intros H. by destruct (covered_nil a (H a ltac:(lia))). }
  apply StronglySorted_inv in Hc as [Hc Hf]. apply Forall_cons in Hwf as [Hw Hwf].
  assert (Hlater : ∀ x, covered sp x → sp_end s ≤ x).
  { intros x (t & Ht & Hx). rewrite Forall_forall in Hf. specialize (Hf t Ht).
    unfold span_before, in_span in *. lia. }
  setoid_rewrite covered_cons. unfold wf_span, in_span in *.
  destruct (sp_end s <=? a) eqn:E1.
  { rewrite IH by done. split; intros H x Hx; specialize (H x Hx); [by right|].
    destruct H as [H|H]; [lia | done]. }
  destruct (a <? sp_start s) eqn:E2.
  { split; [done|]. intros H. destruct (H a ltac:(lia)) as [Ha|Ha]; [lia|].
    apply Hlater in Ha. lia. }
  destruct (b <=? sp_end s) eqn:E3.
  { split; [|done]. intros _ x Hx. left. lia. }
  destruct (sp_end s >=? b) eqn:E4; [lia|].
  rewrite IH by (done || lia). split; intros H x Hx.
  - destruct (decide (x < sp_end s)); [left; lia | right; apply H; lia].
  - destruct (H x ltac:(lia)) as [?|?]; [lia | done].
Qed.

Lemma Covers_spec l a b :
  Forall wf_span l → Covers l a b = true ↔ ∀ x, a ≤ x < b → covered l x.
Proof.
  intros Hwf. unfold Covers. destruct (b <=? a) eqn:E.
  { split; [|done]. intros _ x Hx. lia. }
  destruct (MergeSpans_canonical l Hwf) as [Hc Hw].
  assert (Hgen : covers_loop (MergeSpans l) a b = true ↔ ∀ x, a ≤ x < b → covered l x).
  { rewrite covers_loop_spec by (done || lia).
    split; intros H x Hx; [rewrite <-MergeSpans_covered by done | rewrite MergeSpans_covered by done];
      auto. }
  destruct l as [|s [|t l]]; try done.
  setoid_rewrite covered_cons. unfold in_span. rewrite andb_true_iff. split.
  - intros Hx x ?. left. lia.
  - intros H. destruct (H a ltac:(lia)) as [Ha|Ha]; [|by apply covered_nil in Ha].
    destruct (H (b - 1) ltac:(lia)) as [Hb|Hb]; [|by apply covered_nil in Hb]. lia.
Qed.

(** ** Properties *)

(** C33: [Covers] is exact. For every list of spans that are not inverted,
    in any order, overlapping or not, it answers true for [start, end)
    exactly when every offset of that range lies in some span, so a range
    is served from disk only if all its bytes are there. *)
Theorem Covers_exact l a b :
  Forall wf_span l → Covers l a b = true ↔ ∀ x, a ≤ x < b → covered l x.
Proof. apply Covers_spec. Qed.

Lemma Covers_exact_witness :
  Covers [mkSpan 20 30; mkSpan 5 9; mkSpan 0 5] 2 8 = true
  ↔ ∀ x, 2 ≤ x < 8 → covered [mkSpan 20 30; mkSpan 5 9; mkSpan 0 5] x.
Proof. apply Covers_exact. repeat constructor; unfold wf_span; cbn; lia. Defined.

(** [MergeSpans] keeps exactly the offsets of its input and returns a
    canonical list: no span inverted, each ending at or before the start of
    the next, and a fixed point of [MergeSpans] itself. *)
Theorem MergeSpans_correct l :
  Forall wf_span l →
  (∀ x, covered (MergeSpans l) x ↔ covered l x)
  ∧ canonical (MergeSpans l) ∧ Forall wf_span (MergeSpans l)
  ∧ MergeSpans (MergeSpans l) = MergeSpans l.
Proof.
  intros H. destruct (MergeSpans_canonical l H). split_and!; try done.
  - intros x. by apply MergeSpans_covered.
  - by apply MergeSpans_idemp.
Qed.

Lemma MergeSpans_correct_witness :
  MergeSpans (MergeSpans [mkSpan 20 30; mkSpan 5 9; mkSpan 0 6])
  = MergeSpans [mkSpan 20 30; mkSpan 5 9; mkSpan 0 6]
  ∧ MergeSpans [mkSpan 20 30; mkSpan 5 9; mkSpan 0 6] = [mkSpan 0 9; mkSpan 20 30].
Proof.
  split; [|reflexivity].
  apply (MergeSpans_correct [mkSpan 20 30; mkSpan 5 9; mkSpan 0 6]).
  repeat constructor; unfold wf_span; cbn; lia.
Defined.
