(* ===== verification/Inflight.v ===== *)
(** * In-flight range coordination (src/internal/cache/inflight.go)

    Each cache key has an [inflightSet]: the byte ranges being fetched from
    upstream.  [acquire] blocks until the requested range overlaps none of
    them and records it; [acquireCtx] may give up instead; [release] removes
    it and wakes the waiters.  Every access to a set is made under its mutex,
    so a thread's critical section is one step of the transition system
    below; a blocked [cond.Wait] is the absence of a step. *)

From stdpp Require Import base gmap list numbers sorting relations.
From S2P Require Import Prelude Spans.

Local Open Scope Z_scope.

(** spansOverlap: does a span of [set] overlap [start, end_)? *)
Fixpoint spansOverlap (set : list Span) (start end_ : Z) : bool :=
  match set with
  | [] => false
  | sp :: set' =>
      if (sp_start sp <? end_) && (start <? sp_end sp) then true
      else spansOverlap set' start end_
  end.

(** release: drop the first recorded span equal to [start, end_). *)
Fixpoint release (spans : list Span) (start end_ : Z) : list Span :=
  match spans with
  | [] => []
  | sp :: spans' =>
      if (sp_start sp =? start) && (sp_end sp =? end_) then spans'
      else sp :: release spans' start end_
  end.

(** One pass of the loop of [acquire] under the mutex: [None] is [cond.Wait]. *)
Definition acquire (spans : list Span) (start end_ : Z) : option (list Span) :=
  if spansOverlap spans start end_ then None
  else Some (spans ++ [mkSpan start end_]).

(** The uncontended fast path of [acquireCtx]; [None] enters the slow path. *)
Definition acquireCtx_fast (spans : list Span) (start end_ : Z) : option (list Span) :=
  if negb (spansOverlap spans start end_) then Some (spans ++ [mkSpan start end_]) else None.

(** One pass of the slow loop of [acquireCtx]; [ctxDone] is [ctx != nil &&
    ctx.Err() != nil], [timedOut] is [maxWait > 0 && !now.Before(deadline)]. *)
Inductive ctx_outcome :=
| CtxAcquired (spans : list Span)
| CtxBail
| CtxWait.

Definition acquireCtx (spans : list Span) (start end_ : Z) (ctxDone timedOut : bool) : ctx_outcome :=
  if spansOverlap spans start end_ then
    if ctxDone then CtxBail else if timedOut then CtxBail else CtxWait
  else CtxAcquired (spans ++ [mkSpan start end_]).

(** ** Threads over the store's table of sets *)

Inductive phase :=
| PNew                (* before [s.inflight.LoadOrStore] *)
| PTry (id : nat)     (* about to test set [id]: [acquire]'s loop, or the fast path *)
| PSlow (id : nat)    (* about to test set [id] in [acquireCtx]'s loop *)
| PPark (id : nat)    (* inside [cond.Wait] of set [id] *)
| PHold (id : nat)    (* recorded in set [id], upstream fetch running *)
| PCast (id : nat)    (* span removed by [release], [Broadcast] still to come *)
| PBail               (* [acquireCtx] returned (nil, false) *)
| PDone.

Record Thread := mkThread {
  t_key : list Z;
  t_span : Span;
  t_bounded : bool;   (* AcquireRangeCtx rather than AcquireRange *)
  t_phase : phase;
}.

Definition set_phase (t : Thread) (p : phase) : Thread :=
  mkThread (t_key t) (t_span t) (t_bounded t) p.

(** [tbl] is the [sync.Map] from keys to set pointers, [sets] the sets. *)
Record IState := mkIState {
  tbl : gmap (list Z) nat;
  sets : gmap nat (list Span);
  thr : list Thread;
}.

(** [s.inflight.LoadOrStore(key, &inflightSet{})]: the set's pointer. *)
Definition LoadOrStore (st : IState) (key : list Z) : nat * IState :=
  match tbl st !! key with
  | Some id => (id, st)
  | None =>
      let id := fresh (dom (sets st)) in
      (id, mkIState (<[key := id]> (tbl st)) (<[id := []]> (sets st)) (thr st))
  end.

(** What [cond.Broadcast] on set [id] does to a thread: a parked one returns
    to the test at the head of its loop. *)
Definition wake (id : nat) (t : Thread) : Thread :=
  match t_phase t with
  | PPark id' =>
      if decide (id' = id) then set_phase t (if t_bounded t then PSlow id else PTry id) else t
  | _ => t
  end.

Definition with_thr (st : IState) (l : list Thread) : IState := mkIState (tbl st) (sets st) l.

Definition with_set (st : IState) (id : nat) (spans : list Span) (l : list Thread) : IState :=
  mkIState (tbl st) (<[id := spans]> (sets st)) l.

(** What the thread [t] does next in [st]: the new state but for the thread
    list, the thread's new phase, and whether it broadcasts to a set. *)
Inductive action (st : IState) (t : Thread) : IState → phase → option nat → Prop :=
| A_load id st' :
    t_phase t = PNew → LoadOrStore st (t_key t) = (id, st') →
    action st t st' (PTry id) None
| A_acquire id spans spans' :
    t_phase t = PTry id → t_bounded t = false → sets st !! id = Some spans →
    acquire spans (sp_start (t_span t)) (sp_end (t_span t)) = Some spans' →
    action st t (with_set st id spans' (thr st)) (PHold id) None
| A_wait id spans :
    t_phase t = PTry id → t_bounded t = false → sets st !! id = Some spans →
    acquire spans (sp_start (t_span t)) (sp_end (t_span t)) = None →
    action st t st (PPark id) None
| A_fast id spans spans' :
    t_phase t = PTry id → t_bounded t = true → sets st !! id = Some spans →
    acquireCtx_fast spans (sp_start (t_span t)) (sp_end (t_span t)) = Some spans' →
    action st t (with_set st id spans' (thr st)) (PHold id) None
| A_slow id spans :
    t_phase t = PTry id → t_bounded t = true → sets st !! id = Some spans →
    acquireCtx_fast spans (sp_start (t_span t)) (sp_end (t_span t)) = None →
    action st t st (PSlow id) None
| A_ctx_acquired id spans spans' ctxDone timedOut :
    t_phase t = PSlow id → sets st !! id = Some spans →
    acquireCtx spans (sp_start (t_span t)) (sp_end (t_span t)) ctxDone timedOut = CtxAcquired spans' →
    action st t (with_set st id spans' (thr st)) (PHold id) None
| A_ctx_bail id spans ctxDone timedOut :
    t_phase t = PSlow id → sets st !! id = Some spans →
    acquireCtx spans (sp_start (t_span t)) (sp_end (t_span t)) ctxDone timedOut = CtxBail →
    action st t st PBail None
| A_ctx_wait id spans ctxDone timedOut :
    t_phase t = PSlow id → sets st !! id = Some spans →
    acquireCtx spans (sp_start (t_span t)) (sp_end (t_span t)) ctxDone timedOut = CtxWait →
    action st t st (PPark id) None
| A_release id spans :
    t_phase t = PHold id → sets st !! id = Some spans →
    action st t
      (with_set st id (release spans (sp_start (t_span t)) (sp_end (t_span t))) (thr st))
      (PCast id) None
| A_broadcast id :
    t_phase t = PCast id → action st t st PDone (Some id)
| A_waker id :
    (* the goroutine armed by [acquireCtx]: deadline or context fired *)
    t_phase t = PPark id → t_bounded t = true → action st t st (PPark id) (Some id).

(** The thread list after one thread's action. *)
Definition after (l1 : list Thread) (t : Thread) (l2 : list Thread) (p : phase) (cast : option nat) : list Thread :=
  let l := l1 ++ set_phase t p :: l2 in
  match cast with Some id => wake id <$> l | None => l end.

Inductive istep : IState → IState → Prop :=
| IStep st l1 t l2 st' p cast :
    thr st = l1 ++ t :: l2 → action st t st' p cast →
    istep st (with_thr st' (after l1 t l2 p cast)).

(** [PurgeOrTrim] (store.go) also drops the table entry of a removed key. *)
Inductive istep_purge : IState → IState → Prop :=
| ISP_step st st' : istep st st' → istep_purge st st'
| ISP_purge st key : istep_purge st (mkIState (delete key (tbl st)) (sets st) (thr st)).

(** All threads start before [LoadOrStore], against an empty table. *)
Definition initial (st : IState) : Prop :=
  tbl st = ∅ ∧ sets st = ∅ ∧ Forall (fun t => t_phase t = PNew) (thr st).

(** ** Specification vocabulary *)

(** The span of a thread recorded in set [id]. *)
Definition held_by (id : nat) (t : Thread) : option Span :=
  match t_phase t with
  | PHold id' => if decide (id' = id) then Some (t_span t) else None
  | _ => None
  end.

Definition holders (id : nat) (l : list Thread) : list Span := omap (held_by id) l.

Definition no_overlap (a b : Span) : Prop :=
  ¬ (sp_start a < sp_end b ∧ sp_start b < sp_end a).

(** The set a thread works on. *)
Definition points_to (t : Thread) : option nat :=
  match t_phase t with
  | PTry id | PSlow id | PPark id | PHold id | PCast id => Some id
  | _ => None
  end.

(** A parked thread has a reason to be parked. *)
Definition park_justified (st : IState) (t : Thread) : Prop :=
  ∀ id spans, t_phase t = PPark id → sets st !! id = Some spans →
    spansOverlap spans (sp_start (t_span t)) (sp_end (t_span t)) = true
    ∨ Exists (fun u => t_phase u = PCast id) (thr st).

Definition unfinished (t : Thread) : Prop :=
  t_phase t ≠ PBail ∧ t_phase t ≠ PDone.

(** The invariant: every set lists exactly the spans of its holders, which
    are pairwise disjoint; pointers lead to allocated sets; parked threads are
    justified. *)
Record iinv (st : IState) : Prop := {
  inv_holders : ∀ id spans, sets st !! id = Some spans → spans ≡ₚ holders id (thr st);
  inv_disjoint : ∀ id spans, sets st !! id = Some spans → StronglySorted no_overlap spans;
  inv_points : ∀ t id, t ∈ thr st → points_to t = Some id → is_Some (sets st !! id);
  inv_tbl : ∀ k id, tbl st !! k = Some id → is_Some (sets st !! id);
  inv_park : Forall (park_justified st) (thr st);
}.

(** Without purges a thread's set is the one its key maps to. *)
Definition same_key_same_set (st : IState) : Prop :=
  ∀ t id, t ∈ thr st → points_to t = Some id → tbl st !! t_key t = Some id.

(** ** Sets of spans *)

Lemma spansOverlap_spec set a b :
  spansOverlap set a b = true ↔ ∃ sp, sp ∈ set ∧ sp_start sp < b ∧ a < sp_end sp.
Proof.
  induction set as [|sp set IH]; cbn.
  - split; [done|]. intros (? & H & _). by apply elem_of_nil in H.
  - destruct (_ && _) eqn:E.
    + split; [|done]. intros _. exists sp. split; [left|zlia].
    + rewrite IH. split.
      * intros (x & ? & ?). exists x. split; [by right | done].
      * intros (x & [->|Hx]%elem_of_cons & ?); [zlia|eauto].
Qed.

Lemma spansOverlap_false set a b :
  spansOverlap set a b = false → Forall (fun sp => no_overlap sp (mkSpan a b)) set.
Proof.
  intros H. apply Forall_forall. intros sp Hsp [H1 H2]. cbn in *.
  assert (spansOverlap set a b = true) by (apply spansOverlap_spec; eauto). congruence.
Qed.

Lemma spansOverlap_app set a b x :
  spansOverlap set a b = true → spansOverlap (set ++ [x]) a b = true.
Proof. rewrite !spansOverlap_spec. intros (sp & ? & ?). exists sp. rewrite elem_of_app. auto. Qed.

Lemma release_perm set sp :
  sp ∈ set → set ≡ₚ sp :: release set (sp_start sp) (sp_end sp).
Proof.
  induction set as [|x set IH]; [by intros ?%elem_of_nil|]. cbn. intros Hin.
  destruct (_ && _) eqn:E.
  - assert (x = sp) as -> by (destruct x, sp; cbn in *; f_equal; zlia). done.
  - apply elem_of_cons in Hin as [->|Hin]; [zlia|].
    rewrite (IH Hin) at 1. apply Permutation_swap.
Qed.

#[global] Instance no_overlap_sym : Symmetric no_overlap.
Proof. unfold no_overlap. intros a b H. tauto. Qed.

Lemma disjoint_app set sp :
  StronglySorted no_overlap set →
  Forall (fun x => no_overlap x sp) set → StronglySorted no_overlap (set ++ [sp]).
Proof.
  intros Hs Hf. apply (StronglySorted_perm _ (sp :: set)); [apply _|..].
  - rewrite Permutation_app_comm. done.
  - constructor; [done|]. eapply Forall_impl; [exact Hf|]. intros x Hx. by symmetry.
Qed.

Lemma disjoint_release set sp :
  sp ∈ set → StronglySorted no_overlap set →
  StronglySorted no_overlap (release set (sp_start sp) (sp_end sp)).
Proof.
  intros Hin Hs. apply (StronglySorted_perm _ _ _ _ (release_perm _ _ Hin)) in Hs.
  by apply StronglySorted_inv in Hs as [? _].
Qed.

(** ** Threads *)

Lemma held_by_wake id id' t : held_by id' (wake id t) = held_by id' t.
Proof. unfold wake, held_by. destruct t as [k s b p], p; cbn; repeat case_decide; try done. by destruct b. Qed.

Lemma points_to_wake id t : points_to (wake id t) = points_to t.
Proof. unfold wake, points_to. destruct t as [k s b p], p; cbn; try case_decide; subst; try done. by destruct b. Qed.

Lemma t_key_wake id t : t_key (wake id t) = t_key t.
Proof. unfold wake. destruct t as [k s b p], p; cbn; try case_decide; done. Qed.

Lemma wake_cast id id' t : t_phase t = PCast id' → t_phase (wake id t) = PCast id'.
Proof. unfold wake. intros H. by rewrite H. Qed.

Lemma wake_park id id' t : t_phase (wake id t) = PPark id' → wake id t = t ∧ id' ≠ id.
Proof. unfold wake. destruct t as [k s b p], p; cbn; try case_decide; try destruct b; cbn; intros; split; congruence. Qed.

Lemma holders_wake id id' l : holders id' (wake id <$> l) = holders id' l.
Proof. unfold holders. induction l as [|t l IH]; [done|]. cbn. rewrite held_by_wake, IH. done. Qed.

Lemma holders_mid id l1 t l2 :
  holders id (l1 ++ t :: l2) ≡ₚ option_list (held_by id t) ++ holders id (l1 ++ l2).
Proof.
  unfold holders. rewrite !omap_app. cbn. destruct (held_by id t); cbn; [|done].
  by rewrite <-Permutation_middle.
Qed.

Lemma holders_after id l1 t l2 p cast :
  holders id (after l1 t l2 p cast)
  ≡ₚ option_list (held_by id (set_phase t p)) ++ holders id (l1 ++ l2).
Proof. unfold after. destruct cast; rewrite ?holders_wake; apply holders_mid. Qed.

Lemma elem_of_after u l1 t l2 p cast :
  u ∈ after l1 t l2 p cast →
  (points_to u = points_to (set_phase t p) ∧ t_key u = t_key t)
  ∨ ∃ v, v ∈ l1 ++ l2 ∧ points_to u = points_to v ∧ t_key u = t_key v.
Proof.
  assert (∀ v, v ∈ l1 ++ set_phase t p :: l2 →
    (points_to v = points_to (set_phase t p) ∧ t_key v = t_key t)
    ∨ ∃ w, w ∈ l1 ++ l2 ∧ points_to v = points_to w ∧ t_key v = t_key w) as Haux.
  { intros v. rewrite elem_of_app, elem_of_cons. intros [H|[->|H]]; [right|by left|right];
      exists v; rewrite elem_of_app; auto. }
  unfold after. destruct cast as [id|]; [|apply Haux].
  intros (v & -> & Hv)%list_elem_of_fmap. rewrite points_to_wake, t_key_wake. auto.
Qed.

Lemma elem_of_mid (t : Thread) l1 l2 v : v ∈ l1 ++ l2 → v ∈ l1 ++ t :: l2.
Proof. rewrite !elem_of_app, elem_of_cons. tauto. Qed.

Lemma elem_mid (t : Thread) l1 l2 : t ∈ l1 ++ t :: l2.
Proof. rewrite elem_of_app, elem_of_cons. tauto. Qed.

Lemma cast_survives id l1 t l2 p cast :
  t_phase t ≠ PCast id →
  Exists (fun u => t_phase u = PCast id) (l1 ++ t :: l2) →
  Exists (fun u => t_phase u = PCast id) (after l1 t l2 p cast).
Proof.
  intros Hne H. assert (Exists (fun u => t_phase u = PCast id) (l1 ++ set_phase t p :: l2)) as H'.
  { rewrite Exists_app, Exists_cons in *. tauto. }
  unfold after. destruct cast; [|done].
  apply Exists_exists in H' as (u & Hu & Hp). apply Exists_exists.
  exists (wake n u). split; [by apply list_elem_of_fmap_2|by apply wake_cast].
Qed.

(** ** Preservation of the invariant *)

Definition same_sets (st st' : IState) : Prop :=
  sets st' = sets st ∧ tbl st' = tbl st.

(** What an action can do to the sets. *)
Inductive effect (st : IState) (t : Thread) (st' : IState) (p : phase) : Prop :=
| E_same : same_sets st st' → (∀ id, held_by id t = None) →
    (∀ id, held_by id (set_phase t p) = None) →
    (points_to (set_phase t p) = None ∨ points_to (set_phase t p) = points_to t) →
    effect st t st' p
| E_load id : tbl st !! t_key t = None → sets st !! id = None →
    tbl st' = <[t_key t := id]> (tbl st) → sets st' = <[id := []]> (sets st) →
    t_phase t = PNew → p = PTry id → effect st t st' p
| E_found id : same_sets st st' → tbl st !! t_key t = Some id →
    t_phase t = PNew → p = PTry id → effect st t st' p
| E_acquired id spans : sets st !! id = Some spans → tbl st' = tbl st →
    sets st' = <[id := spans ++ [t_span t]]> (sets st) →
    Forall (fun x => no_overlap x (t_span t)) spans →
    (t_phase t = PTry id ∨ t_phase t = PSlow id) → p = PHold id → effect st t st' p
| E_released id spans : sets st !! id = Some spans → tbl st' = tbl st →
    sets st' = <[id := release spans (sp_start (t_span t)) (sp_end (t_span t))]> (sets st) →
    t_phase t = PHold id → p = PCast id → effect st t st' p.

Lemma span_eta sp : mkSpan (sp_start sp) (sp_end sp) = sp.
Proof. by destruct sp. Qed.

Lemma action_effect st t st' p cast : action st t st' p cast → effect st t st' p.
Proof.
  destruct 1 as [id st' Hp H|id sp sp' Hp _ Hs H|id sp Hp _ Hs H|id sp sp' Hp _ Hs H|id sp Hp _ Hs H
    |id sp sp' c d Hp Hs H|id sp c d Hp Hs H|id sp c d Hp Hs H|id sp Hp Hs|id Hp|id Hp];
    try (unfold acquire in H); try (unfold acquireCtx_fast in H); try (unfold acquireCtx in H);
    try (destruct (spansOverlap _ _ _) eqn:E; cbn in H; simplify_eq;
      try (apply spansOverlap_false in E; rewrite span_eta in *));
    try (by eapply E_acquired; eauto); try (by eapply E_released; eauto);
    try (by apply E_same; [by split|intros; unfold held_by, points_to; cbn; rewrite ?Hp; auto..]).
  - unfold LoadOrStore in H. destruct (tbl st !! t_key t) as [id'|] eqn:E; simplify_eq.
    + by eapply E_found.
    + eapply E_load; eauto. cbn. apply not_elem_of_dom. apply is_fresh.
  - by destruct c, d.
Qed.

Lemma new_set_has_no_holder st id :
  iinv st → sets st !! id = None → ∀ t, t ∈ thr st → held_by id t = None.
Proof.
  intros Hi Hn t Ht. unfold held_by. destruct (t_phase t) eqn:E; try done.
  case_decide; [subst|done]. exfalso.
  destruct (inv_points _ Hi t id Ht) as [? ?]; [unfold points_to; by rewrite E|congruence].
Qed.

Lemma holders_none id l : (∀ t, t ∈ l → held_by id t = None) → holders id l = [].
Proof.
  unfold holders. induction l as [|t l IH]; [done|]. intros H. cbn.
  rewrite H by left. apply IH. intros u Hu. apply H. by right.
Qed.

Lemma holders_change st st' l1 t l2 p cast :
  iinv st → thr st = l1 ++ t :: l2 → effect st t st' p →
  ∀ id spans, sets st' !! id = Some spans → spans ≡ₚ holders id (after l1 t l2 p cast).
Proof.
  intros Hi Hl He id spans Hs. rewrite holders_after.
  assert (∀ i s, sets st !! i = Some s →
    s ≡ₚ option_list (held_by i t) ++ holders i (l1 ++ l2)) as Hold.
  { intros i s H. rewrite (inv_holders _ Hi i s H), Hl. apply holders_mid. }
  destruct He as [[Heq _] Hn Hn' _|i _ Hf _ Heq Hp ->|i [Heq _] _ Hp ->
    |i s Hsi _ Heq _ Hp ->|i s Hsi _ Heq Hp ->]; rewrite Heq in Hs.
  - rewrite Hn'. rewrite <-(Hn id). auto.
  - apply lookup_insert_Some in Hs as [[-> <-]|[Hne Hs]].
    + rewrite holders_none; [done|]. intros u Hu.
      apply (new_set_has_no_holder st _ Hi Hf). rewrite Hl. by apply elem_of_mid.
    + rewrite (Hold _ _ Hs). unfold held_by. by rewrite Hp.
  - rewrite (Hold _ _ Hs). unfold held_by. by rewrite Hp.
  - apply lookup_insert_Some in Hs as [[-> <-]|[Hne Hs]].
    + rewrite (Hold _ _ Hsi). unfold held_by; cbn. rewrite decide_True by done.
      destruct Hp as [-> | ->]; cbn; by rewrite Permutation_app_comm.
    + rewrite (Hold _ _ Hs). unfold held_by; cbn. rewrite decide_False by done.
      destruct Hp as [-> | ->]; done.
  - apply lookup_insert_Some in Hs as [[-> <-]|[Hne Hs]].
    + pose proof (Hold _ _ Hsi) as H. unfold held_by in H |- *; cbn.
      rewrite Hp, decide_True in H by done. cbn in H.
      rewrite (release_perm s (t_span t)) in H; [by apply Permutation_cons_inv in H|].
      rewrite H. left.
    + rewrite (Hold _ _ Hs). unfold held_by; cbn. by rewrite Hp, decide_False.
Qed.

Lemma disjoint_change st st' l1 t l2 p :
  iinv st → thr st = l1 ++ t :: l2 → effect st t st' p →
  ∀ id spans, sets st' !! id = Some spans → StronglySorted no_overlap spans.
Proof.
  intros Hi Hl He id spans Hs. pose proof (inv_disjoint _ Hi) as Hd.
  destruct He as [[Heq _] _ _ _|i _ _ _ Heq _ _|i [Heq _] _ _ _
    |i s Hsi _ Heq Hf _ _|i s Hsi _ Heq Hp _]; rewrite Heq in Hs; eauto;
    apply lookup_insert_Some in Hs as [[-> <-]|[_ Hs]]; eauto using SSorted_nil, disjoint_app.
  apply disjoint_release; [|eauto]. rewrite (inv_holders _ Hi _ _ Hsi), Hl, holders_mid.
  unfold held_by. rewrite Hp, decide_True by done. left.
Qed.

(** Allocated sets stay allocated. *)
Lemma effect_sets_grow st t st' p id :
  effect st t st' p → is_Some (sets st !! id) → is_Some (sets st' !! id).
Proof.
  destruct 1 as [[-> _] ? ? ?|? ? ? ? -> ? ?|? [-> _] ? ? ?|? ? ? ? -> ? ? ?|? ? ? ? -> ? ?]; try done;
    intros; apply lookup_insert_is_Some'; auto.
Qed.

Lemma points_change st st' l1 t l2 p cast :
  iinv st → thr st = l1 ++ t :: l2 → effect st t st' p →
  ∀ u id, u ∈ after l1 t l2 p cast → points_to u = Some id → is_Some (sets st' !! id).
Proof.
  intros Hi Hl He u id Hu Hpt. pose proof (inv_points _ Hi) as HP. rewrite Hl in HP.
  apply elem_of_after in Hu as [[Hu _]|(v & Hv & Hu & _)]; rewrite Hu in Hpt.
  2:{ eapply effect_sets_grow, HP; eauto using elem_of_mid. }
  destruct He as [[-> _] _ _ [H|H]|i _ _ _ -> _ ->|i [-> _] Hk _ ->|i s _ _ -> _ _ ->|i s _ _ -> _ ->];
    cbn in *; simplify_eq; rewrite ?lookup_insert_is_Some'; auto.
  - rewrite H in Hpt. by eapply HP; [apply elem_mid|].
  - eapply inv_tbl; eauto.
Qed.

Lemma tbl_change st st' t p :
  iinv st → effect st t st' p → ∀ k id, tbl st' !! k = Some id → is_Some (sets st' !! id).
Proof.
  intros Hi He k id Hk.
  assert (is_Some (sets st !! id) ∨ sets st' !! id = Some []) as [H|H];
    [|by eapply effect_sets_grow|by eexists].
  destruct He as [[_ He] _ _ _|i _ _ He Hse _ _|i [_ He] _ _ _|i s _ He _ _ _ _|i s _ He _ _ _];
    rewrite He in Hk; try by left; eapply inv_tbl.
  apply lookup_insert_Some in Hk as [[_ ->]|[_ Hk]]; [right|left; by eapply inv_tbl].
  rewrite Hse. apply lookup_insert_eq.
Qed.

(** A span set never loses an overlap except through a release. *)
Lemma park_keep st st' l1 t l2 p cast id spans' u :
  iinv st → thr st = l1 ++ t :: l2 → effect st t st' p → t_phase t ≠ PCast id →
  u ∈ l1 ++ l2 → t_phase u = PPark id → sets st' !! id = Some spans' →
  spansOverlap spans' (sp_start (t_span u)) (sp_end (t_span u)) = true
  ∨ Exists (fun u => t_phase u = PCast id) (after l1 t l2 p cast).
Proof.
  intros Hi Hl He Hnc Hu Hpu Hs.
  assert (u ∈ thr st) as Hin by (rewrite Hl; by apply elem_of_mid).
  pose proof (proj1 (Forall_forall _ _) (inv_park _ Hi) u Hin id) as Hpark.
  assert (∀ spans, sets st !! id = Some spans →
    spansOverlap spans (sp_start (t_span u)) (sp_end (t_span u)) = true
    ∨ Exists (fun u => t_phase u = PCast id) (after l1 t l2 p cast)) as Hold.
  { intros spans H. destruct (Hpark _ Hpu H) as [?|H']; [by left|right].
    rewrite Hl in H'. by apply cast_survives. }
  destruct He as [[Heq _] _ _ _|i _ Hf _ Heq _ _|i [Heq _] _ _ _
    |i s Hsi _ Heq _ _ _|i s Hsi _ Heq Hp ->]; rewrite Heq in Hs; eauto;
    apply lookup_insert_Some in Hs as [[-> <-]|[Hne Hs]]; eauto.
  - destruct (inv_points _ Hi u id Hin) as [? ?]; [unfold points_to; by rewrite Hpu|congruence].
  - destruct (Hold _ Hsi) as [H|H]; [left; by apply spansOverlap_app|by right].
  - right. unfold after. destruct cast as [j|].
    + apply Exists_exists. exists (wake j (set_phase t (PCast id))).
      split; [apply list_elem_of_fmap_2, elem_mid|by apply wake_cast].
    + apply Exists_exists. eexists. split; [apply elem_mid|done].
Qed.

Lemma action_cast st t st' p cast :
  action st t st' p cast →
  match cast with
  | None => ∀ id, t_phase t ≠ PCast id
  | Some j => (∀ id, id ≠ j → t_phase t ≠ PCast id) ∧ (p = PDone ∨ p = PPark j)
  end.
Proof. destruct 1 as [? ? Hp|? ? ? Hp|? ? Hp|? ? ? Hp|? ? Hp|? ? ? ? ? Hp|? ? ? ? Hp|? ? ? ? Hp|? ? Hp|? Hp|? Hp]; rewrite Hp; auto with congruence. Qed.

Lemma action_park st t st' id spans :
  action st t st' (PPark id) None → sets st' !! id = Some spans →
  spansOverlap spans (sp_start (t_span t)) (sp_end (t_span t)) = true.
Proof.
  inversion 1 as [| |? sp ? ? Hs H'| | | | |? sp c d ? Hs H'| | |]; subst; intros Hs'; simplify_eq.
  - unfold acquire in H'. by destruct (spansOverlap _ _ _).
  - unfold acquireCtx in H'. by destruct (spansOverlap _ _ _).
Qed.

Lemma park_change st st' l1 t l2 p cast :
  iinv st → thr st = l1 ++ t :: l2 → action st t st' p cast →
  Forall (park_justified (with_thr st' (after l1 t l2 p cast))) (after l1 t l2 p cast).
Proof.
  intros Hi Hl Ha. pose proof (action_effect _ _ _ _ _ Ha) as He.
  pose proof (action_cast _ _ _ _ _ Ha) as Hc.
  apply Forall_forall. intros u Hu id spans Hpu Hs. cbn in Hs |- *.
  assert (t_phase t ≠ PCast id ∧ (u ∈ l1 ++ l2 ∨ u = set_phase t p ∧ cast = None)) as [Hnc [Hin|[-> ->]]].
  - unfold after in Hu. destruct cast as [j|].
    + apply list_elem_of_fmap in Hu as (v & -> & Hv). apply wake_park in Hpu as Hv'.
      destruct Hv' as [Hv' Hj]. rewrite Hv' in Hpu |- *. destruct Hc as [Hc Hp]. split; [auto|left].
      apply elem_of_app in Hv as [?|[->|?]%elem_of_cons]; rewrite elem_of_app; auto.
      exfalso. cbn in Hpu. destruct Hp; congruence.
    + split; [auto|]. rewrite elem_of_app. apply elem_of_app in Hu as [?|[->|?]%elem_of_cons]; auto.
  - by eapply park_keep.
  - left. cbn in *. subst p. by eapply action_park.
Qed.

Lemma istep_inv st st' : istep st st' → iinv st → iinv st'.
Proof.
  destruct 1 as [st l1 t l2 st' p cast Hl Ha]. intros Hi.
  pose proof (action_effect _ _ _ _ _ Ha) as He. split; cbn.
  - by eapply holders_change.
  - by eapply disjoint_change.
  - by eapply points_change.
  - by eapply tbl_change.
  - by apply park_change with st.
Qed.

Lemma initial_inv st : initial st → iinv st.
Proof.
  intros (Ht & Hs & Hn). rewrite Forall_forall in Hn. split; rewrite ?Hs, ?Ht; try set_solver.
  - intros t id Hin Hp. unfold points_to in Hp. by rewrite Hn in Hp.
  - apply Forall_forall. intros t Hin id spans Hp. by rewrite Hn in Hp.
Qed.

Lemma purge_inv st st' : istep_purge st st' → iinv st → iinv st'.
Proof.
  destruct 1 as [st st' H|st key]; [by apply istep_inv|].
  intros [H1 H2 H3 H4 H5]. split; try done. cbn.
  intros k id [_ Hk]%lookup_delete_Some. eauto.
Qed.

Lemma purge_reachable_inv st0 st : initial st0 → rtc istep_purge st0 st → iinv st.
Proof. intros H0 Hr. apply initial_inv in H0. induction Hr; eauto using purge_inv. Qed.

Lemma reachable_purge st0 st : rtc istep st0 st → rtc istep_purge st0 st.
Proof. induction 1; [done|]. eapply rtc_l; [by apply ISP_step|done]. Qed.

Lemma same_set_step st st' :
  istep st st' → same_key_same_set st → same_key_same_set st'.
Proof.
  destruct 1 as [st l1 t l2 st' p cast Hl Ha]. apply action_effect in Ha as He.
  intros Hi u id Hu Hpt. cbn in *. unfold same_key_same_set in Hi. rewrite Hl in Hi.
  apply elem_of_after in Hu as [[Hu ->]|(v & Hv & Hu & ->)]; rewrite Hu in Hpt.
  - destruct He as [[_ ->] _ _ [H|H]|i _ _ -> _ _ ->|i [_ ->] Hk _ ->|i s _ -> _ _ Hp ->|i s _ -> _ Hp ->];
      cbn in Hpt; simplify_eq; try done; try apply lookup_insert_eq; apply Hi; try apply elem_mid;
      unfold points_to in *; cbn in *; try congruence; [destruct Hp as [-> | ->] | rewrite Hp]; done.
  - assert (tbl st !! t_key v = Some id) as Hk by (apply Hi; [by apply elem_of_mid|done]).
    destruct He as [[_ ->] _ _ _|i Hf _ -> _ _ ->|i [_ ->] _ _ ->|i s _ -> _ _ Hp ->|i s _ -> _ Hp ->]; try done.
    rewrite lookup_insert_ne; [done|congruence].
Qed.

Lemma initial_same_set st : initial st → same_key_same_set st.
Proof.
  intros (_ & _ & H0) t id Hin Hp. rewrite Forall_forall in H0.
  unfold points_to in Hp. by rewrite H0 in Hp.
Qed.

Lemma reachable_same_set st0 st : same_key_same_set st0 → rtc istep st0 st → same_key_same_set st.
Proof. intros H0 Hr. induction Hr; eauto using same_set_step. Qed.

(** Two holders of one set have disjoint spans. *)
Lemma same_set_exclusive st i j ti tj id :
  iinv st → i ≠ j → thr st !! i = Some ti → thr st !! j = Some tj →
  t_phase ti = PHold id → t_phase tj = PHold id → no_overlap (t_span ti) (t_span tj).
Proof.
  assert (∀ st i j ti tj, iinv st → (i < j)%nat → thr st !! i = Some ti → thr st !! j = Some tj →
    t_phase ti = PHold id → t_phase tj = PHold id → no_overlap (t_span ti) (t_span tj)) as Hlt.
  { clear. intros st i j ti tj Hi Hij Hti Htj Hpi Hpj.
    destruct (inv_points _ Hi ti id) as [spans Hs];
      [by eapply list_elem_of_lookup_2|unfold points_to; by rewrite Hpi|].
    pose proof (inv_disjoint _ Hi _ _ Hs) as Hd.
    apply (StronglySorted_perm _ _ _ _ (inv_holders _ Hi _ _ Hs)) in Hd.
    apply list_elem_of_split_length in Hti as (l1 & l2 & Hl & ->).
    rewrite Hl in Htj, Hd. rewrite lookup_app_r in Htj by lia.
    destruct (j - length l1)%nat as [|k] eqn:Ek; [lia|]. cbn in Htj.
    apply list_elem_of_split_length in Htj as (l3 & l4 & -> & ->).
    unfold holders in Hd. rewrite omap_app in Hd. cbn in Hd. rewrite omap_app in Hd. cbn in Hd.
    unfold held_by in Hd at 2 4. rewrite Hpi, Hpj, !decide_True in Hd by done.
    by apply StronglySorted_elem in Hd. }
  intros Hi Hne Hti Htj Hpi Hpj. destruct (decide (i < j)%nat); [by eapply Hlt|].
  symmetry. eapply (Hlt st j i); eauto. lia.
Qed.

Lemma no_overlap_points a b x : no_overlap a b → ¬ (in_span a x ∧ in_span b x).
Proof. unfold no_overlap, in_span. lia. Qed.

(** Every unfinished thread that is not parked can move. *)
Lemma runnable_action st t :
  iinv st → t ∈ thr st → unfinished t → (∀ id, t_phase t ≠ PPark id) →
  ∃ st' p cast, action st t st' p cast.
Proof.
  intros Hi Hin [Hb Hd] Hnp. destruct (t_phase t) as [|id|id|id|id|id| |] eqn:Hp; try done.
  - destruct (LoadOrStore st (t_key t)) eqn:E. do 3 eexists. by eapply A_load.
  - destruct (inv_points _ Hi t id Hin) as [s Hs]; [unfold points_to; by rewrite Hp|].
    destruct (t_bounded t) eqn:Eb.
    + destruct (acquireCtx_fast s (sp_start (t_span t)) (sp_end (t_span t))) eqn:E;
        do 3 eexists; [by eapply A_fast|by eapply A_slow].
    + destruct (acquire s (sp_start (t_span t)) (sp_end (t_span t))) eqn:E;
        do 3 eexists; [by eapply A_acquire|by eapply A_wait].
  - destruct (inv_points _ Hi t id Hin) as [s Hs]; [unfold points_to; by rewrite Hp|].
    destruct (acquireCtx s (sp_start (t_span t)) (sp_end (t_span t)) false false) eqn:E;
      do 3 eexists; [by eapply A_ctx_acquired|by eapply A_ctx_bail|by eapply A_ctx_wait].
  - by destruct (Hnp id).
  - destruct (inv_points _ Hi t id Hin) as [s Hs]; [unfold points_to; by rewrite Hp|].
    do 3 eexists. by eapply A_release.
  - do 3 eexists. by eapply A_broadcast.
Qed.

(** Why a parked thread waits, in terms of the other threads. *)
Lemma parked_has_blocker st t id :
  iinv st → t ∈ thr st → t_phase t = PPark id →
  ∃ u, u ∈ thr st ∧ (t_phase u = PCast id ∨ t_phase u = PHold id ∧ ¬ no_overlap (t_span u) (t_span t)).
Proof.
  intros Hi Hin Hp. destruct (inv_points _ Hi t id Hin) as [s Hs]; [unfold points_to; by rewrite Hp|].
  pose proof (proj1 (Forall_forall _ _) (inv_park _ Hi) t Hin id s Hp Hs) as [H|H].
  - apply spansOverlap_spec in H as (sp & Hsp & H).
    rewrite (inv_holders _ Hi _ _ Hs) in Hsp. unfold holders in Hsp.
    apply list_elem_of_omap in Hsp as (u & Hu & He). exists u. split; [done|right].
    unfold held_by in He. destruct (t_phase u) eqn:Eu; try done. case_decide; simplify_eq.
    split; [done|]. unfold no_overlap. tauto.
  - apply Exists_exists in H as (u & Hu & He). eauto.
Qed.

(** ** Properties *)


(** C34: No lost wake-up and no deadlock. In every reachable state, purges
    included, a thread parked in [cond.Wait] has a live thread that will wake
    it (one that holds an overlapping range of the same set, or has released
    and is about to broadcast), and every thread that is neither finished nor
    parked has a next step; so some thread can always run. *)
Theorem inflight_no_lost_wakeup st0 st t :
  initial st0 → rtc istep_purge st0 st → t ∈ thr st → unfinished t →
  (∀ id, t_phase t = PPark id →
     ∃ u, u ∈ thr st ∧ (t_phase u = PCast id ∨
       t_phase u = PHold id ∧ ¬ no_overlap (t_span u) (t_span t)))
  ∧ ∃ u l1 l2 st' p cast, thr st = l1 ++ u :: l2 ∧ (∀ id, t_phase u ≠ PPark id) ∧
      action st u st' p cast ∧ istep st (with_thr st' (after l1 u l2 p cast)).
Proof.
  intros H0 Hr Hin Hu. pose proof (purge_reachable_inv _ _ H0 Hr) as Hi.
  split; [intros; by eapply parked_has_blocker|].
  assert (∃ u, u ∈ thr st ∧ unfinished u ∧ ∀ id, t_phase u ≠ PPark id) as (u & Hu' & Hun & Hnp).
  { destruct (t_phase t) eqn:E; try by (exists t; split_and!; [done..|congruence]).
    destruct (parked_has_blocker _ _ _ Hi Hin E) as (u & Hu' & Hp). exists u.
    unfold unfinished. destruct Hp as [-> | [-> _]]; done. }
  destruct (runnable_action st u Hi Hu' Hun Hnp) as (st' & p & cast & Ha).
  apply list_elem_of_split in Hu' as (l1 & l2 & Hl).
  exists u, l1, l2, st', p, cast. split_and!; [done..|by econstructor].
Qed.

(** Two requests for one key with overlapping ranges, used by the witnesses. *)
Definition two_threads (p1 p2 : phase) : list Thread :=
  [mkThread [107] (mkSpan 0 10) false p1; mkThread [107] (mkSpan 5 20) false p2].

Definition start_state : IState := mkIState ∅ ∅ (two_threads PNew PNew).

Lemma start_initial : initial start_state.
Proof. split_and!; [done..|by repeat constructor]. Qed.

(** The first thread loads and acquires, the second loads and parks. *)
Definition blocked_state : IState :=
  mkIState {[ [107] := 0%nat ]} {[ 0%nat := [mkSpan 0 10] ]} (two_threads (PHold 0) (PPark 0)).

Lemma rtc_istep_at i st l1 t l2 st' p cast st2 :
  thr st = l1 ++ t :: l2 → length l1 = i → action st t st' p cast →
  rtc istep (with_thr st' (after l1 t l2 p cast)) st2 → rtc istep st st2.
Proof. intros Hl _ Ha Hr. eapply rtc_l; [by econstructor|done]. Qed.

Lemma blocked_reachable : rtc istep start_state blocked_state.
Proof.
  eapply (rtc_istep_at 0 _ []); [done..|by eapply A_load|].
  eapply (rtc_istep_at 0 _ []); [done..|by eapply A_acquire|].
  eapply (rtc_istep_at 1 _ [_]); [done..|by eapply A_load|].
  eapply (rtc_istep_at 1 _ [_]); [done..|by eapply A_wait|].
  apply rtc_refl.
Qed.

Definition pair_threads (sp1 sp2 : Span) (p1 p2 : phase) : list Thread :=
  [mkThread [107] sp1 false p1; mkThread [107] sp2 true p2].

(** Two disjoint ranges of one key are both granted. *)
Lemma both_hold_reachable :
  rtc istep (mkIState ∅ ∅ (pair_threads (mkSpan 0 10) (mkSpan 10 30) PNew PNew))
    (mkIState {[ [107] := 0%nat ]} {[ 0%nat := [mkSpan 0 10; mkSpan 10 30] ]}
      (pair_threads (mkSpan 0 10) (mkSpan 10 30) (PHold 0) (PHold 0))).
Proof.
  eapply (rtc_istep_at 0 _ []); [done..|by eapply A_load|].
  eapply (rtc_istep_at 1 _ [_]); [done..|by eapply A_load|].
  eapply (rtc_istep_at 0 _ []); [done..|by eapply A_acquire|].
  eapply (rtc_istep_at 1 _ [_]); [done..|by eapply A_fast|].
  apply rtc_refl.
Qed.


Lemma inflight_no_lost_wakeup_witness :
  ∃ u, u ∈ two_threads (PHold 0) (PPark 0) ∧ (t_phase u = PCast 0 ∨
    t_phase u = PHold 0 ∧ ¬ no_overlap (t_span u) (mkSpan 5 20)).
Proof.
  apply (proj1 (inflight_no_lost_wakeup start_state blocked_state
    (mkThread [107] (mkSpan 5 20) false (PPark 0))
    start_initial (reachable_purge _ _ blocked_reachable)
    ltac:(right; left) ltac:(split; discriminate)) 0%nat).
  reflexivity.
Defined.

Lemma purge_run :
  rtc istep_purge (mkIState ∅ ∅ (two_threads PNew PNew))
    (mkIState {[ [107] := 1%nat ]} {[ 0%nat := [mkSpan 0 10]; 1%nat := [mkSpan 5 20] ]}
      (two_threads (PHold 0) (PHold 1))).
Proof.
  eapply rtc_l; [eapply ISP_step, (IStep _ []); [done|by eapply A_load]|].
  eapply rtc_l; [eapply ISP_step, (IStep _ []); [done|by eapply A_acquire]|].
  eapply rtc_l; [apply (ISP_purge _ [107])|].
  eapply rtc_l; [eapply ISP_step, (IStep _ [_]); [done|by eapply A_load]|].
  eapply rtc_l; [eapply ISP_step, (IStep _ [_]); [done|by eapply A_acquire]|].
  apply rtc_refl.
Qed.

(** A purge breaks mutual exclusion. [PurgeOrTrim] removes the key's set
    from the table while a fetch still holds a range in it; the next request
    for the key gets a fresh set and is granted an overlapping range, so two
    fetches write the same bytes of one key at once. *)
Theorem purge_breaks_exclusion :
  ∃ st0 st i j ti tj id1 id2 x,
    initial st0 ∧ rtc istep_purge st0 st ∧
    thr st !! i = Some ti ∧ thr st !! j = Some tj ∧ i ≠ j ∧
    t_key ti = t_key tj ∧ t_phase ti = PHold id1 ∧ t_phase tj = PHold id2 ∧
    in_span (t_span ti) x ∧ in_span (t_span tj) x.
Proof.
  exists start_state. eexists. exists 0%nat, 1%nat. do 4 eexists. exists 7.
  split; [apply start_initial|]. split; [apply purge_run|].
  split_and!; try done; unfold in_span; cbn; lia.
Qed.
