(* ===== verification/CacheKey.v ===== *)
(** * Cache keys (src/internal/cache/key.go, keyhex_cache.go)

    [KeyHex] names a cached object by the SHA-256 of its normalised identity;
    [KeyHexCache] memoises it; [IsContentAddressedHost] selects the hosts
    whose query string is left out of the key. *)

From stdpp Require Import base gmap list strings numbers.
From S2P Require Import Prelude GoStd Sha256.

Local Open Scope Z_scope.

Definition contentAddressedHosts : list bytes :=
  [bs "cas-bridge.xethub.hf.co"; bs "cas-server.xethub.hf.co";
   bs "cdn-lfs.huggingface.co"; bs "cdn-lfs-us-1.hf.co"; bs "cdn-lfs-us-2.hf.co";
   bs "cdn-lfs-eu-1.hf.co"; bs "lfs.huggingface.co";
   bs "us.aws.cdn.hf.co"; bs "eu.aws.cdn.hf.co"; bs "ap.aws.cdn.hf.co"].

Definition pipe : Z := 124.

(** The first 8 bytes of the digest, in hexadecimal. *)
Definition HashAuth (token : bytes) : bytes :=
  hex_encode (take 8 (Sum256 (TrimSpace token))).

Definition appendAuthBucket (buf auth : bytes) : bytes :=
  let a := TrimSpace auth in
  match a with
  | [] => buf ++ bs "anon"
  | _ => buf ++ hex_encode (take 8 (Sum256 a))
  end.

Definition keyHexStackBufSize : Z := 768.
Definition MaxKeyHexCacheEntries : Z := 50000.

(** The memo table of [KeyHexCache]. *)
Notation KeyHexCache := (gmap bytes bytes).

Section keys.
Context `{GoUnicode}.

Definition IsContentAddressedHost (host : bytes) : bool :=
  bool_decide (ToLower (TrimSpace host) ∈ contentAddressedHosts).

(** The buffer [KeyHex] hashes. *)
Definition keyMaterial (method upstreamHost path rawQuery authHeader : bytes) : bytes :=
  let method := ToUpper (TrimSpace method) in
  let upstreamHost := ToLower (TrimSpace upstreamHost) in
  let path := TrimSpace path in
  let path := match path with [] => bs "/" | _ => path end in
  let buf := method in
  let buf := buf ++ [pipe] in
  let buf := buf ++ upstreamHost in
  let buf := buf ++ [pipe] in
  let buf := buf ++ path in
  let buf := buf ++ [pipe] in
  let buf := buf ++ rawQuery in
  let buf := buf ++ [pipe] in
  appendAuthBucket buf authHeader.

Definition KeyHex (method upstreamHost path rawQuery authHeader : bytes) : bytes :=
  hex_encode (Sum256 (keyMaterial method upstreamHost path rawQuery authHeader)).

(** [victim] is the key Go's randomised map iteration yields
    first, a member of the table whenever it is not empty. *)

Definition lookupKey (method host path rawQuery auth : bytes) : bytes :=
  method ++ [pipe] ++ host ++ [pipe] ++ path ++ [pipe] ++ rawQuery ++ [pipe] ++ auth.

Definition KeyHexCache_Get (victim : KeyHexCache → bytes) (c : KeyHexCache)
    (method host path rawQuery auth : bytes) : bytes * KeyHexCache :=
  let total := Z.of_nat (length method) + 1 + Z.of_nat (length host) + 1
    + Z.of_nat (length path) + 1 + Z.of_nat (length rawQuery) + 1 + Z.of_nat (length auth) in
  if total >? keyHexStackBufSize then (KeyHex method host path rawQuery auth, c)
  else
    let lookup := lookupKey method host path rawQuery auth in
    match c !! lookup with
    | Some v => (v, c)
    | None =>
        let hex := KeyHex method host path rawQuery auth in
        let c := if (MaxKeyHexCacheEntries >? 0)
                    && (Z.of_nat (size c) >=? MaxKeyHexCacheEntries)
                 then delete (victim c) c else c in
        (hex, <[lookup := hex]> c)
    end.

(** A request identity. *)
Record ident := mkIdent {
  i_method : bytes; i_host : bytes; i_path : bytes; i_query : bytes; i_auth : bytes }.

Definition KeyHex_i (x : ident) : bytes :=
  KeyHex (i_method x) (i_host x) (i_path x) (i_query x) (i_auth x).

Definition Get_i (victim : KeyHexCache → bytes) (c : KeyHexCache) (x : ident) :=
  KeyHexCache_Get victim c (i_method x) (i_host x) (i_path x) (i_query x) (i_auth x).

(** The table after a sequence of [Get] calls. *)
Fixpoint Gets (victim : KeyHexCache → bytes) (c : KeyHexCache) (xs : list ident) : KeyHexCache :=
  match xs with
  | [] => c
  | x :: xs => Gets victim (Get_i victim c x).2 xs
  end.

(** What the key distinguishes: the normalised method, host and path, the
    query as sent, and the bucket of the credential. *)
Definition normal (x : ident) : bytes * bytes * bytes * bytes * bytes :=
  (ToUpper (TrimSpace (i_method x)), ToLower (TrimSpace (i_host x)),
   match TrimSpace (i_path x) with [] => bs "/" | p => p end,
   i_query x, appendAuthBucket [] (i_auth x)).

(** No separator in a field: what makes the joined form unambiguous. *)
Definition pipe_free (x : ident) : Prop :=
  let '(m, h, p, _, _) := normal x in pipe ∉ m ∧ pipe ∉ h ∧ pipe ∉ p.

(** The same for the memo's lookup key, which joins the fields as received. *)
Definition raw_pipe_free (x : ident) : Prop :=
  pipe ∉ i_method x ∧ pipe ∉ i_host x ∧ pipe ∉ i_path x ∧ pipe ∉ i_auth x.

Definition lookup_i (x : ident) : bytes :=
  lookupKey (i_method x) (i_host x) (i_path x) (i_query x) (i_auth x).

Definition material_i (x : ident) : bytes :=
  keyMaterial (i_method x) (i_host x) (i_path x) (i_query x) (i_auth x).

(** ** Lemmas *)

Lemma hex_digit_not_pipe n : 0 ≤ n < 16 → hex_digit n ≠ pipe.
Proof. unfold hex_digit, pipe. case_match; lia. Qed.

Lemma hex_encode_not_pipe s : Forall is_byte s → pipe ∉ hex_encode s.
Proof.
  induction 1 as [|c s Hc _ IH]; [apply not_elem_of_nil|]. cbn.
  unfold is_byte in Hc. rewrite !not_elem_of_cons. split_and!; [..|done];
    apply not_eq_sym, hex_digit_not_pipe.
  - split; [apply Z.div_pos; lia | apply Z.div_lt_upper_bound; lia].
  - apply Z.mod_pos_bound. lia.
Qed.

Lemma bucket_not_pipe auth : pipe ∉ appendAuthBucket [] auth.
Proof.
  unfold appendAuthBucket. destruct (TrimSpace auth) as [|c a] eqn:E; cbn [app].
  - vm_decide.
  - apply hex_encode_not_pipe, Forall_take, Sum256_byte.
Qed.

Lemma appendAuthBucket_app buf auth : appendAuthBucket buf auth = buf ++ appendAuthBucket [] auth.
Proof. unfold appendAuthBucket. by destruct (TrimSpace auth). Qed.

(** The separator also splits from the right. *)
Lemma app_sep_inj_r (l1 l2 k1 k2 : bytes) x :
  x ∉ k1 → x ∉ k2 → l1 ++ x :: k1 = l2 ++ x :: k2 → l1 = l2 ∧ k1 = k2.
Proof.
  intros H1 H2 E. apply (f_equal reverse) in E.
  rewrite !reverse_app, !reverse_cons, <-!app_assoc in E. cbn in E.
  apply app_sep_inj in E as [Hk Hl]; rewrite ?elem_of_reverse; try done.
  split; by apply (inj reverse).
Qed.

Lemma material_normal x :
  material_i x = let '(m, h, p, q, b) := normal x in m ++ pipe :: h ++ pipe :: p ++ pipe :: q ++ pipe :: b.
Proof.
  unfold material_i, keyMaterial, normal. cbv zeta. rewrite appendAuthBucket_app.
  repeat (rewrite <-app_assoc; cbn [app]). by destruct (TrimSpace (i_path x)).
Qed.

Lemma five_fields_inj (m h p q b m' h' p' q' b' : bytes) :
  pipe ∉ m → pipe ∉ h → pipe ∉ p → pipe ∉ b → pipe ∉ m' → pipe ∉ h' → pipe ∉ p' → pipe ∉ b' →
  m ++ pipe :: h ++ pipe :: p ++ pipe :: q ++ pipe :: b
  = m' ++ pipe :: h' ++ pipe :: p' ++ pipe :: q' ++ pipe :: b' →
  m = m' ∧ h = h' ∧ p = p' ∧ q = q' ∧ b = b'.
Proof.
  intros ? ? ? ? ? ? ? ? E. apply app_sep_inj in E as [-> E]; [|done..].
  apply app_sep_inj in E as [-> E]; [|done..].
  apply app_sep_inj in E as [-> E]; [|done..].
  by apply app_sep_inj_r in E as [-> ->].
Qed.

Lemma material_inj x y :
  pipe_free x → pipe_free y → material_i x = material_i y → normal x = normal y.
Proof.
  unfold pipe_free. rewrite !material_normal.
  pose proof (bucket_not_pipe (i_auth x)) as Hx. pose proof (bucket_not_pipe (i_auth y)) as Hy.
  unfold normal. intros (? & ? & ?) (? & ? & ?) E.
  apply five_fields_inj in E as (-> & -> & -> & -> & ->); done.
Qed.

Lemma lookup_inj x y :
  raw_pipe_free x → raw_pipe_free y → lookup_i x = lookup_i y → x = y.
Proof.
  intros (? & ? & ? & ?) (? & ? & ? & ?) E. unfold lookup_i, lookupKey in E. cbn [app] in E.
  apply five_fields_inj in E as (? & ? & ? & ? & ?); try done. destruct x, y; cbn in *; congruence.
Qed.

Lemma KeyHex_i_inj x y :
  KeyHex_i x = KeyHex_i y → Sum256 (material_i x) = Sum256 (material_i y).
Proof. apply hex_encode_inj; apply Sum256_byte. Qed.

(** Every entry of the memo is the key of an identity it was built from. *)
Definition memo_ok (c : KeyHexCache) : Prop :=
  ∀ k v, c !! k = Some v → ∃ x, raw_pipe_free x ∧ k = lookup_i x ∧ v = KeyHex_i x.

Lemma Get_i_spec victim c x :
  memo_ok c → raw_pipe_free x → (Get_i victim c x).1 = KeyHex_i x ∧ memo_ok (Get_i victim c x).2.
Proof.
  intros Hc Hx. unfold Get_i, KeyHexCache_Get. cbv zeta.
  destruct (_ >? keyHexStackBufSize); [done|]. fold (lookup_i x).
  destruct (c !! lookup_i x) as [v|] eqn:E.
  - split; [|done]. destruct (Hc _ _ E) as (y & Hy & Hk & ->). cbn. by rewrite (lookup_inj x y Hx Hy Hk).
  - split; [done|]. cbn. intros k v [[<- <-]|[_ Hk]]%lookup_insert_Some; [by exists x|].
    destruct (_ >=? MaxKeyHexCacheEntries); [apply lookup_delete_Some in Hk as [_ Hk]|]; by apply Hc.
Qed.

Lemma Gets_ok victim c xs : memo_ok c → Forall raw_pipe_free xs → memo_ok (Gets victim c xs).
Proof.
  intros Hc Hxs. revert c Hc. induction Hxs as [|x xs Hx _ IH]; intros c Hc; [done|].
  apply IH. by apply Get_i_spec.
Qed.

Lemma Get_i_size victim c x :
  (∀ c, c ≠ ∅ → is_Some (c !! victim c)) →
  Z.of_nat (size c) ≤ MaxKeyHexCacheEntries →
  Z.of_nat (size (Get_i victim c x).2) ≤ MaxKeyHexCacheEntries.
Proof.
  unfold Get_i, KeyHexCache_Get in *. cbv zeta. intros Hv Hc.
  destruct (_ >? keyHexStackBufSize); [done|]. destruct (c !! _) as [v|] eqn:E; [done|].
  cbn [snd]. set (k := lookupKey _ _ _ _ _) in *.
  destruct (_ && _) eqn:Eb.
  - assert (is_Some (c !! victim c)) as [w Hw].
    { apply Hv. intros ->. by vm_compute in Eb. }
    rewrite map_size_insert_None; [|rewrite lookup_delete_None; by right].
    rewrite map_size_delete_Some by eauto.
    assert (size c ≠ 0%nat) by (intros ->%map_size_empty_iff; by rewrite lookup_empty in Hw). lia.
  - rewrite map_size_insert_None by done. apply andb_false_iff in Eb as [Eb|Eb]; [done|]. lia.
Qed.

(** ** Properties *)

(** The cache key separates requests. When no separator occurs in the
    normalised method, host and path, two requests get the same key only if
    their normalised method, host and path, their query and their credential
    bucket are all equal, or SHA-256 collides on the two hashed buffers; and
    requests equal in those fields always share the key. *)
Theorem KeyHex_injective x y :
  pipe_free x → pipe_free y →
  (KeyHex_i x = KeyHex_i y →
     normal x = normal y
     ∨ material_i x ≠ material_i y ∧ Sum256 (material_i x) = Sum256 (material_i y))
  ∧ (normal x = normal y → KeyHex_i x = KeyHex_i y).
Proof.
  intros Hx Hy. split.
  - intros E%KeyHex_i_inj. destruct (decide (material_i x = material_i y)) as [Em|Em].
    + left. by apply material_inj.
    + by right.
  - intros E. unfold KeyHex_i, KeyHex. fold (material_i x) (material_i y).
    by rewrite !material_normal, E.
Qed.

(** Memoisation is transparent and bounded. After any sequence of [Get]
    calls on identities without the separator, [KeyHexCache.Get] returns
    exactly [KeyHex], and the table never exceeds [MaxKeyHexCacheEntries],
    whichever entry the random eviction picks. *)
Theorem KeyHexCache_agrees victim xs x :
  (∀ c, c ≠ ∅ → is_Some (c !! victim c)) →
  Forall raw_pipe_free xs → raw_pipe_free x →
  (Get_i victim (Gets victim ∅ xs) x).1 = KeyHex_i x
  ∧ Z.of_nat (size (Gets victim ∅ xs)) ≤ MaxKeyHexCacheEntries.
Proof.
  intros Hv Hxs Hx. split.
  - apply Get_i_spec; [|done]. apply Gets_ok; [|done]. intros k v Hk. by apply lookup_empty_Some in Hk.
  - assert (Z.of_nat (size (∅ : KeyHexCache)) ≤ MaxKeyHexCacheEntries) as Hs by done.
    revert Hs. generalize (∅ : KeyHexCache). clear Hxs.
    induction xs as [|y xs IH]; intros c Hc; [done|]. by apply IH, Get_i_size.
Qed.
End keys.

(** An instance of the Unicode case mappings for the concrete examples, which
    are all ASCII. *)
Definition ascii_unicode : GoUnicode := {|
  map_unicode_lower := fmap lower_byte;
  map_unicode_upper := fmap upper_byte;
|}.

Definition first_key (c : KeyHexCache) : bytes :=
  match map_to_list c with (k, _) :: _ => k | [] => [] end.

Lemma first_key_in c : c ≠ ∅ → is_Some (c !! first_key c).
Proof.
  intros Hc. unfold first_key. destruct (map_to_list c) as [|[k v] l] eqn:E.
  - by apply map_to_list_empty_iff in E.
  - exists v. apply elem_of_map_to_list. rewrite E. left.
Qed.

Definition get_repo (auth : bytes) : ident :=
  mkIdent (bs "get ") (bs "HuggingFace.co") (bs "/gpt2/resolve/main/config.json") (bs "a=1|2") auth.

Lemma KeyHex_injective_witness :
  @normal ascii_unicode (get_repo (bs "Bearer x")) ≠ @normal ascii_unicode (get_repo [])
  ∧ (@KeyHex_i ascii_unicode (get_repo (bs "Bearer x")) = @KeyHex_i ascii_unicode (get_repo []) →
     @normal ascii_unicode (get_repo (bs "Bearer x")) = @normal ascii_unicode (get_repo [])
     ∨ @material_i ascii_unicode (get_repo (bs "Bearer x")) ≠ @material_i ascii_unicode (get_repo [])
       ∧ Sum256 (@material_i ascii_unicode (get_repo (bs "Bearer x")))
         = Sum256 (@material_i ascii_unicode (get_repo []))).
Proof.
  split; [vm_decide|].
  apply (@KeyHex_injective ascii_unicode); vm_decide.
Defined.

Lemma KeyHexCache_agrees_witness :
  (@Get_i ascii_unicode first_key
     (@Gets ascii_unicode first_key ∅ [get_repo (bs "Bearer x"); get_repo []])
     (get_repo (bs "Bearer x"))).1
  = @KeyHex_i ascii_unicode (get_repo (bs "Bearer x")).
Proof.
  apply (@KeyHexCache_agrees ascii_unicode first_key); [exact first_key_in|..];
    vm_decide.
Defined.

(** The memo is not transparent when a field holds the separator: after a
    request with query [q] and credential [x|y], the lookup for query [q|x]
    and credential [y] returns the first request's key, another object's. *)
Theorem KeyHexCache_pipe_confusion :
  ∃ x y : ident,
    (@Get_i ascii_unicode first_key (@Gets ascii_unicode first_key ∅ [x]) y).1
    = @KeyHex_i ascii_unicode x
    ∧ @KeyHex_i ascii_unicode x ≠ @KeyHex_i ascii_unicode y
    ∧ @normal ascii_unicode x ≠ @normal ascii_unicode y.
Proof.
  exists (mkIdent (bs "GET") (bs "h") (bs "/p") (bs "q") (bs "x|y")),
         (mkIdent (bs "GET") (bs "h") (bs "/p") (bs "q|x") (bs "y")).
  split_and!; vm_decide.
Qed.

(** Two different upstream objects share one cache key when a path holds
    the separator: [/a|b?c] and [/a?b|c] of the same host. *)
Theorem KeyHex_pipe_collision :
  ∃ x y : ident, @normal ascii_unicode x ≠ @normal ascii_unicode y
    ∧ i_path x ≠ i_path y ∧ @KeyHex_i ascii_unicode x = @KeyHex_i ascii_unicode y.
Proof.
  exists (mkIdent (bs "GET") (bs "h") (bs "/a|b") (bs "c") []),
         (mkIdent (bs "GET") (bs "h") (bs "/a") (bs "b|c") []).
  split_and!; vm_decide.
Qed.
