(* ===== verification/Lru.v ===== *)
(** * The bounded LRU table (src/internal/cache/lru.go)

    The table is a map from keys to entries threaded on a doubly linked list,
    most recently used first.  The model keeps the pointers: entries live in a
    heap and refer to each other by address.  The theorems relate it to a plain
    list of key-value pairs in recency order.  Every method runs under the
    mutex, so each is one atomic operation; the eviction callbacks it makes
    after unlocking are returned as a list. *)

From stdpp Require Import base numbers gmap list.
From S2P Require Import Prelude.

Local Open Scope Z_scope.

(** [lruEntry]: addresses are naturals, [None] is nil. *)
Record lruEntry (V : Type) := mkEntry {
  e_key : bytes; e_val : V; e_prev : option nat; e_next : option nat }.
Arguments mkEntry {V}.
Arguments e_key {V}.
Arguments e_val {V}.
Arguments e_prev {V}.
Arguments e_next {V}.

(** [lru] together with the heap its pointers lead into. *)
Record lru (V : Type) := mkLru {
  l_cap : Z;
  l_head : option nat;
  l_tail : option nat;
  l_m : gmap bytes nat;
  l_heap : gmap nat (lruEntry V) }.
Arguments mkLru {V}.
Arguments l_cap {V}.
Arguments l_head {V}.
Arguments l_tail {V}.
Arguments l_m {V}.
Arguments l_heap {V}.

Section lru.
Context {V : Type}.
Implicit Types (l : lru V) (e : nat).

(** Field updates. *)
Definition set_prev (p : option nat) (x : lruEntry V) := mkEntry (e_key x) (e_val x) p (e_next x).
Definition set_next (n : option nat) (x : lruEntry V) := mkEntry (e_key x) (e_val x) (e_prev x) n.
Definition set_val (v : V) (x : lruEntry V) := mkEntry (e_key x) v (e_prev x) (e_next x).
Definition upd (f : lruEntry V → lruEntry V) e l :=
  mkLru (l_cap l) (l_head l) (l_tail l) (l_m l) (alter f e (l_heap l)).
Definition set_head h l := mkLru (l_cap l) h (l_tail l) (l_m l) (l_heap l).
Definition set_tail t l := mkLru (l_cap l) (l_head l) t (l_m l) (l_heap l).
Definition set_m m l := mkLru (l_cap l) (l_head l) (l_tail l) m (l_heap l).

Definition newLRU (capacity : Z) : lru V :=
  mkLru (if capacity <? 1 then 1 else capacity) None None ∅ ∅.

Definition pushFrontLocked e l : lru V :=
  let l := upd (set_prev None) e l in
  let l := upd (set_next (l_head l)) e l in
  let l := match l_head l with Some h => upd (set_prev (Some e)) h l | None => l end in
  let l := set_head (Some e) l in
  match l_tail l with None => set_tail (Some e) l | Some _ => l end.

(** [None]: [e] is not an address, which no caller passes. *)
Definition removeLocked e l : lru V :=
  match l_heap l !! e with
  | None => l
  | Some x =>
      let l := match e_prev x with
               | Some p => upd (set_next (e_next x)) p l
               | None => set_head (e_next x) l
               end in
      let l := match e_next x with
               | Some n => upd (set_prev (e_prev x)) n l
               | None => set_tail (e_prev x) l
               end in
      upd (fun x => set_next None (set_prev None x)) e l
  end.

Definition moveToFrontLocked e l : lru V :=
  if decide (l_head l = Some e) then l
  else pushFrontLocked e (removeLocked e l).

Definition val_at l e : option V := e_val <$> l_heap l !! e.

Definition Get (key : bytes) l : option V * lru V :=
  match l_m l !! key with
  | None => (None, l)
  | Some e => let l := moveToFrontLocked e l in (val_at l e, l)
  end.

(** [e := &lruEntry{key: key, val: val}; l.m[key] = e] *)
Definition alloc (key : bytes) (val : V) l : nat * lru V :=
  let e := fresh (dom (l_heap l)) in
  (e, mkLru (l_cap l) (l_head l) (l_tail l) (<[key := e]> (l_m l))
        (<[e := mkEntry key val None None]> (l_heap l))).

(** The insertion shared by [Add] and [GetOrAdd]: new entry at the front, the
    tail evicted when the table is over capacity. *)
Definition insertLocked (key : bytes) (val : V) l : list (bytes * V) * lru V :=
  let '(e, l) := alloc key val l in
  let l := pushFrontLocked e l in
  if Z.of_nat (size (l_m l)) >? l_cap l then
    match l_tail l with
    | Some victim =>
        match l_heap l !! victim with
        | Some x =>
            let l := removeLocked victim l in
            ([(e_key x, e_val x)], set_m (delete (e_key x) (l_m l)) l)
        | None => ([], l)
        end
    | None => ([], l)
    end
  else ([], l).

Definition Add (key : bytes) (val : V) l : list (bytes * V) * lru V :=
  match l_m l !! key with
  | Some e => ([], moveToFrontLocked e (upd (set_val val) e l))
  | None => insertLocked key val l
  end.

(** The value, whether it existed, the evictions, the new table. *)
Definition GetOrAdd (key : bytes) (newVal : V) l : option V * bool * list (bytes * V) * lru V :=
  match l_m l !! key with
  | Some e => let l := moveToFrontLocked e l in (val_at l e, true, [], l)
  | None => let '(ev, l) := insertLocked key newVal l in (Some newVal, false, ev, l)
  end.

Definition Len l : Z := Z.of_nat (size (l_m l)).

Definition Delete (key : bytes) l : bool * list (bytes * V) * lru V :=
  match l_m l !! key with
  | None => (false, [], l)
  | Some e =>
      let l := removeLocked e l in
      let l := set_m (delete key (l_m l)) l in
      (true, match val_at l e with Some v => [(key, v)] | None => [] end, l)
  end.

(** ** Abstract table: pairs in recency order *)

Notation atable := (list (bytes * V)).

Fixpoint a_lookup (k : bytes) (t : atable) : option V :=
  match t with
  | [] => None
  | (k', v) :: t => if decide (k' = k) then Some v else a_lookup k t
  end.

Definition a_remove (k : bytes) (t : atable) : atable := filter (fun kv => kv.1 ≠ k) t.

Definition a_get (k : bytes) (t : atable) : option V * atable :=
  match a_lookup k t with
  | Some v => (Some v, (k, v) :: a_remove k t)
  | None => (None, t)
  end.

(** What does not fit is dropped from the old end. *)
Definition a_insert (cap : Z) (k : bytes) (v : V) (t : atable) : list (bytes * V) * atable :=
  (drop (Z.to_nat cap) ((k, v) :: t), take (Z.to_nat cap) ((k, v) :: t)).

Definition a_add (cap : Z) (k : bytes) (v : V) (t : atable) : list (bytes * V) * atable :=
  match a_lookup k t with
  | Some _ => ([], (k, v) :: a_remove k t)
  | None => a_insert cap k v t
  end.

Definition a_get_or_add (cap : Z) (k : bytes) (v : V) (t : atable)
    : option V * bool * list (bytes * V) * atable :=
  match a_lookup k t with
  | Some v' => (Some v', true, [], (k, v') :: a_remove k t)
  | None => let '(ev, t) := a_insert cap k v t in (Some v, false, ev, t)
  end.

Definition a_delete (k : bytes) (t : atable) : bool * list (bytes * V) * atable :=
  match a_lookup k t with
  | Some v => (true, [(k, v)], a_remove k t)
  | None => (false, [], t)
  end.

(** ** Representation *)

(** A node: its address and its pair. *)
Notation node := (nat * (bytes * V))%type.
Implicit Types (ns a b : list node).

Definition hd_or (ns : list node) (nx : option nat) : option nat :=
  match ns with [] => nx | n :: _ => Some n.1 end.

Fixpoint last_or (p : option nat) (ns : list node) : option nat :=
  match ns with [] => p | n :: ns => last_or (Some n.1) ns end.

(** The nodes are linked in order between [p] and [nx]. *)
Fixpoint dseg (h : gmap nat (lruEntry V)) (p : option nat) (ns : list node) (nx : option nat) : Prop :=
  match ns with
  | [] => True
  | n :: ns' =>
      h !! n.1 = Some (mkEntry n.2.1 n.2.2 p (hd_or ns' nx)) ∧ dseg h (Some n.1) ns' nx
  end.

Definition links l ns : Prop :=
  dseg (l_heap l) None ns None ∧ l_head l = hd_or ns None ∧ l_tail l = last_or None ns
  ∧ NoDup ns.*1.

(** The map is the index of the nodes by key. *)
Definition indexed l ns : Prop :=
  NoDup ns.*2.*1 ∧ ∀ k e, l_m l !! k = Some e ↔ ∃ v, (e, (k, v)) ∈ ns.

Definition repr l ns : Prop := links l ns ∧ indexed l ns.

(** [l] implements the abstract table [t]. *)
Definition implements l (t : atable) : Prop :=
  1 ≤ l_cap l ∧ Z.of_nat (length t) ≤ l_cap l ∧ ∃ ns, repr l ns ∧ ns.*2 = t.

(** ** Linked segments *)

Lemma dseg_app h p a b nx :
  dseg h p (a ++ b) nx ↔ dseg h p a (hd_or b nx) ∧ dseg h (last_or p a) b nx.
Proof.
  revert p. induction a as [|x a IH]; intros p; cbn; [tauto|].
  rewrite IH. destruct a; cbn; tauto.
Qed.

Lemma last_or_app p a b : last_or p (a ++ b) = last_or (last_or p a) b.
Proof. revert p. induction a as [|x a IH]; intros p; cbn; auto. Qed.

Lemma hd_or_app a b nx : hd_or (a ++ b) nx = hd_or a (hd_or b nx).
Proof. by destruct a. Qed.

Lemma dseg_alter_frame f e h p ns nx :
  e ∉ ns.*1 → dseg (alter f e h) p ns nx ↔ dseg h p ns nx.
Proof.
  revert p. induction ns as [|n ns IH]; intros p Hn; cbn in *; [done|].
  apply not_elem_of_cons in Hn as [Hne Hn]. by rewrite lookup_alter_ne, IH.
Qed.

Lemma dseg_insert_frame x e h p ns nx :
  e ∉ ns.*1 → dseg (<[e := x]> h) p ns nx ↔ dseg h p ns nx.
Proof.
  revert p. induction ns as [|n ns IH]; intros p Hn; cbn in *; [done|].
  apply not_elem_of_cons in Hn as [Hne Hn]. by rewrite lookup_insert_ne, IH.
Qed.

(** Redirecting the two ends of a segment. *)
Lemma dseg_set_next h p a x nx nx' :
  NoDup (a ++ [x]).*1 → dseg h p (a ++ [x]) nx →
  dseg (alter (set_next nx') x.1 h) p (a ++ [x]) nx'.
Proof.
  rewrite fmap_app. intros (_ & Hd & _)%NoDup_app. rewrite !dseg_app. cbn.
  intros (Ha & Hx & _). split_and!; [|by rewrite lookup_alter_eq, Hx|done].
  rewrite dseg_alter_frame; [done|]. intros Hin. apply (Hd _ Hin). by left.
Qed.

Lemma dseg_set_prev h p p' y b nx :
  NoDup (y :: b).*1 → dseg h p (y :: b) nx →
  dseg (alter (set_prev p') y.1 h) p' (y :: b) nx.
Proof.
  cbn. intros [Hn _]%NoDup_cons [Hy Hb]. split; [by rewrite lookup_alter_eq, Hy|].
  by rewrite dseg_alter_frame.
Qed.

Lemma dseg_lookup h p a n b nx :
  dseg h p (a ++ n :: b) nx →
  h !! n.1 = Some (mkEntry n.2.1 n.2.2 (last_or p a) (hd_or b nx)).
Proof. rewrite dseg_app. cbn. tauto. Qed.

Lemma list_snoc_inv (a : list node) : a = [] ∨ ∃ a' x, a = a' ++ [x].
Proof. destruct a as [|x a' _] using rev_ind; eauto. Qed.

(** ** The list primitives *)

(** Unlinking at the pointers only: the two neighbours are joined. *)
Definition bypass (p nx : option nat) l : lru V :=
  let l := match p with Some p => upd (set_next nx) p l | None => set_head nx l end in
  match nx with Some n => upd (set_prev p) n l | None => set_tail p l end.

Lemma NoDup_mid a n b :
  NoDup (a ++ n :: b).*1 → NoDup (a ++ b).*1 ∧ n.1 ∉ a.*1 ∧ n.1 ∉ b.*1.
Proof.
  rewrite !fmap_app. cbn. intros (Hna & Hdis & [Hn Hb]%NoDup_cons)%NoDup_app. split_and!; try done.
  - apply NoDup_app. split_and!; try done. intros x Hx Hxb. apply (Hdis x Hx). by right.
  - intros H. apply (Hdis _ H). left.
Qed.

Lemma dseg_bypass l a b p0 n0 :
  NoDup (a ++ b).*1 → dseg (l_heap l) None a n0 → dseg (l_heap l) p0 b None →
  dseg (l_heap (bypass (last_or None a) (hd_or b None) l)) None (a ++ b) None.
Proof.
  rewrite fmap_app. intros (Hna & Hdis & Hnb)%NoDup_app Ha Hb. rewrite dseg_app. unfold bypass.
  destruct (list_snoc_inv a) as [->|(a' & x & ->)], b as [|y b];
    rewrite ?last_or_app; cbn [last_or hd_or upd l_heap set_head set_tail]; try done.
  - split; [done|]. by apply dseg_set_prev with p0.
  - split; [|done]. by apply dseg_set_next with n0.
  - assert (x.1 ∉ (y :: b).*1) by (apply Hdis; rewrite fmap_app, elem_of_app; right; left).
    assert (y.1 ∉ (a' ++ [x]).*1) by (intros H'; apply (Hdis _ H'); left).
    split.
    + rewrite dseg_alter_frame by done. by apply dseg_set_next with n0.
    + apply dseg_set_prev with p0; [done|]. by apply dseg_alter_frame.
Qed.

Lemma bypass_frame l p nx e :
  p ≠ Some e → nx ≠ Some e → l_heap (bypass p nx l) !! e = l_heap l !! e.
Proof.
  intros Hp Hn. unfold bypass. destruct p, nx; cbn; rewrite ?lookup_alter_ne; congruence.
Qed.

Lemma last_or_None a : last_or None a = None ↔ a = [].
Proof.
  destruct (list_snoc_inv a) as [->|(a' & x & ->)]; [done|]. rewrite last_or_app. cbn.
  split; [done|]. by intros [_ ?]%app_nil.
Qed.

Lemma last_or_Some p q ns : ns ≠ [] → last_or p ns = last_or q ns.
Proof. by destruct ns. Qed.

Lemma bypass_ends l a b e :
  l_head l = hd_or a (Some e) → l_tail l = last_or (Some e) b →
  l_head (bypass (last_or None a) (hd_or b None) l) = hd_or (a ++ b) None
  ∧ l_tail (bypass (last_or None a) (hd_or b None) l) = last_or None (a ++ b).
Proof.
  rewrite hd_or_app, last_or_app. unfold bypass. intros Hh Ht.
  destruct (last_or None a) as [p|] eqn:Ea.
  - assert (a ≠ []) as Hne by (rewrite <-last_or_None; congruence).
    destruct a as [|x a]; [done|]. destruct b as [|y b]; cbn in *; auto.
  - apply last_or_None in Ea as ->. by destruct b.
Qed.

Lemma bypass_other p nx l :
  l_m (bypass p nx l) = l_m l ∧ l_cap (bypass p nx l) = l_cap l.
Proof. unfold bypass. by destruct p, nx. Qed.

Lemma last_or_elem e a : last_or None a = Some e → e ∈ a.*1.
Proof.
  destruct (list_snoc_inv a) as [->|(a' & x & ->)]; [done|]. rewrite last_or_app. cbn.
  intros [= <-]. rewrite fmap_app, elem_of_app. right. left.
Qed.

Lemma removeLocked_links l a n b :
  links l (a ++ n :: b) →
  links (removeLocked n.1 l) (a ++ b)
  ∧ l_heap (removeLocked n.1 l) !! n.1 = Some (mkEntry n.2.1 n.2.2 None None)
  ∧ l_m (removeLocked n.1 l) = l_m l ∧ l_cap (removeLocked n.1 l) = l_cap l.
Proof.
  intros (Hd & Hh & Ht & Hnd). pose proof (dseg_lookup _ _ _ _ _ _ Hd) as Hn.
  apply NoDup_mid in Hnd as (Hnd & Hna & Hnb).
  assert (removeLocked n.1 l
    = upd (fun x => set_next None (set_prev None x)) n.1 (bypass (last_or None a) (hd_or b None) l)) as ->.
  { unfold removeLocked. by rewrite Hn. }
  apply dseg_app in Hd as [Ha [_ Hb]]. rewrite hd_or_app in Hh. rewrite last_or_app in Ht. cbn in *.
  destruct (bypass_other (last_or None a) (hd_or b None) l) as [-> ->].
  destruct (bypass_ends l a b n.1 Hh Ht) as [Eh Et].
  split_and!; try done.
  - split_and!; try done. cbn. rewrite dseg_alter_frame by (rewrite fmap_app, elem_of_app; tauto).
    by eapply dseg_bypass.
  - rewrite lookup_alter_eq, bypass_frame, Hn; [done|..].
    + intros ?%last_or_elem. done.
    + destruct b; cbn in *; [done|]. intros [= E]. rewrite E in Hnb. apply Hnb. left.
Qed.

Lemma pushFrontLocked_links l ns e k v x :
  links l ns → e ∉ ns.*1 → l_heap l !! e = Some x → e_key x = k → e_val x = v →
  links (pushFrontLocked e l) ((e, (k, v)) :: ns)
  ∧ l_m (pushFrontLocked e l) = l_m l ∧ l_cap (pushFrontLocked e l) = l_cap l.
Proof.
  intros (Hd & Hh & Ht & Hnd) He Hx <- <-. unfold pushFrontLocked. cbn. rewrite Hh.
  assert (∀ h, dseg (l_heap l) None ns None →
    h = alter (set_next (hd_or ns None)) e (alter (set_prev None) e (l_heap l)) →
    h !! e = Some (mkEntry (e_key x) (e_val x) None (hd_or ns None)) ∧ dseg h None ns None) as Hself.
  { intros h H ->. rewrite !lookup_alter_eq, Hx. split; [done|]. by rewrite !dseg_alter_frame. }
  destruct (Hself _ Hd eq_refl) as [He' Hd'].
  destruct ns as [|n ns]; cbn.
  - rewrite Ht. split_and!; try done. split_and!; cbn; try done. apply NoDup_cons. by split.
  - rewrite Ht. cbn. assert (e ≠ n.1 ∧ e ∉ ns.*1) as [Hne Hns] by (by apply not_elem_of_cons in He).
    destruct (last_or (Some n.1) ns) as [t|] eqn:El; cbn.
    2:{ exfalso. change (last_or None (n :: ns) = None) in El. by apply last_or_None in El. }
    split_and!; try done. split_and!; cbn; try done.
    + split; [rewrite lookup_alter_ne by done; exact He'|].
      exact (dseg_set_prev _ _ (Some e) n ns None Hnd Hd').
    + by apply NoDup_cons.
Qed.

(** ** Keys and nodes *)

Lemma a_lookup_elem k v (t : atable) : NoDup t.*1 → a_lookup k t = Some v ↔ (k, v) ∈ t.
Proof.
  induction t as [|[k' v'] t IH]; cbn; intros Hnd; [by rewrite elem_of_nil|].
  apply NoDup_cons in Hnd as [Hn Hnd]. rewrite elem_of_cons. case_decide; subst.
  - split; [intros [= ->]; by left|]. intros [[= ->]|Hin]; [done|].
    exfalso. apply Hn. by apply (list_elem_of_fmap_2 fst) in Hin.
  - rewrite IH by done. split; [by right|]. intros [[= -> ->]|?]; done.
Qed.

Lemma a_remove_notin k (t : atable) : k ∉ t.*1 → a_remove k t = t.
Proof.
  induction t as [|[k' v'] t IH]; [done|]. intros [Hne Hn]%not_elem_of_cons.
  unfold a_remove in *. rewrite filter_cons_True by (cbn in *; congruence). by rewrite IH.
Qed.

Lemma a_remove_mid k v (a b : atable) :
  NoDup (a ++ (k, v) :: b).*1 → a_remove k (a ++ (k, v) :: b) = a ++ b.
Proof.
  rewrite fmap_app. intros (_ & Hd & [Hb _]%NoDup_cons)%NoDup_app.
  unfold a_remove. rewrite filter_app, filter_cons_False by (cbn; tauto).
  f_equal; apply a_remove_notin; [|done]. intros H. apply (Hd _ H). left.
Qed.

(** Finding a key in the map is finding its node. *)
Lemma indexed_lookup l ns k e :
  indexed l ns → l_m l !! k = Some e →
  ∃ a v b, ns = a ++ (e, (k, v)) :: b ∧ a_lookup k ns.*2 = Some v.
Proof.
  intros [Hnd Hm] [v Hv]%Hm. destruct (list_elem_of_split _ _ Hv) as (a & b & ->).
  exists a, v, b. split; [done|]. apply a_lookup_elem; [done|].
  apply (list_elem_of_fmap_2 snd) in Hv. done.
Qed.

Lemma indexed_None l ns k :
  indexed l ns → l_m l !! k = None → k ∉ ns.*2.*1 ∧ a_lookup k ns.*2 = None.
Proof.
  intros [Hnd Hm] Hk. assert (k ∉ ns.*2.*1) as Hn.
  { intros ([k' v] & -> & ([e [k1 v1]] & [= -> ->] & Hin)%list_elem_of_fmap)%list_elem_of_fmap.
    assert (l_m l !! k1 = Some e) by (apply Hm; eauto). cbn in *. congruence. }
  split; [done|]. destruct (a_lookup k ns.*2) as [v|] eqn:E; [|done].
  apply a_lookup_elem in E; [|done]. by apply (list_elem_of_fmap_2 fst) in E.
Qed.

Lemma NoDup_keys_perm ns ns' : ns ≡ₚ ns' → NoDup ns.*2.*1 → NoDup ns'.*2.*1.
Proof. intros H. by rewrite H. Qed.

Lemma indexed_perm l l' ns ns' :
  ns ≡ₚ ns' → l_m l' = l_m l → indexed l ns → indexed l' ns'.
Proof.
  intros Hp Hm [Hnd Hk]. split; [by eapply NoDup_keys_perm|].
  intros k e. rewrite Hm, Hk. by setoid_rewrite Hp.
Qed.

(** Distinct keys sit at distinct places, so a removed key leaves the rest. *)
Lemma indexed_delete l l' a e k v b :
  l_m l' = delete k (l_m l) → indexed l (a ++ (e, (k, v)) :: b) → indexed l' (a ++ b).
Proof.
  intros Hm [Hnd Hk].
  assert (indexed l ((e, (k, v)) :: a ++ b)) as [Hnd' Hk'].
  { eapply indexed_perm; [|reflexivity|by split]. by rewrite Permutation_middle. }
  cbn in Hnd'. apply NoDup_cons in Hnd' as [Hn Hnd']. split; [done|].
  intros k1 e1. rewrite Hm, lookup_delete_Some, Hk'. split.
  - intros [Hne [v1 [[= -> -> ->]|Hin]%elem_of_cons]]; [done|eauto].
  - intros [v1 Hin]. split; [|exists v1; by right]. intros ->. apply Hn.
    apply (list_elem_of_fmap_2 snd), (list_elem_of_fmap_2 fst) in Hin. done.
Qed.

Lemma indexed_insert l l' ns e k v :
  l_m l' = <[k := e]> (l_m l) → k ∉ ns.*2.*1 → indexed l ns → indexed l' ((e, (k, v)) :: ns).
Proof.
  intros Hm Hn [Hnd Hk]. split; [by apply NoDup_cons|].
  intros k1 e1. rewrite Hm, lookup_insert_Some, Hk. setoid_rewrite elem_of_cons. split.
  - intros [[<- <-]|[_ [v1 ?]]]; eauto.
  - intros [v1 [[= -> -> ->]|Hin]]; [by left|right]. split; [|eauto]. intros ->. apply Hn.
    apply (list_elem_of_fmap_2 snd), (list_elem_of_fmap_2 fst) in Hin. done.
Qed.

Lemma size_indexed l ns : indexed l ns → size (l_m l) = length ns.
Proof.
  revert l. induction ns as [|[e [k v]] ns IH]; intros l Hi.
  - cbn. apply map_size_empty_iff, map_empty. intros k. destruct (l_m l !! k) as [e|] eqn:E; [|done].
    destruct (indexed_lookup _ _ _ _ Hi E) as (a & v & b & H & _). by destruct a.
  - assert (l_m l !! k = Some e) as He by (apply Hi; exists v; left).
    assert (indexed (set_m (delete k (l_m l)) l) ns) as Hi'
      by (by apply (indexed_delete l _ [] e k v)).
    apply IH in Hi'. cbn in Hi' |- *. rewrite map_size_delete_Some in Hi' by eauto.
    assert (size (l_m l) ≠ 0%nat); [|lia].
    intros H0%map_size_empty_iff. rewrite H0 in He. done.
Qed.

(** ** Operations on the representation *)

Lemma moveToFrontLocked_repr l a n b :
  repr l (a ++ n :: b) →
  repr (moveToFrontLocked n.1 l) (n :: a ++ b)
  ∧ l_cap (moveToFrontLocked n.1 l) = l_cap l
  ∧ val_at (moveToFrontLocked n.1 l) n.1 = Some n.2.2.
Proof.
  intros [Hl Hi].
  assert (∀ l', links l' (n :: a ++ b) → val_at l' n.1 = Some n.2.2) as Hval.
  { intros l' (Hd & _). unfold val_at. by rewrite (dseg_lookup _ _ [] n (a ++ b) _ Hd). }
  unfold moveToFrontLocked. case_decide as Hh.
  - destruct a as [|x a]; [split_and!; try done; by apply Hval, Hl|]. exfalso.
    destruct Hl as (_ & Hh' & _ & Hnd). apply (NoDup_mid (x :: a)) in Hnd as (_ & Hn & _).
    rewrite Hh in Hh'. cbn in Hh'. injection Hh' as E. apply Hn. rewrite E. left.
  - destruct (removeLocked_links l a n b Hl) as (Hl' & Hx & Hm & Hc).
    destruct Hl as (_ & _ & _ & Hnd). apply NoDup_mid in Hnd as (_ & Hna & Hnb).
    destruct (pushFrontLocked_links _ _ n.1 n.2.1 n.2.2 _ Hl'
      ltac:(rewrite fmap_app, elem_of_app; tauto) Hx eq_refl eq_refl) as (Hl2 & Hm2 & Hc2).
    rewrite Hm in Hm2. rewrite Hc in Hc2. destruct n as [e [k v]]; cbn in *.
    split_and!; [|done|by apply Hval]. split; [done|].
    eapply indexed_perm; [|exact Hm2|exact Hi]. by rewrite Permutation_middle.
Qed.

Lemma upd_val_repr l a e k v v' b :
  repr l (a ++ (e, (k, v)) :: b) → repr (upd (set_val v') e l) (a ++ (e, (k, v')) :: b).
Proof.
  intros [(Hd & Hh & Ht & Hnd) [Hk Hm]]. pose proof (NoDup_mid _ _ _ Hnd) as (_ & Hna & Hnb).
  split; [split_and!|split]; cbn in *.
  - apply dseg_app in Hd as [Ha [He Hb]]. apply dseg_app; cbn in *.
    rewrite !dseg_alter_frame by done. split_and!; try done. by rewrite lookup_alter_eq, He.
  - rewrite Hh, !hd_or_app. done.
  - rewrite Ht, !last_or_app. done.
  - rewrite fmap_app in *. done.
  - rewrite !fmap_app in *. done.
  - intros k1 e1. rewrite Hm. setoid_rewrite elem_of_app. setoid_rewrite elem_of_cons.
    split; (intros [w [Hin|[[= -> -> ->]|Hin]]]; [exists w; by left| |exists w; by right; right]).
    + exists v'. right; by left.
    + exists v. right; by left.
Qed.

Lemma links_addresses l ns e : links l ns → e ∈ ns.*1 → e ∈ dom (l_heap l).
Proof.
  intros (Hd & _) (n & -> & (a & b & ->)%list_elem_of_split)%list_elem_of_fmap.
  apply dseg_lookup in Hd. by apply elem_of_dom_2 in Hd.
Qed.

Lemma alloc_push_repr l ns k v e l' :
  repr l ns → l_m l !! k = None → alloc k v l = (e, l') →
  repr (pushFrontLocked e l') ((e, (k, v)) :: ns) ∧ l_cap (pushFrontLocked e l') = l_cap l.
Proof.
  intros [Hl Hi] Hk [= <- <-]. set (e := fresh _).
  assert (e ∉ ns.*1) as He.
  { intros H%(links_addresses _ _ _ Hl). by apply is_fresh in H. }
  destruct (indexed_None _ _ _ Hi Hk) as [Hn _].
  edestruct (pushFrontLocked_links (mkLru (l_cap l) (l_head l) (l_tail l) (<[k := e]> (l_m l))
    (<[e := mkEntry k v None None]> (l_heap l))) ns e k v) as (Hl' & Hm & Hc).
  - destruct Hl as (Hd & ? & ? & ?). split_and!; try done. cbn. by apply dseg_insert_frame.
  - done.
  - cbn. apply lookup_insert_eq.
  - done.
  - done.
  - split; [|done]. split; [done|]. by apply (indexed_insert l).
Qed.

Lemma insertLocked_repr l ns k v :
  repr l ns → 1 ≤ l_cap l → Z.of_nat (length ns) ≤ l_cap l → l_m l !! k = None →
  ∃ e, let '(ev, l') := insertLocked k v l in
    repr l' (take (Z.to_nat (l_cap l)) ((e, (k, v)) :: ns)) ∧ l_cap l' = l_cap l
    ∧ ev = (drop (Z.to_nat (l_cap l)) ((e, (k, v)) :: ns)).*2.
Proof.
  intros Hr Hc Hlen Hk. unfold insertLocked. destruct (alloc k v l) as [e l1] eqn:Ea. exists e.
  destruct (alloc_push_repr _ _ _ _ _ _ Hr Hk Ea) as [Hr' Hc']. set (l2 := pushFrontLocked e l1) in *.
  set (ns' := (e, (k, v)) :: ns) in *. rewrite (size_indexed l2 ns') by apply Hr'. rewrite Hc'.
  assert (length ns' = S (length ns)) as Hl by done.
  destruct (_ >? _) eqn:E.
  2:{ rewrite take_ge, drop_ge by lia. by split_and!. }
  destruct (list_snoc_inv ns') as [?|(a & x & Hx)]; [done|].
  assert (Z.to_nat (l_cap l) = length a) as Hca.
  { rewrite Hl in E. rewrite Hx, length_app in Hl. change (length [x]) with 1%nat in Hl. apply Z.gtb_lt in E. lia. }
  rewrite Hx in Hr' |- *. rewrite take_app_le, take_ge, drop_app_ge by lia.
  replace (Z.to_nat (l_cap l) - length a)%nat with 0%nat by lia.
  destruct Hr' as [Hl2 Hi2]. destruct (removeLocked_links l2 a x [] Hl2) as (Hl3 & _ & Hm3 & Hc3).
  destruct Hl2 as (Hd2 & _ & Ht2 & _). rewrite Ht2, last_or_app. cbn.
  rewrite (dseg_lookup _ _ _ _ _ _ Hd2). cbn. rewrite app_nil_r in Hl3. destruct x as [ex [kx vx]].
  cbn in *. split_and!; [|congruence|done]. split; [done|].
  rewrite <-(app_nil_r a). cbn in *. apply (indexed_delete l2 _ a ex kx vx []); [|done].
  cbn. by rewrite Hm3.
Qed.

Lemma Delete_repr l a e k v b :
  repr l (a ++ (e, (k, v)) :: b) → l_m l !! k = Some e →
  ∃ l', Delete k l = (true, [(k, v)], l') ∧ repr l' (a ++ b) ∧ l_cap l' = l_cap l.
Proof.
  intros [Hl Hi] Hk. destruct (removeLocked_links l a _ b Hl) as (Hl' & Hx & Hm & Hc). cbn in *.
  unfold Delete, val_at. rewrite Hk. cbn. rewrite Hx. cbn.
  eexists. split_and!; [done| |done]. split; [done|].
  apply (indexed_delete l _ a e k v b); [|done]. cbn. by rewrite Hm.
Qed.

(** ** Refinement *)

Inductive op :=
| OGet (k : bytes)
| OAdd (k : bytes) (v : V)
| OGetOrAdd (k : bytes) (v : V)
| ODelete (k : bytes)
| OLen.

(** What a caller and the eviction callback observe. *)
Inductive obs :=
| ObVal (v : option V)
| ObEvict (ev : list (bytes * V))
| ObGetOrAdd (v : option V) (existed : bool) (ev : list (bytes * V))
| ObDelete (found : bool) (ev : list (bytes * V))
| ObLen (n : Z).

Definition exec (o : op) l : obs * lru V :=
  match o with
  | OGet k => let '(v, l) := Get k l in (ObVal v, l)
  | OAdd k v => let '(ev, l) := Add k v l in (ObEvict ev, l)
  | OGetOrAdd k v => let '(w, b, ev, l) := GetOrAdd k v l in (ObGetOrAdd w b ev, l)
  | ODelete k => let '(b, ev, l) := Delete k l in (ObDelete b ev, l)
  | OLen => (ObLen (Len l), l)
  end.

Definition a_exec (cap : Z) (o : op) (t : atable) : obs * atable :=
  match o with
  | OGet k => let '(v, t) := a_get k t in (ObVal v, t)
  | OAdd k v => let '(ev, t) := a_add cap k v t in (ObEvict ev, t)
  | OGetOrAdd k v => let '(w, b, ev, t) := a_get_or_add cap k v t in (ObGetOrAdd w b ev, t)
  | ODelete k => let '(b, ev, t) := a_delete k t in (ObDelete b ev, t)
  | OLen => (ObLen (Z.of_nat (length t)), t)
  end.

Fixpoint exec_all (os : list op) l : list obs * lru V :=
  match os with
  | [] => ([], l)
  | o :: os => let '(b, l) := exec o l in let '(bs, l) := exec_all os l in (b :: bs, l)
  end.

Fixpoint a_exec_all (cap : Z) (os : list op) (t : atable) : list obs * atable :=
  match os with
  | [] => ([], t)
  | o :: os => let '(b, t) := a_exec cap o t in let '(bs, t) := a_exec_all cap os t in (b :: bs, t)
  end.

Lemma fmap_mid a e k v b :
  NoDup (a ++ (e, (k, v)) :: b).*2.*1 →
  (a ++ b).*2 = a_remove k (a ++ (e, (k, v)) :: b).*2.
Proof. rewrite !fmap_app. cbn. intros Hnd. rewrite a_remove_mid; [done|]. by rewrite fmap_app. Qed.

(** Promotion of a present key, shared by [Get], [Add] and [GetOrAdd]. *)
Lemma front_implements l l' t a e k v v' b :
  implements l t → repr l (a ++ (e, (k, v)) :: b) → (a ++ (e, (k, v)) :: b).*2 = t →
  repr l' ((e, (k, v')) :: a ++ b) → l_cap l' = l_cap l → implements l' ((k, v') :: a_remove k t).
Proof.
  intros (Hc & Hlen & _) [_ [Hnd _]] <- Hr' Hc'. unfold implements. rewrite Hc'.
  rewrite <-(fmap_mid a e k v b Hnd). split_and!; [done| |by exists ((e, (k, v')) :: a ++ b)].
  cbn. rewrite !length_fmap, !length_app in *. cbn in Hlen. lia.
Qed.

Lemma implements_insert l t k v :
  implements l t → l_m l !! k = None →
  let '(ev, l') := insertLocked k v l in let '(ev', t') := a_insert (l_cap l) k v t in
  ev = ev' ∧ l_cap l' = l_cap l ∧ implements l' t'.
Proof.
  intros (Hc & Hlen & ns & Hr & <-) Hk. rewrite length_fmap in Hlen.
  destruct (insertLocked_repr l ns k v Hr Hc Hlen Hk) as [e He].
  destruct (insertLocked k v l) as [ev l'] eqn:E. destruct He as (Hr' & Hc' & ->). unfold a_insert.
  change ((k, v) :: ns.*2) with (((e, (k, v)) :: ns).*2).
  rewrite <-fmap_drop, <-fmap_take. split_and!; try done. unfold implements. rewrite Hc'.
  split_and!; [done| |by eexists]. rewrite length_fmap, length_take. lia.
Qed.

Lemma exec_refines o l t :
  implements l t →
  (exec o l).1 = (a_exec (l_cap l) o t).1
  ∧ l_cap (exec o l).2 = l_cap l ∧ implements (exec o l).2 (a_exec (l_cap l) o t).2.
Proof.
  intros Himp. pose proof Himp as (Hc & Hlen & ns & Hr & Ht). pose proof Hr as [_ Hi].
  assert (∀ k e, l_m l !! k = Some e → ∃ a v b, ns = a ++ (e, (k, v)) :: b ∧ a_lookup k t = Some v) as Hfound.
  { intros k e Hk. rewrite <-Ht. by apply (indexed_lookup l). }
  assert (∀ k, l_m l !! k = None → a_lookup k t = None) as Hmiss.
  { intros k Hk. rewrite <-Ht. by apply (indexed_None l). }
  destruct o as [k|k v|k v|k|]; cbn.
  - unfold Get, a_get. destruct (l_m l !! k) as [e|] eqn:Ek; [|by rewrite (Hmiss k Ek)].
    destruct (Hfound k e Ek) as (a & v & b & -> & ->).
    destruct (moveToFrontLocked_repr l a _ b Hr) as (Hr' & Hc' & Hv). cbn in *.
    rewrite Hv. split_and!; try done. by eapply front_implements.
  - unfold Add, a_add. destruct (l_m l !! k) as [e|] eqn:Ek.
    + destruct (Hfound k e Ek) as (a & w & b & -> & ->).
      pose proof (upd_val_repr _ _ _ _ _ v _ Hr) as Hr2.
      destruct (moveToFrontLocked_repr _ a _ b Hr2) as (Hr' & Hc' & _). cbn in *.
      split_and!; try done. by eapply front_implements.
    + rewrite (Hmiss k Ek). pose proof (implements_insert l t k v Himp Ek) as H.
      destruct (insertLocked k v l), (a_insert _ _ _ _). cbn. destruct H as (-> & ? & ?). done.
  - unfold GetOrAdd, a_get_or_add. destruct (l_m l !! k) as [e|] eqn:Ek.
    + destruct (Hfound k e Ek) as (a & w & b & -> & ->).
      destruct (moveToFrontLocked_repr l a _ b Hr) as (Hr' & Hc' & Hv). cbn in *.
      rewrite Hv. split_and!; try done. by eapply front_implements.
    + rewrite (Hmiss k Ek). pose proof (implements_insert l t k v Himp Ek) as H.
      destruct (insertLocked k v l), (a_insert _ _ _ _). cbn. destruct H as (-> & ? & ?). done.
  - unfold a_delete. destruct (l_m l !! k) as [e|] eqn:Ek.
    + destruct (Hfound k e Ek) as (a & w & b & -> & ->).
      destruct (Delete_repr l a e k w b Hr Ek) as (l' & -> & Hr' & Hc'). cbn. split_and!; try done.
      rewrite <-Ht, <-fmap_mid by apply Hi. split_and!; [lia| |by eexists].
      rewrite <-Ht, length_fmap, length_app in Hlen. cbn in Hlen. rewrite length_fmap, length_app. lia.
    + rewrite (Hmiss k Ek). unfold Delete. by rewrite Ek.
  - split_and!; try done. unfold Len. rewrite (size_indexed l ns Hi), <-Ht. by rewrite length_fmap.
Qed.

Lemma exec_all_refines os l t :
  implements l t →
  (exec_all os l).1 = (a_exec_all (l_cap l) os t).1
  ∧ implements (exec_all os l).2 (a_exec_all (l_cap l) os t).2.
Proof.
  revert l t. induction os as [|o os IH]; intros l t Hi; [done|]. cbn.
  destruct (exec_refines o l t Hi) as (H1 & H2 & H3).
  destruct (exec o l) as [b l'], (a_exec (l_cap l) o t) as [b' t']. cbn in *. subst b'.
  specialize (IH l' t' H3). rewrite H2 in IH. destruct IH as [H4 H5].
  destruct (exec_all os l'), (a_exec_all (l_cap l) os t'). cbn in *. by subst.
Qed.

Lemma newLRU_implements capacity : implements (newLRU capacity) [].
Proof.
  unfold newLRU, implements. cbn. split_and!; [by case_match; lia..|].
  exists []. split; [|done]. split; [by split_and!; try constructor|]. split; [constructor|].
  intros k e. cbn. rewrite lookup_empty. split; [done|]. by intros [v ?%elem_of_nil].
Qed.

(** ** Properties *)

(** C32: The pointer-linked LRU refines a list in recency order. Any sequence
    of [Get], [Add], [GetOrAdd], [Delete] and [Len] on a table of capacity
    [max 1 capacity] gives the results and the eviction callbacks of the plain
    list, evicting exactly what is least recently used, and leaves the linked
    list, the index and the list in agreement, never over capacity. *)
Theorem lru_refines capacity os :
  (exec_all os (newLRU capacity)).1 = (a_exec_all (Z.max 1 capacity) os []).1
  ∧ implements (exec_all os (newLRU capacity)).2 (a_exec_all (Z.max 1 capacity) os []).2.
Proof.
  replace (Z.max 1 capacity) with (l_cap (newLRU capacity)).
  - apply exec_all_refines, newLRU_implements.
  - cbn. case_match; lia.
Qed.
End lru.
