(* ===== verification/Store.v ===== *)
(** * The on-disk store (src/internal/cache/store.go)

    Objects live under one directory per key: a [body] file, sparse, and a
    [meta.json] that says which spans of it are populated.  The file system is
    explicit: [metas] holds the parsed [meta.json] of each key ([Some None] is
    a file that does not parse), [bodies] names the inode of each [body] and
    [inodes] their contents, so a file unlinked while a writer still has it
    open keeps its own inode, as on disk.  System calls that can fail take
    their outcome from a [faults] record.  The in-memory [metaCache] is used
    through the interface [MetaCache]. *)

From stdpp Require Import base strings numbers gmap list sorting.
From S2P Require Import Prelude GoStd Spans.

Local Open Scope Z_scope.
Local Open Scope go_scope.

(** ** Metadata *)

Record Meta := mkMeta {
  Version : Z;
  UpstreamHost : bytes;
  Path : bytes;
  RawQuery : bytes;
  Spans : list Span;
  Total : option Z;
  ETag : bytes;
  ContentType : bytes;
  StatusCode : Z;
  Location : bytes;
  ExtraHeaders : gmap bytes bytes;
  AliasOf : bytes;
  OriginPath : bytes;
  OriginPaths : list bytes;
}.

Definition MaxOriginPaths : Z := 64.

(** [sort.SearchStrings]: the first index whose string is not below [x], found
    by bisection of [i, j). *)
Fixpoint search_strings (fuel : nat) (a : list bytes) (x : bytes) (i j : nat) : nat :=
  match fuel with
  | O => i
  | S fuel =>
      if (i <? j)%nat then
        let h := ((i + j) / 2)%nat in
        if str_lt (nth h a []) x then search_strings fuel a x (S h) j
        else search_strings fuel a x i h
      else i
  end.

Definition SearchStrings (a : list bytes) (x : bytes) : nat :=
  search_strings (S (length a)) a x 0 (length a).

Definition appendOwner (owners : list bytes) (owner : bytes) : list bytes :=
  match owner with
  | [] => owners
  | _ =>
      let i := SearchStrings owners owner in
      if (i <? length owners)%nat && beq (nth i owners []) owner then owners
      else if Z.of_nat (length owners) >=? MaxOriginPaths then owners
      else take i owners ++ owner :: drop i owners
  end.

Definition IsCacheableRedirectStatus (status : Z) : bool :=
  bool_decide (status ∈ [301; 302; 303; 307; 308]).

Definition metaTotal (m : option Meta) : Z :=
  match m with
  | Some m => match Total m with Some t => if t <=? 0 then 0 else t | None => 0 end
  | None => 0
  end.

Definition mergeExtraHeaders (m extra : gmap bytes bytes) : gmap bytes bytes :=
  filter (fun kv => kv.2 ≠ []) extra ∪ m.

(** ** Parameters of one write *)

Record SegmentParams := mkParams {
  p_Status : Z;
  p_UpstreamHost : bytes;
  p_Path : bytes;
  p_RawQuery : bytes;
  p_ETag : bytes;
  p_ContentType : bytes;
  p_Start : Z;
  p_Length : Z;
  p_Total : Z;
  p_ExtraHeaders : gmap bytes bytes;
  p_OriginPath : bytes;
}.

Inductive error :=
| EQuotaExceeded
| EInvalid          (* a rejected argument *)
| EIO               (* a failed system call *)
| EDecode.          (* meta.json does not parse *)

Definition validateSegmentParams (key : bytes) (p : SegmentParams) : option error :=
  if beq key [] then Some EInvalid
  else if p_Start p <? 0 then Some EInvalid
  else if p_Length p <? -1 then Some EInvalid
  else if p_Total p <? -1 then Some EInvalid
  else if (p_Status p =? 200) || (p_Status p =? 206) then None
  else Some EInvalid.

Definition quotaReservationFor (p : SegmentParams) : Z :=
  if p_Total p >? 0 then p_Total p
  else if p_Length p >? 0 then p_Length p
  else 0.

Definition CheckpointInterval : Z := 16 * 1024 * 1024.

(** Which system calls of an operation fail. *)
Record faults := mkFaults {
  x_mkdir : bool;        (* MkdirAll of the object directory *)
  x_open : bool;         (* OpenFile of the body *)
  x_truncate : bool;
  x_seek : bool;
  x_writeMeta : bool;    (* a step of writeMetaLocked, Rename included *)
  x_fsyncDir : bool;     (* Open or Sync of the directory *)
  x_sync : bool;         (* Sync of the body *)
  x_close : bool;
}.

(** ** File contents *)

Definition truncate (n : nat) (f : bytes) : bytes := take n f ++ replicate (n - length f) 0.

(** Write [data] at offset [off], zero-filling a gap. *)
Definition write_at (off : nat) (data f : bytes) : bytes :=
  match data with
  | [] => f
  | _ => take off f ++ replicate (off - length f) 0 ++ data ++ drop (off + length data) f
  end.

(** ** The metadata cache, as the store relies on it *)

Class MetaCache (C : Type) := {
  mc_get : bytes → C → option Meta * C;
  mc_add : bytes → Meta → C → C;
  mc_delete : bytes → C → C;
  mc_ok : C → Prop;
  mc_view : C → gmap bytes Meta;
  mc_get_spec k c : mc_ok c →
    (mc_get k c).1 = mc_view c !! k ∧ mc_ok (mc_get k c).2
    ∧ mc_view (mc_get k c).2 = mc_view c;
  mc_add_spec k m c : mc_ok c →
    mc_ok (mc_add k m c) ∧ mc_view (mc_add k m c) ⊆ <[k := m]> (mc_view c);
  mc_delete_spec k c : mc_ok c →
    mc_ok (mc_delete k c) ∧ mc_view (mc_delete k c) = delete k (mc_view c);
}.

Section store.
Context {C : Type} `{MetaCache C}.

Record Store := mkStore {
  MaxBytes : Z;
  fsyncDir : bool;                       (* fsyncPolicy = "dir" *)
  fsyncFile : bool;                      (* fsyncPolicy = "per-file" *)
  metas : gmap bytes (option Meta);
  bodies : gmap bytes nat;
  inodes : gmap nat bytes;
  metaCache : C;
  usedBytes : Z;
  reservedBytes : Z;
  entryCount : Z;
}.
Implicit Type s : Store.

Definition with_files s ms bo ino : Store :=
  mkStore (MaxBytes s) (fsyncDir s) (fsyncFile s) ms bo ino (metaCache s)
    (usedBytes s) (reservedBytes s) (entryCount s).
Definition with_cache s c : Store :=
  mkStore (MaxBytes s) (fsyncDir s) (fsyncFile s) (metas s) (bodies s) (inodes s) c
    (usedBytes s) (reservedBytes s) (entryCount s).
Definition with_counters s u r e : Store :=
  mkStore (MaxBytes s) (fsyncDir s) (fsyncFile s) (metas s) (bodies s) (inodes s) (metaCache s) u r e.

(** ** Counters *)

(** The scan of [scanUsageCounters] over readable, parsable files. *)
Definition scanUsageCounters s : Z * Z :=
  map_fold (fun _ mf (acc : Z * Z) =>
    match mf with
    | Some m => (acc.1 +64 metaTotal (Some m), acc.2 +64 1)
    | None => acc
    end) (0, 0) (metas s).

(** [NewStoreWithOptions] on a directory that already holds objects. *)
Definition NewStoreWithOptions (maxBytes : Z) (dir file : bool)
    (ms : gmap bytes (option Meta)) (bo : gmap bytes nat) (ino : gmap nat bytes) (c : C) : Store :=
  let s := mkStore maxBytes dir file ms bo ino c 0 0 0 in
  if maxBytes >? 0 then
    let '(used, count) := scanUsageCounters s in with_counters s used 0 count
  else s.

(** [Stats]: used bytes, quota and entry count. *)
Definition Stats s : Z * Z * Z :=
  if MaxBytes s <=? 0 then let '(used, count) := scanUsageCounters s in (used, 0, count)
  else (usedBytes s, MaxBytes s, entryCount s).

(** [reserveQuota] when no other thread runs between its loads and its
    compare-and-swap. *)
Definition reserveQuota s (n : Z) : option error * Store :=
  if (MaxBytes s <=? 0) || (n <=? 0) then (None, s)
  else
    let used := usedBytes s in
    let reserved := reservedBytes s in
    if (used >=? MaxBytes s) || (used +64 reserved +64 n >? MaxBytes s)
    then (Some EQuotaExceeded, s)
    else (None, with_counters s used (reserved +64 n) (entryCount s)).

Definition releaseReservation s (n : Z) : Store :=
  if n <=? 0 then s
  else with_counters s (usedBytes s) (reservedBytes s -64 n) (entryCount s).

(** The bytes by which the total grew, and the counters updated. *)
Definition accountMetaTransition s (oldTotal : Z) (oldExists : bool) (newMeta : Meta) : Z * Store :=
  if MaxBytes s <=? 0 then (0, s)
  else
    let newTotal := metaTotal (Some newMeta) in
    let used := if newTotal =? oldTotal then usedBytes s
                else usedBytes s +64 (newTotal -64 oldTotal) in
    let count := if oldExists then entryCount s else entryCount s +64 1 in
    (if newTotal >? oldTotal then newTotal -64 oldTotal else 0,
     with_counters s used (reservedBytes s) count).

(** ** Metadata files *)

Definition LoadMeta s (key : bytes) : result error (option Meta) * Store :=
  match mc_get key (metaCache s) with
  | (Some m, c) => (Ok (Some m), with_cache s c)
  | (None, c) =>
      let s := with_cache s c in
      match metas s !! key with
      | None => (Ok None, s)
      | Some None => (Err EDecode, s)
      | Some (Some m) => (Ok (Some m), with_cache s (mc_add key m (metaCache s)))
      end
  end.

(** [meta, _ := readMetaLocked(key)]: nil when missing or unparsable. *)
Definition readMetaLocked s (key : bytes) : option Meta :=
  match metas s !! key with Some (Some m) => Some m | _ => None end.

(** Temporary file and rename: all or nothing. *)
Definition writeMetaLocked (x : faults) s (key : bytes) (m : Meta) : option error * Store :=
  if x_mkdir x || x_writeMeta x then (Some EIO, s)
  else (None, with_files s (<[key := Some m]> (metas s)) (bodies s) (inodes s)).

Definition maybeFsyncDir (x : faults) s : option error :=
  if fsyncDir s && x_fsyncDir x then Some EIO else None.

(** ** Segment writers *)

Record SegmentWriter := mkWriter {
  w_key : bytes;
  w_ino : nat;           (* the inode behind the open file *)
  w_params : SegmentParams;
  w_written : Z;
  w_lastCheckpoint : Z;
  w_closed : bool;
  w_reserved : Z;
  w_dynamicQuota : bool;
}.
Implicit Type w : SegmentWriter.

Definition with_written w n : SegmentWriter :=
  mkWriter (w_key w) (w_ino w) (w_params w) n (w_lastCheckpoint w) (w_closed w)
    (w_reserved w) (w_dynamicQuota w).
Definition with_checkpoint w n : SegmentWriter :=
  mkWriter (w_key w) (w_ino w) (w_params w) (w_written w) n (w_closed w)
    (w_reserved w) (w_dynamicQuota w).
Definition with_closed w : SegmentWriter :=
  mkWriter (w_key w) (w_ino w) (w_params w) (w_written w) (w_lastCheckpoint w) true
    (w_reserved w) (w_dynamicQuota w).
Definition with_reserved w n : SegmentWriter :=
  mkWriter (w_key w) (w_ino w) (w_params w) (w_written w) (w_lastCheckpoint w) (w_closed w)
    n (w_dynamicQuota w).

(** [os.OpenFile(bodyPath, O_CREATE|O_RDWR)]: the body's inode, created empty
    when there is none. *)
Definition open_body s (key : bytes) : nat * Store :=
  match bodies s !! key with
  | Some i => (i, s)
  | None =>
      let i := fresh (dom (inodes s)) in
      (i, with_files s (metas s) (<[key := i]> (bodies s)) (<[i := []]> (inodes s)))
  end.

Definition BeginSegment (x : faults) s (key : bytes) (p : SegmentParams)
    : result error SegmentWriter * Store :=
  match validateSegmentParams key p with
  | Some e => (Err e, s)
  | None =>
      let reserved := quotaReservationFor p in
      match reserveQuota s reserved with
      | (Some e, s) => (Err e, s)
      | (None, s) =>
          if x_mkdir x then (Err EIO, releaseReservation s reserved)
          else if x_open x then (Err EIO, releaseReservation s reserved)
          else
            let '(i, s) := open_body s key in
            if (p_Total p >? 0) && x_truncate x then (Err EIO, releaseReservation s reserved)
            else
              let s := if p_Total p >? 0
                       then with_files s (metas s) (bodies s)
                              (alter (truncate (Z.to_nat (p_Total p))) i (inodes s))
                       else s in
              if x_seek x then (Err EIO, releaseReservation s reserved)
              else (Ok (mkWriter key i p 0 0 false reserved
                     ((reserved =? 0) && (MaxBytes s >? 0)
                      && (p_Total p <=? 0) && (p_Length p <=? 0))), s)
      end
  end.

Definition releaseReserved s w (n : Z) : Store * SegmentWriter :=
  if (n <=? 0) || (w_reserved w <=? 0) then (s, w)
  else
    let n := if n >? w_reserved w then w_reserved w else n in
    (releaseReservation s n, with_reserved w (w_reserved w -64 n)).

(** [&Meta{Version: 1, ...}] of [commit] and [checkpoint]. *)
Definition new_meta (p : SegmentParams) : Meta :=
  mkMeta 1 (p_UpstreamHost p) (p_Path p) (p_RawQuery p) [] None (p_ETag p) (p_ContentType p)
    (p_Status p) [] ∅ [] (p_OriginPath p) [].

(** The owner fields, updated as both [commit] and [checkpoint] do. *)
Definition add_owner (m : Meta) (p : SegmentParams) : bytes * list bytes :=
  (if beq (OriginPath m) [] && negb (beq (p_OriginPath p) []) then p_OriginPath p else OriginPath m,
   if negb (beq (p_OriginPath p) []) then appendOwner (OriginPaths m) (p_OriginPath p)
   else OriginPaths m).

Definition checkpoint_meta (old : option Meta) w : Meta :=
  let p := w_params w in
  let m := match old with Some m => m | None => new_meta p end in
  let end_ := p_Start p +64 w_written w in
  mkMeta (Version m) (UpstreamHost m) (Path m) (RawQuery m)
    (MergeSpans (Spans m ++ [mkSpan (p_Start p) end_]))
    (if p_Total p >? 0 then Some (p_Total p) else Total m)
    (ETag m) (ContentType m) (StatusCode m) (Location m)
    (mergeExtraHeaders (ExtraHeaders m) (p_ExtraHeaders p))
    (AliasOf m) (add_owner m p).1 (add_owner m p).2.

Definition checkpoint (x : faults) s w : option error * Store * SegmentWriter :=
  if w_written w =? w_lastCheckpoint w then (None, s, w)
  else
    let old := readMetaLocked s (w_key w) in
    let m := checkpoint_meta old w in
    match writeMetaLocked x s (w_key w) m with
    | (Some e, s) => (Some e, s, w)
    | (None, s) =>
        let s := with_cache s (mc_add (w_key w) m (metaCache s)) in
        let '(accounted, s) := accountMetaTransition s (metaTotal old) (bool_decide (is_Some old)) m in
        let '(s, w) := releaseReserved s w accounted in
        (None, s, with_checkpoint w (w_written w))
    end.

(** The three parts of [Write]: admission of a dynamic write, ... *)
Definition write_admit s w (len : Z) : option error * Store * SegmentWriter :=
  if w_dynamicQuota w then
    match reserveQuota s len with
    | (Some e, s) => (Some e, s, w)
    | (None, s) => (None, s, with_reserved w (w_reserved w +64 len))
    end
  else (None, s, w).

(** ... the file write and its accounting, [n] bytes accepted, ... *)
Definition write_file s w (data : bytes) (n : nat) : Store * SegmentWriter :=
  let off := Z.to_nat (p_Start (w_params w) + w_written w) in
  let s := with_files s (metas s) (bodies s)
             (alter (write_at off (take n data)) (w_ino w) (inodes s)) in
  let '(s, w) := if w_dynamicQuota w && (n <? length data)%nat
                 then releaseReserved s w (Z.of_nat (length data) - Z.of_nat n) else (s, w) in
  (s, if (0 <? n)%nat then with_written w (w_written w +64 Z.of_nat n) else w).

(** ... and the periodic checkpoint, whose error is dropped. *)
Definition write_checkpoint (x : faults) s w (werr : bool) : Store * SegmentWriter :=
  if negb werr && (CheckpointInterval >? 0)
     && (w_written w -64 w_lastCheckpoint w >=? CheckpointInterval)
  then let '(_, s, w) := checkpoint x s w in (s, w)
  else (s, w).

(** [n] is what [w.f.Write(p)] accepted, [werr] whether it failed; a closed
    file accepts nothing and fails. *)
Definition Write (x : faults) s w (data : bytes) (n : nat) (werr : bool)
    : result error Z * Store * SegmentWriter :=
  match data with
  | [] => (Ok 0, s, w)
  | _ =>
      let n := if w_closed w then 0%nat else n in
      let werr := werr || w_closed w in
      match write_admit s w (Z.of_nat (length data)) with
      | (Some e, s, w) => (Err e, s, w)
      | (None, s, w) =>
          let '(s, w) := write_file s w data n in
          let '(s, w) := write_checkpoint x s w werr in
          (if werr then Err EIO else Ok (Z.of_nat n), s, w)
      end
  end.

Definition commit_meta (old : option Meta) w : Meta :=
  let p := w_params w in
  let m := match old with Some m => m | None => new_meta p end in
  let end_ := p_Start p +64 w_written w in
  mkMeta (Version m)
    (if beq (UpstreamHost m) [] then p_UpstreamHost p else UpstreamHost m)
    (if beq (Path m) [] then p_Path p else Path m)
    (if beq (RawQuery m) [] then p_RawQuery p else RawQuery m)
    (if w_written w >? 0 then MergeSpans (Spans m ++ [mkSpan (p_Start p) end_]) else Spans m)
    (if p_Total p >? 0 then Some (p_Total p)
     else if (p_Status p =? 200) && (p_Start p =? 0) && (p_Length p <? 0) && (w_written w >? 0)
     then Some (w_written w) else Total m)
    (if negb (beq (p_ETag p) []) then p_ETag p else ETag m)
    (if negb (beq (p_ContentType p) []) then p_ContentType p else ContentType m)
    (if negb (p_Status p =? 0) &&
        ((StatusCode m =? 0) || ((p_Status p =? 200) && (StatusCode m =? 206)))
     then p_Status p else StatusCode m)
    (Location m)
    (mergeExtraHeaders (ExtraHeaders m) (p_ExtraHeaders p))
    (AliasOf m) (add_owner m p).1 (add_owner m p).2.

Definition commit (x : faults) s w : option error * Store * SegmentWriter :=
  let old := readMetaLocked s (w_key w) in
  let m := commit_meta old w in
  match writeMetaLocked x s (w_key w) m with
  | (Some e, s) => (Some e, s, w)
  | (None, s) =>
      match maybeFsyncDir x s with
      | Some e => (Some e, s, w)
      | None =>
          let s := with_cache s (mc_add (w_key w) m (metaCache s)) in
          let '(accounted, s) := accountMetaTransition s (metaTotal old) (bool_decide (is_Some old)) m in
          let '(s, w) := releaseReserved s w accounted in
          (None, s, w)
      end
  end.

(** The deferred [releaseReserved] has its argument evaluated on entry. *)
Definition Close (x : faults) s w : option error * Store * SegmentWriter :=
  if w_closed w then (None, s, w)
  else
    let w := with_closed w in
    let deferred := w_reserved w in
    let syncErr := if fsyncFile s && x_sync x then Some EIO else None in
    let closeErr := if x_close x then Some EIO else None in
    let '(cerr, s, w) := commit x s w in
    let syncErr := match cerr, syncErr with Some e, None => Some e | _, _ => syncErr end in
    let '(s, w) := releaseReserved s w deferred in
    (match closeErr with Some e => Some e | None => syncErr end, s, w).

(** ** Redirects and aliases *)

Definition StoreAlias (x : faults) s (aliasKey canonicalKey host path rawQuery : bytes)
    : option error * Store :=
  if beq aliasKey [] || beq canonicalKey [] then (Some EInvalid, s)
  else if beq aliasKey canonicalKey then (None, s)
  else if x_mkdir x then (Some EIO, s)
  else
    let existing := readMetaLocked s aliasKey in
    if match existing with Some m => beq (AliasOf m) [] | None => false end then (None, s)
    else
      let m := mkMeta 1 host path rawQuery [] None [] [] 0 [] ∅ canonicalKey [] [] in
      match writeMetaLocked x s aliasKey m with
      | (Some e, s) => (Some e, s)
      | (None, s) =>
          match maybeFsyncDir x s with
          | Some e => (Some e, s)
          | None =>
              let s := with_cache s (mc_add aliasKey m (metaCache s)) in
              (None, (accountMetaTransition s (metaTotal existing) (bool_decide (is_Some existing)) m).2)
          end
      end.

Definition redirect_meta (old : option Meta) (status : Z)
    (host path rawQuery location contentType etag : bytes) (extra : gmap bytes bytes) : Meta :=
  let m := match old with
           | Some m => m
           | None => mkMeta 1 [] [] [] [] None [] [] 0 [] ∅ [] [] []
           end in
  mkMeta (Version m) host path rawQuery (Spans m) (Total m)
    (if negb (beq etag []) then etag else ETag m)
    (if negb (beq contentType []) then contentType else ContentType m)
    status location
    (mergeExtraHeaders (ExtraHeaders m) extra)
    (AliasOf m) (OriginPath m) (OriginPaths m).

Definition StoreRedirect (x : faults) s (key : bytes) (status : Z)
    (host path rawQuery location contentType etag : bytes) (extra : gmap bytes bytes)
    : option error * Store :=
  if negb (IsCacheableRedirectStatus status) then (Some EInvalid, s)
  else if beq location [] then (Some EInvalid, s)
  else if x_mkdir x then (Some EIO, s)
  else
    let old := readMetaLocked s key in
    let m := redirect_meta old status host path rawQuery location contentType etag extra in
    match writeMetaLocked x s key m with
    | (Some e, s) => (Some e, s)
    | (None, s) =>
        match maybeFsyncDir x s with
        | Some e => (Some e, s)
        | None =>
            let s := with_cache s (mc_add key m (metaCache s)) in
            (None, (accountMetaTransition s (metaTotal old) (bool_decide (is_Some old)) m).2)
        end
    end.

(** ** Purging *)

Inductive PurgeDecision := DecisionKeep | DecisionTrim | DecisionRemove.

Record PurgeResult := mkPurge { Purged : Z; Trimmed : Z; BytesFreed : Z }.

(** The counters after removing an entry of [freed] bytes. *)
Definition purge_account s (freed : Z) : Store :=
  let s := if (MaxBytes s >? 0) && (freed >? 0)
           then with_counters s (usedBytes s -64 freed) (reservedBytes s) (entryCount s) else s in
  if MaxBytes s >? 0
  then with_counters s (usedBytes s) (reservedBytes s) (entryCount s -64 1) else s.

(** One iteration of [PurgeOrTrim]'s loop, for an entry whose file holds [m];
    [rmerr] is whether [os.RemoveAll] fails (before removing anything). *)
Definition purge_one (x : faults) (rmerr : bool) s (res : PurgeResult) (key : bytes) (m : Meta)
    (d : PurgeDecision * option Meta) : option error * Store * PurgeResult :=
  match d with
  | (DecisionKeep, _) => (None, s, res)
  | (DecisionTrim, None) => (Some EInvalid, s, res)
  | (DecisionTrim, Some trimmed) =>
      match writeMetaLocked x s key trimmed with
      | (Some e, s) => (Some e, s, res)
      | (None, s) =>
          (None, with_cache s (mc_add key trimmed (metaCache s)),
           mkPurge (Purged res) (Trimmed res + 1) (BytesFreed res))
      end
  | (DecisionRemove, _) =>
      let freed := match Total m with Some t => t | None => 0 end in
      let res := mkPurge (Purged res) (Trimmed res) (BytesFreed res +64 freed) in
      if rmerr then (Some EIO, s, res)
      else
        let s := with_files s (delete key (metas s)) (delete key (bodies s)) (inodes s) in
        let s := purge_account s freed in
        let s := with_cache s (mc_delete key (metaCache s)) in
        (None, s, mkPurge (Purged res + 1) (Trimmed res) (BytesFreed res))
  end.

(** The walk, in directory order [keys]. *)
Fixpoint purge_walk (x : faults) (rmerr : bool) (decide_ : bytes → Meta → PurgeDecision * option Meta)
    s (res : PurgeResult) (keys : list bytes) : option error * Store * PurgeResult :=
  match keys with
  | [] => (None, s, res)
  | key :: keys =>
      match readMetaLocked s key with
      | None => purge_walk x rmerr decide_ s res keys
      | Some m =>
          match purge_one x rmerr s res key m (decide_ key m) with
          | (Some e, s, res) => (Some e, s, res)
          | (None, s, res) => purge_walk x rmerr decide_ s res keys
          end
      end
  end.

Definition PurgeOrTrim (x : faults) (rmerr : bool)
    (decide_ : bytes → Meta → PurgeDecision * option Meta) (order : list bytes) s :=
  purge_walk x rmerr decide_ s (mkPurge 0 0 0) order.

(** Reading [start, end) of the body: what a range reader of the file gets. *)
Definition read_body s (key : bytes) (a b : Z) : option bytes :=
  i ← bodies s !! key;
  f ← inodes s !! i;
  Some (take (Z.to_nat (b - a)) (drop (Z.to_nat a) f)).

End store.

Arguments Store : clear implicits.
Arguments mkStore {C}.

(** ** Range headers *)

Section range.
Context `{GoUnicode}.

Definition ParseSingleRange (v : bytes) (total : Z) : option (Z * Z) :=
  let v := TrimSpace v in
  let pfx := bs "bytes=" in
  if negb (HasPrefix (ToLower v) pfx) then None
  else
    let v := drop (length pfx) v in
    match SplitN2 v 45 with
    | [p0; p1] =>
        match ParseInt (TrimSpace p0) with
        | None => None
        | Some start =>
            match TrimSpace p1 with
            | [] => if total <=? 0 then Some (start, -1) else Some (start, total)
            | endStr =>
                match ParseInt endStr with
                | None => None
                | Some end_ => Some (start, end_ +64 1)
                end
            end
        end
    | _ => None
    end.
End range.
