(* ===== verification/StoreTrace.v ===== *)
(** * Histories of the store

    A system is a store with its open segment writers; an operation is a call
    of one of the store's methods, a body write, or a restart of the process.
    This file runs arbitrary interleavings of operations; the theorems about
    them are in StoreBytes.v and StoreQuota.v. *)

From stdpp Require Import base strings numbers gmap list.
From S2P Require Import Prelude GoStd Spans Store.

Local Open Scope Z_scope.

Section trace.
Context {C : Type} `{MetaCache C}.

Record Sys := mkSys { sys_store : Store C; sys_writers : gmap nat SegmentWriter }.

Inductive sop :=
| SBegin (x : faults) (key : bytes) (p : SegmentParams)
| SWrite (x : faults) (id : nat) (data : bytes) (n : nat) (werr : bool)
| SClose (x : faults) (id : nat)
| SLoad (key : bytes)
| SAlias (x : faults) (aliasKey canonicalKey host path rawQuery : bytes)
| SRedirect (x : faults) (key : bytes) (status : Z)
    (host path rawQuery location contentType etag : bytes) (extra : gmap bytes bytes)
| SPurge (x : faults) (rmerr : bool) (decide_ : bytes → Meta → PurgeDecision * option Meta)
    (order : list bytes)
| SRestart (c : C).

(** A restarted process opens the same directory with empty memory. *)
Definition restart (s : Store C) (c : C) : Store C :=
  NewStoreWithOptions (MaxBytes s) (fsyncDir s) (fsyncFile s) (metas s) (bodies s) (inodes s) c.

Definition sstep (y : Sys) (o : sop) : Sys :=
  let s := sys_store y in
  let ws := sys_writers y in
  match o with
  | SBegin x key p =>
      match BeginSegment x s key p with
      | (Ok w, s) => mkSys s (<[fresh (dom ws) := w]> ws)
      | (Err _, s) => mkSys s ws
      end
  | SWrite x id data n werr =>
      match ws !! id with
      | Some w => let '(_, s, w) := Write x s w data n werr in mkSys s (<[id := w]> ws)
      | None => y
      end
  | SClose x id =>
      match ws !! id with
      | Some w => let '(_, s, w) := Close x s w in mkSys s (<[id := w]> ws)
      | None => y
      end
  | SLoad key => mkSys (LoadMeta s key).2 ws
  | SAlias x a c h p q => mkSys (StoreAlias x s a c h p q).2 ws
  | SRedirect x k st h p q l ct e ex => mkSys (StoreRedirect x s k st h p q l ct e ex).2 ws
  | SPurge x rmerr d order => mkSys (PurgeOrTrim x rmerr d order s).1.2 ws
  | SRestart c => mkSys (restart s c) ∅
  end.

Fixpoint srun (y : Sys) (os : list sop) : Sys :=
  match os with
  | [] => y
  | o :: os => srun (sstep y o) os
  end.

(** The condition [ok] holds of every operation in the state it runs in. *)
Fixpoint all_ops (ok : Sys → sop → Prop) (y : Sys) (os : list sop) : Prop :=
  match os with
  | [] => True
  | o :: os => ok y o ∧ all_ops ok (sstep y o) os
  end.

Lemma srun_inv (I : Sys → Prop) (ok : Sys → sop → Prop) y os :
  (∀ y o, I y → ok y o → I (sstep y o)) → I y → all_ops ok y os → I (srun y os).
Proof.
  intros Hstep. revert y. induction os as [|o os IH]; intros y Hy Hok; [done|].
  destruct Hok as [Ho Hos]. apply IH; auto.
Qed.

(** An empty directory opened by a fresh process. *)
Definition empty_store (maxBytes : Z) (dir file : bool) (c : C) : Store C :=
  NewStoreWithOptions maxBytes dir file ∅ ∅ ∅ c.
End trace.

Arguments Sys : clear implicits.
Arguments sop : clear implicits.
