(* ===== verification/MetaLru.v ===== *)
(** * The LRU table behind the metadata cache

    [Store.metaCache] is an [lru] from keys to metadata.  This file shows that
    the pointer-linked table of Lru.v meets the interface [MetaCache] that the
    theorems about the store rely on. *)

From stdpp Require Import base numbers gmap list.
From S2P Require Import Prelude Lru Store.

Local Open Scope Z_scope.

Definition MaxMetaCacheEntries : Z := 10000.

(** The contents of a table as a map. *)
Definition lru_view {V} (l : lru V) : gmap bytes V :=
  omap (fun e => e_val <$> l_heap l !! e) (l_m l).

Definition lru_ok {V} (l : lru V) : Prop := ∃ t, implements l t.

Section view.
Context {V : Type}.
Implicit Types (l : lru V) (t : list (bytes * V)).

Lemma implements_view l t k : implements l t → lru_view l !! k = a_lookup k t.
Proof.
  intros (_ & _ & ns & [Hl Hi] & <-). unfold lru_view. rewrite lookup_omap.
  destruct (l_m l !! k) as [e|] eqn:Ek; cbn.
  - destruct (indexed_lookup _ _ _ _ Hi Ek) as (a & v & b & -> & ->).
    destruct Hl as (Hd & _). apply dseg_lookup in Hd. cbn in Hd. by rewrite Hd.
  - by destruct (indexed_None _ _ _ Hi Ek) as [_ ->].
Qed.

Lemma a_lookup_remove k k' t :
  a_lookup k' (a_remove k t) = if decide (k' = k) then None else a_lookup k' t.
Proof.
  unfold a_remove. induction t as [|[k1 v1] t IH].
  - cbn. by case_decide.
  - destruct (decide (k1 = k)) as [->|Hne].
    + rewrite filter_cons_False by (cbn; tauto). rewrite IH. cbn. repeat case_decide; congruence.
    + rewrite filter_cons_True by done. cbn. rewrite IH. repeat case_decide; congruence.
Qed.

Lemma a_lookup_take n k t v : a_lookup k (take n t) = Some v → a_lookup k t = Some v.
Proof.
  revert n. induction t as [|[k1 v1] t IH]; intros [|n]; cbn; try done.
  case_decide; [done|]. apply IH.
Qed.

(** Promoting a pair does not change the contents. *)
Lemma a_lookup_front k v t k' :
  a_lookup k' ((k, v) :: a_remove k t) = if decide (k' = k) then Some v else a_lookup k' t.
Proof. cbn. rewrite a_lookup_remove. repeat case_decide; congruence. Qed.

Lemma exec_impl (o : op) l : lru_ok l → ∃ t, implements l t
  ∧ (exec o l).1 = (a_exec (l_cap l) o t).1 ∧ implements (exec o l).2 (a_exec (l_cap l) o t).2.
Proof. intros [t Ht]. exists t. destruct (exec_refines o l t Ht) as (? & _ & ?). done. Qed.

Lemma Get_view k l :
  lru_ok l → (Get k l).1 = lru_view l !! k ∧ lru_ok (Get k l).2 ∧ lru_view (Get k l).2 = lru_view l.
Proof.
  intros Hok. destruct (exec_impl (OGet k) l Hok) as (t & Ht & H1 & H2). cbn in H1, H2.
  destruct (Get k l) as [v l']. cbn in *. unfold a_get in *.
  rewrite (implements_view l t k Ht).
  destruct (a_lookup k t) as [w|] eqn:Ea; cbn in *; simplify_eq; split_and!; try done; try by eexists.
  - apply map_eq. intros k'. rewrite (implements_view _ _ _ H2), (implements_view _ _ _ Ht).
    rewrite a_lookup_front. case_decide; congruence.
  - apply map_eq. intros k'. by rewrite (implements_view _ _ _ H2), (implements_view _ _ _ Ht).
Qed.

Lemma Add_view k v l :
  lru_ok l → lru_ok (Add k v l).2 ∧ lru_view (Add k v l).2 ⊆ <[k := v]> (lru_view l).
Proof.
  intros Hok. destruct (exec_impl (OAdd k v) l Hok) as (t & Ht & _ & H2). cbn in H2.
  destruct (Add k v l) as [ev l']. cbn in *.
  destruct (a_add (l_cap l) k v t) as [ev' t'] eqn:Ea. cbn in *. split; [by eexists|].
  apply map_subseteq_spec. intros k' v'. rewrite (implements_view _ _ _ H2), lookup_insert_Some.
  rewrite (implements_view _ _ _ Ht). unfold a_add, a_insert in Ea.
  destruct (a_lookup k t) as [w|] eqn:El; simplify_eq.
  - rewrite a_lookup_front. case_decide; naive_solver.
  - intros H'%a_lookup_take. cbn in H'. case_decide; naive_solver.
Qed.

Lemma Delete_view k l :
  lru_ok l → lru_ok (Delete k l).2 ∧ lru_view (Delete k l).2 = delete k (lru_view l).
Proof.
  intros Hok. destruct (exec_impl (ODelete k) l Hok) as (t & Ht & _ & H2). cbn in H2.
  destruct (Delete k l) as [[b ev] l']. cbn in *.
  destruct (a_delete k t) as [[b' ev'] t'] eqn:Ea. cbn in *. split; [by eexists|].
  apply map_eq. intros k'. rewrite (implements_view _ _ _ H2). unfold a_delete in Ea.
  destruct (decide (k' = k)) as [->|Hne]; rewrite ?lookup_delete_eq, ?lookup_delete_ne,
    ?(implements_view _ _ _ Ht) by done;
    destruct (a_lookup k t) as [w|] eqn:El; simplify_eq; rewrite ?a_lookup_remove;
    repeat case_decide; congruence.
Qed.

Lemma newLRU_ok n : lru_ok (newLRU (V := V) n) ∧ lru_view (newLRU (V := V) n) = ∅.
Proof.
  split; [eexists; apply newLRU_implements|]. apply map_eq. intros k.
  by rewrite (implements_view _ _ _ (newLRU_implements n)).
Qed.
End view.

(** The table discharges the store's interface. *)
#[export] Instance lru_MetaCache : MetaCache (lru Meta) := {|
  mc_get := Get;
  mc_add k m l := (Add k m l).2;
  mc_delete k l := (Delete k l).2;
  mc_ok := lru_ok;
  mc_view := lru_view;
  mc_get_spec := Get_view;
  mc_add_spec := Add_view;
  mc_delete_spec := Delete_view;
|}.

(** [newLRU(MaxMetaCacheEntries, nil)] *)
Definition newMetaCache : lru Meta := newLRU MaxMetaCacheEntries.

Lemma newMetaCache_ok : mc_ok newMetaCache ∧ mc_view newMetaCache = ∅.
Proof. apply newLRU_ok. Qed.
