(* ===== verification/StoreBytes.v ===== *)
(** * Bytes served are the upstream's bytes

    For any history of the store in which writers are fed the bytes of the
    object they fetch, whatever system calls fail and whenever the process
    restarts, every offset that a metadata snapshot claims is populated holds
    the upstream byte in the body file. *)

From stdpp Require Import base strings numbers gmap list.
From S2P Require Import Prelude GoStd Spans Store StoreTrace MetaLru Lru.

Local Open Scope Z_scope.

Section bytes.
Context {C : Type} `{MetaCache C}.

(** The upstream object of each key. *)
Context (origin : bytes → bytes).
Implicit Types (s : Store C) (y : Sys C) (w : SegmentWriter).

Definition origin_small : Prop := ∀ key, Z.of_nat (length (origin key)) ≤ int64_max.

(** Offset [x] of [key]'s body file holds the upstream byte. *)
Definition good s (key : bytes) (x : Z) : Prop :=
  0 ≤ x ∧ ∃ i f c, bodies s !! key = Some i ∧ inodes s !! i = Some f
    ∧ f !! Z.to_nat x = Some c ∧ origin key !! Z.to_nat x = Some c.

Definition meta_ok s (key : bytes) (m : Meta) : Prop :=
  Forall wf_span (Spans m) ∧ ∀ x, covered (Spans m) x → good s key x.

Record store_ok s : Prop := {
  so_metas : ∀ key m, metas s !! key = Some (Some m) → meta_ok s key m;
  so_cache : mc_ok (metaCache s);
  so_view : ∀ key m, mc_view (metaCache s) !! key = Some m → meta_ok s key m;
  so_inj : ∀ k1 k2 i, bodies s !! k1 = Some i → bodies s !! k2 = Some i → k1 = k2;
  so_alloc : ∀ key i, bodies s !! key = Some i → is_Some (inodes s !! i);
}.

Definition writer_ok s w : Prop :=
  bodies s !! w_key w = Some (w_ino w) ∧ 0 ≤ p_Start (w_params w) ∧ 0 ≤ w_written w
  ∧ p_Start (w_params w) + w_written w ≤ int64_max
  ∧ ∀ x, p_Start (w_params w) ≤ x < p_Start (w_params w) + w_written w → good s (w_key w) x.

Definition sys_ok y : Prop :=
  store_ok (sys_store y)
  ∧ ∀ id w, sys_writers y !! id = Some w → w_closed w = false → writer_ok (sys_store y) w.

(** What the environment supplies: sizes that are the object's, bytes that are
    the object's next ones, purges that remove no key being written and trim
    no spans, and an empty cache after a restart. *)
Definition faithful y (o : sop C) : Prop :=
  match o with
  | SBegin _ key p =>
      is_int64 (p_Start p)
      ∧ (p_Total p ≤ 0 ∨ p_Total p = Z.of_nat (length (origin key)))
  | SWrite _ id data n _ =>
      ∀ w, sys_writers y !! id = Some w → w_closed w = false →
        take n data `prefix_of`
          drop (Z.to_nat (p_Start (w_params w) + w_written w)) (origin (w_key w))
        ∧ (n ≤ length data)%nat
  | SPurge _ _ d _ => ∀ key m,
      match d key m with
      | (DecisionKeep, _) | (DecisionTrim, None) => True
      | (DecisionTrim, Some t) => Spans t = Spans m
      | (DecisionRemove, _) =>
          ∀ id w, sys_writers y !! id = Some w → w_closed w = false → w_key w ≠ key
      end
  | SRestart c => mc_ok c ∧ mc_view c = ∅
  | _ => True
  end.

(** ** Files *)

Lemma truncate_lookup n (f : bytes) j c :
  f !! j = Some c → (j < n)%nat → truncate n f !! j = Some c.
Proof.
  intros Hj Hn. unfold truncate. apply lookup_app_l_Some. by rewrite lookup_take_lt.
Qed.

Lemma write_at_below off data (f : bytes) j c :
  f !! j = Some c → (j < off)%nat → write_at off data f !! j = Some c.
Proof.
  intros Hj Hn. unfold write_at. destruct data; [done|].
  apply lookup_app_l_Some. by rewrite lookup_take_lt.
Qed.

Lemma write_at_inside off data (f : bytes) j :
  (j < length data)%nat → write_at off data f !! (off + j)%nat = data !! j.
Proof.
  intros Hj. unfold write_at. destruct data as [|d data]; [cbn in Hj; lia|].
  set (l := d :: data) in *.
  rewrite lookup_app_r by (rewrite length_take; lia). rewrite length_take.
  rewrite lookup_app_r by (rewrite length_replicate; lia). rewrite length_replicate.
  rewrite lookup_app_l by lia. f_equal. lia.
Qed.

Lemma write_at_above off data (f : bytes) j c :
  f !! j = Some c → (off + length data ≤ j)%nat → write_at off data f !! j = Some c.
Proof.
  intros Hj Hn. unfold write_at. destruct data as [|d data]; [done|]. set (l := d :: data) in *.
  pose proof (lookup_lt_Some _ _ _ Hj).
  rewrite lookup_app_r by (rewrite length_take; lia). rewrite length_take.
  rewrite lookup_app_r by (rewrite length_replicate; lia). rewrite length_replicate.
  rewrite lookup_app_r by lia. rewrite lookup_drop, <-Hj. f_equal. lia.
Qed.

(** Overwriting with the right bytes keeps right bytes right. *)
Lemma write_at_agree off data (f g : bytes) j c :
  data `prefix_of` drop off g → f !! j = Some c → g !! j = Some c →
  write_at off data f !! j = Some c.
Proof.
  intros [k Hk] Hf Hg. destruct (decide (j < off)%nat); [by apply write_at_below|].
  destruct (decide (off + length data ≤ j)%nat); [by apply write_at_above|].
  replace j with (off + (j - off))%nat by lia. rewrite write_at_inside by lia.
  assert ((drop off g) !! (j - off)%nat = Some c) as Hd
    by (rewrite lookup_drop, <-Hg; f_equal; lia).
  rewrite Hk, lookup_app_l in Hd by lia. done.
Qed.

(** ** Growth of what is good *)

Definition grow s s' : Prop :=
  (∀ key i, bodies s !! key = Some i → bodies s' !! key = Some i)
  ∧ ∀ key x, good s key x → good s' key x.

Lemma grow_trans s1 s2 s3 : grow s1 s2 → grow s2 s3 → grow s1 s3.
Proof. intros [A1 A2] [B1 B2]. split; eauto. Qed.

Lemma meta_ok_grow s s' key m : grow s s' → meta_ok s key m → meta_ok s' key m.
Proof. intros [_ Hg] [Hw Hm]. split; eauto. Qed.

Lemma writer_ok_grow s s' w : grow s s' → writer_ok s w → writer_ok s' w.
Proof. intros [Hb Hg] (? & ? & ? & ? & ?). split_and!; eauto. Qed.

(** Changing one file's content, or creating one, keeps the store sound. *)
Lemma store_ok_files s bo ino :
  store_ok s → grow s (with_files s (metas s) bo ino) →
  (∀ k1 k2 i, bo !! k1 = Some i → bo !! k2 = Some i → k1 = k2) →
  (∀ key i, bo !! key = Some i → is_Some (ino !! i)) →
  store_ok (with_files s (metas s) bo ino).
Proof.
  intros [H1 H2 H3 H4 H5] Hg Hi Ha. split; cbn; try done;
    intros; eapply meta_ok_grow; eauto.
Qed.

Lemma grow_alter s key i (f : bytes → bytes) :
  store_ok s → bodies s !! key = Some i →
  (∀ g j c, inodes s !! i = Some g → g !! j = Some c → origin key !! j = Some c → f g !! j = Some c) →
  grow s (with_files s (metas s) (bodies s) (alter f i (inodes s))).
Proof.
  intros Hs Hb Hf. split; [done|]. intros key' x (Hx & i' & g & c & Hb' & Hg & Hj & Ho).
  split; [done|]. cbn. destruct (decide (i' = i)) as [->|Hne].
  - assert (key' = key) as -> by (by eapply so_inj). exists i, (f g), c.
    rewrite lookup_alter_eq, Hg. split_and!; try done. eauto.
  - exists i', g, c. by rewrite lookup_alter_ne.
Qed.

Lemma store_ok_alter s key i (f : bytes → bytes) :
  store_ok s → bodies s !! key = Some i →
  (∀ g j c, inodes s !! i = Some g → g !! j = Some c → origin key !! j = Some c → f g !! j = Some c) →
  store_ok (with_files s (metas s) (bodies s) (alter f i (inodes s))).
Proof.
  intros Hs Hb Hf. apply store_ok_files; [done|by eapply grow_alter|apply Hs|].
  intros k j Hk. apply lookup_alter_is_Some. by eapply so_alloc.
Qed.

Lemma open_body_ok s key :
  store_ok s →
  let '(i, s') := open_body s key in
  store_ok s' ∧ grow s s' ∧ bodies s' !! key = Some i ∧ metas s' = metas s ∧ MaxBytes s' = MaxBytes s.
Proof.
  intros Hs. unfold open_body. destruct (bodies s !! key) as [i|] eqn:Eb.
  - by split_and!.
  - set (i := fresh _). assert (inodes s !! i = None) as Hi by (apply not_elem_of_dom, is_fresh).
    assert (∀ k, bodies s !! k ≠ Some i) as Hno.
    { intros k Hk. destruct (so_alloc _ Hs _ _ Hk). congruence. }
    assert (grow s (with_files s (metas s) (<[key:=i]> (bodies s)) (<[i:=[]]> (inodes s)))) as Hg.
    { split; cbn.
      - intros k j Hk. rewrite lookup_insert_ne; [done|]. congruence.
      - intros k x (Hx & j & g & c & Hk & Hg & ?). split; [done|]. exists j, g, c. cbn.
        rewrite !lookup_insert_ne; [done|congruence..]. }
    split_and!; try done; [|cbn; apply lookup_insert_eq].
    apply store_ok_files; try done.
    + intros k1 k2 j. rewrite !lookup_insert_Some.
      intros [[<- <-]|[_ H1]] [[<- Hj]|[_ H2]]; try done; try by destruct (Hno _ H2).
      * subst. by destruct (Hno _ H1).
      * by eapply so_inj.
    + intros k j. rewrite lookup_insert_Some, lookup_insert_is_Some'.
      intros [[_ <-]|[_ Hk]]; [by left|right]. by eapply so_alloc.
Qed.

(** ** Steps that leave the files alone *)

(** Only counters differ. *)
Definition same_files s s' : Prop :=
  metas s' = metas s ∧ bodies s' = bodies s ∧ inodes s' = inodes s ∧ metaCache s' = metaCache s.

(** Only metadata, cache and counters differ. *)
Definition same_bodies s s' : Prop := bodies s' = bodies s ∧ inodes s' = inodes s.

(** Only the reservation or the checkpoint mark differ. *)
Definition same_writer w w' : Prop :=
  w_key w' = w_key w ∧ w_ino w' = w_ino w ∧ w_params w' = w_params w
  ∧ w_written w' = w_written w ∧ w_closed w' = w_closed w.

Lemma good_same s s' key x : same_bodies s s' → good s key x ↔ good s' key x.
Proof. intros [Hb Hi]. unfold good. by rewrite Hb, Hi. Qed.

Lemma grow_same s s' : same_bodies s s' → grow s s'.
Proof.
  intros Hs. split; [destruct Hs as [Hb _]; by rewrite Hb|]. intros key x. by rewrite (good_same s s' key x Hs).
Qed.

Lemma meta_ok_same s s' key m : same_bodies s s' → meta_ok s key m → meta_ok s' key m.
Proof. intros Hb. by apply meta_ok_grow, grow_same. Qed.

Lemma same_files_bodies s s' : same_files s s' → same_bodies s s'.
Proof. intros (_ & ? & ? & _). by split. Qed.

Lemma store_ok_same s s' : same_files s s' → store_ok s → store_ok s'.
Proof.
  intros Hsf [H1 H2 H3 H4 H5]. pose proof (grow_same _ _ (same_files_bodies _ _ Hsf)) as Hg.
  destruct Hsf as (Em & Eb & Ei & Ec). split; rewrite ?Em, ?Eb, ?Ei, ?Ec; try done;
    intros; eapply meta_ok_grow; eauto.
Qed.

Lemma writer_ok_same s s' w w' :
  same_bodies s s' → same_writer w w' → writer_ok s w → writer_ok s' w'.
Proof.
  intros Hs (Hk & Hi & Hp & Hw & _) Hok. apply (writer_ok_grow s s' w (grow_same _ _ Hs)) in Hok.
  unfold writer_ok in *. by rewrite Hk, Hi, Hp, Hw.
Qed.

Lemma same_files_trans s1 s2 s3 : same_files s1 s2 → same_files s2 s3 → same_files s1 s3.
Proof. intros (?&?&?&?) (?&?&?&?). split_and!; congruence. Qed.

Lemma same_bodies_trans s1 s2 s3 : same_bodies s1 s2 → same_bodies s2 s3 → same_bodies s1 s3.
Proof. intros (?&?) (?&?). split; congruence. Qed.

Lemma same_writer_trans w1 w2 w3 : same_writer w1 w2 → same_writer w2 w3 → same_writer w1 w3.
Proof. intros (?&?&?&?&?) (?&?&?&?&?). split_and!; congruence. Qed.

Lemma reserveQuota_same s n : same_files s (reserveQuota s n).2 ∧ MaxBytes (reserveQuota s n).2 = MaxBytes s.
Proof. unfold reserveQuota. repeat case_match; by split_and!. Qed.

Lemma releaseReservation_same s n : same_files s (releaseReservation s n).
Proof. unfold releaseReservation. by case_match. Qed.

Lemma account_same s t b m : same_files s (accountMetaTransition s t b m).2.
Proof. unfold accountMetaTransition. by case_match. Qed.

Lemma releaseReserved_same s w n :
  same_files s (releaseReserved s w n).1 ∧ same_writer w (releaseReserved s w n).2.
Proof.
  unfold releaseReserved. destruct (_ || _); [by split|].
  split; [apply releaseReservation_same|done].
Qed.

(** ** Publishing metadata *)

Lemma store_ok_meta s key m :
  store_ok s → meta_ok s key m →
  store_ok (with_files s (<[key := Some m]> (metas s)) (bodies s) (inodes s)).
Proof.
  intros [H1 H2 H3 H4 H5] Hm. split; cbn; try done.
  intros k m' [[-> [= ->]]|[_ Hk]]%lookup_insert_Some; [done|]. by apply H1.
Qed.

Lemma store_ok_add s key m :
  store_ok s → meta_ok s key m → store_ok (with_cache s (mc_add key m (metaCache s))).
Proof.
  intros [H1 H2 H3 H4 H5] Hm. destruct (mc_add_spec key m _ H2) as [Hok Hv].
  split; cbn; try done. intros k m' Hk. apply (lookup_weaken _ _ _ _ Hk) in Hv.
  apply lookup_insert_Some in Hv as [[-> <-]|[_ Hv]]; [done|]. by apply H3.
Qed.

Lemma writeMetaLocked_ok x s key m :
  store_ok s → meta_ok s key m →
  store_ok (writeMetaLocked x s key m).2 ∧ same_bodies s (writeMetaLocked x s key m).2.
Proof.
  intros Hs Hm. unfold writeMetaLocked. destruct (_ || _); [by split_and!|]. cbn.
  split; [by apply store_ok_meta|done].
Qed.

Lemma readMetaLocked_ok s key m :
  store_ok s → readMetaLocked s key = Some m → meta_ok s key m.
Proof. intros Hs Hr. unfold readMetaLocked in Hr. repeat case_match; simplify_eq. by apply Hs. Qed.

(** The span a writer adds is all good. *)
Lemma span_added s w spans :
  writer_ok s w → Forall wf_span spans → (∀ x, covered spans x → good s (w_key w) x) →
  let l := MergeSpans (spans ++
    [mkSpan (p_Start (w_params w)) (wrap64 (p_Start (w_params w) + w_written w))]) in
  Forall wf_span l ∧ ∀ x, covered l x → good s (w_key w) x.
Proof.
  intros (_ & Hs & Hw & Hm & Hg) Hwf Hc. cbv zeta. rewrite wrap64_id by zlia.
  assert (Forall wf_span (spans ++ [mkSpan (p_Start (w_params w)) (p_Start (w_params w) + w_written w)])) as Hall.
  { apply Forall_app. split; [done|]. repeat constructor. unfold wf_span. cbn. lia. }
  split; [by apply MergeSpans_canonical|]. intros x Hx.
  rewrite MergeSpans_covered in Hx by done.
  apply covered_app in Hx as [Hx|Hx]; [by apply Hc|]. apply covered_cons in Hx as [Hx|Hx].
  - apply Hg. exact Hx.
  - by apply covered_nil in Hx.
Qed.

Lemma old_or_new_ok s w old :
  store_ok s → readMetaLocked s (w_key w) = old →
  meta_ok s (w_key w) (match old with Some m => m | None => new_meta (w_params w) end).
Proof.
  intros Hs Hr. destruct old as [m|]; [by apply readMetaLocked_ok|].
  split; [constructor|]. intros x Hx. by apply covered_nil in Hx.
Qed.

Lemma commit_meta_ok s w :
  store_ok s → writer_ok s w → meta_ok s (w_key w) (commit_meta (readMetaLocked s (w_key w)) w).
Proof.
  intros Hs Hw. destruct (old_or_new_ok s w _ Hs eq_refl) as [Hwf Hc]. unfold commit_meta, meta_ok.
  cbn [Spans]. destruct (w_written w >? 0); [|done]. by apply span_added.
Qed.

Lemma checkpoint_meta_ok s w :
  store_ok s → writer_ok s w → meta_ok s (w_key w) (checkpoint_meta (readMetaLocked s (w_key w)) w).
Proof.
  intros Hs Hw. destruct (old_or_new_ok s w _ Hs eq_refl) as [Hwf Hc]. by apply span_added.
Qed.

(** ** Operations *)

(** What an operation does to the store as far as bytes are concerned. *)
Definition step_ok s s' : Prop := store_ok s' ∧ same_bodies s s'.

Lemma step_ok_trans s1 s2 s3 : step_ok s1 s2 → step_ok s2 s3 → step_ok s1 s3.
Proof. intros [_ H1] [H2 H3]. split; [done|]. by eapply same_bodies_trans. Qed.

Lemma step_ok_same s s' : store_ok s → same_files s s' → step_ok s s'.
Proof. intros Hs Hf. split; [by eapply store_ok_same|by apply same_files_bodies]. Qed.

(** Adding [m] to the cache and accounting for it, after it was written. *)
Lemma publish_ok s key m t b :
  store_ok s → meta_ok s key m →
  step_ok s (accountMetaTransition (with_cache s (mc_add key m (metaCache s))) t b m).2.
Proof.
  intros Hs Hm. eapply step_ok_trans.
  - split; [by apply store_ok_add|]. by split.
  - apply step_ok_same; [by apply store_ok_add|apply account_same].
Qed.

Lemma checkpoint_ok x s w :
  store_ok s → writer_ok s w →
  let '(_, s', w') := checkpoint x s w in step_ok s s' ∧ same_writer w w'.
Proof.
  intros Hs Hw. unfold checkpoint. destruct (_ =? _); [by split_and!|].
  pose proof (checkpoint_meta_ok s w Hs Hw) as Hm. set (m := checkpoint_meta _ w) in *.
  destruct (writeMetaLocked_ok x s _ m Hs Hm) as [Hs1 Hb1].
  destruct (writeMetaLocked x s (w_key w) m) as [[e|] s1]; cbn in Hs1, Hb1; [by split_and!|].
  assert (meta_ok s1 (w_key w) m) as Hm1 by (by apply (meta_ok_same s s1)).
  pose proof (publish_ok s1 (w_key w) m (metaTotal (readMetaLocked s (w_key w)))
    (bool_decide (is_Some (readMetaLocked s (w_key w)))) Hs1 Hm1) as Hp.
  destruct (accountMetaTransition _ _ _ _) as [acc s2]. cbn in Hp.
  destruct (releaseReserved_same s2 w acc) as [Hf Hw'].
  destruct (releaseReserved s2 w acc) as [s3 w3]. cbn in *. split.
  - eapply step_ok_trans; [by split|]. eapply step_ok_trans; [exact Hp|].
    apply step_ok_same; [apply Hp|done].
  - destruct Hw' as (?&?&?&?&?). by split_and!.
Qed.

Lemma commit_ok x s w :
  store_ok s → writer_ok s w →
  let '(_, s', w') := commit x s w in step_ok s s' ∧ same_writer w w'.
Proof.
  intros Hs Hw. unfold commit. pose proof (commit_meta_ok s w Hs Hw) as Hm.
  set (m := commit_meta _ w) in *.
  destruct (writeMetaLocked_ok x s _ m Hs Hm) as [Hs1 Hb1].
  destruct (writeMetaLocked x s (w_key w) m) as [[e|] s1]; cbn in Hs1, Hb1; [by split_and!|].
  destruct (maybeFsyncDir x s1); [by split_and!|].
  assert (meta_ok s1 (w_key w) m) as Hm1 by (by apply (meta_ok_same s s1)).
  pose proof (publish_ok s1 (w_key w) m (metaTotal (readMetaLocked s (w_key w)))
    (bool_decide (is_Some (readMetaLocked s (w_key w)))) Hs1 Hm1) as Hp.
  destruct (accountMetaTransition _ _ _ _) as [acc s2]. cbn in Hp.
  destruct (releaseReserved_same s2 w acc) as [Hf Hw'].
  destruct (releaseReserved s2 w acc) as [s3 w3]. cbn in *. split; [|done].
  eapply step_ok_trans; [by split|]. eapply step_ok_trans; [exact Hp|].
  apply step_ok_same; [apply Hp|done].
Qed.

Lemma Close_ok x s w :
  store_ok s → writer_ok s w → w_closed w = false →
  let '(_, s', w') := Close x s w in step_ok s s' ∧ w_closed w' = true.
Proof.
  intros Hs Hw Hc. unfold Close. rewrite Hc.
  assert (writer_ok s (with_closed w)) as Hw1 by exact Hw.
  pose proof (commit_ok x s _ Hs Hw1) as Hcm.
  destruct (commit x s (with_closed w)) as [[e s1] w1]. destruct Hcm as [Hst Hsw].
  destruct (releaseReserved_same s1 w1 (w_reserved (with_closed w))) as [Hf Hw'].
  destruct (releaseReserved s1 w1 _) as [s2 w2]. cbn in *. split.
  - eapply step_ok_trans; [exact Hst|]. apply step_ok_same; [apply Hst|done].
  - destruct Hw' as (_&_&_&_& ->). by destruct Hsw as (_&_&_&_& ->).
Qed.

Lemma BeginSegment_ok x s key p :
  store_ok s → is_int64 (p_Start p) →
  (p_Total p ≤ 0 ∨ p_Total p = Z.of_nat (length (origin key))) →
  let '(r, s') := BeginSegment x s key p in
  store_ok s' ∧ grow s s' ∧ match r with Ok w => w_closed w = false ∧ writer_ok s' w | Err _ => True end.
Proof.
  intros Hs Hp Ht. unfold BeginSegment, validateSegmentParams.
  destruct (beq key []); [by split_and!|]. destruct (p_Start p <? 0) eqn:Est; [by split_and!|].
  destruct (p_Length p <? -1); [by split_and!|]. destruct (p_Total p <? -1); [by split_and!|].
  destruct (_ || _); [|by split_and!].
  destruct (reserveQuota_same s (quotaReservationFor p)) as [Hq HM].
  destruct (reserveQuota s (quotaReservationFor p)) as [[e|] s1]; cbn in Hq, HM;
    pose proof (store_ok_same _ _ Hq Hs) as Hs1;
    pose proof (grow_same _ _ (same_files_bodies _ _ Hq)) as Hg1; [done|].
  assert (∀ s2 n, store_ok s2 → grow s s2 →
    store_ok (releaseReservation s2 n) ∧ grow s (releaseReservation s2 n) ∧ True) as Hrel.
  { intros s2 n H2 G2. pose proof (releaseReservation_same s2 n) as Hf. split_and!; [|..|done].
    - by eapply store_ok_same.
    - eapply grow_trans; [exact G2|]. by apply grow_same, same_files_bodies. }
  destruct (x_mkdir x); [by apply Hrel|]. destruct (x_open x); [by apply Hrel|].
  pose proof (open_body_ok s1 key Hs1) as Ho.
  destruct (open_body s1 key) as [i s2]. destruct Ho as (Hs2 & Hg2 & Hb2 & _).
  pose proof (grow_trans _ _ _ Hg1 Hg2) as Hg.
  destruct ((p_Total p >? 0) && x_truncate x); [by apply Hrel|].
  set (s3 := if p_Total p >? 0 then _ else s2).
  assert (store_ok s3 ∧ grow s s3 ∧ bodies s3 !! key = Some i) as (Hs3 & Hg3 & Hb3).
  { subst s3. destruct (p_Total p >? 0) eqn:Et; [|by split_and!].
    assert (∀ g j c, inodes s2 !! i = Some g → g !! j = Some c → origin key !! j = Some c →
      truncate (Z.to_nat (p_Total p)) g !! j = Some c) as Hkeep.
    { intros g j c _ Hj Hoj. apply truncate_lookup; [done|].
      apply lookup_lt_Some in Hoj. destruct Ht; lia. }
    split_and!; [by eapply store_ok_alter| |done].
    eapply grow_trans; [exact Hg|]. by eapply grow_alter. }
  destruct (x_seek x); [by apply Hrel|]. split_and!; try done. cbn.
  split_and!; try done; cbn; try zlia; intros; zlia.
Qed.

(** The bytes accepted by the file extend the good range of the writer. *)
Lemma file_write_ok s w data n :
  origin_small → store_ok s → writer_ok s w →
  take n data `prefix_of` drop (Z.to_nat (p_Start (w_params w) + w_written w)) (origin (w_key w)) →
  (n ≤ length data)%nat →
  let s' := with_files s (metas s) (bodies s)
    (alter (write_at (Z.to_nat (p_Start (w_params w) + w_written w)) (take n data)) (w_ino w) (inodes s)) in
  store_ok s' ∧ grow s s'
  ∧ writer_ok s' (if (0 <? n)%nat then with_written w (wrap64 (w_written w + Z.of_nat n)) else w).
Proof.
  intros Hsm Hs Hw Hpre Hn s'. pose proof Hw as (Hb & Hst & Hwr & Hmax & Hg).
  set (off := Z.to_nat _) in *.
  assert (∀ g j c, inodes s !! w_ino w = Some g → g !! j = Some c → origin (w_key w) !! j = Some c →
    write_at off (take n data) g !! j = Some c) as Hkeep.
  { intros g j c _ Hj Ho. by eapply write_at_agree. }
  assert (store_ok s') as Hs' by (by eapply store_ok_alter).
  assert (grow s s') as Hgr by (by eapply grow_alter).
  split_and!; try done. destruct (0 <? n)%nat eqn:En; [|by eapply writer_ok_grow].
  apply Nat.ltb_lt in En. assert (length (take n data) = n) as Hln by (rewrite length_take; lia).
  assert (Z.of_nat off + Z.of_nat n ≤ Z.of_nat (length (origin (w_key w)))) as Hlen.
  { apply prefix_length in Hpre. rewrite Hln, length_drop in Hpre. lia. }
  specialize (Hsm (w_key w)). rewrite wrap64_id by zlia.
  destruct (writer_ok_grow _ _ _ Hgr Hw) as (_ & _ & _ & _ & Hg').
  split_and!; cbn; try done; try zlia. intros z Hz.
  destruct (decide (z < p_Start (w_params w) + w_written w)); [by apply Hg'; lia|].
  destruct (so_alloc _ Hs _ _ Hb) as [g Hino]. destruct Hpre as [k Hk].
  destruct (lookup_lt_is_Some_2 (origin (w_key w)) (Z.to_nat z)) as [c Hc]; [lia|].
  split; [lia|]. exists (w_ino w), (write_at off (take n data) g), c. subst s'. cbn.
  rewrite lookup_alter_eq, Hino. split_and!; try done.
  replace (Z.to_nat z) with (off + (Z.to_nat z - off))%nat by lia.
  rewrite write_at_inside by lia.
  assert (drop off (origin (w_key w)) !! (Z.to_nat z - off)%nat = Some c) as Hd
    by (rewrite lookup_drop, <-Hc; f_equal; lia).
  rewrite Hk, lookup_app_l in Hd by lia. done.
Qed.


(** The admission of a dynamic write touches counters only. *)
Lemma write_admit_same s w len :
  let '(_, s1, w1) := write_admit s w len in same_files s s1 ∧ same_writer w w1.
Proof.
  unfold write_admit. destruct (w_dynamicQuota w); [|by split_and!].
  destruct (reserveQuota_same s len) as [Hq _].
  by destruct (reserveQuota s len) as [[e|] s1].
Qed.

Lemma write_file_ok s w data n :
  origin_small → store_ok s → (w_closed w = false → writer_ok s w) →
  (w_closed w = false →
    take n data `prefix_of` drop (Z.to_nat (p_Start (w_params w) + w_written w)) (origin (w_key w))
    ∧ (n ≤ length data)%nat) →
  (w_closed w = true → n = 0%nat) →
  let '(s', w') := write_file s w data n in
  store_ok s' ∧ grow s s' ∧ w_closed w' = w_closed w ∧ (w_closed w = false → writer_ok s' w').
Proof.
  intros Hsm Hs Hw Hpre Hcl. unfold write_file. set (off := Z.to_nat _) in *.
  set (s1 := with_files s _ _ _).
  set (wr := if (0 <? n)%nat then with_written w (wrap64 (w_written w + Z.of_nat n)) else w).
  assert (store_ok s1 ∧ grow s s1 ∧ (w_closed w = false → writer_ok s1 wr)) as (Hs1 & Hg1 & Hw1).
  { destruct (w_closed w) eqn:Ec.
    - assert (same_files s s1) as Hsf.
      { split_and!; try done. subst s1. cbn. apply alter_id. by rewrite (Hcl eq_refl). }
      split_and!; [by eapply store_ok_same|by apply grow_same, same_files_bodies|done].
    - destruct (Hpre eq_refl) as [Hp Hn]. 
      destruct (file_write_ok s w data n Hsm Hs (Hw eq_refl) Hp Hn) as (? & ? & ?). by split_and!. }
  clearbody s1.
  assert (∀ s2 w2, same_files s1 s2 → same_writer w w2 →
    let w' := if (0 <? n)%nat then with_written w2 (wrap64 (w_written w2 + Z.of_nat n)) else w2 in
    store_ok s2 ∧ grow s s2 ∧ w_closed w' = w_closed w ∧ (w_closed w = false → writer_ok s2 w')) as Hfin.
  { intros s2 w2 Hsf Hsw w'. assert (same_writer wr w') as Hsw'.
    { subst wr w'. destruct Hsw as (?&?&?&Hw2&?). destruct (0 <? n)%nat; [|done].
      split_and!; try done. cbn. by rewrite Hw2. }
    split_and!.
    - by eapply store_ok_same.
    - eapply grow_trans; [done|]. by apply grow_same, same_files_bodies.
    - destruct Hsw as (_&_&_&_&<-). subst w'. by destruct (0 <? n)%nat.
    - intros Hc. eapply writer_ok_same; [by apply same_files_bodies|done|auto]. }
  destruct (_ && _); [|by apply Hfin].
  destruct (releaseReserved_same s1 w (Z.of_nat (length data) - Z.of_nat n)) as [Hf Hsw].
  destruct (releaseReserved s1 w _) as [s2 w2]. by apply Hfin.
Qed.

Lemma write_checkpoint_ok x s w werr :
  store_ok s → (werr = false → writer_ok s w) →
  let '(s', w') := write_checkpoint x s w werr in step_ok s s' ∧ same_writer w w'.
Proof.
  intros Hs Hw. unfold write_checkpoint. destruct werr; [by split_and!|].
  destruct (_ && _); [|by split_and!]. pose proof (checkpoint_ok x s w Hs (Hw eq_refl)) as Hc.
  by destruct (checkpoint x s w) as [[e s1] w1].
Qed.

Lemma Write_ok x s w data n werr :
  origin_small → store_ok s → (w_closed w = false → writer_ok s w) →
  (w_closed w = false →
    take n data `prefix_of` drop (Z.to_nat (p_Start (w_params w) + w_written w)) (origin (w_key w))
    ∧ (n ≤ length data)%nat) →
  let '(_, s', w') := Write x s w data n werr in
  store_ok s' ∧ grow s s' ∧ w_closed w' = w_closed w ∧ (w_closed w = false → writer_ok s' w').
Proof.
  intros Hsm Hs Hw Hpre. unfold Write. destruct data as [|d data]; [by split_and!|].
  set (l := d :: data) in *. clearbody l.
  pose proof (write_admit_same s w (Z.of_nat (length l))) as Had.
  destruct (write_admit s w _) as [[qe s1] w1]. destruct Had as [Hf1 Hw1].
  pose proof (store_ok_same _ _ Hf1 Hs) as Hs1. pose proof (same_files_bodies _ _ Hf1) as Hb1.
  assert (w_closed w1 = w_closed w) as Hc1 by apply Hw1.
  assert (w_closed w1 = false → writer_ok s1 w1) as Hok1.
  { intros Hc. eapply writer_ok_same; [done..|]. apply Hw. congruence. }
  destruct qe as [e|].
  { split_and!; try done; [by apply grow_same|]. intros Hc. apply Hok1. congruence. }
  set (n' := if w_closed w then 0%nat else n).
  assert (w_closed w1 = false → take n' l `prefix_of`
    drop (Z.to_nat (p_Start (w_params w1) + w_written w1)) (origin (w_key w1)) ∧ (n' ≤ length l)%nat) as Hpre1.
  { destruct Hw1 as (-> & _ & -> & -> & ->). subst n'. intros Hc. rewrite Hc. by apply Hpre. }
  assert (w_closed w1 = true → n' = 0%nat) as Hcl1 by (rewrite Hc1; subst n'; by intros ->).
  pose proof (write_file_ok s1 w1 l n' Hsm Hs1 Hok1 Hpre1 Hcl1) as Hwf.
  destruct (write_file s1 w1 l n') as [s2 w2]. destruct Hwf as (Hs2 & Hg2 & Hc2 & Hok2).
  assert (werr || w_closed w = false → writer_ok s2 w2) as Hok2'.
  { intros [_ Hc]%orb_false_iff. apply Hok2. congruence. }
  pose proof (write_checkpoint_ok x s2 w2 (werr || w_closed w) Hs2 Hok2') as Hck.
  destruct (write_checkpoint x s2 w2 _) as [s3 w3]. destruct Hck as [[Hs3 Hb3] Hw3].
  split_and!; [done| | |].
  - eapply grow_trans; [by apply grow_same|]. eapply grow_trans; [done|by apply grow_same].
  - destruct Hw3 as (_&_&_&_& ->). congruence.
  - intros Hc. eapply writer_ok_same; [done..|]. apply Hok2. congruence.
Qed.


Lemma LoadMeta_ok s key :
  store_ok s →
  step_ok s (LoadMeta s key).2
  ∧ ∀ m, (LoadMeta s key).1 = Ok (Some m) → meta_ok s key m.
Proof.
  intros Hs. unfold LoadMeta.
  destruct (mc_get_spec key (metaCache s) (so_cache _ Hs)) as (Hv & Hok & Hview).
  destruct (mc_get key (metaCache s)) as [r c]. cbn in *.
  assert (step_ok s (with_cache s c)) as Hst.
  { split; [|by split]. destruct Hs. split; cbn; try done. by rewrite Hview. }
  destruct r as [m|]; cbn.
  { split; [done|]. intros m' [= <-]. by eapply so_view. }
  destruct (metas s !! key) as [[m|]|] eqn:Em; cbn; [|by split..].
  assert (meta_ok s key m) as Hm by (by eapply so_metas).
  split; [|by intros ? [= <-]].
  eapply step_ok_trans; [exact Hst|]. split; [|by split].
  apply store_ok_add; [apply Hst|done].
Qed.

(** Writing, syncing and publishing metadata known to be good. *)
Lemma StoreAlias_ok x s a c h p q : store_ok s → step_ok s (StoreAlias x s a c h p q).2.
Proof.
  intros Hs. unfold StoreAlias. destruct (_ || _); [by split|]. destruct (beq a c); [by split|].
  destruct (x_mkdir x); [by split|].
  destruct (match readMetaLocked s a with Some _ => _ | None => _ end); [by split|].
  set (m := mkMeta _ _ _ _ _ _ _ _ _ _ _ _ _ _).
  assert (meta_ok s a m) as Hm.
  { split; [constructor|]. intros z Hz. by apply covered_nil in Hz. }
  destruct (writeMetaLocked_ok x s a m Hs Hm) as [Hs1 Hb1].
  destruct (writeMetaLocked x s a m) as [[e|] s1]; cbn in Hs1, Hb1; [by split|].
  destruct (maybeFsyncDir x s1); [by split|].
  eapply step_ok_trans; [by split|]. apply publish_ok; [done|]. by apply (meta_ok_same s).
Qed.

Lemma StoreRedirect_ok x s k st h p q l ct e ex :
  store_ok s → step_ok s (StoreRedirect x s k st h p q l ct e ex).2.
Proof.
  intros Hs. unfold StoreRedirect. destruct (negb _); [by split|]. destruct (beq l []); [by split|].
  destruct (x_mkdir x); [by split|]. set (m := redirect_meta _ _ _ _ _ _ _ _ _).
  assert (meta_ok s k m) as Hm.
  { subst m. unfold redirect_meta. destruct (readMetaLocked s k) as [m|] eqn:Er.
    - destruct (readMetaLocked_ok _ _ _ Hs Er). by split.
    - split; [constructor|]. intros z Hz. by apply covered_nil in Hz. }
  destruct (writeMetaLocked_ok x s k m Hs Hm) as [Hs1 Hb1].
  destruct (writeMetaLocked x s k m) as [[er|] s1]; cbn in Hs1, Hb1; [by split|].
  destruct (maybeFsyncDir x s1); [by split|].
  eapply step_ok_trans; [by split|]. apply publish_ok; [done|]. by apply (meta_ok_same s).
Qed.

(** Removing a key forgets its bytes and keeps all others. *)
Lemma store_ok_remove s key :
  store_ok s →
  let s' := with_cache (with_files s (delete key (metas s)) (delete key (bodies s)) (inodes s))
    (mc_delete key (metaCache s)) in
  store_ok s' ∧ ∀ key' x, key' ≠ key → good s key' x → good s' key' x.
Proof.
  intros [H1 H2 H3 H4 H5] s'.
  assert (∀ key' x, key' ≠ key → good s key' x → good s' key' x) as Hg.
  { intros k x Hne (Hx & i & f & c & Hb & ?). split; [done|]. exists i, f, c.
    subst s'. cbn. by rewrite lookup_delete_ne. }
  destruct (mc_delete_spec key _ H2) as [Hok Hv]. split; [|done].
  assert (∀ k m, k ≠ key → meta_ok s k m → meta_ok s' k m) as Hm.
  { intros k m Hne [Hw Hc]. split; [done|]. auto. }
  split; cbn; try done.
  - intros k m [Hne Hk]%lookup_delete_Some. auto.
  - rewrite Hv. intros k m [Hne Hk]%lookup_delete_Some. auto.
  - intros k1 k2 i [_ Hk1]%lookup_delete_Some [_ Hk2]%lookup_delete_Some. eauto.
  - intros k i [_ Hk]%lookup_delete_Some. eauto.
Qed.

(** ** Purging *)

(** Keys satisfying [P] keep their file and its good bytes. *)
Definition survive (P : bytes → Prop) s s' : Prop :=
  ∀ key, P key → bodies s' !! key = bodies s !! key ∧ ∀ x, good s key x → good s' key x.

Lemma survive_trans P s1 s2 s3 : survive P s1 s2 → survive P s2 s3 → survive P s1 s3.
Proof.
  intros H1 H2 key Hk. destruct (H1 key Hk) as [E1 G1], (H2 key Hk) as [E2 G2].
  split; [congruence|auto].
Qed.

Lemma survive_same P s s' : same_bodies s s' → survive P s s'.
Proof. intros Hb key _. split; [by destruct Hb as [-> _]|]. intros x. by rewrite (good_same s s'). Qed.

Definition decision_ok (P : bytes → Prop) (key : bytes) (m : Meta) (d : PurgeDecision * option Meta) : Prop :=
  match d with
  | (DecisionKeep, _) | (DecisionTrim, None) => True
  | (DecisionTrim, Some t) => Spans t = Spans m
  | (DecisionRemove, _) => ¬ P key
  end.

Lemma purge_one_ok P x rmerr s res key m d :
  store_ok s → readMetaLocked s key = Some m → decision_ok P key m d →
  store_ok (purge_one x rmerr s res key m d).1.2
  ∧ survive P s (purge_one x rmerr s res key m d).1.2.
Proof.
  intros Hs Hr Hd. destruct d as [[| |] t].
  - split; [done|by apply survive_same].
  - destruct t as [t|]; cbn; [|split; [done|by apply survive_same]].
    assert (meta_ok s key t) as Ht.
    { cbn in Hd. unfold meta_ok. rewrite Hd. by apply readMetaLocked_ok. }
    destruct (writeMetaLocked_ok x s key t Hs Ht) as [Hs1 Hb1].
    destruct (writeMetaLocked x s key t) as [[e|] s1]; cbn in *; [by split; [|apply survive_same]|].
    split; [|by apply survive_same]. apply store_ok_add; [done|]. by apply (meta_ok_same s).
  - cbn. destruct rmerr; [split; [done|by apply survive_same]|].
    destruct (store_ok_remove s key Hs) as [Hrm Hg]. set (s1 := with_cache _ _) in Hrm, Hg.
    assert (∀ s2, same_files s1 s2 → store_ok s2 ∧ survive P s s2) as Hfin.
    { intros s2 Hsf. split; [by eapply store_ok_same|].
      eapply survive_trans; [|by apply survive_same, same_files_bodies].
      intros k Hk. assert (k ≠ key) by (intros ->; by apply Hd).
      split; [subst s1; cbn; by rewrite lookup_delete_ne|auto]. }
    apply Hfin. unfold purge_account. repeat case_match; by split_and!.
Qed.

Lemma purge_walk_ok P x rmerr d s res keys :
  store_ok s → (∀ key m, decision_ok P key m (d key m)) →
  store_ok (purge_walk x rmerr d s res keys).1.2
  ∧ survive P s (purge_walk x rmerr d s res keys).1.2.
Proof.
  intros Hs Hd. revert s res Hs. induction keys as [|key keys IH]; intros s res Hs; cbn.
  { split; [done|by apply survive_same]. }
  destruct (readMetaLocked s key) as [m|] eqn:Er; [|by apply IH].
  destruct (purge_one_ok P x rmerr s res key m (d key m) Hs Er (Hd key m)) as [Hs1 Hv1].
  destruct (purge_one x rmerr s res key m (d key m)) as [[[e|] s1] res1]; [by split|]. cbn in *.
  destruct (IH s1 res1 Hs1) as [Hs2 Hv2]. split; [done|]. by eapply survive_trans.
Qed.

(** ** The invariant over histories *)

Lemma sys_ok_grow y s' : sys_ok y → store_ok s' → grow (sys_store y) s' → sys_ok (mkSys s' (sys_writers y)).
Proof.
  intros [_ Hw] Hs Hg. split; [done|]. intros id w Hid Hc. eapply writer_ok_grow; [done|]. by eapply Hw.
Qed.

Lemma sys_ok_step y s' : sys_ok y → step_ok (sys_store y) s' → sys_ok (mkSys s' (sys_writers y)).
Proof. intros Hy [Hs Hb]. apply sys_ok_grow; [done..|by apply grow_same]. Qed.

Lemma sys_ok_update y s' id w' :
  sys_ok y → store_ok s' → grow (sys_store y) s' → (w_closed w' = false → writer_ok s' w') →
  sys_ok (mkSys s' (<[id := w']> (sys_writers y))).
Proof.
  intros Hy Hs Hg Hw'. destruct (sys_ok_grow y s' Hy Hs Hg) as [_ Hw]. split; [done|]. cbn.
  intros id' w [[-> <-]|[_ Hid]]%lookup_insert_Some Hc; [auto|]. by eapply Hw.
Qed.

Lemma restart_files s c :
  metas (restart s c) = metas s ∧ bodies (restart s c) = bodies s
  ∧ inodes (restart s c) = inodes s ∧ metaCache (restart s c) = c.
Proof. unfold restart, NewStoreWithOptions. repeat case_match; done. Qed.

Lemma sstep_ok y o : origin_small → sys_ok y → faithful y o → sys_ok (sstep y o).
Proof.
  intros Hsm Hy Hf. pose proof Hy as [Hs Hw].
  destruct o as [x key p|x id data n werr|x id|key|x a c h p q|x k st h p q l ct e ex|x rm d order|c]; cbn in Hf |- *.
  - destruct Hf as [Hp Ht]. pose proof (BeginSegment_ok x _ key p Hs Hp Ht) as Hb.
    destruct (BeginSegment x (sys_store y) key p) as [[w|e] s1]; destruct Hb as (Hs1 & Hg & Hr).
    + apply sys_ok_update; [done..|]. intros _. apply Hr.
    + by apply sys_ok_grow.
  - destruct (sys_writers y !! id) as [w|] eqn:Eid; [|done].
    pose proof (Write_ok x _ w data n werr Hsm Hs (Hw _ _ Eid) (Hf w eq_refl)) as Hwr.
    destruct (Write x (sys_store y) w data n werr) as [[r s1] w1]. destruct Hwr as (Hs1 & Hg & Hc & Hok).
    apply sys_ok_update; [done..|]. intros Hc1. apply Hok. congruence.
  - destruct (sys_writers y !! id) as [w|] eqn:Eid; [|done].
    destruct (w_closed w) eqn:Ec.
    + unfold Close. rewrite Ec. apply sys_ok_update; [done..|by apply grow_same|]. congruence.
    + pose proof (Close_ok x _ w Hs (Hw _ _ Eid Ec) Ec) as Hcl.
      destruct (Close x (sys_store y) w) as [[r s1] w1]. destruct Hcl as [[Hs1 Hb1] Hc].
      apply sys_ok_update; [done..|by apply grow_same|]. congruence.
  - apply sys_ok_step; [done|]. by apply LoadMeta_ok.
  - apply sys_ok_step; [done|]. by apply StoreAlias_ok.
  - apply sys_ok_step; [done|]. by apply StoreRedirect_ok.
  - unfold PurgeOrTrim. set (P key := ∃ id w, sys_writers y !! id = Some w ∧ w_closed w = false ∧ w_key w = key).
    destruct (purge_walk_ok P x rm d (sys_store y) (mkPurge 0 0 0) order Hs) as [Hs1 Hv].
    { intros key m. specialize (Hf key m). unfold decision_ok. destruct (d key m) as [[| |] [t|]]; try done;
        intros (id & w & Hid & Hc & Hk); by eapply Hf. }
    split; [done|]. cbn. intros id w Hid Hc. destruct (Hw id w Hid Hc) as (Hb & ? & ? & ? & Hg).
    destruct (Hv (w_key w)) as [Eb Hg']; [by exists id, w|].
    split_and!; try done; [by rewrite Eb|auto].
  - destruct Hf as [Hok Hv]. destruct (restart_files (sys_store y) c) as (Em & Eb & Ei & Ec). split; [|done]. cbn.
    assert (same_bodies (sys_store y) (restart (sys_store y) c)) as Hsb by done.
    destruct Hs. split; rewrite ?Em, ?Eb, ?Ei, ?Ec, ?Hv; try done.
    intros key m Hk. eapply meta_ok_same; eauto.
Qed.

(** Good bytes of a range make the slices of file and object equal. *)
Lemma good_slice s key a b :
  0 ≤ a < b → (∀ x, a ≤ x < b → good s key x) →
  read_body s key a b
  = Some (take (Z.to_nat (b - a)) (drop (Z.to_nat a) (origin key))).
Proof.
  intros Hab Hg. destruct (Hg a ltac:(lia)) as (_ & i & f & c & Hb & Hi & _).
  unfold read_body. rewrite Hb. cbn. rewrite Hi. cbn. f_equal.
  apply list_eq. intros j. destruct (decide (j < Z.to_nat (b - a))%nat).
  - rewrite !lookup_take_lt, !lookup_drop by done.
    destruct (Hg (a + Z.of_nat j) ltac:(lia)) as (_ & i' & f' & c' & Hb' & Hi' & Hf & Ho).
    simplify_eq. replace (Z.to_nat a + j)%nat with (Z.to_nat (a + Z.of_nat j)) by lia. congruence.
  - rewrite !lookup_take_ge by lia. done.
Qed.

Lemma empty_sys_ok maxBytes dir file c :
  mc_ok c → mc_view c = ∅ → sys_ok (mkSys (empty_store maxBytes dir file c) ∅).
Proof.
  intros Hok Hv. split; [|done]. cbn.
  assert (same_files (mkStore maxBytes dir file ∅ ∅ ∅ c 0 0 0) (empty_store maxBytes dir file c)) as Hsf.
  { unfold empty_store, NewStoreWithOptions. repeat case_match; by split_and!. }
  eapply store_ok_same; [exact Hsf|]. split; cbn; rewrite ?Hv; set_solver.
Qed.

(** Covered bytes of loaded metadata are good after every history. *)
Lemma loaded_good maxBytes dir file c os key m a b :
  origin_small → mc_ok c → mc_view c = ∅ →
  all_ops faithful (mkSys (empty_store maxBytes dir file c) ∅) os →
  let s := sys_store (srun (mkSys (empty_store maxBytes dir file c) ∅) os) in
  (LoadMeta s key).1 = Ok (Some m) → a < b → Covers (Spans m) a b = true →
  0 ≤ a ∧ ∀ x, a ≤ x < b → good s key x.
Proof.
  intros Hsm Hok Hv Hall s Hl Hab Hc.
  assert (sys_ok (srun (mkSys (empty_store maxBytes dir file c) ∅) os)) as [Hs _].
  { eapply srun_inv; [|by apply empty_sys_ok|exact Hall]. intros y o Hy Ho. by apply sstep_ok. }
  destruct (LoadMeta_ok s key Hs) as [_ Hm]. destruct (Hm m Hl) as [Hwf Hgood].
  rewrite Covers_spec in Hc by done. split; [|auto].
  destruct (Hgood a) as [? _]; [apply Hc; lia|done].
Qed.

(** ** Properties *)


End bytes.

(** ** Concrete histories *)

Definition no_faults : faults := mkFaults false false false false false false false false.

Definition hello : bytes := bs "hello world".

(** A segment of [hello] fetched by range, and one fetched as a chunked 200. *)
Definition range_params (start len : Z) : SegmentParams :=
  mkParams 206 (bs "huggingface.co") (bs "/f") [] (bs "e") [] start len 11 ∅ [].
Definition chunked_params : SegmentParams :=
  mkParams 200 (bs "huggingface.co") (bs "/f") [] (bs "e") [] 0 (-1) (-1) ∅ [].

Definition sys0 : Sys (lru Meta) := mkSys (empty_store 1000 true false newMetaCache) ∅.

Lemma hello_small : origin_small (fun _ => hello).
Proof. intros key. vm_compute. discriminate. Qed.

(** Two writers of one key; the second fails to sync the directory, and the
    process restarts before a third request. *)
Definition history : list (sop (lru Meta)) :=
  [SBegin no_faults (bs "k") (range_params 0 5); SBegin no_faults (bs "k") (range_params 6 5);
   SWrite no_faults 0 (bs "hello") 5 false; SWrite no_faults 1 (bs "world") 5 false;
   SClose (mkFaults false false false false false true false false) 1;
   SClose no_faults 0; SRestart newMetaCache; SLoad (bs "k")].

(** Discharges [all_ops faithful] of a concrete history, one operation at a
    time. *)
Ltac faithful_ops :=
  repeat match goal with
  | |- all_ops _ _ [] => exact I
  | |- all_ops _ _ (_ :: _) => split
  end;
  try exact newMetaCache_ok; try exact I;
  try (intros w Hw _; vm_compute in Hw; injection Hw as <-; split; vm_compute;
       [eexists; reflexivity|repeat constructor]);
  try (split; [vm_compute; split; discriminate|vm_compute; by (left + right)]).

Lemma history_faithful : all_ops (faithful (fun _ => hello)) sys0 history.
Proof. unfold history. faithful_ops. Qed.


(** Purging a key while one of its writers is open. *)
Definition purge_history : list (sop (lru Meta)) :=
  [SBegin no_faults (bs "k") (range_params 0 5); SWrite no_faults 0 (bs "hello") 5 false;
   SBegin no_faults (bs "k") (range_params 6 5); SWrite no_faults 1 (bs "world") 5 false;
   SClose no_faults 1;
   SPurge no_faults false (fun _ _ => (DecisionRemove, None)) [bs "k"];
   SBegin no_faults (bs "k") (range_params 6 5); SWrite no_faults 2 (bs "world") 5 false;
   SClose no_faults 2; SClose no_faults 0].

(** A purge during a download corrupts the cache. With every operation
    faithful but a purge of a key that is being written, the open writer keeps
    its unlinked file and on [Close] records its span in the new object's
    metadata; the range is then served from the cache as zeros. *)
Theorem purge_during_write_corrupts :
  ∃ (origin : bytes → bytes) os key m a b,
    origin_small origin
    ∧ all_ops (fun y o => match o with SPurge _ _ _ _ => True | _ => faithful origin y o end) sys0 os
    ∧ (LoadMeta (sys_store (srun sys0 os)) key).1 = Ok (Some m)
    ∧ Covers (Spans m) a b = true
    ∧ read_body (sys_store (srun sys0 os)) key a b = Some (replicate 5 0)
    ∧ take (Z.to_nat (b - a)) (drop (Z.to_nat a) (origin key)) = bs "hello".
Proof.
  exists (fun _ => hello), purge_history, (bs "k"). eexists. exists 0, 5. split_and!.
  - exact hello_small.
  - unfold purge_history. faithful_ops.
  - vm_compute. reflexivity.
  - vm_compute. reflexivity.
  - vm_compute. reflexivity.
  - reflexivity.
Qed.

(** An interrupted transfer of unknown length is recorded as complete.
    [Close] after 5 of 11 bytes of a chunked 200 stores [Total] = 5 with
    status 200 and full coverage, though only a prefix was received. *)
Theorem chunked_abort_recorded_complete :
  ∃ (origin : bytes → bytes) os key m,
    origin_small origin ∧ all_ops (faithful origin) sys0 os
    ∧ (LoadMeta (sys_store (srun sys0 os)) key).1 = Ok (Some m)
    ∧ StatusCode m = 200 ∧ Total m = Some 5 ∧ Covers (Spans m) 0 5 = true
    ∧ length (origin key) = 11%nat.
Proof.
  exists (fun _ => hello), [SBegin no_faults (bs "k") chunked_params;
    SWrite no_faults 0 (bs "hello") 5 false; SClose no_faults 0], (bs "k"). eexists. split_and!.
  - exact hello_small.
  - faithful_ops.
  - vm_compute. reflexivity.
  - reflexivity.
  - reflexivity.
  - reflexivity.
  - reflexivity.
Qed.
