(* ===== verification/StoreQuota.v ===== *)
(** * The quota and the counters

    [usedBytes], [reservedBytes] and [entryCount] against what is on disk and
    what the open writers reserved, over histories of the store. *)

From stdpp Require Import base strings numbers gmap list relations.
From S2P Require Import Prelude GoStd Spans Store StoreTrace MetaLru Lru.

Local Open Scope Z_scope.

Definition mcount (mf : option Meta) : Z := match mf with Some _ => 1 | None => 0 end.

(** ** [reserveQuota] one atomic access at a time *)

(** Where a thread is inside the loop of [reserveQuota(n)]. *)
Inductive rq_pc :=
| RqLoadUsed
| RqLoadReserved (used : Z)
| RqSwap (used reserved : Z)
| RqGranted
| RqRefused.

(** One access: the new program counter and the new [reservedBytes]. *)
Definition rq_step (max n : Z) (pc : rq_pc) (used reserved : Z) : rq_pc * Z :=
  match pc with
  | RqLoadUsed => if (max <=? 0) || (n <=? 0) then (RqGranted, reserved) else (RqLoadReserved used, reserved)
  | RqLoadReserved u =>
      if (u >=? max) || (wrap64 (wrap64 (u + reserved) + n) >? max)
      then (RqRefused, reserved) else (RqSwap u reserved, reserved)
  | RqSwap u r => if reserved =? r then (RqGranted, wrap64 (r + n)) else (RqLoadUsed, reserved)
  | RqGranted | RqRefused => (pc, reserved)
  end.

(** Another thread inside [commit]: [usedBytes] is raised by
    [accountMetaTransition], then [reservedBytes] lowered by
    [releaseReservation]. *)
Inductive cm_pc := CmAccount (d : Z) | CmRelease (d : Z) | CmDone.

Definition cm_step (pc : cm_pc) (used reserved : Z) : cm_pc * Z * Z :=
  match pc with
  | CmAccount d => (CmRelease d, wrap64 (used + d), reserved)
  | CmRelease d => (CmDone, used, wrap64 (reserved - d))
  | CmDone => (CmDone, used, reserved)
  end.

Record RState := mkR { r_used : Z; r_reserved : Z; r_rq : rq_pc; r_cm : cm_pc }.

Inductive rstep (max n : Z) : RState → RState → Prop :=
| RS_reserve st pc r :
    rq_step max n (r_rq st) (r_used st) (r_reserved st) = (pc, r) →
    rstep max n st (mkR (r_used st) r pc (r_cm st))
| RS_commit st pc u r :
    cm_step (r_cm st) (r_used st) (r_reserved st) = (pc, u, r) →
    rstep max n st (mkR u r (r_rq st) pc).

(** The accesses with nothing in between. *)
Definition rq_alone (max n used reserved : Z) : rq_pc * Z :=
  let '(pc, r) := rq_step max n RqLoadUsed used reserved in
  let '(pc, r) := rq_step max n pc used r in
  rq_step max n pc used r.

Section quota.
Context {C : Type} `{MetaCache C}.
Implicit Types (s : Store C) (y : Sys C) (w : SegmentWriter).

(** The upstream size of each key. *)
Context (T : bytes → Z).

(** The counters describe the metadata files. *)
Definition acct_ok s : Prop :=
  usedBytes s = gsum metaTotal (metas s) ∧ entryCount s = wrap64 (gsum mcount (metas s)).

Definition reserved_of y : Z := gsum w_reserved (sys_writers y).

Definition writer_quota s w : Prop :=
  0 ≤ w_reserved w ≤ T (w_key w) ∧ w_dynamicQuota w = false
  ∧ (w_closed w = true → w_reserved w = 0)
  ∧ (w_closed w = false → p_Total (w_params w) = T (w_key w)
      ∧ (metaTotal (readMetaLocked s (w_key w)) = T (w_key w) ∨ w_reserved w = T (w_key w))).

Definition quota_ok (max : Z) y : Prop :=
  let s := sys_store y in
  MaxBytes s = max ∧ acct_ok s ∧ reservedBytes s = reserved_of y
  ∧ usedBytes s + reservedBytes s ≤ max
  ∧ ∀ id w, sys_writers y !! id = Some w → writer_quota s w.

(** Every key is positive-sized and no sum with the quota overflows. *)
Definition sizes_ok (max : Z) : Prop :=
  0 < max ∧ ∀ key, 0 < T key ∧ T key + max ≤ int64_max.

(** Segments of known, stable size; directory syncs that succeed; aliases and
    removals away from the keys being written; trims that keep the total. *)
Definition sized y (o : sop C) : Prop :=
  let synced x := fsyncDir (sys_store y) = false ∨ x_fsyncDir x = false in
  let idle key := ∀ id w, sys_writers y !! id = Some w → w_closed w = false → w_key w ≠ key in
  match o with
  | SBegin _ key p => p_Total p = T key
  | SWrite _ _ _ _ _ | SLoad _ | SRestart _ => True
  | SClose x _ => synced x
  | SRedirect x _ _ _ _ _ _ _ _ _ => synced x
  | SAlias x a _ _ _ _ => synced x ∧ idle a
  | SPurge _ _ d _ => ∀ key m,
      match d key m with
      | (DecisionKeep, _) | (DecisionTrim, None) => True
      | (DecisionTrim, Some t) => Total t = Total m
      | (DecisionRemove, _) => idle key
      end
  end.

(** ** Totals *)

Lemma metaTotal_nonneg m : 0 ≤ metaTotal m.
Proof. unfold metaTotal. repeat case_match; lia. Qed.

Lemma metaTotal_read s key : from_option metaTotal 0 (metas s !! key) = metaTotal (readMetaLocked s key).
Proof. unfold readMetaLocked. by destruct (metas s !! key) as [[m|]|]. Qed.

Lemma mcount_read s key :
  from_option mcount 0 (metas s !! key) = if bool_decide (is_Some (readMetaLocked s key)) then 1 else 0.
Proof. unfold readMetaLocked. by destruct (metas s !! key) as [[m|]|]. Qed.

Lemma total_le_used s key : acct_ok s → metaTotal (readMetaLocked s key) ≤ usedBytes s.
Proof.
  intros [-> _]. rewrite <-metaTotal_read. destruct (metas s !! key) as [mf|] eqn:E; cbn.
  - eapply gsum_lookup; [|done]. intros. apply metaTotal_nonneg.
  - apply gsum_nonneg. intros. apply metaTotal_nonneg.
Qed.

Lemma used_nonneg s : acct_ok s → 0 ≤ usedBytes s.
Proof. intros [-> _]. apply gsum_nonneg. intros. apply metaTotal_nonneg. Qed.

(** Replacing the metadata of [key] by [m] and accounting for it. *)
Lemma publish_acct s s1 key m :
  acct_ok s → 0 < MaxBytes s ≤ int64_max → usedBytes s ≤ int64_max →
  metas s1 = <[key := Some m]> (metas s) → MaxBytes s1 = MaxBytes s → usedBytes s1 = usedBytes s →
  reservedBytes s1 = reservedBytes s → entryCount s1 = entryCount s →
  let old := readMetaLocked s key in
  let t := metaTotal (Some m) in
  t ≤ int64_max → usedBytes s + t - metaTotal old ≤ int64_max →
  let r := accountMetaTransition s1 (metaTotal old) (bool_decide (is_Some old)) m in
  acct_ok r.2 ∧ usedBytes r.2 = usedBytes s + t - metaTotal old ∧ metas r.2 = metas s1
  ∧ reservedBytes r.2 = reservedBytes s ∧ MaxBytes r.2 = MaxBytes s ∧ fsyncDir r.2 = fsyncDir s1
  ∧ r.1 = Z.max 0 (t - metaTotal old).
Proof.
  intros Hok HM Hu Hms HM1 Hu1 Hr1 Hc1 old t Ht Hsum.
  pose proof (total_le_used s key Hok) as Hold. fold old in Hold.
  pose proof (metaTotal_nonneg old). pose proof (metaTotal_nonneg (Some m)) as Ht0. fold t in Ht0.
  destruct Hok as [Hused Hcnt]. assert (metaTotal (Some m) = t) as Et by done. clearbody t.
  unfold accountMetaTransition. rewrite HM1, Et. destruct (MaxBytes s <=? 0) eqn:E; [lia|]. cbn.
  rewrite Hu1, Hr1, Hc1.
  assert ((if t =? metaTotal old then usedBytes s
    else wrap64 (usedBytes s + wrap64 (t - metaTotal old))) = usedBytes s + t - metaTotal old) as ->.
  { case_match; [lia|]. rewrite (wrap64_id (t - _)) by zlia. rewrite wrap64_id by zlia. lia. }
  split_and!; try done.
  - split; cbn; rewrite Hms, gsum_insert.
    + rewrite metaTotal_read, Et. fold old. lia.
    + rewrite mcount_read. fold old. rewrite Hcnt. cbn. destruct (bool_decide _).
      * f_equal. lia.
      * rewrite wrap64_add_l. f_equal. lia.
  - destruct (t >? metaTotal old) eqn:Eg; [rewrite wrap64_id by zlia|]; lia.
Qed.

(** Releasing [n] of a writer's reservation, clipped to what it has. *)
Lemma releaseReserved_exact s w n :
  is_int64 (reservedBytes s) → 0 ≤ w_reserved w ≤ reservedBytes s → 0 ≤ n →
  let r := releaseReserved s w n in
  reservedBytes r.1 = reservedBytes s - Z.min n (w_reserved w)
  ∧ w_reserved r.2 = w_reserved w - Z.min n (w_reserved w)
  ∧ metas r.1 = metas s ∧ usedBytes r.1 = usedBytes s ∧ entryCount r.1 = entryCount s
  ∧ MaxBytes r.1 = MaxBytes s ∧ fsyncDir r.1 = fsyncDir s
  ∧ w_key r.2 = w_key w ∧ w_params r.2 = w_params w
  ∧ w_closed r.2 = w_closed w ∧ w_dynamicQuota r.2 = w_dynamicQuota w.
Proof.
  intros Hr Hw Hn. unfold releaseReserved. destruct (_ || _) eqn:E; cbn.
  - split_and!; try done; lia.
  - assert ((if n >? w_reserved w then w_reserved w else n) = Z.min n (w_reserved w)) as ->
      by (case_match; lia).
    unfold releaseReservation. destruct (Z.min n (w_reserved w) <=? 0) eqn:E2; [lia|]. cbn.
    split_and!; try done; rewrite wrap64_id; zlia.
Qed.

(** ** Steps of one writer *)

(** Totals that reached the known size stay there. *)
Definition keep_totals s s' : Prop :=
  ∀ key, metaTotal (readMetaLocked s key) = T key → metaTotal (readMetaLocked s' key) = T key.

(** Everything the quota needs of a step made by one writer. *)
Definition wstep s w s' w' : Prop :=
  MaxBytes s' = MaxBytes s ∧ acct_ok s' ∧ keep_totals s s'
  ∧ usedBytes s' + reservedBytes s' ≤ usedBytes s + reservedBytes s
  ∧ reservedBytes s' - w_reserved w' = reservedBytes s - w_reserved w
  ∧ 0 ≤ w_reserved w' ≤ w_reserved w
  ∧ w_key w' = w_key w ∧ w_params w' = w_params w ∧ w_dynamicQuota w' = w_dynamicQuota w
  ∧ (w_closed w' = false →
      metaTotal (readMetaLocked s' (w_key w)) = T (w_key w) ∨ w_reserved w' = w_reserved w).

(** The store before a writer's step. *)
Definition wpre max s w : Prop :=
  MaxBytes s = max ∧ acct_ok s ∧ usedBytes s + reservedBytes s ≤ max
  ∧ 0 ≤ w_reserved w ≤ reservedBytes s
  ∧ p_Total (w_params w) = T (w_key w)
  ∧ (metaTotal (readMetaLocked s (w_key w)) = T (w_key w) ∨ w_reserved w = T (w_key w)).

Lemma wstep_refl s w : acct_ok s → 0 ≤ w_reserved w → wstep s w s w.
Proof. intros Hs Hw. unfold wstep, keep_totals. split_and!; try done; auto; lia. Qed.

Lemma read_insert s s' key m key' :
  metas s' = <[key := Some m]> (metas s) →
  readMetaLocked s' key' = if decide (key' = key) then Some m else readMetaLocked s key'.
Proof.
  intros E. unfold readMetaLocked. rewrite E. case_decide; subst.
  - by rewrite lookup_insert_eq.
  - by rewrite lookup_insert_ne.
Qed.

(** Publishing metadata of the known size, then releasing what it accounts for. *)
Lemma publish_release max s s1 w m :
  sizes_ok max → wpre max s w → metaTotal (Some m) = T (w_key w) →
  metas s1 = <[w_key w := Some m]> (metas s) → MaxBytes s1 = MaxBytes s →
  usedBytes s1 = usedBytes s → reservedBytes s1 = reservedBytes s → entryCount s1 = entryCount s →
  let old := readMetaLocked s (w_key w) in
  let '(acc, s2) := accountMetaTransition s1 (metaTotal old) (bool_decide (is_Some old)) m in
  let '(s3, w3) := releaseReserved s2 w acc in
  wstep s w s3 w3 ∧ w_closed w3 = w_closed w.
Proof.
  intros [Hmax Hsz] (HM & Hok & Hb & Hw & _ & Hcase) Hm E1 E2 E3 E4 E5 old.
  destruct (Hsz (w_key w)) as [HT0 HT]. pose proof (used_nonneg s Hok) as Hu0.
  pose proof (total_le_used s (w_key w) Hok) as Hle. pose proof (metaTotal_nonneg old) as Ho0. fold old in Hle, Hcase.
  pose proof (publish_acct s s1 (w_key w) m Hok ltac:(zlia) ltac:(zlia) E1 E2 E3 E4 E5) as Hp.
  cbv zeta in Hp. fold old in Hp. rewrite Hm in Hp.
  specialize (Hp ltac:(zlia) ltac:(zlia)).
  destruct (accountMetaTransition s1 _ _ m) as [acc s2]. cbn in Hp.
  destruct Hp as (Hok2 & Hu2 & Hms2 & Hr2 & HM2 & _ & ->).
  pose proof (releaseReserved_exact s2 w (Z.max 0 (T (w_key w) - metaTotal old))
    ltac:(rewrite Hr2; zlia) ltac:(rewrite Hr2; lia) ltac:(lia)) as Hrel. cbv zeta in Hrel.
  destruct (releaseReserved s2 w _) as [s3 w3]. cbn in Hrel.
  destruct Hrel as (Hr3 & Hw3 & Hms3 & Hu3 & Hc3 & HM3 & _ & Hk3 & Hp3 & Hcl3 & Hd3).
  assert (metas s3 = <[w_key w := Some m]> (metas s)) as Hms by congruence.
  assert (acct_ok s3) as Hok3 by (unfold acct_ok in *; by rewrite Hms3, Hu3, Hc3).
  split; [|done]. unfold wstep. split_and!; try done; try congruence; try lia.
  - intros key Hkey. rewrite (read_insert s s3 _ m key Hms). case_decide; [by subst|done].
  - intros _. left. rewrite (read_insert s s3 _ m _ Hms), decide_True by done. done.
Qed.

Lemma commit_total old w : 0 < p_Total (w_params w) → metaTotal (Some (commit_meta old w)) = p_Total (w_params w).
Proof. intros Hp. unfold commit_meta, metaTotal. cbn. destruct (p_Total (w_params w) >? 0) eqn:E; [case_match|]; lia. Qed.

Lemma checkpoint_total old w : 0 < p_Total (w_params w) → metaTotal (Some (checkpoint_meta old w)) = p_Total (w_params w).
Proof. intros Hp. unfold checkpoint_meta, metaTotal. cbn. destruct (p_Total (w_params w) >? 0) eqn:E; [case_match|]; lia. Qed.

Lemma checkpoint_quota max x s w :
  sizes_ok max → wpre max s w →
  let '(_, s', w') := checkpoint x s w in wstep s w s' w' ∧ w_closed w' = w_closed w.
Proof.
  intros Hsz Hpre. pose proof Hpre as (HM & Hok & Hb & Hw & HT & _).
  unfold checkpoint. destruct (_ =? _); [by split; [apply wstep_refl; [done|lia]|]|].
  unfold writeMetaLocked. destruct (_ || _); [by split; [apply wstep_refl; [done|lia]|]|].
  pose proof (publish_release max s (with_cache (with_files s
    (<[w_key w := Some (checkpoint_meta (readMetaLocked s (w_key w)) w)]> (metas s)) (bodies s) (inodes s))
    (mc_add (w_key w) (checkpoint_meta (readMetaLocked s (w_key w)) w) (metaCache s))) w _ Hsz Hpre
    ltac:(rewrite checkpoint_total, HT; [done|destruct Hsz as [_ Hk]; rewrite HT; apply Hk])
    eq_refl eq_refl eq_refl eq_refl eq_refl) as Hp. cbv zeta in Hp. cbn in Hp |- *.
  destruct (accountMetaTransition _ _ _ _) as [acc s2].
  destruct (releaseReserved s2 w acc) as [s3 w3]. done.
Qed.

Lemma commit_quota max x s w :
  sizes_ok max → wpre max s w → (fsyncDir s = false ∨ x_fsyncDir x = false) →
  let '(_, s', w') := commit x s w in wstep s w s' w' ∧ w_closed w' = w_closed w.
Proof.
  intros Hsz Hpre Hsync. pose proof Hpre as (HM & Hok & Hb & Hw & HT & _).
  unfold commit, writeMetaLocked. destruct (_ || _); [by split; [apply wstep_refl; [done|lia]|]|].
  unfold maybeFsyncDir. cbn.
  replace (fsyncDir s && x_fsyncDir x) with false by (destruct Hsync as [-> | ->]; by rewrite ?andb_false_r).
  pose proof (publish_release max s (with_cache (with_files s
    (<[w_key w := Some (commit_meta (readMetaLocked s (w_key w)) w)]> (metas s)) (bodies s) (inodes s))
    (mc_add (w_key w) (commit_meta (readMetaLocked s (w_key w)) w) (metaCache s))) w _ Hsz Hpre
    ltac:(rewrite commit_total, HT; [done|destruct Hsz as [_ Hk]; rewrite HT; apply Hk])
    eq_refl eq_refl eq_refl eq_refl eq_refl) as Hp. cbv zeta in Hp. cbn in Hp |- *.
  destruct (accountMetaTransition _ _ _ _) as [acc s2].
  destruct (releaseReserved s2 w acc) as [s3 w3]. done.
Qed.

Lemma Close_quota max x s w :
  sizes_ok max → wpre max s w → (fsyncDir s = false ∨ x_fsyncDir x = false) → w_closed w = false →
  let '(_, s', w') := Close x s w in wstep s w s' w' ∧ w_closed w' = true ∧ w_reserved w' = 0.
Proof.
  intros Hsz Hpre Hsync Hcl. unfold Close. rewrite Hcl.
  pose proof (commit_quota max x s (with_closed w) Hsz Hpre Hsync) as Hc.
  destruct (commit x s (with_closed w)) as [[e s1] w1]. destruct Hc as [Hst Hcl1].
  destruct Hst as (HM1 & Hok1 & Hk1 & Hle1 & Hr1 & Hw1 & Hkey1 & Hp1 & Hd1 & Hor1). cbn in Hr1, Hw1, Hkey1, Hp1, Hd1, Hcl1.
  destruct Hpre as (HM & Hok & Hb & Hw & _). pose proof (used_nonneg _ Hok1).
  pose proof (used_nonneg _ Hok). destruct Hsz as [Hmax Hsz]. pose proof (Hsz []).
  pose proof (releaseReserved_exact s1 w1 (w_reserved w) ltac:(zlia) ltac:(lia) ltac:(lia)) as Hrel. cbv zeta in Hrel.
  destruct (releaseReserved s1 w1 _) as [s2 w2]. cbn in Hrel |- *.
  destruct Hrel as (Hr2 & Hw2 & Hms2 & Hu2 & Hc2 & HM2 & _ & Hk2 & Hp2 & Hcl2 & Hd2).
  assert (acct_ok s2) as Hok2 by (unfold acct_ok in *; by rewrite Hms2, Hu2, Hc2).
  split_and!; [|congruence|lia]. unfold wstep. split_and!; try congruence; try lia; try done.
  intros key Hkey. unfold readMetaLocked. rewrite Hms2. by apply Hk1.
Qed.

Lemma Write_quota max x s w data n werr :
  sizes_ok max → acct_ok s → 0 ≤ w_reserved w → w_dynamicQuota w = false →
  (w_closed w = false → wpre max s w) →
  let '(_, s', w') := Write x s w data n werr in wstep s w s' w' ∧ w_closed w' = w_closed w.
Proof.
  intros Hsz Hok Hw0 Hdyn Hpre. unfold Write. destruct data as [|d data]; [by split; [apply wstep_refl|]|].
  unfold write_admit. rewrite Hdyn. unfold write_file. rewrite Hdyn. cbn [andb].
  set (n' := if w_closed w then _ else n). set (s1 := with_files s _ _ _).
  set (w1 := if (0 <? n')%nat then with_written w (wrap64 (w_written w + Z.of_nat n')) else w).
  assert (wstep s w s1 w1 ∧ w_closed w1 = w_closed w ∧ w_reserved w1 = w_reserved w) as (Hst1 & Hc1 & Hr1).
  { subst w1. unfold wstep. destruct (0 <? n')%nat; split_and!; try done; cbn; try lia; by intros key. }
  unfold write_checkpoint. destruct (negb _ && _ && _) eqn:E; [|done].
  assert (w_closed w = false) as Hcl.
  { destruct (w_closed w); [|done]. rewrite orb_true_r in E. done. }
  assert (wpre max s1 w1) as Hpre1.
  { subst w1. destruct (0 <? n')%nat; exact (Hpre Hcl). }
  pose proof (checkpoint_quota max x s1 w1 Hsz Hpre1) as Hck.
  destruct (checkpoint x s1 w1) as [[e s2] w2]. destruct Hck as [Hst2 Hc2]. split; [|congruence].
  destruct Hst1 as (?&?&?&?&?&?&Hk1&?&?&_), Hst2 as (?&?&?&?&?&?&?&?&?&Ho2).
  unfold wstep. split_and!; try congruence; try lia; try done; try (intros key Hk; by auto).
  intros Hc. rewrite <-Hk1, <-Hr1. auto.
Qed.

(** ** Admission *)

Lemma reserveQuota_exact max s n :
  MaxBytes s = max → 0 < n → n + max ≤ int64_max → 0 ≤ usedBytes s → 0 ≤ reservedBytes s →
  usedBytes s + reservedBytes s ≤ max → 0 < max →
  (reserveQuota s n).1 = None ∧ usedBytes s + reservedBytes s + n ≤ max
    ∧ (reserveQuota s n).2 = with_counters s (usedBytes s) (reservedBytes s + n) (entryCount s)
  ∨ (reserveQuota s n).1 = Some EQuotaExceeded ∧ (reserveQuota s n).2 = s
    ∧ (max ≤ usedBytes s ∨ max < usedBytes s + reservedBytes s + n).
Proof.
  intros HM Hn Hov Hu Hr Hb Hmax. unfold reserveQuota. rewrite HM.
  destruct (_ || (n <=? 0)) eqn:E1; [lia|].
  rewrite (wrap64_id (usedBytes s + reservedBytes s)) by zlia.
  rewrite (wrap64_id (usedBytes s + reservedBytes s + n)) by zlia.
  rewrite (wrap64_id (reservedBytes s + n)) by zlia.
  destruct ((usedBytes s >=? max) || _) eqn:E2.
  - right. split_and!; [done..|]. apply orb_true_iff in E2. lia.
  - left. apply orb_false_iff in E2. split_and!; [done| |done]. lia.
Qed.

(** A release that undoes a reservation. *)
Lemma release_undoes s u r e n :
  is_int64 r → 0 < n →
  usedBytes (releaseReservation (with_counters s u (r + n) e) n) = u
  ∧ reservedBytes (releaseReservation (with_counters s u (r + n) e) n) = r
  ∧ entryCount (releaseReservation (with_counters s u (r + n) e) n) = e.
Proof.
  intros Hr Hn. unfold releaseReservation. destruct (n <=? 0) eqn:E; [lia|]. cbn.
  replace (r + n - n) with r by lia. by rewrite wrap64_id.
Qed.

(** Same metadata and counters, but for the reservations. *)
Definition same_acct s s' : Prop :=
  metas s' = metas s ∧ usedBytes s' = usedBytes s ∧ entryCount s' = entryCount s
  ∧ MaxBytes s' = MaxBytes s.

Lemma same_acct_ok s s' : same_acct s s' → acct_ok s → acct_ok s'.
Proof. unfold acct_ok. intros (-> & -> & -> & _). done. Qed.

Lemma releaseReservation_acct s n :
  same_acct s (releaseReservation s n).
Proof. unfold releaseReservation. by case_match. Qed.

Lemma open_body_acct s key :
  same_acct s (open_body s key).2 ∧ reservedBytes (open_body s key).2 = reservedBytes s.
Proof. unfold open_body. by case_match. Qed.

Lemma BeginSegment_quota max x s key p :
  sizes_ok max → MaxBytes s = max → acct_ok s → 0 ≤ reservedBytes s →
  usedBytes s + reservedBytes s ≤ max → p_Total p = T key →
  let '(r, s') := BeginSegment x s key p in
  same_acct s s' ∧
  match r with
  | Ok w => reservedBytes s' = reservedBytes s + T key ∧ usedBytes s + reservedBytes s + T key ≤ max
      ∧ w = mkWriter key (w_ino w) p 0 0 false (T key) false
  | Err _ => reservedBytes s' = reservedBytes s
  end.
Proof.
  intros Hsz HM Hok Hr0 Hb Hp. pose proof Hsz as [Hmax Hk]. destruct (Hk key) as [HT0 HT].
  pose proof (used_nonneg s Hok) as Hu0. unfold BeginSegment.
  destruct (validateSegmentParams key p); [done|].
  assert (quotaReservationFor p = T key) as ->.
  { unfold quotaReservationFor. rewrite Hp. case_match; lia. }
  destruct (reserveQuota_exact max s (T key) HM HT0 HT Hu0 Hr0 Hb Hmax) as [(H1 & Hle & H2)|(H1 & H2 & _)];
    destruct (reserveQuota s (T key)) as [e s1]; cbn in H1, H2; subst e s1; [|done].
  set (s1 := with_counters _ _ _ _).
  assert (∀ s2, same_acct s1 s2 → reservedBytes s2 = reservedBytes s1 →
    same_acct s (releaseReservation s2 (T key))
    ∧ reservedBytes (releaseReservation s2 (T key)) = reservedBytes s) as Hrel.
  { intros s2 Hs2 Hr2. destruct (releaseReservation_acct s2 (T key)) as (A1 & A2 & A3 & A4).
    destruct Hs2 as (B1 & B2 & B3 & B4). split.
    { split_and!; [rewrite A1, B1|rewrite A2, B2|rewrite A3, B3|rewrite A4, B4]; done. }
    unfold releaseReservation. destruct (T key <=? 0) eqn:E; [lia|]. cbn. rewrite Hr2. cbn.
    replace (reservedBytes s + T key - T key) with (reservedBytes s) by lia. apply wrap64_id. zlia. }
  destruct (x_mkdir x); [by apply Hrel|]. destruct (x_open x); [by apply Hrel|].
  destruct (open_body_acct s1 key) as [Ho Hor]. destruct (open_body s1 key) as [i s2]. cbn in Ho, Hor.
  destruct (_ && x_truncate x); [by apply Hrel|].
  set (s3 := if p_Total p >? 0 then _ else s2).
  assert (same_acct s1 s3 ∧ reservedBytes s3 = reservedBytes s1) as [Hs3 Hr3] by (subst s3; by case_match).
  destruct (x_seek x); [by apply Hrel|].
  split_and!; [exact Hs3|rewrite Hr3; done|done|]. cbn. f_equal.
  destruct (T key =? 0) eqn:E; [lia|]. done.
Qed.

(** ** The invariant over histories *)

Lemma writer_quota_keep s s' w : keep_totals s s' → writer_quota s w → writer_quota s' w.
Proof.
  intros Hk (H1 & H2 & H3 & H4). split_and!; try done; try apply H1.
  intros Hc. destruct (H4 Hc) as [Hp [Hm|Hr]]; split; try done; [left; by apply Hk|by right].
Qed.

Lemma quota_wpre max y id w :
  quota_ok max y → sys_writers y !! id = Some w → w_closed w = false → wpre max (sys_store y) w.
Proof.
  intros (HM & Hok & Hr & Hb & Hw) Hid Hc. destruct (Hw id w Hid) as (H1 & _ & _ & H4).
  destruct (H4 Hc) as [Hp Hcase]. unfold wpre. split_and!; try done; [apply H1|].
  rewrite Hr. apply (gsum_lookup w_reserved _ id); [|done].
  intros k w' Hw'. by apply (Hw k w' Hw').
Qed.

Lemma reserved_nonneg max y : quota_ok max y → 0 ≤ reservedBytes (sys_store y).
Proof.
  intros (_ & _ & -> & _ & Hw). apply gsum_nonneg. intros k w Hk. by apply (Hw k w Hk).
Qed.

Lemma quota_update max y id w s' w' :
  quota_ok max y → sys_writers y !! id = Some w → wstep (sys_store y) w s' w' →
  (w_closed w' = true → w_reserved w' = 0) →
  (w_closed w' = false → w_closed w = false ∧
    (metaTotal (readMetaLocked s' (w_key w)) = T (w_key w) ∨ w_reserved w' = T (w_key w))) →
  quota_ok max (mkSys s' (<[id := w']> (sys_writers y))).
Proof.
  intros Hy Hid Hst Hcl Hop. pose proof Hy as (HM & Hok & Hr & Hb & Hw).
  destruct Hst as (HM' & Hok' & Hkeep & Hle & Hr' & Hw' & Hkey & Hp & Hd & _).
  split_and!; cbn; try done; [congruence|..].
  - unfold reserved_of. cbn. rewrite gsum_insert, Hid. cbn. unfold reserved_of in Hr. lia.
  - lia.
  - intros id' v [[<- <-]|[_ Hv]]%lookup_insert_Some; [|by eapply writer_quota_keep, Hw].
    destruct (Hw id w Hid) as (W1 & W2 & W3 & W4). unfold writer_quota. rewrite Hkey, Hp, Hd.
    split_and!; try done; try lia; try congruence.
    intros Hc. destruct (Hop Hc) as [Hc0 ?]. split; [by apply W4|done].
Qed.

Lemma quota_store max y s' :
  quota_ok max y → MaxBytes s' = max → acct_ok s' → keep_totals (sys_store y) s' →
  reservedBytes s' = reservedBytes (sys_store y) → usedBytes s' ≤ usedBytes (sys_store y) →
  quota_ok max (mkSys s' (sys_writers y)).
Proof.
  intros (HM & Hok & Hr & Hb & Hw) HM' Hok' Hk Hr' Hu. split_and!; cbn; try done.
  - by rewrite Hr', Hr.
  - lia.
  - intros id w Hid. eapply writer_quota_keep; eauto.
Qed.

Lemma LoadMeta_acct s key :
  same_acct s (LoadMeta s key).2 ∧ reservedBytes (LoadMeta s key).2 = reservedBytes s.
Proof. unfold LoadMeta. destruct (mc_get key (metaCache s)) as [[m|] c]; [done|]. cbn. by repeat case_match. Qed.

Lemma keep_same s s' : metas s' = metas s → keep_totals s s'.
Proof. intros E key. unfold readMetaLocked. by rewrite E. Qed.

(** A write of metadata whose total is the old one, or less and idle. *)
Lemma publish_store max s s1 key m :
  sizes_ok max → MaxBytes s = max → acct_ok s → usedBytes s ≤ max →
  metaTotal (Some m) ≤ metaTotal (readMetaLocked s key) →
  metas s1 = <[key := Some m]> (metas s) → MaxBytes s1 = MaxBytes s → usedBytes s1 = usedBytes s →
  reservedBytes s1 = reservedBytes s → entryCount s1 = entryCount s →
  let old := readMetaLocked s key in
  let s2 := (accountMetaTransition s1 (metaTotal old) (bool_decide (is_Some old)) m).2 in
  MaxBytes s2 = max ∧ acct_ok s2 ∧ metas s2 = <[key := Some m]> (metas s)
  ∧ reservedBytes s2 = reservedBytes s ∧ usedBytes s2 ≤ usedBytes s.
Proof.
  intros [Hmax Hsz] HM Hok Hu Hm E1 E2 E3 E4 E5. cbv zeta. pose proof (Hsz []).
  pose proof (total_le_used s key Hok). pose proof (metaTotal_nonneg (Some m)).
  pose proof (publish_acct s s1 key m Hok ltac:(zlia) ltac:(zlia) E1 E2 E3 E4 E5) as Hp.
  cbv zeta in Hp. specialize (Hp ltac:(zlia) ltac:(zlia)).
  destruct (accountMetaTransition s1 _ _ m) as [acc s2]. cbn [fst snd] in *.
  destruct Hp as (Hok2 & Hu2 & Hms2 & Hr2 & HM2 & _). split_and!; try done; try congruence; lia.
Qed.

Lemma redirect_total old st h p q l ct e ex :
  metaTotal (Some (redirect_meta old st h p q l ct e ex)) = metaTotal old.
Proof. unfold redirect_meta, metaTotal. by destruct old. Qed.

Lemma SRedirect_quota max y x k st h p q l ct e ex :
  sizes_ok max → quota_ok max y → (fsyncDir (sys_store y) = false ∨ x_fsyncDir x = false) →
  quota_ok max (mkSys (StoreRedirect x (sys_store y) k st h p q l ct e ex).2 (sys_writers y)).
Proof.
  intros Hsz Hy Hsync. pose proof Hy as (HM & Hok & Hr & Hb & _).
  pose proof (reserved_nonneg _ _ Hy) as Hr0.
  assert (quota_ok max (mkSys (sys_store y) (sys_writers y))) as Hid by (by destruct y).
  unfold StoreRedirect. destruct (negb _); [done|]. destruct (beq l []); [done|].
  destruct (x_mkdir x) eqn:Ex; [done|]. unfold writeMetaLocked. rewrite Ex.
  destruct (x_writeMeta x); cbn [orb]; [done|]. unfold maybeFsyncDir. cbn [fsyncDir with_files].
  replace (fsyncDir (sys_store y) && x_fsyncDir x) with false by (destruct Hsync as [-> | ->]; by rewrite ?andb_false_r).
  set (m := redirect_meta _ _ _ _ _ _ _ _ _).
  assert (metaTotal (Some m) = metaTotal (readMetaLocked (sys_store y) k)) as Hmt by apply redirect_total.
  clearbody m.
  set (s1 := with_files _ _ _ _).
  destruct (publish_store max (sys_store y) (with_cache s1 (mc_add k m (metaCache s1))) k m) as (A1 & A2 & A3 & A4 & A5); try done; [lia|lia|].
  cbn [snd]. apply quota_store; try done. intros key Hkey.
  erewrite (read_insert (sys_store y) _ k m key); [|exact A3].
  case_decide; [subst; congruence|done].
Qed.

Lemma SAlias_quota max y x a c h p q :
  sizes_ok max → quota_ok max y → sized y (SAlias x a c h p q) →
  quota_ok max (mkSys (StoreAlias x (sys_store y) a c h p q).2 (sys_writers y)).
Proof.
  intros Hsz Hy [Hsync Hidle]. pose proof Hy as (HM & Hok & Hr & Hb & Hw).
  pose proof (reserved_nonneg _ _ Hy) as Hr0.
  assert (quota_ok max (mkSys (sys_store y) (sys_writers y))) as Hid by (by destruct y).
  unfold StoreAlias. destruct (_ || _); [done|]. destruct (beq a c); [done|].
  destruct (x_mkdir x) eqn:Ex; [done|].
  destruct (match readMetaLocked (sys_store y) a with Some _ => _ | None => _ end); [done|].
  unfold writeMetaLocked. rewrite Ex. destruct (x_writeMeta x); cbn [orb]; [done|].
  unfold maybeFsyncDir. cbn [fsyncDir with_files].
  replace (fsyncDir (sys_store y) && x_fsyncDir x) with false by (destruct Hsync as [-> | ->]; by rewrite ?andb_false_r).
  set (m := mkMeta _ _ _ _ _ _ _ _ _ _ _ _ _ _).
  set (s1 := with_files _ _ _ _).
  destruct (publish_store max (sys_store y) (with_cache s1 (mc_add a m (metaCache s1))) a m) as (A1 & A2 & A3 & A4 & A5); try done; [lia|apply metaTotal_nonneg|].
  split_and!; try done; cbn [snd sys_store sys_writers].
  - rewrite A4. done.
  - lia.
  - intros id w Hid'. destruct (Hw id w Hid') as (W1 & W2 & W3 & W4). split_and!; try done; try apply W1.
    intros Hc. destruct (W4 Hc) as [Hp [Hm|Hm]]; split; try done; [left|by right].
    erewrite (read_insert (sys_store y) _ a m); [|exact A3].
    rewrite decide_False; [done|]. by eapply Hidle.
Qed.

(** ** Purges and restarts *)

(** A purge step that leaves the keys of [P] at their size. *)
Definition pstep (P : bytes → Prop) s s' : Prop :=
  MaxBytes s' = MaxBytes s ∧ acct_ok s' ∧ reservedBytes s' = reservedBytes s
  ∧ usedBytes s' ≤ usedBytes s
  ∧ ∀ key, P key → metaTotal (readMetaLocked s key) = T key → metaTotal (readMetaLocked s' key) = T key.

Lemma pstep_refl P s : acct_ok s → pstep P s s.
Proof. intros Hs. unfold pstep. by split_and!. Qed.

Lemma pstep_trans P s1 s2 s3 : pstep P s1 s2 → pstep P s2 s3 → pstep P s1 s3.
Proof.
  intros (A1 & A2 & A3 & A4 & A5) (B1 & B2 & B3 & B4 & B5).
  split_and!; try congruence; try done; [lia|]. auto.
Qed.

Definition decision_sized (P : bytes → Prop) (key : bytes) (m : Meta) (d : PurgeDecision * option Meta) : Prop :=
  match d with
  | (DecisionKeep, _) | (DecisionTrim, None) => True
  | (DecisionTrim, Some t) => Total t = Total m
  | (DecisionRemove, _) => ¬ P key
  end.

Lemma read_metas s key m : readMetaLocked s key = Some m → metas s !! key = Some (Some m).
Proof. unfold readMetaLocked. intros. by repeat case_match; simplify_eq. Qed.

Lemma trim_pstep P s s1 key m t :
  acct_ok s → readMetaLocked s key = Some m → Total t = Total m →
  metas s1 = <[key := Some t]> (metas s) → MaxBytes s1 = MaxBytes s → usedBytes s1 = usedBytes s →
  reservedBytes s1 = reservedBytes s → entryCount s1 = entryCount s → pstep P s s1.
Proof.
  intros [Hu Hc] Hr Ht E1 E2 E3 E4 E5. apply read_metas in Hr as Hm.
  assert (metaTotal (Some t) = metaTotal (Some m)) as Ett by (unfold metaTotal; by rewrite Ht).
  split_and!; try done; [|lia|].
  - split; rewrite E1, ?E3, ?E5, gsum_insert, Hm, ?Hu, ?Hc; cbn [from_option].
    + rewrite Ett. lia.
    + f_equal. cbn. lia.
  - intros k _ Hk. rewrite (read_insert s s1 key t k E1). case_decide; [subst|done].
    rewrite Hr in Hk. congruence.
Qed.

Lemma purge_account_exact s freed :
  0 < MaxBytes s → 0 ≤ usedBytes s - Z.max 0 freed → usedBytes s ≤ int64_max →
  let s' := purge_account s freed in
  usedBytes s' = usedBytes s - Z.max 0 freed ∧ reservedBytes s' = reservedBytes s
  ∧ entryCount s' = wrap64 (entryCount s - 1) ∧ MaxBytes s' = MaxBytes s ∧ metas s' = metas s.
Proof.
  intros HM H0 Hu. unfold purge_account.
  assert ((MaxBytes s >? 0) = true) as E by lia. rewrite E. cbn [andb].
  destruct (freed >? 0) eqn:Ef; cbn; rewrite E; cbn; split_and!; try done; [rewrite wrap64_id by zlia|]; lia.
Qed.

Lemma remove_pstep P s s1 key m :
  0 < MaxBytes s → usedBytes s ≤ int64_max → acct_ok s → readMetaLocked s key = Some m → ¬ P key →
  metas s1 = delete key (metas s) → MaxBytes s1 = MaxBytes s → usedBytes s1 = usedBytes s →
  reservedBytes s1 = reservedBytes s → entryCount s1 = entryCount s →
  pstep P s (purge_account s1 (match Total m with Some t => t | None => 0 end)).
Proof.
  intros HM Hmax Hok Hr HP E1 E2 E3 E4 E5. apply read_metas in Hr as Hm.
  pose proof (total_le_used s key Hok) as Hle. rewrite Hr in Hle. pose proof (metaTotal_nonneg (Some m)) as H0.
  destruct Hok as [Hu Hc]. set (freed := match Total m with Some t => t | None => 0 end).
  assert (metaTotal (Some m) = Z.max 0 freed) as Ef.
  { subst freed. unfold metaTotal. destruct (Total m); [case_match|]; lia. }
  destruct (purge_account_exact s1 freed) as (A1 & A2 & A3 & A4 & A5); [lia..|].
  set (s2 := purge_account s1 freed) in *. clearbody s2.
  split_and!; [congruence|split|congruence|lia|].
  - rewrite A1, A5, E1, E3, (gsum_delete _ _ _ _ Hm). lia.
  - rewrite A3, A5, E1, E5, (gsum_delete _ _ _ _ Hm), Hc. by rewrite <-Z.add_opp_r, wrap64_add_l.
  - intros k Hk. unfold readMetaLocked. rewrite A5, E1, lookup_delete_ne; [done|]. by intros ->.
Qed.

Lemma purge_one_quota P x rmerr s res key m d :
  0 < MaxBytes s → usedBytes s ≤ int64_max → acct_ok s → readMetaLocked s key = Some m →
  decision_sized P key m d → pstep P s (purge_one x rmerr s res key m d).1.2.
Proof.
  intros HM Hmax Hok Hr Hd. destruct d as [[| |] t]; cbn.
  - by apply pstep_refl.
  - destruct t as [t|]; [|by apply pstep_refl]. unfold writeMetaLocked.
    destruct (_ || _); [by apply pstep_refl|]. by eapply (trim_pstep P s _ key m t).
  - destruct rmerr; [by apply pstep_refl|].
    exact (remove_pstep P s (with_files s (delete key (metas s)) (delete key (bodies s)) (inodes s)) key m
      HM Hmax Hok Hr Hd eq_refl eq_refl eq_refl eq_refl eq_refl).
Qed.

Lemma purge_walk_quota P x rmerr d s res keys :
  0 < MaxBytes s → usedBytes s ≤ int64_max → acct_ok s →
  (∀ key m, decision_sized P key m (d key m)) → pstep P s (purge_walk x rmerr d s res keys).1.2.
Proof.
  intros HM Hmax Hok Hd. revert s res HM Hmax Hok. induction keys as [|key keys IH]; intros s res HM Hmax Hok; cbn.
  { by apply pstep_refl. }
  destruct (readMetaLocked s key) as [m|] eqn:Er; [|by apply IH].
  pose proof (purge_one_quota P x rmerr s res key m (d key m) HM Hmax Hok Er (Hd key m)) as H1.
  destruct (purge_one x rmerr s res key m (d key m)) as [[[e|] s1] res1]; [done|]. cbn in *.
  eapply pstep_trans; [exact H1|]. destruct H1 as (A1 & A2 & A3 & A4 & _). apply IH; [lia|lia|done].
Qed.

Lemma scan_counts (ms : gmap bytes (option Meta)) :
  map_fold (fun _ mf (acc : Z * Z) =>
    match mf with
    | Some m => (wrap64 (acc.1 + metaTotal (Some m)), wrap64 (acc.2 + 1))
    | None => acc
    end) (0, 0) ms = (wrap64 (gsum metaTotal ms), wrap64 (gsum mcount ms)).
Proof.
  apply (map_fold_weak_ind
    (fun r m => r = (wrap64 (gsum metaTotal m), wrap64 (gsum mcount m)))).
  - by rewrite !gsum_empty.
  - intros k mf ms' r Hk ->. rewrite !gsum_insert_None by done. destruct mf as [m|]; cbn [fst snd mcount].
    + rewrite !wrap64_add_l. do 2 f_equal; lia.
    + done.
Qed.

Lemma new_store_counters maxBytes dir file ms bo ino c :
  0 < maxBytes →
  let s := NewStoreWithOptions (C := C) maxBytes dir file ms bo ino c in
  MaxBytes s = maxBytes ∧ metas s = ms ∧ usedBytes s = wrap64 (gsum metaTotal ms)
  ∧ entryCount s = wrap64 (gsum mcount ms) ∧ reservedBytes s = 0.
Proof.
  intros Hm. unfold NewStoreWithOptions, scanUsageCounters. cbn [metas].
  destruct (maxBytes >? 0) eqn:E; [|lia]. rewrite scan_counts. done.
Qed.

Lemma restart_quota max y c :
  sizes_ok max → quota_ok max y → quota_ok max (mkSys (restart (sys_store y) c) ∅).
Proof.
  intros [Hmax Hsz] Hy. pose proof Hy as (HM & Hok & Hr & Hb & _). pose proof (Hsz []).
  pose proof (reserved_nonneg _ _ Hy). pose proof (used_nonneg _ Hok). destruct Hok as [Hu Hc].
  destruct (new_store_counters (MaxBytes (sys_store y)) (fsyncDir (sys_store y)) (fsyncFile (sys_store y))
    (metas (sys_store y)) (bodies (sys_store y)) (inodes (sys_store y)) c) as (A1 & A2 & A3 & A4 & A5); [lia|].
  rewrite wrap64_id in A3 by zlia. unfold restart. split_and!; cbn; try done; [congruence|..].
  - split; [by rewrite A3, A2|by rewrite A4, A2].
  - rewrite A3, A5. lia.
Qed.

Lemma sstep_quota max y o : sizes_ok max → quota_ok max y → sized y o → quota_ok max (sstep y o).
Proof.
  intros Hsz Hy Hf. pose proof Hy as (HM & Hok & Hr & Hb & Hw). pose proof (reserved_nonneg _ _ Hy) as Hr0.
  pose proof (used_nonneg _ Hok) as Hu0. pose proof Hsz as [Hmax Hk]. pose proof (Hk []) as [Hk1 Hk0].
  destruct o as [x key p|x id data n werr|x id|key|x a c h p q|x k st h p q l ct e ex|x rm d order|c]; cbn in Hf |- *.
  - pose proof (BeginSegment_quota max x (sys_store y) key p Hsz HM Hok Hr0 Hb Hf) as Hbg.
    destruct (BeginSegment x (sys_store y) key p) as [[w|e] s1]; destruct Hbg as [Hs1 Hr1];
      pose proof (same_acct_ok _ _ Hs1 Hok) as Hok1; destruct Hs1 as (Em & Eu & Ec & EM).
    + destruct Hr1 as (Hr1 & Hle & ->). set (id := fresh _).
      assert (sys_writers y !! id = None) as Hid by (apply not_elem_of_dom, is_fresh).
      split_and!; cbn; try done; [congruence| | |].
      * unfold reserved_of. cbn. rewrite gsum_insert_None by done. cbn. unfold reserved_of in Hr. lia.
      * lia.
      * intros id' w' [[<- <-]|[_ Hw']]%lookup_insert_Some.
        { destruct (Hk key). split_and!; cbn; try done; try lia; intros _; by auto. }
        eapply writer_quota_keep; [by apply keep_same|]. by eapply Hw.
    + apply quota_store; try done; [congruence|by apply keep_same|lia].
  - destruct (sys_writers y !! id) as [w|] eqn:Hid; [|done]. destruct (Hw id w Hid) as (W1 & W2 & W3 & W4).
    pose proof (Write_quota max x (sys_store y) w data n werr Hsz Hok ltac:(lia) W2
      (quota_wpre max y id w Hy Hid)) as Hwr.
    destruct (Write x (sys_store y) w data n werr) as [[r s1] w1]. destruct Hwr as [Hst Hcl].
    pose proof Hst as (_ & _ & Hkeep & Hle & Hr1 & Hw1 & _ & _ & _ & Hor).
    eapply quota_update; try done; rewrite Hcl in *.
    + intros Hc. specialize (W3 Hc). lia.
    + intros Hc. split; [done|]. destruct (W4 Hc) as [_ [Hm|Hm]]; [left; by apply Hkeep|].
      destruct (Hor Hc) as [Hor'|Hor']; [by left|right; congruence].
  - destruct (sys_writers y !! id) as [w|] eqn:Hid; [|done].
    destruct (w_closed w) eqn:Ec.
    { unfold Close. rewrite Ec. rewrite insert_id by done. by destruct y. }
    pose proof (Close_quota max x (sys_store y) w Hsz (quota_wpre max y id w Hy Hid Ec) Hf Ec) as Hcl.
    destruct (Close x (sys_store y) w) as [[r s1] w1]. destruct Hcl as (Hst & Hc & Hz).
    eapply quota_update; try done. congruence.
  - destruct (LoadMeta_acct (sys_store y) key) as [(Em & Eu & Ec & EM) Er].
    apply quota_store; try done; [congruence|by eapply same_acct_ok|by apply keep_same|lia].
  - by apply SAlias_quota.
  - by apply SRedirect_quota.
  - set (P key := ∃ id w, sys_writers y !! id = Some w ∧ w_closed w = false ∧ w_key w = key).
    destruct (purge_walk_quota P x rm d (sys_store y) (mkPurge 0 0 0) order) as (A1 & A2 & A3 & A4 & A5);
      [lia|zlia|done| |].
    { intros key m. specialize (Hf key m). unfold decision_sized. destruct (d key m) as [[| |] [t|]]; try done;
        intros (id & w & Hid & Hc & Hkey); by eapply Hf. }
    unfold PurgeOrTrim. set (s1 := (purge_walk _ _ _ _ _ _).1.2) in *. clearbody s1.
    split_and!; cbn; try done; [congruence|by rewrite A3, Hr|lia|].
    intros id w Hid. destruct (Hw id w Hid) as (W1 & W2 & W3 & W4). split_and!; try done; try apply W1.
    intros Hc. destruct (W4 Hc) as [Hp [Hm|Hm]]; split; try done; [left|by right].
    apply A5; [by exists id, w|done].
  - by apply restart_quota.
Qed.

Lemma empty_quota max dir file c :
  0 < max → quota_ok max (mkSys (empty_store max dir file c) ∅).
Proof.
  intros Hm. destruct (new_store_counters max dir file ∅ ∅ ∅ c Hm) as (A1 & A2 & A3 & A4 & A5).
  unfold empty_store. split_and!; cbn; try done.
  - split; [by rewrite A3, A2|by rewrite A4, A2].
  - rewrite A3, A5, gsum_empty, wrap64_id by zlia. lia.
Qed.

(** ** Properties *)

End quota.


(** Run without interference, the atomic accesses of [reserveQuota] are
    its sequential meaning: the same verdict and the same counter. *)
Theorem reserveQuota_alone {C} `{MetaCache C} (s : Store C) n :
  rq_alone (MaxBytes s) n (usedBytes s) (reservedBytes s)
  = (match (reserveQuota s n).1 with None => RqGranted | Some _ => RqRefused end,
     reservedBytes (reserveQuota s n).2).
Proof.
  unfold rq_alone, rq_step, reserveQuota. destruct ((MaxBytes s <=? 0) || (n <=? 0)); [done|].
  destruct ((usedBytes s >=? MaxBytes s) || _); [done|]. by rewrite Z.eqb_refl.
Qed.

(** The compare-and-swap does not protect the quota. [reserveQuota] loads
    [usedBytes] before [reservedBytes] and compares only the latter; a commit
    that moves its bytes from reserved to used between the two loads is seen by
    neither, and a reservation is granted that overshoots the quota. *)
Theorem reserveQuota_race :
  ∃ max n st0 st, r_used st0 + r_reserved st0 ≤ max ∧ r_rq st0 = RqLoadUsed
    ∧ rtc (rstep max n) st0 st ∧ r_rq st = RqGranted ∧ max < r_used st + r_reserved st.
Proof.
  exists 100, 80, (mkR 0 50 RqLoadUsed (CmAccount 50)), (mkR 50 80 RqGranted CmDone).
  split_and!; [done..| |done|done].
  eapply rtc_l; [by eapply RS_reserve|]. eapply rtc_l; [by eapply RS_commit|].
  eapply rtc_l; [by eapply RS_commit|]. eapply rtc_l; [by eapply RS_reserve|].
  eapply rtc_l; [by eapply RS_reserve|]. apply rtc_refl.
Qed.

(** The admission test overflows. A segment announcing a size near the
    64-bit maximum makes [used + reserved + n] wrap to a negative number and
    is admitted, whatever the quota. *)
Theorem reserveQuota_overflow {C} `{MetaCache C} (s : Store C) n :
  1 ≤ usedBytes s < MaxBytes s → reservedBytes s = 0 → MaxBytes s ≤ int64_max → n = int64_max →
  (reserveQuota s n).1 = None.
Proof.
  intros Hu Hr HM ->. unfold reserveQuota. rewrite Hr, Z.add_0_r, (wrap64_id (usedBytes s)) by zlia.
  assert (wrap64 (usedBytes s + int64_max) = usedBytes s + int64_max - 2 ^ 64) as ->.
  { unfold wrap64. rewrite (Z.mod_eq _ (2 ^ 64)) by done.
    replace ((usedBytes s + int64_max + 2 ^ 63) `div` 2 ^ 64) with 1; [lia|].
    apply (Z.div_unique _ _ _ (usedBytes s + int64_max + 2 ^ 63 - 2 ^ 64)); zlia. }
  destruct (_ || (int64_max <=? 0)) eqn:E; [done|].
  destruct ((usedBytes s >=? MaxBytes s) || _) eqn:E2; [|done]. apply orb_true_iff in E2. zlia.
Qed.

Lemma reserveQuota_overflow_witness :
  (reserveQuota (mkStore 1000 false false ∅ ∅ ∅ newMetaCache 10 0 1) int64_max).1 = None.
Proof. apply reserveQuota_overflow; cbn; zlia. Defined.
