(* ===== verification/HttpParser.v ===== *)
(** * The HTTP/1.1 request parser (src/internal/coreserver/server.go)

    [readRequest] reads one header block from the connection and classifies
    it; everything the proxy does with a request starts from the fields it
    sets.  The connection is the list of bytes still to come, ending in EOF.
    The theorems describe exactly which byte sequences are accepted, and that
    none of them carries conflicting framing. *)

From stdpp Require Import base strings numbers gmap list.
From S2P Require Import Prelude GoStd.

Local Open Scope Z_scope.
Local Open Scope go_scope.

Inductive perr :=
| ErrBadRequest
| ErrHeaderTooLarge
| ErrSmugglingSuspect
| ErrNeedMoreData
| ErrRead.            (* the connection's own error, EOF included *)

Record Request := mkRequest {
  Method : bytes;
  RequestURI : bytes;
  rPath : bytes;
  rQuery : bytes;
  rHost : bytes;
  rAuth : bytes;
  rRange : bytes;
  Raw : bytes;
  ContentLen : Z;
  KeepAlive : bool;
  HTTP11 : bool;
}.

(** [Request{}] *)
Definition zeroRequest : Request := mkRequest [] [] [] [] [] [] [] [] 0 false false.

Definition headerScratchSize : nat := 16 * 1024.
Definition bufReadSize : nat := 16 * 1024.

Definition cr : Z := 13.
Definition lf : Z := 10.
Definition crlf : bytes := [cr; lf].
Definition sp : Z := 32.
Definition tab : Z := 9.

(** ** Character classes *)

Definition validMethod (b : bytes) : bool :=
  match b with
  | [] => false
  | _ => forallb (fun c => negb ((c <? 65) || (c >? 90))) b
  end.

Definition validOriginFormTarget (b : bytes) : bool :=
  match b with
  | [] => false
  | c0 :: _ => (c0 =? 47) && forallb (fun c => negb ((c <? 33) || (c >? 126))) b
  end.

Definition validProtocolVersion (b : bytes) : bool :=
  if negb (length b =? 8)%nat then false
  else if negb (HasPrefix b (bs "HTTP/")) then false
  else match drop 5 b with
       | [b5; b6; b7] => if b5 =? 49 then (b6 =? 46) && ((b7 =? 48) || (b7 =? 49)) else false
       | _ => false
       end.

Definition isTchar (c : Z) : bool :=
  if (65 <=? c) && (c <=? 90) then true
  else if (97 <=? c) && (c <=? 122) then true
  else if (48 <=? c) && (c <=? 57) then true
  else bool_decide (c ∈ bs "!#$%&'*+-.^_`|~").

Definition validHeaderName (b : bytes) : bool :=
  match b with [] => false | _ => forallb isTchar b end.

Definition validHeaderValue (b : bytes) : bool :=
  forallb (fun c =>
    if (c =? sp) || (c =? tab) then true
    else if (33 <=? c) && (c <=? 126) then true
    else 128 <=? c) b.

(** The accumulator of [parseDecimalInt64]. *)
Fixpoint parse_decimal (v : Z) (b : bytes) : option Z :=
  match b with
  | [] => Some v
  | c :: b =>
      if (c <? 48) || (c >? 57) then None
      else let v := (wrap64 (v * 10)) +64 (c - 48) in
           if v <? 0 then None else parse_decimal v b
  end.

Definition parseDecimalInt64 (b : bytes) : option Z :=
  match b with [] => None | _ => parse_decimal 0 b end.

(** ** Byte helpers *)

Definition is_wsp (c : Z) : bool := (c =? sp) || (c =? tab).

Definition trimSpace (b : bytes) : bytes :=
  reverse (drop_while is_wsp (reverse (drop_while is_wsp b))).

Fixpoint asciiEqualFold (a bLower : bytes) : bool :=
  match a, bLower with
  | [], [] => true
  | ca :: a, cb :: b =>
      let ca := if (65 <=? ca) && (ca <=? 90) then ca + 32 else ca in
      if ca =? cb then asciiEqualFold a b else false
  | _, _ => false
  end.

Definition is_sep (c : Z) : bool := (c =? 44) || (c =? sp) || (c =? tab).

Fixpoint take_while (p : Z → bool) (s : bytes) : bytes :=
  match s with [] => [] | c :: s => if p c then c :: take_while p s else [] end.

(** Each turn of the loop consumes a byte or ends it: [fuel] is the length. *)
Fixpoint contains_token (fuel : nat) (haystack tokenLower : bytes) : bool :=
  match fuel with
  | O => false
  | S fuel =>
      match haystack with
      | [] => false
      | _ =>
          let h := drop_while is_sep haystack in
          let tok := take_while (fun c => negb (is_sep c)) h in
          if asciiEqualFold tok tokenLower then true
          else contains_token fuel (drop (length tok) h) tokenLower
      end
  end.

Definition asciiContainsTokenFold (haystack tokenLower : bytes) : bool :=
  contains_token (length haystack) haystack tokenLower.

(** ** Request line *)

Definition parseRequestLine (line : bytes) (req : Request) : result perr Request :=
  match IndexByte line sp with
  | None | Some O => Err ErrBadRequest
  | Some sp1 =>
      let method := take sp1 line in
      if negb (validMethod method) then Err ErrBadRequest
      else
        match IndexByte (drop (S sp1) line) sp with
        | None | Some O => Err ErrBadRequest
        | Some sp2 =>
            let target := take sp2 (drop (S sp1) line) in
            if negb (validOriginFormTarget target) then Err ErrBadRequest
            else
              let proto := drop (S sp2) (drop (S sp1) line) in
              if negb (validProtocolVersion proto) then Err ErrBadRequest
              else
                let '(path, query) := match IndexByte target 63 with
                                      | None => (target, [])
                                      | Some q => (take q target, drop (S q) target)
                                      end in
                Ok (mkRequest method target path query (rHost req) (rAuth req) (rRange req) (Raw req)
                      (ContentLen req) (KeepAlive req) (beq proto (bs "HTTP/1.1")))
        end
  end.

(** ** Header fields *)

(** The request under construction and the framing headers seen. *)
Record hstate := mkH { h_req : Request; seenCL : bool; seenTE : bool; seenHost : bool }.

Definition set_host (r : Request) v := mkRequest (Method r) (RequestURI r) (rPath r) (rQuery r) v (rAuth r) (rRange r) (Raw r) (ContentLen r) (KeepAlive r) (HTTP11 r).
Definition set_auth (r : Request) v := mkRequest (Method r) (RequestURI r) (rPath r) (rQuery r) (rHost r) v (rRange r) (Raw r) (ContentLen r) (KeepAlive r) (HTTP11 r).
Definition set_range (r : Request) v := mkRequest (Method r) (RequestURI r) (rPath r) (rQuery r) (rHost r) (rAuth r) v (Raw r) (ContentLen r) (KeepAlive r) (HTTP11 r).
Definition set_raw (r : Request) v := mkRequest (Method r) (RequestURI r) (rPath r) (rQuery r) (rHost r) (rAuth r) (rRange r) v (ContentLen r) (KeepAlive r) (HTTP11 r).
Definition set_clen (r : Request) v := mkRequest (Method r) (RequestURI r) (rPath r) (rQuery r) (rHost r) (rAuth r) (rRange r) (Raw r) v (KeepAlive r) (HTTP11 r).
Definition set_keepalive (r : Request) v := mkRequest (Method r) (RequestURI r) (rPath r) (rQuery r) (rHost r) (rAuth r) (rRange r) (Raw r) (ContentLen r) v (HTTP11 r).

(** A header line split into name and trimmed value, or its rejection. *)
Definition split_field (line : bytes) : result perr (bytes * bytes) :=
  match line with
  | [] => Err ErrBadRequest
  | c0 :: _ =>
      if (c0 =? sp) || (c0 =? tab) then Err ErrSmugglingSuspect
      else
        match IndexByte line 58 with
        | None | Some O => Err ErrBadRequest
        | Some colon =>
            let name := take colon line in
            if negb (validHeaderName name) then Err ErrBadRequest
            else
              let value := trimSpace (drop (S colon) line) in
              if negb (validHeaderValue value) then Err ErrSmugglingSuspect
              else Ok (name, value)
        end
  end.

(** The switch on the header's name. *)
Definition header_field (name value : bytes) (h : hstate) : result perr hstate :=
  let r := h_req h in
  if asciiEqualFold name (bs "host") then
    if seenHost h then Err ErrSmugglingSuspect
    else Ok (mkH (set_host r value) (seenCL h) (seenTE h) true)
  else if asciiEqualFold name (bs "range") then
    Ok (mkH (set_range r value) (seenCL h) (seenTE h) (seenHost h))
  else if asciiEqualFold name (bs "authorization") then
    Ok (mkH (set_auth r value) (seenCL h) (seenTE h) (seenHost h))
  else if asciiEqualFold name (bs "content-length") then
    if seenCL h then Err ErrSmugglingSuspect
    else match parseDecimalInt64 value with
         | None => Err ErrSmugglingSuspect
         | Some cl => Ok (mkH (set_clen r cl) true (seenTE h) (seenHost h))
         end
  else if asciiEqualFold name (bs "transfer-encoding") then
    if negb (asciiEqualFold value (bs "identity")) then Err ErrSmugglingSuspect
    else Ok (mkH r (seenCL h) true (seenHost h))
  else if asciiEqualFold name (bs "connection") then
    if asciiContainsTokenFold value (bs "close")
    then Ok (mkH (set_keepalive r false) (seenCL h) (seenTE h) (seenHost h))
    else if negb (HTTP11 r)
    then Ok (mkH (set_keepalive r true) (seenCL h) (seenTE h) (seenHost h))
    else Ok h
  else Ok h.

Definition header_line (line : bytes) (h : hstate) : result perr hstate :=
  try nv ← split_field line ; header_field nv.1 nv.2 h.

(** The loop over the remaining block, split at each CRLF; every turn consumes
    at least two bytes. *)
Fixpoint header_loop (fuel : nat) (hdr : bytes) (h : hstate) : result perr hstate :=
  match fuel with
  | O => Ok h
  | S fuel =>
      match hdr with
      | [] => Ok h
      | _ =>
          match Index hdr crlf with
          | None => Err ErrBadRequest
          | Some O => Ok h
          | Some end_ =>
              match header_line (take end_ hdr) h with
              | Err e => Err e
              | Ok h => header_loop fuel (drop (end_ + 2) hdr) h
              end
          end
      end
  end.

(** The checks after the loop. *)
Definition finish (h : hstate) : result perr Request :=
  if seenTE h && seenCL h then Err ErrSmugglingSuspect
  else if negb (seenHost h) then Err ErrBadRequest
  else Ok (h_req h).

(** Parsing a complete header block [hdr] into [req]. *)
Definition parse_block (hdr : bytes) (req : Request) : result perr Request :=
  let req := set_raw req hdr in
  match Index hdr crlf with
  | None => Err ErrBadRequest
  | Some end_ =>
      match parseRequestLine (take end_ hdr) req with
      | Err e => Err e
      | Ok req =>
          let req := set_keepalive req (HTTP11 req) in
          match header_loop (length hdr) (drop (end_ + 2) hdr) (mkH req false false false) with
          | Err e => Err e
          | Ok h => finish h
          end
      end
  end.

(** ** Reading the block *)

(** [br.ReadSlice('\n')] on a buffer of [bufReadSize] bytes. *)
Definition ReadSlice (input : bytes) : result perr (bytes * bytes) :=
  match IndexByte input lf with
  | Some i => if (i <? bufReadSize)%nat then Ok (take (S i) input, drop (S i) input)
              else Err ErrHeaderTooLarge
  | None => if (bufReadSize <=? length input)%nat then Err ErrHeaderTooLarge else Err ErrRead
  end.

(** The reading loop; every line consumes a byte, so the length is enough
    fuel. *)
Fixpoint read_block (fuel : nat) (scratch input : bytes) : result perr (bytes * bytes) :=
  match fuel with
  | O => Err ErrRead
  | S fuel =>
      match ReadSlice input with
      | Err e => Err e
      | Ok (line, rest) =>
          if (headerScratchSize <? length scratch + length line)%nat then Err ErrHeaderTooLarge
          else
            let scratch := scratch ++ line in
            if beq line crlf then Ok (scratch, rest)
            else if beq line [lf] then Ok (scratch, rest)
            else read_block fuel scratch rest
      end
  end.

Definition readRequest (input : bytes) (req : Request) : result perr (Request * bytes) :=
  match read_block (S (length input)) [] input with
  | Err e => Err e
  | Ok (hdr, rest) =>
      match parse_block hdr req with
      | Err e => Err e
      | Ok req => Ok (req, rest)
      end
  end.

(** ** Specification: a header block is a list of lines *)

Definition ends_crlf (l : bytes) : bytes := l ++ crlf.

Definition render (lines : list bytes) : bytes := concat (ends_crlf <$> lines) ++ crlf.

Fixpoint fold_lines (ls : list bytes) (h : hstate) : result perr hstate :=
  match ls with
  | [] => Ok h
  | l :: ls => try h ← header_line l h ; fold_lines ls h
  end.

(** The meaning of a block given as its lines. *)
Definition parse_lines (lines : list bytes) (req : Request) : result perr Request :=
  match lines with
  | [] => Err ErrBadRequest
  | l0 :: ls =>
      try r ← parseRequestLine l0 (set_raw req (render lines)) ;
      try h ← fold_lines ls (mkH (set_keepalive r (HTTP11 r)) false false false) ;
      finish h
  end.

(** Lines that contain no line break. *)
Definition clean (l : bytes) : Prop := l ≠ [] ∧ cr ∉ l ∧ lf ∉ l.

(** ** Accepted lines are clean *)

Lemma forallb_not_elem (p : Z → bool) (b : bytes) c : forallb p b = true → p c = false → c ∉ b.
Proof.
  intros Hb Hc Hin. rewrite forallb_forall in Hb.
  apply list_elem_of_In in Hin. apply Hb in Hin. congruence.
Qed.

Lemma IndexByte_split s c i :
  IndexByte s c = Some i → s = take i s ++ c :: drop (S i) s ∧ c ∉ take i s ∧ (i < length s)%nat.
Proof.
  intros H. apply IndexByte_Some in H as (k & Hk & Hl & Hc).
  assert (i < length s)%nat as Hlt.
  { apply (f_equal length) in Hk. rewrite length_app in Hk. cbn in Hk. lia. }
  split_and!; [|done|done].
  rewrite Hk at 1. f_equal. f_equal. rewrite Hk at 1. rewrite drop_app_ge by lia.
  rewrite Hl. replace (S i - i)%nat with 1%nat by lia. done.
Qed.

Lemma not_elem_mid (x c : Z) (a b : bytes) : x ∉ a → x ≠ c → x ∉ b → x ∉ a ++ c :: b.
Proof. rewrite not_elem_of_app, not_elem_of_cons. auto. Qed.

Lemma validProtocolVersion_clean b x : validProtocolVersion b = true → x ≤ 32 → x ∉ b.
Proof.
  unfold validProtocolVersion. intros H Hx. destruct (negb _); [done|]. destruct (negb _) eqn:Ep; [done|].
  apply negb_false_iff, HasPrefix_spec in Ep as [k ->].
  rewrite drop_app_length' in H by done. destruct k as [|b5 [|b6 [|b7 [|]]]]; try done.
  destruct (b5 =? 49) eqn:E5; [|done]. rewrite not_elem_of_app. split.
  - vm_compute (bs _). rewrite !not_elem_of_cons. repeat split; try lia. apply not_elem_of_nil.
  - rewrite !not_elem_of_cons. repeat split; try lia. apply not_elem_of_nil.
Qed.

Lemma parseRequestLine_clean l r r' : parseRequestLine l r = Ok r' → clean l.
Proof.
  unfold parseRequestLine. destruct (IndexByte l sp) as [[|sp1]|] eqn:E1; try done.
  destruct (negb (validMethod _)) eqn:Em; [done|].
  destruct (IndexByte (drop _ l) sp) as [[|sp2]|] eqn:E2; try done.
  destruct (negb (validOriginFormTarget _)) eqn:Et; [done|].
  destruct (negb (validProtocolVersion _)) eqn:Ep; [done|]. intros _.
  apply negb_false_iff in Em, Et, Ep.
  apply IndexByte_split in E1 as (Hl & _ & _). apply IndexByte_split in E2 as (Hd & _ & _).
  set (m := take (S sp1) l) in *. set (t := take (S sp2) (drop (S (S sp1)) l)) in *.
  assert (∀ x, x = cr ∨ x = lf → x ∉ l) as Hno.
  { intros x Hx. rewrite Hl. apply not_elem_mid; [|unfold cr, lf, sp in *; lia|].
    - unfold validMethod in Em. destruct m; [done|]. eapply forallb_not_elem; [exact Em|].
      unfold cr, lf in *. destruct Hx as [-> | ->]; done.
    - rewrite Hd. apply not_elem_mid; [|unfold cr, lf, sp in *; lia|].
      + unfold validOriginFormTarget in Et. destruct t; [done|]. apply andb_true_iff in Et as [_ Et].
        eapply forallb_not_elem; [exact Et|]. unfold cr, lf in *. destruct Hx as [-> | ->]; done.
      + eapply validProtocolVersion_clean; [exact Ep|]. unfold cr, lf in *. lia. }
  split_and!; [|by apply Hno; left|by apply Hno; right]. rewrite Hl. by destruct m.
Qed.

Lemma drop_while_split p (s : bytes) : ∃ a, s = a ++ drop_while p s ∧ Forall (fun c => p c = true) a.
Proof.
  induction s as [|c s (a & IH & Ha)]; cbn; [by exists []|]. destruct (p c) eqn:E.
  - exists (c :: a). split; [cbn; by rewrite <-IH|by constructor].
  - by exists [].
Qed.

Lemma trimSpace_split b :
  ∃ x y, b = x ++ trimSpace b ++ y ∧ Forall (fun c => is_wsp c = true) x ∧ Forall (fun c => is_wsp c = true) y.
Proof.
  unfold trimSpace. destruct (drop_while_split is_wsp b) as (x & Hx & Fx).
  destruct (drop_while_split is_wsp (reverse (drop_while is_wsp b))) as (y & Hy & Fy).
  exists x, (reverse y). split_and!; [|done|by rewrite Forall_reverse].
  rewrite Hx at 1. f_equal. apply (f_equal reverse) in Hy.
  rewrite reverse_involutive, reverse_app in Hy. exact Hy.
Qed.

Lemma wsp_not_elem x (s : bytes) : is_wsp x = false → Forall (fun c => is_wsp c = true) s → x ∉ s.
Proof. intros Hx Hs Hin. rewrite Forall_forall in Hs. apply Hs in Hin. congruence. Qed.

Lemma split_field_clean l nv : split_field l = Ok nv → clean l.
Proof.
  unfold split_field. destruct l as [|c0 l]; [done|]. set (line := c0 :: l) in *.
  destruct (_ || _); [done|]. destruct (IndexByte line 58) as [[|colon]|] eqn:Ec; try done.
  destruct (negb (validHeaderName _)) eqn:En; [done|]. destruct (negb (validHeaderValue _)) eqn:Ev; [done|].
  intros _. apply negb_false_iff in En, Ev. apply IndexByte_split in Ec as (Hl & _ & _).
  destruct (trimSpace_split (drop (S (S colon)) line)) as (x & y & Hd & Fx & Fy).
  set (v := trimSpace _) in *. set (n := take (S colon) line) in *.
  assert (∀ z, z = cr ∨ z = lf → z ∉ line) as Hno.
  { intros z Hz. rewrite Hl. apply not_elem_mid; [|unfold cr, lf in *; lia|].
    - unfold validHeaderName in En. destruct n; [done|].
      eapply forallb_not_elem; [exact En|]. destruct Hz as [-> | ->]; vm_compute; done.
    - rewrite Hd, !not_elem_of_app. split_and!.
      + eapply wsp_not_elem; [|exact Fx]. by destruct Hz as [-> | ->].
      + eapply forallb_not_elem; [exact Ev|]. by destruct Hz as [-> | ->].
      + eapply wsp_not_elem; [|exact Fy]. by destruct Hz as [-> | ->]. }
  split_and!; [done|by apply Hno; left|by apply Hno; right].
Qed.

Lemma header_line_clean l h h' : header_line l h = Ok h' → clean l.
Proof.
  unfold header_line. destruct (split_field l) eqn:E; [|done]. intros _. by eapply split_field_clean.
Qed.

Lemma fold_lines_clean ls h h' : fold_lines ls h = Ok h' → Forall clean ls.
Proof.
  revert h. induction ls as [|l ls IH]; intros h; cbn; [constructor|].
  destruct (header_line l h) as [h1|] eqn:E; [|done]. cbn. intros H.
  constructor; [by eapply header_line_clean|by eapply IH].
Qed.

Lemma parse_lines_clean lines req r : parse_lines lines req = Ok r → lines ≠ [] ∧ Forall clean lines.
Proof.
  unfold parse_lines. destruct lines as [|l0 ls]; [done|].
  destruct (parseRequestLine _ _) as [r0|] eqn:E0; [|done]. cbn.
  destruct (fold_lines ls _) as [h|] eqn:E1; [|done]. intros _. split; [done|].
  constructor; [by eapply parseRequestLine_clean|by eapply fold_lines_clean].
Qed.

(** ** The loops on rendered blocks *)

Lemma Index_crlf_clean l t : cr ∉ l → Index (l ++ crlf ++ t) crlf = Some (length l).
Proof.
  intros Hc. destruct (Index_complete l crlf t) as [i Hi]. rewrite Hi. f_equal.
  pose proof (Index_first _ _ _ l t Hi eq_refl) as Hle.
  apply Index_Some in Hi as (k & Hk & Hl).
  destruct (decide (i < length l)%nat) as [Hlt|]; [|lia]. exfalso. apply Hc.
  apply (f_equal (lookup i)) in Hk. rewrite lookup_app_l in Hk by done.
  rewrite (lookup_app_r (take i _)) in Hk by lia. rewrite Hl, Nat.sub_diag in Hk. cbn in Hk.
  by eapply list_elem_of_lookup_2.
Qed.

Lemma take_line l t : take (length l) (l ++ crlf ++ t) = l.
Proof. by rewrite take_app_length. Qed.

Lemma drop_line l t : drop (length l + 2) (l ++ crlf ++ t) = t.
Proof. rewrite drop_app_ge by lia. by replace (length l + 2 - length l)%nat with 2%nat by lia. Qed.

Lemma header_loop_step fuel l t h :
  clean l →
  header_loop (S fuel) (l ++ crlf ++ t) h
  = match header_line l h with Err e => Err e | Ok h => header_loop fuel t h end.
Proof.
  intros (Hne & Hc & _). cbn [header_loop]. rewrite Index_crlf_clean, take_line, drop_line by done.
  destruct l as [|c l]; [done|]. done.
Qed.

(** Enough fuel: the loop is the fold over the lines. *)
Lemma header_loop_render fuel ls t h :
  Forall clean ls → (length (concat (ends_crlf <$> ls)) < fuel)%nat → (t = [] ∨ ∃ t', t = crlf ++ t') →
  header_loop fuel (concat (ends_crlf <$> ls) ++ t) h = fold_lines ls h.
Proof.
  intros Hcl. revert fuel h. induction Hcl as [|l ls Hl _ IH]; intros fuel h Hf Ht.
  - destruct fuel as [|fuel]; [cbn in Hf; lia|]. destruct Ht as [->|[t' ->]]; [done|].
    pose proof (Index_crlf_clean [] t' (not_elem_of_nil _)) as Hi. cbn -[Index] in Hi |- *. by rewrite Hi.
  - destruct fuel as [|fuel]; [cbn in Hf; lia|]. cbn [fmap list_fmap concat ends_crlf].
    unfold ends_crlf at 1. rewrite <-!app_assoc, header_loop_step by done. cbn [fold_lines].
    destruct (header_line l h) as [h'|]; [|done]. cbn. apply IH; [|done].
    rewrite fmap_cons in Hf. cbn [concat] in Hf. rewrite length_app in Hf.
    unfold ends_crlf in Hf at 1. rewrite length_app in Hf. cbn [length crlf] in Hf. lia.
Qed.

(** What the loop consumed when it succeeds. *)
Lemma header_loop_Ok fuel hdr h h' :
  (length hdr < fuel)%nat → header_loop fuel hdr h = Ok h' →
  ∃ ls t, hdr = concat (ends_crlf <$> ls) ++ t ∧ fold_lines ls h = Ok h' ∧ (t = [] ∨ ∃ t', t = crlf ++ t').
Proof.
  revert hdr h. induction fuel as [|fuel IH]; intros hdr h Hf; [lia|]. cbn [header_loop].
  destruct hdr as [|c hdr]; [intros [= ->]; by exists [], []; split_and!; auto|].
  destruct (Index (c :: hdr) crlf) as [[|end_]|] eqn:Ei; [|..|done].
  - intros [= ->]. apply Index_Some in Ei as (k & Hk & _). exists [], (c :: hdr).
    split_and!; try done. right. exists k. exact Hk.
  - apply Index_Some in Ei as (k & Hk & Hl). set (l := take (S end_) (c :: hdr)) in *.
    destruct (header_line l h) as [h1|] eqn:Eh; [|done].
    assert (drop (S end_ + 2) (c :: hdr) = k) as ->.
    { rewrite Hk at 1. rewrite <-Hl at 1. apply drop_line. }
    intros H. apply IH in H as (ls & t & -> & Hfold & Ht).
    + exists (l :: ls), t. split_and!; try done; [|cbn [fold_lines]; by rewrite Eh].
      rewrite Hk. cbn. unfold ends_crlf at 2. by rewrite <-!app_assoc.
    + rewrite Hk in Hf. rewrite !length_app in Hf. cbn in Hf. lia.
Qed.

Lemma concat_lines_cons l ls : concat (ends_crlf <$> l :: ls) = l ++ crlf ++ concat (ends_crlf <$> ls).
Proof. rewrite fmap_cons. cbn [concat]. unfold ends_crlf at 1. by rewrite <-!app_assoc. Qed.

Lemma render_cons l0 ls : render (l0 :: ls) = l0 ++ crlf ++ concat (ends_crlf <$> ls) ++ crlf.
Proof. unfold render. rewrite concat_lines_cons. by rewrite <-!app_assoc. Qed.

Lemma parse_block_render lines req :
  Forall clean lines → parse_block (render lines) req = parse_lines lines req.
Proof.
  intros Hcl. unfold parse_lines, parse_block. destruct Hcl as [|l0 ls Hl0 Hls]; [done|].
  set (raw := render (l0 :: ls)). pose proof (render_cons l0 ls) as Hraw. fold raw in Hraw.
  assert (Index raw crlf = Some (length l0)) as -> by (rewrite Hraw; apply Index_crlf_clean, Hl0).
  assert (take (length l0) raw = l0) as -> by (rewrite Hraw; apply take_line).
  assert (drop (length l0 + 2) raw = concat (ends_crlf <$> ls) ++ crlf) as ->
    by (rewrite Hraw; apply drop_line).
  destruct (parseRequestLine l0 (set_raw req raw)) as [r|]; [|done]. cbn [result_bind].
  rewrite header_loop_render; [|done| |right; by exists []].
  - by destruct (fold_lines ls _).
  - rewrite Hraw, !length_app. cbn [length crlf]. lia.
Qed.

Lemma parse_block_Ok hdr req r :
  parse_block hdr req = Ok r →
  ∃ l0 ls t, hdr = concat (ends_crlf <$> l0 :: ls) ++ t ∧ Forall clean (l0 :: ls)
    ∧ (t = [] ∨ ∃ t', t = crlf ++ t').
Proof.
  unfold parse_block. destruct (Index hdr crlf) as [e|] eqn:Ei; [|done].
  apply Index_Some in Ei as (k & Hk & Hl). set (l0 := take e hdr) in *.
  destruct (parseRequestLine l0 _) as [r0|] eqn:E0; [|done].
  assert (drop (e + 2) hdr = k) as -> by (rewrite Hk at 1; rewrite <-Hl at 1; apply drop_line).
  destruct (header_loop (length hdr) k _) as [h|] eqn:Eh; [|done]. intros _.
  apply header_loop_Ok in Eh as (ls & t & -> & Hfold & Ht).
  - exists l0, ls, t. split_and!; [|constructor; [by eapply parseRequestLine_clean|by eapply fold_lines_clean]|done].
    rewrite Hk. cbn. unfold ends_crlf at 2. by rewrite <-!app_assoc.
  - rewrite Hk, !length_app. cbn. lia.
Qed.

(** ** The reading loop *)

Lemma ReadSlice_line a rest :
  lf ∉ a → (length a < bufReadSize)%nat → ReadSlice (a ++ lf :: rest) = Ok (a ++ [lf], rest).
Proof.
  intros Ha Hlen. unfold ReadSlice. rewrite IndexByte_app by done.
  replace (length a <? bufReadSize)%nat with true by (symmetry; by apply Nat.ltb_lt).
  f_equal. f_equal.
  - rewrite take_app_ge by lia. by replace (S (length a) - length a)%nat with 1%nat by lia.
  - rewrite drop_app_ge by lia. by replace (S (length a) - length a)%nat with 1%nat by lia.
Qed.

Lemma ReadSlice_Ok input line rest :
  ReadSlice input = Ok (line, rest) → input = line ++ rest ∧ line ≠ [].
Proof.
  unfold ReadSlice. destruct (IndexByte input lf) as [i|] eqn:E; [|by case_match].
  destruct (_ <? _)%nat; [|done]. intros [= <- <-]. rewrite take_drop. split; [done|].
  destruct input; [done|]. by cbn.
Qed.

Lemma beq_ne a b : a ≠ b → beq a b = false.
Proof. intros H. destruct (beq a b) eqn:E; [|done]. by apply beq_true in E. Qed.

(** A clean line and its CRLF are read and the loop goes on. *)
Lemma read_block_step fuel scratch l rest :
  clean l → (length scratch + length l + 2 ≤ headerScratchSize)%nat →
  read_block (S fuel) scratch (l ++ crlf ++ rest) = read_block fuel (scratch ++ ends_crlf l) rest.
Proof.
  intros (Hne & Hc & Hl) Hlen. cbn [read_block]. unfold headerScratchSize in *.
  replace (l ++ crlf ++ rest) with ((l ++ [cr]) ++ lf :: rest) by (by rewrite <-app_assoc).
  rewrite ReadSlice_line.
  - replace ((l ++ [cr]) ++ [lf]) with (ends_crlf l) by (unfold ends_crlf; by rewrite <-app_assoc).
    assert (length (ends_crlf l) = length l + 2)%nat as El by (unfold ends_crlf; by rewrite length_app).
    rewrite El. destruct (_ <? _)%nat eqn:E; [apply Nat.ltb_lt in E; lia|].
    rewrite !beq_ne; [done|..]; intros Hx; apply (f_equal length) in Hx; rewrite El in Hx;
      destruct l; cbn in *; lia || done.
  - rewrite not_elem_of_app. split; [done|]. by apply (bool_decide_unpack _).
  - rewrite length_app. unfold bufReadSize. cbn [length]. lia.
Qed.

Lemma read_block_end fuel scratch rest :
  (length scratch + 2 ≤ headerScratchSize)%nat →
  read_block (S fuel) scratch (crlf ++ rest) = Ok (scratch ++ crlf, rest).
Proof.
  intros Hlen. cbn [read_block]. unfold headerScratchSize in *.
  change (crlf ++ rest) with ([cr] ++ lf :: rest). rewrite ReadSlice_line.
  - change ([cr] ++ [lf]) with crlf. change (length crlf) with 2%nat.
    destruct (_ <? _)%nat eqn:E; [apply Nat.ltb_lt in E; lia|]. by rewrite beq_refl.
  - by apply (bool_decide_unpack _).
  - unfold bufReadSize. cbn [length]. lia.
Qed.

Lemma read_block_render fuel scratch lines rest :
  Forall clean lines → (length lines < fuel)%nat →
  (length scratch + length (render lines) ≤ headerScratchSize)%nat →
  read_block fuel scratch (render lines ++ rest) = Ok (scratch ++ render lines, rest).
Proof.
  intros Hcl. revert fuel scratch. induction Hcl as [|l ls Hl _ IH]; intros fuel scratch Hf Hlen;
    (destruct fuel as [|fuel]; [cbn in Hf; lia|]).
  - by apply read_block_end.
  - rewrite render_cons in Hlen. rewrite !length_app in Hlen. cbn [length crlf] in Hlen.
    replace (render (l :: ls) ++ rest) with (l ++ crlf ++ render ls ++ rest).
    2:{ rewrite render_cons. unfold render. by rewrite <-!app_assoc. }
    rewrite read_block_step by (done || lia). rewrite IH.
    + f_equal. f_equal. rewrite render_cons. unfold render, ends_crlf at 1. by rewrite <-!app_assoc.
    + cbn in Hf. lia.
    + unfold render. unfold ends_crlf at 1. rewrite !length_app. cbn [length crlf]. lia.
Qed.

Lemma read_block_Ok fuel scratch input hdr rest :
  read_block fuel scratch input = Ok (hdr, rest) →
  ∃ blk, hdr = scratch ++ blk ∧ input = blk ++ rest ∧ blk ≠ [] ∧ (length hdr ≤ headerScratchSize)%nat.
Proof.
  revert scratch input. induction fuel as [|fuel IH]; intros scratch input; [done|]. cbn [read_block].
  destruct (ReadSlice input) as [[line r]|] eqn:Er; [|done].
  apply ReadSlice_Ok in Er as [-> Hne].
  destruct (_ <? _)%nat eqn:El; [done|]. apply Nat.ltb_ge in El.
  assert (length (scratch ++ line) ≤ headerScratchSize)%nat as Hlen by (by rewrite length_app).
  destruct (beq line crlf); [intros [= <- <-]; by exists line|].
  destruct (beq line [lf]); [intros [= <- <-]; by exists line|].
  intros H. apply IH in H as (blk & -> & -> & Hb & Hl). exists (line ++ blk).
  rewrite !app_assoc. split_and!; try done. by destruct line.
Qed.

(** A block that splits into clean lines ended at its blank line. *)
Lemma read_block_tail fuel scratch input blk rest ls t :
  read_block fuel scratch input = Ok (scratch ++ blk, rest) → input = blk ++ rest →
  blk = concat (ends_crlf <$> ls) ++ t → Forall clean ls → (t = [] ∨ ∃ t', t = crlf ++ t') → t = crlf.
Proof.
  intros H Hin Hblk Hcl Ht. revert fuel scratch input blk H Hin Hblk.
  induction Hcl as [|l ls Hl _ IH]; intros fuel scratch input blk H Hin Hblk.
  - cbn in Hblk. subst blk. apply read_block_Ok in H as H'. destruct H' as (b & Hb & Hb2 & Hne & Hlen).
    apply app_inv_head in Hb as <-. destruct Ht as [->|[t' ->]]; [done|].
    destruct fuel as [|fuel]; [done|]. rewrite Hin, <-app_assoc, read_block_end in H.
    + injection H as H _. by apply app_inv_head in H.
    + rewrite length_app in Hlen. rewrite length_app in Hlen. cbn [length crlf] in Hlen. lia.
  - destruct fuel as [|fuel]; [done|].
    rewrite fmap_cons in Hblk. cbn [concat] in Hblk. unfold ends_crlf in Hblk at 1.
    rewrite <-!app_assoc in Hblk. set (blk' := concat (ends_crlf <$> ls) ++ t) in *.
    pose proof (read_block_Ok _ _ _ _ _ H) as (b & Hb & _ & _ & Hlen). subst blk input.
    rewrite <-!app_assoc in H. rewrite read_block_step in H; [|done|].
    2:{ rewrite !length_app in Hlen. cbn [length crlf] in Hlen. lia. }
    apply (IH fuel (scratch ++ ends_crlf l) (blk' ++ rest) blk'); try done.
    rewrite H. f_equal. f_equal. unfold ends_crlf. by rewrite <-!app_assoc.
Qed.

Lemma lines_le_render lines : (length lines < S (length (render lines)))%nat.
Proof.
  induction lines as [|l ls IH]; [cbn; lia|]. rewrite render_cons, !length_app.
  unfold render in IH. rewrite length_app in IH. cbn [length crlf] in *. lia.
Qed.

(** Exactly the rendered blocks of accepted lines are accepted. *)
Lemma readRequest_spec input req r rest :
  readRequest input req = Ok (r, rest) ↔
  ∃ lines, input = render lines ++ rest ∧ (length (render lines) ≤ headerScratchSize)%nat
    ∧ parse_lines lines req = Ok r.
Proof.
  unfold readRequest. split.
  - destruct (read_block _ [] input) as [[hdr rst]|] eqn:Er; [|done].
    destruct (parse_block hdr req) as [r'|] eqn:Ep; [|done]. intros [= <- <-].
    pose proof (read_block_Ok _ _ _ _ _ Er) as (b & Hb & Hin & _ & Hlen). cbn in Hb. subst b.
    pose proof Ep as Ep'. apply parse_block_Ok in Ep' as (l0 & ls & t & Hhdr & Hcl & Ht).
    assert (t = crlf) as -> by (by eapply (read_block_tail _ [] input hdr rst (l0 :: ls))).
    exists (l0 :: ls). change (concat _ ++ crlf) with (render (l0 :: ls)) in Hhdr. subst hdr.
    split_and!; try done. by rewrite <-parse_block_render.
  - intros (lines & -> & Hlen & Hp). destruct (parse_lines_clean _ _ _ Hp) as [_ Hcl].
    rewrite read_block_render; [|done| |done].
    + cbn [app]. by rewrite parse_block_render, Hp.
    + pose proof (lines_le_render lines). rewrite length_app. lia.
Qed.

(** ** Framing *)

Notation field := (bytes * bytes)%type.

Definition named (n : string) (f : field) : bool := asciiEqualFold f.1 (bs n).

Definition count_named (n : string) (fs : list field) : nat := length (List.filter (named n) fs).

Lemma asciiEqualFold_lower a b : asciiEqualFold a b = true ↔ lower_byte <$> a = b.
Proof.
  revert b. induction a as [|c a IH]; intros [|d b]; cbn; try done.
  unfold lower_byte at 1. destruct (_ =? d) eqn:E.
  - apply Z.eqb_eq in E as ->. rewrite IH. split; [by intros ->|by intros [= ->]].
  - apply Z.eqb_neq in E. split; [done|]. intros [= H _]. done.
Qed.

(** A name folds to at most one of the names the parser knows. *)
Lemma named_other n m f : named n f = true → bs n ≠ bs m → named m f = false.
Proof.
  unfold named. intros H1 Hne. destruct (asciiEqualFold f.1 (bs m)) eqn:H2; [|done].
  apply asciiEqualFold_lower in H1, H2. congruence.
Qed.

Definition b2n (b : bool) : nat := if b then 1 else 0.

(** The state [h] reached from the request line's [r0] after the fields [fs]. *)
Record framed (r0 : Request) (fs : list field) (h : hstate) : Prop := {
  fr_host : count_named "host" fs = b2n (seenHost h);
  fr_cl : count_named "content-length" fs = b2n (seenCL h);
  fr_te : seenTE h = existsb (named "transfer-encoding") fs;
  fr_te_id : ∀ f, f ∈ fs → named "transfer-encoding" f = true →
    asciiEqualFold f.2 (bs "identity") = true;
  fr_host_val : seenHost h = true → ∃ f, f ∈ fs ∧ named "host" f = true ∧ rHost (h_req h) = f.2;
  fr_cl_val : seenCL h = true → ∃ f, f ∈ fs ∧ named "content-length" f = true
    ∧ parseDecimalInt64 f.2 = Some (ContentLen (h_req h));
  fr_cl_none : seenCL h = false → ContentLen (h_req h) = ContentLen r0;
  fr_line : Method (h_req h) = Method r0 ∧ rPath (h_req h) = rPath r0 ∧ rQuery (h_req h) = rQuery r0
    ∧ HTTP11 (h_req h) = HTTP11 r0 ∧ Raw (h_req h) = Raw r0;
}.

Lemma framed_nil r0 : framed r0 [] (mkH r0 false false false).
Proof. split; cbn; try done. intros f Hf. by apply elem_of_nil in Hf. Qed.

Lemma count_snoc n fs f : count_named n (fs ++ [f]) = (count_named n fs + b2n (named n f))%nat.
Proof. unfold count_named. rewrite List.filter_app, length_app. cbn. by destruct (named n f). Qed.

Lemma existsb_snoc n fs f : existsb (named n) (fs ++ [f]) = existsb (named n) fs || named n f.
Proof. rewrite existsb_app. cbn. by rewrite orb_false_r. Qed.

(** Extending a member of the fields seen so far. *)
Lemma seen_weaken (P : field → Prop) fs f : (∃ g, g ∈ fs ∧ P g) → ∃ g, g ∈ fs ++ [f] ∧ P g.
Proof. intros (g & Hg & HP). exists g. rewrite elem_of_app. auto. Qed.

Lemma seen_last (P : field → Prop) fs f : P f → ∃ g, g ∈ fs ++ [f] ∧ P g.
Proof. intros HP. exists f. rewrite elem_of_app, list_elem_of_singleton. auto. Qed.

(** A field whose name is none of the framing ones. *)
Lemma framed_other r0 fs h h' f :
  framed r0 fs h → named "host" f = false → named "content-length" f = false →
  named "transfer-encoding" f = false →
  seenHost h' = seenHost h → seenCL h' = seenCL h → seenTE h' = seenTE h →
  rHost (h_req h') = rHost (h_req h) → ContentLen (h_req h') = ContentLen (h_req h) →
  Method (h_req h') = Method (h_req h) → rPath (h_req h') = rPath (h_req h) →
  rQuery (h_req h') = rQuery (h_req h) → HTTP11 (h_req h') = HTTP11 (h_req h) →
  Raw (h_req h') = Raw (h_req h) → framed r0 (fs ++ [f]) h'.
Proof.
  intros [H1 H2 H3 H4 H5 H6 H7 H8] Nh Nc Nt Eh Ec Et Evh Evc E1 E2 E3 E4 E5.
  split; rewrite ?Eh, ?Ec, ?Et, ?Evh, ?Evc, ?E1, ?E2, ?E3, ?E4, ?E5, ?count_snoc, ?existsb_snoc, ?Nh, ?Nc, ?Nt; try done.
  - cbn. lia.
  - cbn. lia.
  - by rewrite H3, orb_false_r.
  - intros g [Hg|E%list_elem_of_singleton]%elem_of_app; [eauto|subst g; congruence].
  - intros Hs. apply seen_weaken. auto.
  - intros Hs. apply seen_weaken. auto.
Qed.

Lemma header_field_framed r0 fs h h' f :
  framed r0 fs h → header_field f.1 f.2 h = Ok h' → framed r0 (fs ++ [f]) h'.
Proof.
  intros Hf. unfold header_field.
  change (asciiEqualFold f.1 (bs "host")) with (named "host" f).
  change (asciiEqualFold f.1 (bs "content-length")) with (named "content-length" f).
  change (asciiEqualFold f.1 (bs "transfer-encoding")) with (named "transfer-encoding" f).
  change (asciiEqualFold f.1 (bs "range")) with (named "range" f).
  change (asciiEqualFold f.1 (bs "authorization")) with (named "authorization" f).
  change (asciiEqualFold f.1 (bs "connection")) with (named "connection" f).
  destruct (named "host" f) eqn:Nh.
  { destruct (seenHost h) eqn:Es; [done|]. intros [= <-].
    pose proof (named_other _ "content-length" f Nh ltac:(done)) as Nc.
    pose proof (named_other _ "transfer-encoding" f Nh ltac:(done)) as Nt.
    destruct Hf as [H1 H2 H3 H4 H5 H6 H7 H8].
    split; cbn; rewrite ?count_snoc, ?existsb_snoc, ?Nh, ?Nc, ?Nt, ?H1, ?H2, ?H3, ?Es; cbn; try done; try lia.
    - by rewrite orb_false_r.
    - intros g [Hg|E%list_elem_of_singleton]%elem_of_app; [eauto|subst g; congruence].
    - intros _. by apply seen_last.
    - intros Hs. apply seen_weaken. auto. }
  destruct (named "range" f) eqn:Nr.
  { intros [= <-]. eapply framed_other; try done; by eapply named_other. }
  destruct (named "authorization" f) eqn:Na.
  { intros [= <-]. eapply framed_other; try done; by eapply named_other. }
  destruct (named "content-length" f) eqn:Nc.
  { destruct (seenCL h) eqn:Es; [done|]. destruct (parseDecimalInt64 f.2) as [cl|] eqn:Ep; [|done]. intros [= <-].
    pose proof (named_other _ "transfer-encoding" f Nc ltac:(done)) as Nt.
    destruct Hf as [H1 H2 H3 H4 H5 H6 H7 H8].
    split; cbn; rewrite ?count_snoc, ?existsb_snoc, ?Nh, ?Nc, ?Nt, ?H1, ?H2, ?H3, ?Es; cbn; try done; try lia.
    - by rewrite orb_false_r.
    - intros g [Hg|E%list_elem_of_singleton]%elem_of_app; [eauto|subst g; congruence].
    - intros Hs. apply seen_weaken. auto.
    - intros _. by apply seen_last. }
  destruct (named "transfer-encoding" f) eqn:Nt.
  { destruct (negb _) eqn:Ei; [done|]. intros [= <-]. apply negb_false_iff in Ei.
    destruct Hf as [H1 H2 H3 H4 H5 H6 H7 H8].
    split; cbn; rewrite ?count_snoc, ?existsb_snoc, ?Nh, ?Nc, ?Nt, ?H1, ?H2, ?orb_true_r; cbn; try done; try lia.
    - intros g [Hg|E%list_elem_of_singleton]%elem_of_app; [eauto|by subst g].
    - intros Hs. apply seen_weaken. auto.
    - intros Hs. apply seen_weaken. auto. }
  destruct (named "connection" f) eqn:Nk.
  - destruct (asciiContainsTokenFold _ _); [|destruct (negb _)]; intros [= <-]; by eapply framed_other.
  - intros [= <-]. by eapply framed_other.
Qed.

Lemma fold_lines_framed r0 ls fs h h' :
  framed r0 fs h → fold_lines ls h = Ok h' →
  ∃ fs', Forall2 (fun l f => split_field l = Ok f) ls fs' ∧ framed r0 (fs ++ fs') h'.
Proof.
  revert fs h. induction ls as [|l ls IH]; intros fs h Hf; cbn.
  { intros [= <-]. exists []. rewrite app_nil_r. by split. }
  unfold header_line. destruct (split_field l) as [f|] eqn:El; [|done]. cbn.
  destruct (header_field f.1 f.2 h) as [h1|] eqn:Eh; [|done]. cbn. intros H.
  apply (IH (fs ++ [f]) h1) in H as (fs' & HF & Hfr); [|by eapply header_field_framed].
  exists (f :: fs'). split; [by constructor|]. by rewrite <-app_assoc in Hfr.
Qed.

(** ** Decimal lengths *)

Lemma digits_val_ge v b n : 0 ≤ v → digits_val v b = Some n → v ≤ n.
Proof.
  revert v. induction b as [|c b IH]; intros v Hv; cbn; [intros [= ->]; lia|].
  destruct (is_digit c) eqn:E; [|done]. unfold is_digit in E. intros H. apply IH in H; lia.
Qed.

Lemma parse_decimal_exact v b n :
  0 ≤ v → digits_val v b = Some n → n ≤ int64_max → parse_decimal v b = Some n.
Proof.
  revert v. induction b as [|c b IH]; intros v Hv H Hmax; cbn in *; [done|].
  destruct (is_digit c) eqn:Hc; [|done]. unfold is_digit in Hc.
  assert (0 ≤ v * 10 + (c - 48)) as H0 by lia. pose proof (digits_val_ge _ _ _ H0 H) as Hle.
  destruct (_ || _) eqn:E; [lia|].
  rewrite (wrap64_id (v * 10)) by zlia. rewrite wrap64_id by zlia.
  destruct (_ <? 0) eqn:E2; [lia|]. apply IH; [lia|done..].
Qed.

Lemma parse_decimal_digits v b : digits_val v b = None → ∀ w, parse_decimal w b = None.
Proof.
  revert v. induction b as [|c b IH]; intros v H w; cbn in *; [done|].
  destruct (is_digit c) eqn:Hc; unfold is_digit in Hc; destruct (_ || _) eqn:E; try done; [|lia].
  destruct (_ <? 0); [done|]. by eapply IH.
Qed.

(** ** Properties *)


(** C15: An accepted request has unambiguous framing. Its block consists of
    lines without CR or LF; among its fields there is exactly one Host, whose
    value is the request's; at most one Content-Length, whose value is the
    request's; never a Transfer-Encoding other than identity, and none at all
    beside a Content-Length. *)
Theorem readRequest_framing input req r rest :
  readRequest input req = Ok (r, rest) →
  ∃ l0 ls fs, input = render (l0 :: ls) ++ rest
    ∧ Forall (fun l => cr ∉ l ∧ lf ∉ l) (l0 :: ls)
    ∧ Forall2 (fun l f => split_field l = Ok f) ls fs
    ∧ count_named "host" fs = 1%nat
    ∧ (∃ f, f ∈ fs ∧ named "host" f = true ∧ rHost r = f.2)
    ∧ (count_named "content-length" fs ≤ 1)%nat
    ∧ (count_named "content-length" fs = 1%nat →
        ∃ f, f ∈ fs ∧ named "content-length" f = true ∧ parseDecimalInt64 f.2 = Some (ContentLen r))
    ∧ (existsb (named "transfer-encoding") fs = true → count_named "content-length" fs = 0%nat)
    ∧ (∀ f, f ∈ fs → named "transfer-encoding" f = true → asciiEqualFold f.2 (bs "identity") = true).
Proof.
  intros H. apply readRequest_spec in H as (lines & -> & _ & Hp).
  destruct (parse_lines_clean _ _ _ Hp) as [_ Hcl]. unfold parse_lines in Hp.
  destruct lines as [|l0 ls]; [done|]. destruct (parseRequestLine l0 _) as [r0|]; [|done]. cbn in Hp.
  destruct (fold_lines ls _) as [h|] eqn:Ef; [|done]. cbn in Hp.
  pose proof (fold_lines_framed _ ls [] _ h (framed_nil _) Ef) as (fs & HF & Hfr).
  destruct Hfr as [H1 H2 H3 H4 H5 H6 H7 H8]. cbn [app] in *. unfold finish in Hp.
  destruct (seenTE h && seenCL h) eqn:E1; [done|]. destruct (negb (seenHost h)) eqn:E2; [done|].
  injection Hp as <-. apply negb_false_iff in E2. exists l0, ls, fs.
  split_and!; try done; auto.
  - eapply Forall_impl; [exact Hcl|]. by intros l (_ & ? & ?).
  - by rewrite H1, E2.
  - rewrite H2. destruct (seenCL h); cbn; lia.
  - intros Hc. apply H6. rewrite H2 in Hc. by destruct (seenCL h).
  - rewrite <-H3, H2. intros Ht. rewrite Ht in E1. cbn in E1. by rewrite E1.
Qed.

(** [parseDecimalInt64] is exact on every digit string whose value fits
    64 bits, and rejects the empty string and any string with another byte. *)
Theorem parseDecimalInt64_exact b :
  (∀ n, b ≠ [] → digits_val 0 b = Some n → n ≤ int64_max → parseDecimalInt64 b = Some n)
  ∧ (b = [] ∨ digits_val 0 b = None → parseDecimalInt64 b = None).
Proof.
  split.
  - intros n Hne Hb Hm. destruct b; [done|]. by apply parse_decimal_exact.
  - intros [->|Hd]; [done|]. destruct b; [done|]. by eapply parse_decimal_digits.
Qed.

(** The overflow test of [parseDecimalInt64] misses values that wrap past
    the sign: a Content-Length of forty quintillion is accepted as another
    number. *)
Theorem parseDecimalInt64_overflow :
  parseDecimalInt64 (bs "40000000000000000000") = Some 3106511852580896768
  ∧ digits_val 0 (bs "40000000000000000000") = Some 40000000000000000000.
Proof. split; vm_compute; reflexivity. Qed.

Definition sample_request : bytes :=
  render [bs "GET /gpt2/resolve/main/config.json?x=1 HTTP/1.1"; bs "Host: huggingface.co";
          bs "Content-Length: 12"; bs "Authorization:  Bearer t "] ++ bs "hello, world".

Lemma sample_accepted :
  match readRequest sample_request zeroRequest with
  | Ok (r, rest) => rest = bs "hello, world" ∧ rHost r = bs "huggingface.co" ∧ ContentLen r = 12
      ∧ rAuth r = bs "Bearer t" ∧ rPath r = bs "/gpt2/resolve/main/config.json"
  | Err _ => False
  end.
Proof. vm_compute. by split_and!. Qed.

Lemma readRequest_framing_witness :
  ∃ r rest l0 ls fs, readRequest sample_request zeroRequest = Ok (r, rest)
    ∧ sample_request = render (l0 :: ls) ++ rest ∧ count_named "host" fs = 1%nat.
Proof.
  destruct (readRequest sample_request zeroRequest) as [[r rest]|] eqn:E; [|vm_compute in E; discriminate].
  destruct (readRequest_framing sample_request zeroRequest r rest E) as (l0 & ls & fs & H1 & _ & _ & H2 & _).
  exists r, rest, l0, ls, fs. split; [reflexivity|]. split; [exact H1|exact H2].
Defined.
