(* ===== verification/UringParser.v ===== *)
(** * The io_uring request parser and its receive buffer
    (src/internal/coreserver/iouring_parser_linux.go, iouring_reactor_linux.go)

    [parseRequestFromBuf] parses a request out of a connection's receive
    buffer; the fields of the request are slices of that buffer, so here they
    are pairs of an offset and a length, read through [view].  The first part
    shows that the parser agrees with [readRequest]; the second models the
    reactor's use of the buffer, where the slices outlive the bytes. *)

From stdpp Require Import base strings numbers gmap list.
From S2P Require Import Prelude GoStd HttpParser.

Local Open Scope Z_scope.
Local Open Scope go_scope.

Record slice := mkSlice { sl_off : nat; sl_len : nat }.

Definition nil_slice : slice := mkSlice 0 0.

Definition view (buf : bytes) (sl : slice) : bytes := take (sl_len sl) (drop (sl_off sl) buf).

Record SRequest := mkSReq {
  s_method : slice; s_uri : slice; s_path : slice; s_query : slice;
  s_host : slice; s_auth : slice; s_range : slice; s_raw : slice;
  s_clen : Z; s_keepalive : bool; s_http11 : bool;
}.

Definition zeroSReq : SRequest :=
  mkSReq nil_slice nil_slice nil_slice nil_slice nil_slice nil_slice nil_slice nil_slice 0 false false.

(** The request a reader of the buffer sees. *)
Definition sview (buf : bytes) (r : SRequest) : Request :=
  mkRequest (view buf (s_method r)) (view buf (s_uri r)) (view buf (s_path r)) (view buf (s_query r))
    (view buf (s_host r)) (view buf (s_auth r)) (view buf (s_range r)) (view buf (s_raw r))
    (s_clen r) (s_keepalive r) (s_http11 r).

Definition s_set_raw r v := mkSReq (s_method r) (s_uri r) (s_path r) (s_query r) (s_host r) (s_auth r) (s_range r) v (s_clen r) (s_keepalive r) (s_http11 r).
Definition s_set_keep r v := mkSReq (s_method r) (s_uri r) (s_path r) (s_query r) (s_host r) (s_auth r) (s_range r) (s_raw r) (s_clen r) v (s_http11 r).
Definition s_set_host r v := mkSReq (s_method r) (s_uri r) (s_path r) (s_query r) v (s_auth r) (s_range r) (s_raw r) (s_clen r) (s_keepalive r) (s_http11 r).
Definition s_set_auth r v := mkSReq (s_method r) (s_uri r) (s_path r) (s_query r) (s_host r) v (s_range r) (s_raw r) (s_clen r) (s_keepalive r) (s_http11 r).
Definition s_set_range r v := mkSReq (s_method r) (s_uri r) (s_path r) (s_query r) (s_host r) (s_auth r) v (s_raw r) (s_clen r) (s_keepalive r) (s_http11 r).
Definition s_set_clen r v := mkSReq (s_method r) (s_uri r) (s_path r) (s_query r) (s_host r) (s_auth r) (s_range r) (s_raw r) v (s_keepalive r) (s_http11 r).

(** [parseRequestLine] on the line at offset [off]. *)
Definition s_parseRequestLine (off : nat) (line : bytes) (req : SRequest) : result perr SRequest :=
  match IndexByte line sp with
  | None | Some O => Err ErrBadRequest
  | Some sp1 =>
      if negb (validMethod (take sp1 line)) then Err ErrBadRequest
      else
        match IndexByte (drop (S sp1) line) sp with
        | None | Some O => Err ErrBadRequest
        | Some sp2 =>
            let target := take sp2 (drop (S sp1) line) in
            if negb (validOriginFormTarget target) then Err ErrBadRequest
            else
              let proto := drop (S sp2) (drop (S sp1) line) in
              if negb (validProtocolVersion proto) then Err ErrBadRequest
              else
                let t := (off + S sp1)%nat in
                let '(path, query) := match IndexByte target 63 with
                                      | None => (mkSlice t sp2, nil_slice)
                                      | Some q => (mkSlice t q, mkSlice (t + S q) (sp2 - S q))
                                      end in
                Ok (mkSReq (mkSlice off sp1) (mkSlice t sp2) path query (s_host req) (s_auth req)
                      (s_range req) (s_raw req) (s_clen req) (s_keepalive req)
                      (beq proto (bs "HTTP/1.1")))
        end
  end.

Record sstate := mkS { s_req : SRequest; s_seenCL : bool; s_seenTE : bool; s_seenHost : bool }.

(** Where the trimmed value of a line lies within it. *)
Definition value_slice (off colon : nat) (line : bytes) : slice :=
  let v := drop (S colon) line in
  mkSlice (off + S colon + (length v - length (drop_while is_wsp v))) (length (trimSpace v)).

Definition s_header_line (off : nat) (line : bytes) (h : sstate) : result perr sstate :=
  match line with
  | [] => Err ErrBadRequest
  | c0 :: _ =>
      if (c0 =? sp) || (c0 =? tab) then Err ErrSmugglingSuspect
      else
        match IndexByte line 58 with
        | None | Some O => Err ErrBadRequest
        | Some colon =>
            let name := take colon line in
            if negb (validHeaderName name) then Err ErrBadRequest
            else
              let value := trimSpace (drop (S colon) line) in
              let sl := value_slice off colon line in
              let r := s_req h in
              if negb (validHeaderValue value) then Err ErrSmugglingSuspect
              else if asciiEqualFold name (bs "host") then
                if s_seenHost h then Err ErrSmugglingSuspect
                else Ok (mkS (s_set_host r sl) (s_seenCL h) (s_seenTE h) true)
              else if asciiEqualFold name (bs "range") then
                Ok (mkS (s_set_range r sl) (s_seenCL h) (s_seenTE h) (s_seenHost h))
              else if asciiEqualFold name (bs "authorization") then
                Ok (mkS (s_set_auth r sl) (s_seenCL h) (s_seenTE h) (s_seenHost h))
              else if asciiEqualFold name (bs "content-length") then
                if s_seenCL h then Err ErrSmugglingSuspect
                else match parseDecimalInt64 value with
                     | None => Err ErrSmugglingSuspect
                     | Some cl => Ok (mkS (s_set_clen r cl) true (s_seenTE h) (s_seenHost h))
                     end
              else if asciiEqualFold name (bs "transfer-encoding") then
                if negb (asciiEqualFold value (bs "identity")) then Err ErrSmugglingSuspect
                else Ok (mkS r (s_seenCL h) true (s_seenHost h))
              else if asciiEqualFold name (bs "connection") then
                if asciiContainsTokenFold value (bs "close")
                then Ok (mkS (s_set_keep r false) (s_seenCL h) (s_seenTE h) (s_seenHost h))
                else if negb (s_http11 r)
                then Ok (mkS (s_set_keep r true) (s_seenCL h) (s_seenTE h) (s_seenHost h))
                else Ok h
              else Ok h
        end
  end.

Fixpoint s_header_loop (fuel off : nat) (hdr : bytes) (h : sstate) : result perr sstate :=
  match fuel with
  | O => Ok h
  | S fuel =>
      match hdr with
      | [] => Ok h
      | _ =>
          match Index hdr crlf with
          | None => Err ErrBadRequest
          | Some O => Ok h
          | Some end_ =>
              match s_header_line off (take end_ hdr) h with
              | Err e => Err e
              | Ok h => s_header_loop fuel (off + end_ + 2) (drop (end_ + 2) hdr) h
              end
          end
      end
  end.

(** The bytes consumed and the request, whose other fields are those of
    [req]. *)
Definition parseRequestFromBuf (buf : bytes) (req : SRequest) : result perr (nat * SRequest) :=
  match Index buf (crlf ++ crlf) with
  | None => Err ErrNeedMoreData
  | Some end_ =>
      let consumed := (end_ + 4)%nat in
      let hdr := take (consumed - 2) buf in
      let req := s_set_raw req (mkSlice 0 consumed) in
      match Index hdr crlf with
      | None => Err ErrBadRequest
      | Some lineEnd =>
          match s_parseRequestLine 0 (take lineEnd hdr) req with
          | Err e => Err e
          | Ok req =>
              let req := s_set_keep req (s_http11 req) in
              match s_header_loop (S (length hdr)) (lineEnd + 2) (drop (lineEnd + 2) hdr)
                      (mkS req false false false) with
              | Err e => Err e
              | Ok h =>
                  if s_seenTE h && s_seenCL h then Err ErrSmugglingSuspect
                  else if negb (s_seenHost h) then Err ErrBadRequest
                  else Ok (consumed, s_req h)
              end
          end
      end
  end.

(** ** The reactor's connection *)

Definition reactorRecvBufSize : nat := 16 * 1024.

Record ioConn := mkConn { recvBuf : bytes; recvLen : nat; c_req : SRequest }.

(** [acquireIoConn]: a pooled buffer with whatever it held, a zero request. *)
Definition acquireIoConn (pooled : bytes) : ioConn := mkConn pooled 0 zeroSReq.

Inductive recv_outcome :=
| RecvClose                              (* overflow or parse error *)
| RecvMore (c : ioConn)                  (* RECV re-armed *)
| RecvRequest (c : ioConn).              (* passed on to gateAdmit *)

(** Parsing one request out of the buffer and sliding what follows it to the
    front: the tail of [onRecv], and of [onWrite] for pipelined requests. *)
Definition take_request (c : ioConn) : recv_outcome :=
  match parseRequestFromBuf (take (recvLen c) (recvBuf c)) (c_req c) with
  | Err ErrNeedMoreData => RecvMore c
  | Err _ => RecvClose
  | Ok (consumed, req) =>
      let leftover := (recvLen c - consumed)%nat in
      let buf := take leftover (drop consumed (recvBuf c)) ++ drop leftover (recvBuf c) in
      RecvRequest (mkConn buf leftover req)
  end.

(** [onRecv] for a completion that wrote [data] at [recvLen]; no bytes is
    the peer's end of stream. *)
Definition onRecv (c : ioConn) (data : bytes) : recv_outcome :=
  if (length data =? 0)%nat then RecvClose
  else if (reactorRecvBufSize <? recvLen c + length data)%nat then RecvClose
  else
    let buf := take (recvLen c) (recvBuf c) ++ data ++ drop (recvLen c + length data) (recvBuf c) in
    take_request (mkConn buf (recvLen c + length data) (c_req c)).

(** What [gateAdmit] and [tryServeWarmReactor] read. *)
Definition seen_by_gate (c : ioConn) : Request := sview (recvBuf c) (c_req c).

Definition gate_sees (o : recv_outcome) : option Request :=
  match o with RecvRequest c => Some (seen_by_gate c) | _ => None end.

(** The next completion after the request was served and RECV re-armed, as
    [onWrite] does on a keep-alive connection with nothing left over. *)
Definition next_recv (o : recv_outcome) (data : bytes) : recv_outcome :=
  match o with RecvRequest c | RecvMore c => onRecv c data | RecvClose => RecvClose end.

(** A request arriving over several completions. *)
Fixpoint recv_all (c : ioConn) (chunks : list bytes) : recv_outcome :=
  match chunks with
  | [] => RecvMore c
  | d :: chunks =>
      match onRecv c d with
      | RecvMore c => recv_all c chunks
      | o => o
      end
  end.

(** ** The slice parser simulates the byte parser *)

Definition result_map {E A B} (f : A → B) (r : result E A) : result E B :=
  match r with Ok a => Ok (f a) | Err e => Err e end.

Definition hview (buf : bytes) (h : sstate) : hstate :=
  mkH (sview buf (s_req h)) (s_seenCL h) (s_seenTE h) (s_seenHost h).

Definition at_off (buf : bytes) (off : nat) (l : bytes) : Prop := view buf (mkSlice off (length l)) = l.

Lemma at_off_prefix a l b : at_off (a ++ l ++ b) (length a) l.
Proof. unfold at_off, view. cbn. by rewrite drop_app_length, take_app_length. Qed.

Lemma at_off_view buf off l a n :
  at_off buf off l → (a + n ≤ length l)%nat → view buf (mkSlice (off + a) n) = take n (drop a l).
Proof.
  unfold at_off, view. cbn [sl_off sl_len]. remember (length l) as len eqn:E. clear E. intros <- Hn.
  rewrite <-drop_drop, !(take_drop_commute _ n). f_equal. rewrite take_take. f_equal. lia.
Qed.

Lemma at_off_take buf off l n : at_off buf off l → (n ≤ length l)%nat → view buf (mkSlice off n) = take n l.
Proof. intros H Hn. rewrite <-(Nat.add_0_r off), (at_off_view _ _ l) by done. done. Qed.

Lemma at_off_drop buf off l a : at_off buf off l → (a ≤ length l)%nat → at_off buf (off + a) (drop a l).
Proof.
  intros H Ha. unfold at_off. rewrite (at_off_view _ _ l) by (rewrite ?length_drop; done || lia).
  by rewrite firstn_all.
Qed.

Lemma at_off_head buf off l n : at_off buf off l → at_off buf off (take n l).
Proof.
  intros H. unfold at_off. rewrite (at_off_take _ _ l) by (rewrite ?length_take; done || lia).
  rewrite length_take. destruct (decide (n ≤ length l)%nat).
  - by rewrite Nat.min_l.
  - rewrite Nat.min_r by lia. by rewrite !take_ge by lia.
Qed.

Lemma view_nil buf : view buf nil_slice = [].
Proof. done. Qed.

Lemma trimSpace_slice v :
  trimSpace v = take (length (trimSpace v)) (drop (length v - length (drop_while is_wsp v)) v)
  ∧ (length v - length (drop_while is_wsp v) + length (trimSpace v) ≤ length v)%nat.
Proof.
  destruct (drop_while_split is_wsp v) as (a & Ha & _).
  assert (length v - length (drop_while is_wsp v) = length a)%nat as ->
    by (rewrite Ha at 1; rewrite length_app; lia).
  unfold trimSpace. set (w := drop_while is_wsp v) in *.
  destruct (drop_while_split is_wsp (reverse w)) as (b & Hb & _).
  apply (f_equal reverse) in Hb. rewrite reverse_involutive, reverse_app in Hb.
  set (t := reverse (drop_while is_wsp (reverse w))) in *. rewrite Ha.
  rewrite drop_app_length. rewrite Hb. rewrite take_app_length. split; [done|].
  rewrite !length_app. lia.
Qed.

Lemma value_slice_view buf off line colon :
  at_off buf off line → (colon < length line)%nat →
  view buf (value_slice off colon line) = trimSpace (drop (S colon) line).
Proof.
  intros H Hc. unfold value_slice. destruct (trimSpace_slice (drop (S colon) line)) as [E L].
  rewrite (at_off_view _ _ (drop (S colon) line)); [by rewrite <-E| |done].
  apply at_off_drop; [done|lia].
Qed.

Lemma sim_parseRequestLine buf off line req :
  at_off buf off line →
  result_map (sview buf) (s_parseRequestLine off line req) = parseRequestLine line (sview buf req).
Proof.
  intros H. unfold s_parseRequestLine, parseRequestLine.
  destruct (IndexByte line sp) as [[|sp1]|] eqn:E1; try done.
  destruct (negb (validMethod _)); [done|].
  destruct (IndexByte (drop _ line) sp) as [[|sp2]|] eqn:E2; try done.
  destruct (negb (validOriginFormTarget _)); [done|].
  destruct (negb (validProtocolVersion _)); [done|].
  apply IndexByte_split in E1 as (_ & _ & L1). apply IndexByte_split in E2 as (_ & _ & L2).
  set (d := drop (S (S sp1)) line) in *.
  assert (at_off buf (off + S (S sp1)) d) as Hd by (apply at_off_drop; [done|lia]).
  assert (view buf (mkSlice off (S sp1)) = take (S sp1) line) as Em by (apply at_off_take; [done|lia]).
  assert (view buf (mkSlice (off + S (S sp1)) (S sp2)) = take (S sp2) d) as Et by (apply at_off_take; [done|lia]).
  destruct (IndexByte (take (S sp2) d) 63) as [q|] eqn:Eq; cbn [result_map]; unfold sview at 1;
    cbn [s_method s_uri s_path s_query s_host s_auth s_range s_raw s_clen s_keepalive s_http11];
    rewrite Em, Et; [|done].
  apply IndexByte_split in Eq as (_ & _ & L3). rewrite length_take in L3.
  rewrite (at_off_take _ _ (take (S sp2) d)) by (apply at_off_head || rewrite length_take; done || lia).
  rewrite (at_off_view _ _ (take (S sp2) d)) by (apply at_off_head || rewrite length_take; done || lia).
  do 2 f_equal. apply take_ge. rewrite length_drop, length_take. lia.
Qed.

Lemma sim_header_line buf off line h :
  at_off buf off line →
  result_map (hview buf) (s_header_line off line h) = header_line line (hview buf h).
Proof.
  intros H. unfold s_header_line, header_line, split_field. destruct line as [|c0 l]; [done|].
  set (line := c0 :: l) in *. destruct (_ || _); [done|].
  destruct (IndexByte line 58) as [[|colon]|] eqn:E; try done.
  destruct (negb (validHeaderName _)); [done|]. destruct (negb (validHeaderValue _)); [done|].
  apply IndexByte_split in E as (_ & _ & L). cbn [result_bind fst snd].
  pose proof (value_slice_view buf off line (S colon) H L) as Hv. rewrite <-Hv.
  set (sl := value_slice off (S colon) line) in *. unfold header_field.
  destruct h as [r cl te ho]. cbn [s_req s_seenCL s_seenTE s_seenHost hview h_req seenCL seenTE seenHost].
  cbn [HTTP11 sview].
  destruct (asciiEqualFold _ (bs "host")); [by destruct ho|].
  destruct (asciiEqualFold _ (bs "range")); [done|].
  destruct (asciiEqualFold _ (bs "authorization")); [done|].
  destruct (asciiEqualFold _ (bs "content-length")); [destruct cl; [done|]; by destruct (parseDecimalInt64 _)|].
  destruct (asciiEqualFold _ (bs "transfer-encoding")); [by destruct (negb _)|].
  destruct (asciiEqualFold _ (bs "connection")); [|done].
  destruct (asciiContainsTokenFold _ _); [done|]. by destruct (negb _).
Qed.

Lemma sim_header_loop buf fuel off hdr h :
  at_off buf off hdr →
  result_map (hview buf) (s_header_loop fuel off hdr h) = header_loop fuel hdr (hview buf h).
Proof.
  revert off hdr h. induction fuel as [|fuel IH]; intros off hdr h H; [done|].
  cbn [s_header_loop header_loop]. destruct hdr as [|c hdr]; [done|].
  destruct (Index (c :: hdr) crlf) as [[|e]|] eqn:E; try done.
  rewrite <-(sim_header_line buf off) by (by apply at_off_head).
  destruct (s_header_line _ _ h) as [h'|]; [|done]. cbn [result_map]. apply IH.
  replace (off + S e + 2)%nat with (off + (S e + 2))%nat by lia. apply at_off_drop; [done|].
  apply Index_Some in E as (k & Hk & Hl). apply (f_equal length) in Hk.
  rewrite !length_app, Hl in Hk. cbn [length crlf] in *. lia.
Qed.

(** The parse of a block, without its terminating blank line, as a fold. *)
Definition parse_hdr (hdr : bytes) (req : Request) : result perr Request :=
  match Index hdr crlf with
  | None => Err ErrBadRequest
  | Some end_ =>
      try r ← parseRequestLine (take end_ hdr) req ;
      try h ← header_loop (S (length hdr)) (drop (end_ + 2) hdr)
                (mkH (set_keepalive r (HTTP11 r)) false false false) ;
      finish h
  end.

Lemma Index_bound s i : Index s crlf = Some i → (i + 2 ≤ length s)%nat.
Proof.
  intros E. apply Index_Some in E as (k & Hk & Hl). apply (f_equal length) in Hk.
  rewrite !length_app, Hl in Hk. cbn [length crlf] in Hk. lia.
Qed.

Lemma sim_parse buf req end_ :
  Index buf (crlf ++ crlf) = Some end_ →
  result_map (fun p => (p.1, sview buf p.2)) (parseRequestFromBuf buf req)
  = result_map (pair (end_ + 4)%nat) (parse_hdr (take (end_ + 2) buf) (set_raw (sview buf req) (take (end_ + 4) buf))).
Proof.
  intros E. unfold parseRequestFromBuf, parse_hdr. rewrite E.
  replace (end_ + 4 - 2)%nat with (end_ + 2)%nat by lia. set (hdr := take (end_ + 2) buf).
  assert (at_off buf 0 hdr) as H0.
  { unfold at_off, view, hdr. cbn [sl_off sl_len]. rewrite drop_0, length_take.
    destruct (decide (end_ + 2 ≤ length buf)%nat); [by rewrite Nat.min_l|].
    rewrite Nat.min_r by lia. by rewrite !take_ge by lia. }
  destruct (Index hdr crlf) as [e|] eqn:Ei; [|done]. apply Index_bound in Ei as Hb.
  change (set_raw (sview buf req) (take (end_ + 4) buf))
    with (sview buf (s_set_raw req (mkSlice 0 (end_ + 4)))).
  rewrite <-(sim_parseRequestLine buf 0) by (by apply at_off_head).
  destruct (s_parseRequestLine _ _ _) as [r|]; [|done]. cbn [result_map result_bind].
  change (mkH (set_keepalive (sview buf r) (HTTP11 (sview buf r))) false false false)
    with (hview buf (mkS (s_set_keep r (s_http11 r)) false false false)).
  rewrite <-(sim_header_loop buf _ (e + 2)) by (apply (at_off_drop buf 0); [done|lia]).
  destruct (s_header_loop _ _ _ _) as [h|]; [|done]. cbn [result_map result_bind].
  unfold finish. cbn [hview seenTE seenCL seenHost h_req].
  destruct (_ && _); [done|]. by destruct (negb _).
Qed.

(** ** The terminator *)

Lemma Index_skip c s sub : HasPrefix (c :: s) sub = false → Index (c :: s) sub = S <$> Index s sub.
Proof. intros H. cbn [Index]. by rewrite H. Qed.

Lemma Index_terminator_line l t :
  cr ∉ l → HasPrefix t crlf = false →
  Index (l ++ crlf ++ t) (crlf ++ crlf) = Nat.add (length l + 2) <$> Index t (crlf ++ crlf).
Proof.
  intros Hl Ht. induction l as [|c l IH].
  - cbn [app crlf]. rewrite Index_skip by exact Ht. rewrite Index_skip by done.
    by destruct (Index t _).
  - rewrite not_elem_of_cons in Hl. destruct Hl as [Hc Hl]. cbn [app]. rewrite Index_skip.
    + rewrite IH by done. by destruct (Index t _).
    + cbn [HasPrefix app crlf]. by destruct (Z.eqb_spec cr c).
Qed.

Lemma clean_no_prefix l t : clean l → HasPrefix (l ++ t) crlf = false.
Proof.
  intros (Hne & Hc & _). destruct l as [|c l]; [done|]. rewrite not_elem_of_cons in Hc.
  destruct Hc as [Hc _]. cbn [HasPrefix app crlf]. by destruct (Z.eqb_spec cr c).
Qed.

Lemma Index_render lines rest :
  lines ≠ [] → Forall clean lines →
  Index (render lines ++ rest) (crlf ++ crlf) = Some (length (render lines) - 4)%nat.
Proof.
  intros Hne Hcl. induction Hcl as [|l ls Hl Hls IH]; [done|].
  rewrite render_cons. destruct Hls as [|l1 ls Hl1 Hls].
  - cbn [fmap list_fmap concat app]. rewrite <-!app_assoc.
    pose proof (Index_complete l (crlf ++ crlf) rest) as [i Hi]. rewrite <-!app_assoc in Hi. rewrite Hi.
    pose proof (Index_first _ _ _ l rest Hi eq_refl) as Hle.
    assert (length l ≤ i)%nat as Hge.
    { apply Index_Some in Hi as (k & Hk & Hi). destruct (decide (i < length l)%nat) as [Hlt|]; [|lia].
      exfalso. destruct Hl as (_ & Hc & _). apply Hc. apply (f_equal (lookup i)) in Hk.
      rewrite lookup_app_l in Hk by done. rewrite (lookup_app_r (take i _)) in Hk by lia.
      rewrite Hi, Nat.sub_diag in Hk. cbn in Hk. by eapply list_elem_of_lookup_2. }
    f_equal. rewrite !length_app. cbn [length crlf]. lia.
  - assert (concat (ends_crlf <$> l1 :: ls) ++ crlf = render (l1 :: ls)) as -> by done.
    rewrite <-!app_assoc, Index_terminator_line.
    + rewrite IH by done. cbn [fmap option_fmap option_map]. f_equal.
      rewrite !length_app. cbn [length crlf].
      assert (4 ≤ length (render (l1 :: ls)))%nat; [|lia].
      rewrite render_cons, !length_app. destruct l1; [by destruct Hl1|]. cbn [length crlf]. lia.
    + apply Hl.
    + rewrite render_cons, <-!app_assoc. by apply clean_no_prefix.
Qed.

Lemma render_split lines : render lines = concat (ends_crlf <$> lines) ++ crlf.
Proof. done. Qed.

Lemma parse_hdr_lines lines req raw :
  Forall clean lines → raw = render lines →
  parse_hdr (concat (ends_crlf <$> lines)) (set_raw req raw) = parse_lines lines req.
Proof.
  intros Hcl ->. unfold parse_hdr, parse_lines. destruct Hcl as [|l0 ls Hl0 Hls]; [done|].
  set (raw := render (l0 :: ls)).
  rewrite concat_lines_cons, Index_crlf_clean, take_line, drop_line by apply Hl0.
  destruct (parseRequestLine l0 _) as [r|]; [|done]. cbn [result_bind].
  rewrite <-(app_nil_r (concat (ends_crlf <$> ls))), header_loop_render; [done|done| |by left].
  rewrite !length_app. lia.
Qed.

Lemma parse_hdr_Ok hdr req r :
  parse_hdr hdr req = Ok r →
  ∃ l0 ls t, hdr = concat (ends_crlf <$> l0 :: ls) ++ t ∧ Forall clean (l0 :: ls)
    ∧ (t = [] ∨ ∃ t', t = crlf ++ t').
Proof.
  unfold parse_hdr. destruct (Index hdr crlf) as [e|] eqn:Ei; [|done].
  apply Index_Some in Ei as (k & Hk & Hl). set (l0 := take e hdr) in *.
  destruct (parseRequestLine l0 _) as [r0|] eqn:E0; [|done]. cbn [result_bind].
  assert (drop (e + 2) hdr = k) as -> by (rewrite Hk at 1; rewrite <-Hl at 1; apply drop_line).
  destruct (header_loop _ k _) as [h|] eqn:Eh; [|done]. intros _.
  apply header_loop_Ok in Eh as (ls & t & -> & Hfold & Ht).
  - exists l0, ls, t. split_and!; [|constructor; [by eapply parseRequestLine_clean|by eapply fold_lines_clean]|done].
    rewrite Hk. cbn. unfold ends_crlf at 2. by rewrite <-!app_assoc.
  - rewrite Hk, !length_app. cbn. lia.
Qed.

(** ** Accepting the same requests *)

(** A header block that splits into lines ends at the first blank line. *)
Lemma render_of_hdr buf e l0 ls t :
  Index buf (crlf ++ crlf) = Some e → take (e + 2) buf = concat (ends_crlf <$> l0 :: ls) ++ t →
  (t = [] ∨ ∃ t', t = crlf ++ t') → t = [] ∧ take (e + 4) buf = render (l0 :: ls).
Proof.
  intros Ei Hh Ht. pose proof (Index_Some _ _ _ Ei) as (k & Hk & Hl).
  assert (∃ a, concat (ends_crlf <$> l0 :: ls) = a ++ crlf) as [a Ha].
  { destruct (exists_last (l:=l0 :: ls)) as (ls' & l' & ->); [done|].
    exists (concat (ends_crlf <$> ls') ++ l'). rewrite fmap_app, concat_app. cbn.
    unfold ends_crlf at 2. by rewrite app_nil_r, <-!app_assoc. }
  assert (length (take (e + 2) buf) = e + 2)%nat as Hlen.
  { rewrite length_take. apply (f_equal length) in Hk.
    rewrite !length_app, Hl in Hk. cbn [length crlf app] in Hk. lia. }
  assert (t = []) as ->.
  { destruct Ht as [->|[t' ->]]; [done|]. exfalso.
    assert (buf = a ++ (crlf ++ crlf) ++ t' ++ drop (e + 2) buf) as Hb.
    { rewrite <-(take_drop (e + 2) buf) at 1. rewrite Hh, Ha. by rewrite <-!app_assoc. }
    pose proof (Index_first _ _ _ _ _ Ei Hb) as Hle.
    rewrite Hh, Ha, !length_app in Hlen. cbn [length crlf] in Hlen. lia. }
  split; [done|]. rewrite app_nil_r in Hh. rewrite render_split, <-Hh.
  set (p := take e buf) in *. rewrite Hk.
  rewrite (take_app_ge p _ (e + 4)), (take_app_ge p _ (e + 2)), Hl, <-(app_assoc p) by lia. apply (f_equal (app p)).
  replace (e + 4 - e)%nat with 4%nat by lia. by replace (e + 2 - e)%nat with 2%nat by lia.
Qed.

Lemma parseRequestFromBuf_spec buf req n r :
  (∃ sr, parseRequestFromBuf buf req = Ok (n, sr) ∧ sview buf sr = r) ↔
  ∃ lines rest, buf = render lines ++ rest ∧ n = length (render lines)
    ∧ parse_lines lines (sview buf req) = Ok r.
Proof.
  split.
  - intros (sr & Hp & <-). destruct (Index buf (crlf ++ crlf)) as [e|] eqn:Ei.
    2:{ unfold parseRequestFromBuf in Hp. by rewrite Ei in Hp. }
    pose proof (sim_parse buf req e Ei) as Hs. rewrite Hp in Hs. cbn [result_map fst snd] in Hs.
    destruct (parse_hdr _ _) as [r|] eqn:Eh; [|done]. cbn [result_map] in Hs.
    injection Hs as -> <-. apply parse_hdr_Ok in Eh as Hl. destruct Hl as (l0 & ls & t & Hh & Hcl & Ht).
    pose proof (render_of_hdr buf e l0 ls t Ei Hh Ht) as (-> & Hr).
    rewrite app_nil_r in Hh. exists (l0 :: ls), (drop (e + 4) buf).
    assert (length (take (e + 4) buf) = e + 4)%nat as Hlen.
    { rewrite length_take. apply Index_Some in Ei as (k & Hk & Hl). apply (f_equal length) in Hk.
      rewrite !length_app, Hl in Hk. cbn [length crlf app] in Hk. lia. }
    rewrite <-Hr, take_drop. split_and!; [done|done|].
    rewrite Hh, parse_hdr_lines in Eh by done. exact Eh.
  - intros (lines & rest & Hb & -> & Hp). apply parse_lines_clean in Hp as Hc. destruct Hc as [Hne Hcl].
    pose proof (Index_render lines rest Hne Hcl) as Ei. rewrite <-Hb in Ei.
    pose proof (sim_parse buf req _ Ei) as Hs.
    assert (4 ≤ length (render lines))%nat as H4.
    { destruct Hcl as [|l0 ls Hl0 _]; [done|]. rewrite render_cons, !length_app.
      destruct l0; [by destruct Hl0|]. cbn [length crlf]. lia. }
    replace (length (render lines) - 4 + 4)%nat with (length (render lines)) in Hs by lia.
    assert (take (length (render lines)) buf = render lines) as Et by (rewrite Hb; apply take_app_length).
    rewrite Et in Hs.
    assert (take (length (render lines) - 4 + 2) buf = concat (ends_crlf <$> lines)) as E2.
    { rewrite Hb, render_split, <-app_assoc, length_app. cbn [length crlf]. 
      apply take_app_length'. rewrite render_split, length_app in H4. cbn [length crlf] in H4. lia. }
    rewrite E2, parse_hdr_lines, Hp in Hs by done. cbn [result_map] in Hs.
    destruct (parseRequestFromBuf buf req) as [[n sr]|]; [|done]. cbn [result_map fst snd] in Hs.
    injection Hs as -> <-. by exists sr.
Qed.

Lemma readRequest_uring buf r rest :
  readRequest buf zeroRequest = Ok (r, rest) ↔
  ∃ n sr, parseRequestFromBuf buf zeroSReq = Ok (n, sr) ∧ (n ≤ headerScratchSize)%nat
    ∧ sview buf sr = r ∧ rest = drop n buf.
Proof.
  rewrite readRequest_spec. change zeroRequest with (sview buf zeroSReq). split.
  - intros (lines & Hb & Hlen & Hp).
    destruct (proj2 (parseRequestFromBuf_spec buf zeroSReq (length (render lines)) r)) as (sr & Hs & Hv).
    { by exists lines, rest. }
    exists (length (render lines)), sr. split_and!; try done. by rewrite Hb, drop_app_length.
  - intros (n & sr & Hs & Hlen & Hv & ->).
    destruct (proj1 (parseRequestFromBuf_spec buf zeroSReq n r)) as (lines & rest & Hb & -> & Hp); [eauto|].
    exists lines. split_and!; [|done|done]. by rewrite Hb at 1; rewrite Hb, drop_app_length.
Qed.

(** ** One request in the receive buffer *)

Lemma Index_app p t sub e : Index p sub = Some e → Index (p ++ t) sub = Some e.
Proof.
  intros Hp. pose proof (Index_Some _ _ _ Hp) as (k & Hk & Hl).
  assert (p ++ t = take e p ++ sub ++ k ++ t) as Hpt by (rewrite Hk at 1; by rewrite <-!app_assoc).
  destruct (Index_complete (take e p) sub (k ++ t)) as [j Hj]. rewrite <-Hpt in Hj.
  pose proof (Index_first _ _ _ _ _ Hj Hpt) as Hle. rewrite Hj. f_equal.
  pose proof (Index_Some _ _ _ Hj) as (k' & Hk' & Hl').
  assert (length p = e + length sub + length k)%nat as Hlen
    by (rewrite Hk at 1; rewrite !length_app; lia).
  assert (p = take j (p ++ t) ++ sub ++ drop (j + length sub) p) as Hq.
  { rewrite <-(take_drop (j + length sub) p) at 1. rewrite app_assoc. f_equal.
    apply (f_equal (take (j + length sub))) in Hk'. rewrite take_app_le in Hk' by lia. rewrite Hk'.
    rewrite app_assoc. apply take_app_length'. rewrite length_app. lia. }
  pose proof (Index_first _ _ _ _ _ Hp Hq). lia.
Qed.

Lemma parse_app p t req n sr :
  parseRequestFromBuf p req = Ok (n, sr) → parseRequestFromBuf (p ++ t) req = Ok (n, sr).
Proof.
  unfold parseRequestFromBuf. destruct (Index p _) as [e|] eqn:E; [|done].
  rewrite (Index_app _ _ _ _ E). apply Index_Some in E as (k & Hk & Hl). rewrite take_app_le; [done|].
  apply (f_equal length) in Hk. rewrite !length_app in Hk. cbn [length crlf] in Hk. lia.
Qed.

Lemma parse_consumed_le buf req n sr :
  parseRequestFromBuf buf req = Ok (n, sr) → ∃ e, Index buf (crlf ++ crlf) = Some e ∧ n = (e + 4)%nat.
Proof.
  unfold parseRequestFromBuf. destruct (Index buf _) as [e|]; [|done]. cbv zeta.
  destruct (Index _ crlf); [|done]. destruct (s_parseRequestLine _ _ _); [|done].
  destruct (s_header_loop _ _ _ _); [|done]. destruct (_ && _); [done|]. destruct (negb _); [done|].
  intros [= <- _]. eauto.
Qed.

(** A proper prefix of a request that fills the buffer needs more data. *)
Lemma parse_short p d req sr :
  parseRequestFromBuf (p ++ d) req = Ok (length (p ++ d), sr) → d ≠ [] →
  parseRequestFromBuf p req = Err ErrNeedMoreData.
Proof.
  intros Hp Hd. apply parse_consumed_le in Hp as (e & He & Hn).
  unfold parseRequestFromBuf. destruct (Index p _) as [e'|] eqn:E; [|done].
  rewrite (Index_app _ d _ _ E) in He. injection He as ->.
  apply Index_Some in E as (k & Hk & Hl). apply (f_equal length) in Hk.
  rewrite !length_app in Hk. rewrite length_app in Hn. cbn [length crlf] in Hk.
  exfalso. destruct d; [done|]. cbn [length] in Hn. lia.
Qed.

Definition holds (c : ioConn) (p : bytes) : Prop :=
  recvLen c = length p ∧ take (length p) (recvBuf c) = p ∧ c_req c = zeroSReq.

Lemma onRecv_take c p d :
  holds c p → d ≠ [] → (length (p ++ d) ≤ reactorRecvBufSize)%nat →
  onRecv c d = take_request (mkConn (p ++ d ++ drop (length (p ++ d)) (recvBuf c)) (length (p ++ d)) zeroSReq).
Proof.
  intros (Hl & Ht & Hr) Hd Hle. unfold onRecv. rewrite length_app in *.
  destruct (length d =? 0)%nat eqn:E0; [apply Nat.eqb_eq in E0; by destruct d|].
  rewrite Hl. destruct (_ <? _)%nat eqn:E; [apply Nat.ltb_lt in E; lia|].
  by rewrite Ht, Hr.
Qed.

Lemma take_held (p d s : bytes) : take (length (p ++ d)) (p ++ d ++ s) = p ++ d.
Proof. by rewrite app_assoc, take_app_length. Qed.

Lemma recv_all_whole chunks c p sr :
  holds c p → chunks ≠ [] → Forall (λ d, d ≠ []) chunks →
  (length (p ++ concat chunks) ≤ reactorRecvBufSize)%nat →
  parseRequestFromBuf (p ++ concat chunks) zeroSReq = Ok (length (p ++ concat chunks), sr) →
  ∃ stale, recv_all c chunks = RecvRequest (mkConn ((p ++ concat chunks) ++ stale) 0 sr).
Proof.
  intros Hc Hne Hall. revert c p Hc Hne. induction Hall as [|d chunks Hd Hall IH]; [done|].
  intros c p Hc _ Hle Hp. cbn [concat recv_all] in *. rewrite app_assoc in Hle, Hp |- *.
  assert (length (p ++ d) ≤ reactorRecvBufSize)%nat as Hle1
    by (rewrite !length_app in *; lia).
  rewrite (onRecv_take c p d Hc Hd Hle1). unfold take_request. cbn [recvLen recvBuf c_req].
  rewrite take_held. destruct chunks as [|d' chunks].
  - cbn [concat] in *. rewrite app_nil_r in *. rewrite Hp, Nat.sub_diag.
    exists (drop (length (p ++ d)) (recvBuf c)). by rewrite <-app_assoc.
  - rewrite (parse_short _ _ _ _ Hp).
    2:{ inversion Hall; subst. cbn. by destruct d'. }
    apply IH; [|done|done|done]. split_and!; [done| |done]. cbn [recvBuf]. by rewrite take_held.
Qed.

(** ** Requests used by the examples *)

Definition get_request (path auth : string) : bytes :=
  bs ("GET " +:+ path +:+ " HTTP/1.1") ++ crlf ++ bs "Host: h" ++ crlf
  ++ (if String.eqb auth "" then [] else bs ("Authorization: Bearer " +:+ auth) ++ crlf) ++ crlf.

Definition fresh_buf : bytes := replicate reactorRecvBufSize 0.

(** ** Properties *)

(** C14: the two request parsers stay in lock-step: [readRequest] on a stream
    accepts a request exactly when [parseRequestFromBuf] accepts it on a
    buffer holding the same bytes, with a header block of at most 16 KiB; the
    slices then read as the same request and as many bytes are consumed. *)
Theorem parsers_agree buf r rest :
  readRequest buf zeroRequest = Ok (r, rest) ↔
  ∃ n sr, parseRequestFromBuf buf zeroSReq = Ok (n, sr) ∧ (n ≤ headerScratchSize)%nat
    ∧ sview buf sr = r ∧ rest = drop n buf.
Proof. apply readRequest_uring. Qed.

(** on a fresh connection a request that arrives alone, split over any
    number of receive completions and into a pooled buffer with any old
    contents, reaches the auth gate as the request [readRequest] would read
    from the stream. *)
Theorem reactor_first_request pooled chunks r :
  chunks ≠ [] → Forall (λ d, d ≠ []) chunks → readRequest (concat chunks) zeroRequest = Ok (r, []) →
  ∃ c, recv_all (acquireIoConn pooled) chunks = RecvRequest c ∧ seen_by_gate c = r.
Proof.
  intros Hne Hall Hr. apply readRequest_uring in Hr as (n & sr & Hp & Hn & Hv & Hd).
  assert (n = length (concat chunks)) as ->.
  { apply (f_equal length) in Hd. rewrite length_drop in Hd. cbn in Hd.
    apply parse_consumed_le in Hp as (e & He & ->). apply Index_Some in He as (k & Hk & Hl).
    apply (f_equal length) in Hk. rewrite !length_app in Hk. cbn [length crlf] in Hk. lia. }
  destruct (recv_all_whole chunks (acquireIoConn pooled) [] sr) as [stale Hs]; try done.
  rewrite Hs. eexists. split; [done|]. unfold seen_by_gate. cbn [recvBuf c_req app].
  pose proof (parse_app _ stale _ _ _ Hp) as Hp'.
  destruct (proj1 (parseRequestFromBuf_spec _ _ _ _) (ex_intro _ sr (conj Hp' eq_refl)))
    as (lines & rest & Hb & Hlen & Hl).
  destruct (proj1 (parseRequestFromBuf_spec _ _ _ _) (ex_intro _ sr (conj Hp Hv)))
    as (lines' & rest' & Hb' & Hlen' & Hl').
  change (sview _ zeroSReq) with zeroRequest in Hl, Hl'.
  assert (readRequest (concat chunks ++ stale) zeroRequest = Ok (sview (concat chunks ++ stale) sr, stale)) as H1.
  { apply readRequest_uring. eexists _, sr. split_and!; [exact Hp'|done|done|]. by rewrite drop_app_length. }
  assert (readRequest (concat chunks ++ stale) zeroRequest = Ok (r, stale)) as H2.
  { apply readRequest_spec. exists lines'. split_and!; [|lia|done].
    f_equal. rewrite Hb' in Hlen' |- *. rewrite length_app in Hlen'. destruct rest'; [|cbn in Hlen'; lia].
    by rewrite app_nil_r. }
  congruence.
Qed.

Lemma reactor_first_request_witness :
  let req := get_request "/o/m/resolve/main/f" "tok" in
  let chunks := [take 7 req; drop 7 req] in
  ∃ r, readRequest (concat chunks) zeroRequest = Ok (r, []) ∧
  ∃ c, recv_all (acquireIoConn fresh_buf) chunks = RecvRequest c ∧ seen_by_gate c = r.
Proof.
  intros req chunks. eexists. split; [vm_compute; reflexivity|].
  apply reactor_first_request; [done|repeat constructor; done|vm_compute; reflexivity].
Defined.

(** the leftover bytes are slid to the front of the buffer before the
    request's slices are read: of two requests pipelined in one segment, the
    first one with an invalid token, the gate is shown the second request's
    token and path in place of the first's. *)
Theorem reactor_pipelined_confusion :
  let a := get_request "/a/m/resolve/main/f" "bad" in
  let b := get_request "/b/m/resolve/main/f" "tok" in
  ∃ ra rb,
    readRequest (a ++ b) zeroRequest = Ok (ra, b) ∧ readRequest b zeroRequest = Ok (rb, []) ∧
    gate_sees (onRecv (acquireIoConn fresh_buf) (a ++ b)) = Some rb ∧
    rAuth ra ≠ rAuth rb ∧ rPath ra ≠ rPath rb.
Proof.
  intros a b. eexists _, _. split; [vm_compute; reflexivity|]. split; [vm_compute; reflexivity|].
  split; [vm_compute; reflexivity|]. split; vm_decide.
Qed.

(** the request of a connection is not reset between keep-alive requests:
    after an authenticated request, a second one that carries no
    Authorization header reaches the gate with the first one's token. *)
Theorem reactor_stale_auth :
  let a := get_request "/a/long/enough/path/resolve/main/f" "tok" in
  let b := get_request "/b/m/f" "" in
  ∃ rb seen,
    readRequest b zeroRequest = Ok (rb, []) ∧ rAuth rb = [] ∧
    gate_sees (next_recv (onRecv (acquireIoConn fresh_buf) a) b) = Some seen ∧
    rPath seen = rPath rb ∧ rAuth seen = bs "Bearer tok".
Proof.
  intros a b. eexists _, _. split; [vm_compute; reflexivity|]. split; [vm_compute; reflexivity|].
  split; [vm_compute; reflexivity|]. split; vm_decide.
Qed.
