(* ===== verification/RespHead.v ===== *)
(** * Response heads of the fast path
    (src/internal/coreserver/server.go, header_buf.go)

    The warm path writes its head either through the connection's
    [bufio.Writer], here the bytes written so far, or into a fixed array of
    512 bytes ([headerBuf]) that is handed to the kernel with the body. *)

From stdpp Require Import base strings numbers gmap list.
From S2P Require Import Prelude GoStd Spans Store HttpParser UringParser.

Local Open Scope Z_scope.
Local Open Scope go_scope.

(** ** Through the buffered writer *)

(** [writeUint]: at most twenty digits. *)
Fixpoint write_uint (fuel : nat) (bw : bytes) (v : Z) : bytes :=
  match fuel with
  | O => bw
  | S fuel =>
      let bw := if 10 <=? v then write_uint fuel bw (v / 10) else bw in
      bw ++ [48 + v mod 10]
  end.

Definition writeUint (bw : bytes) (v : Z) : bytes := write_uint 20 bw v.

(** [uint64(-v)] *)
Definition uint64_neg (v : Z) : Z := (- v) mod 2 ^ 64.

Definition writeInt (bw : bytes) (v : Z) : bytes :=
  if v <? 0 then writeUint (bw ++ bs "-") (uint64_neg v) else writeUint bw v.

Definition writeContentMeta (bw : bytes) (meta : Meta) : bytes :=
  let bw := if beq (ContentType meta) [] then bw
            else ((bw ++ bs "Content-Type: ") ++ ContentType meta) ++ crlf in
  if beq (ETag meta) [] then bw else ((bw ++ bs "ETag: ") ++ ETag meta) ++ crlf.

Definition writeContentLength (bw : bytes) (n : Z) : bytes :=
  writeInt (bw ++ bs "Content-Length: ") n ++ crlf.

Definition writeConnection (bw : bytes) (keepAlive : bool) : bytes :=
  bw ++ (if keepAlive then bs "Connection: keep-alive" else bs "Connection: close") ++ crlf.

Definition writeWarmHead200 (bw : bytes) (n : Z) (meta : Meta) (keepAlive : bool) : bytes :=
  let bw := bw ++ bs "HTTP/1.1 200 OK" ++ crlf in
  let bw := writeContentMeta bw meta in
  let bw := writeContentLength bw n in
  let bw := writeConnection bw keepAlive in
  bw ++ crlf.

Definition writeWarmHead206 (bw : bytes) (start end_ total n : Z) (meta : Meta) (keepAlive : bool) : bytes :=
  let bw := bw ++ bs "HTTP/1.1 206 Partial Content" ++ crlf in
  let bw := writeContentMeta bw meta in
  let bw := bw ++ bs "Content-Range: bytes " in
  let bw := writeInt bw start in
  let bw := bw ++ bs "-" in
  let bw := writeInt bw (end_ -64 1) in
  let bw := bw ++ bs "/" in
  let bw := if total >=? 0 then writeInt bw total else bw ++ bs "*" in
  let bw := bw ++ crlf in
  let bw := writeContentLength bw n in
  let bw := writeConnection bw keepAlive in
  bw ++ crlf.

(** ** Into the fixed buffer *)

Definition headerBufSize : nat := 512.

(** The populated region [b[:n]] of a [headerBuf]. *)
Record headerBuf := mkHB { hb_bytes : bytes }.

Definition acquireHeaderBuf : headerBuf := mkHB [].

(** [copy] stops at the end of the array. *)
Definition hb_writeString (h : headerBuf) (s : bytes) : headerBuf :=
  mkHB (hb_bytes h ++ take (headerBufSize - length (hb_bytes h)) s).

Definition hb_writeByte (h : headerBuf) (c : Z) : headerBuf :=
  if (length (hb_bytes h) <? headerBufSize)%nat then mkHB (hb_bytes h ++ [c]) else h.

Fixpoint hb_write_uint (fuel : nat) (h : headerBuf) (v : Z) : headerBuf :=
  match fuel with
  | O => h
  | S fuel =>
      let h := if 10 <=? v then hb_write_uint fuel h (v / 10) else h in
      hb_writeByte h (48 + v mod 10)
  end.

Definition hb_writeUint (h : headerBuf) (v : Z) : headerBuf := hb_write_uint 20 h v.

Definition hb_writeInt (h : headerBuf) (v : Z) : headerBuf :=
  if v <? 0 then hb_writeUint (hb_writeByte h 45) (uint64_neg v) else hb_writeUint h v.

Definition writeContentMetaBuf (h : headerBuf) (meta : Meta) : headerBuf :=
  let h := if beq (ContentType meta) [] then h
           else hb_writeString (hb_writeString (hb_writeString h (bs "Content-Type: ")) (ContentType meta)) crlf in
  if beq (ETag meta) [] then h
  else hb_writeString (hb_writeString (hb_writeString h (bs "ETag: ")) (ETag meta)) crlf.

Definition writeContentLengthBuf (h : headerBuf) (n : Z) : headerBuf :=
  hb_writeString (hb_writeInt (hb_writeString h (bs "Content-Length: ")) n) crlf.

Definition writeConnectionBuf (h : headerBuf) (keepAlive : bool) : headerBuf :=
  hb_writeString h ((if keepAlive then bs "Connection: keep-alive" else bs "Connection: close") ++ crlf).

Definition writeWarmHead200Buf (h : headerBuf) (n : Z) (meta : Meta) (keepAlive : bool) : headerBuf :=
  let h := hb_writeString h (bs "HTTP/1.1 200 OK" ++ crlf) in
  let h := writeContentMetaBuf h meta in
  let h := writeContentLengthBuf h n in
  let h := writeConnectionBuf h keepAlive in
  hb_writeString h crlf.

Definition writeWarmHead206Buf (h : headerBuf) (start end_ total n : Z) (meta : Meta) (keepAlive : bool)
    : headerBuf :=
  let h := hb_writeString h (bs "HTTP/1.1 206 Partial Content" ++ crlf) in
  let h := writeContentMetaBuf h meta in
  let h := hb_writeString h (bs "Content-Range: bytes ") in
  let h := hb_writeInt h start in
  let h := hb_writeByte h 45 in
  let h := hb_writeInt h (end_ -64 1) in
  let h := hb_writeByte h 47 in
  let h := if total >=? 0 then hb_writeInt h total else hb_writeByte h 42 in
  let h := hb_writeString h crlf in
  let h := writeContentLengthBuf h n in
  let h := writeConnectionBuf h keepAlive in
  hb_writeString h crlf.

(** ** Error responses *)

Definition statusText (code : Z) : bytes :=
  if code =? 400 then bs "Bad Request"
  else if code =? 401 then bs "Unauthorized"
  else if code =? 403 then bs "Forbidden"
  else if code =? 404 then bs "Not Found"
  else if code =? 500 then bs "Internal Server Error"
  else if code =? 503 then bs "Service Unavailable"
  else [].

Definition writeStatus (bw : bytes) (code : Z) (reason : bytes) : bytes :=
  bw ++ bs "HTTP/1.1 " ++ FormatInt code ++ bs " " ++ reason
     ++ crlf ++ bs "Content-Length: 0" ++ crlf ++ bs "Connection: close" ++ crlf ++ crlf.

(** The parser-error counters of telemetry. *)
Record counters := mkCounters { n_too_large : Z; n_smuggling : Z; n_bad : Z }.

Definition incParserErrorCounter (t : counters) (err : perr) : counters :=
  match err with
  | ErrHeaderTooLarge => mkCounters (n_too_large t + 1) (n_smuggling t) (n_bad t)
  | ErrSmugglingSuspect => mkCounters (n_too_large t) (n_smuggling t + 1) (n_bad t)
  | ErrBadRequest => mkCounters (n_too_large t) (n_smuggling t) (n_bad t + 1)
  | _ => t
  end.

Definition writeParserErrorResponse (t : counters) (bw : bytes) (err : perr) : counters * bytes :=
  match err with
  | ErrHeaderTooLarge =>
      (mkCounters (n_too_large t + 1) (n_smuggling t) (n_bad t),
       writeStatus bw 431 (bs "Request Header Fields Too Large"))
  | ErrSmugglingSuspect =>
      (mkCounters (n_too_large t) (n_smuggling t + 1) (n_bad t), writeStatus bw 400 (bs "Bad Request"))
  | ErrBadRequest =>
      (mkCounters (n_too_large t) (n_smuggling t) (n_bad t + 1), writeStatus bw 400 (bs "Bad Request"))
  | _ => (t, bw)
  end.

Definition quote : bytes := [34].

Definition renderAuthRejectWithKeepAlive (status : Z) (reason : bytes) (keepAlive : bool) : bytes :=
  let conn := if keepAlive then bs "keep-alive" else bs "close" in
  bs "HTTP/1.1 " ++ FormatInt status ++ bs " " ++ statusText status ++ crlf
  ++ bs "WWW-Authenticate: Bearer error=" ++ quote ++ bs "invalid_token" ++ quote ++ crlf
  ++ bs "Content-Type: text/plain; charset=utf-8" ++ crlf
  ++ bs "Content-Length: " ++ FormatInt (Z.of_nat (length reason)) ++ crlf
  ++ bs "Connection: " ++ conn ++ crlf ++ crlf ++ reason.

Definition renderAuthReject (status : Z) (reason : bytes) : bytes :=
  renderAuthRejectWithKeepAlive status reason false.

Definition writeAuthReject (bw : bytes) (status : Z) (reason : bytes) (keepAlive : bool) : bytes :=
  bw ++ renderAuthRejectWithKeepAlive status reason keepAlive.

(** ** How a client reads a response framed by its length *)

(** The CRLF-terminated lines of a header block; every turn consumes two
    bytes. *)
Fixpoint lines_of (fuel : nat) (hdr : bytes) : list bytes :=
  match fuel, Index hdr crlf with
  | S fuel, Some e => take e hdr :: lines_of fuel (drop (e + 2) hdr)
  | _, _ => []
  end.

Definition field_value (name : bytes) (lines : list bytes) : option bytes :=
  match omap (fun l => CutPrefix l name) lines with v :: _ => Some v | [] => None end.

(** Status line, header lines, body and what follows the response. *)
Definition decode_response (s : bytes) : option (list bytes * bytes * bytes) :=
  match Index s (crlf ++ crlf) with
  | None => None
  | Some e =>
      let lines := lines_of e (take (e + 2) s) in
      match field_value (bs "Content-Length: ") lines with
      | None => None
      | Some v =>
          match ParseInt v with
          | None => None
          | Some n =>
              let body := drop (e + 4) s in
              if (0 <=? n) && (n <=? Z.of_nat (length body))
              then Some (lines, take (Z.to_nat n) body, drop (Z.to_nat n) body) else None
          end
      end
  end.

(** ** The digits written *)

Lemma write_uint_app fuel bw v : write_uint fuel bw v = bw ++ dec_digits fuel v.
Proof.
  revert v. induction fuel as [|fuel IH]; intros v; cbn [write_uint dec_digits]; [by rewrite app_nil_r|].
  destruct (10 <=? v); [by rewrite IH, <-app_assoc|done].
Qed.

Lemma writeInt_format bw v : is_int64 v → writeInt bw v = bw ++ FormatInt v.
Proof.
  intros Hv. unfold writeInt, FormatInt, writeUint, FormatUint. rewrite !write_uint_app.
  destruct (Z.ltb_spec v 0); [|done]. unfold uint64_neg. rewrite Z.mod_small by zlia. by rewrite <-app_assoc.
Qed.

(** ** The fixed buffer holds the first 512 bytes *)

Definition hb_of (b : bytes) : headerBuf := mkHB (take headerBufSize b).

Lemma hb_of_string b s : hb_writeString (hb_of b) s = hb_of (b ++ s).
Proof.
  unfold hb_writeString, hb_of. cbn [hb_bytes]. f_equal. rewrite take_app. f_equal. f_equal.
  rewrite length_take. lia.
Qed.

Lemma hb_of_byte b c : hb_writeByte (hb_of b) c = hb_of (b ++ [c]).
Proof.
  rewrite <-hb_of_string. unfold hb_writeByte, hb_writeString.
  destruct (Nat.ltb_spec (length (hb_bytes (hb_of b))) headerBufSize) as [Hl|Hl].
  - f_equal. f_equal. rewrite take_ge; [done|]. cbn [length]. lia.
  - replace (headerBufSize - _)%nat with 0%nat by lia. cbn. by rewrite app_nil_r.
Qed.

Lemma hb_of_uint fuel b v : hb_write_uint fuel (hb_of b) v = hb_of (write_uint fuel b v).
Proof.
  revert v. induction fuel as [|fuel IH]; intros v; cbn [write_uint hb_write_uint]; [done|].
  destruct (10 <=? v); [rewrite IH|]; by rewrite hb_of_byte.
Qed.

Lemma hb_of_int b v : hb_writeInt (hb_of b) v = hb_of (writeInt b v).
Proof.
  unfold hb_writeInt, writeInt, hb_writeUint, writeUint.
  destruct (v <? 0); [rewrite hb_of_byte|]; by rewrite hb_of_uint.
Qed.

Create Rewrite HintDb headbuf.
#[export] Hint Rewrite hb_of_string hb_of_byte hb_of_int : headbuf.

Lemma hb_of_meta b m : writeContentMetaBuf (hb_of b) m = hb_of (writeContentMeta b m).
Proof.
  unfold writeContentMetaBuf, writeContentMeta.
  destruct (beq (ContentType m) []); destruct (beq (ETag m) []); by autorewrite with headbuf.
Qed.

Lemma hb_of_clen b n : writeContentLengthBuf (hb_of b) n = hb_of (writeContentLength b n).
Proof. unfold writeContentLengthBuf, writeContentLength. by autorewrite with headbuf. Qed.

Lemma hb_of_conn b k : writeConnectionBuf (hb_of b) k = hb_of (writeConnection b k).
Proof. unfold writeConnectionBuf, writeConnection. by autorewrite with headbuf. Qed.

#[export] Hint Rewrite hb_of_meta hb_of_clen hb_of_conn : headbuf.

Lemma hb_of_200 b n m k : writeWarmHead200Buf (hb_of b) n m k = hb_of (writeWarmHead200 b n m k).
Proof. unfold writeWarmHead200Buf, writeWarmHead200. cbv zeta. by autorewrite with headbuf. Qed.

Lemma hb_of_206 b s e t n m k :
  writeWarmHead206Buf (hb_of b) s e t n m k = hb_of (writeWarmHead206 b s e t n m k).
Proof.
  unfold writeWarmHead206Buf, writeWarmHead206. cbv zeta.
  destruct (t >=? 0); by autorewrite with headbuf.
Qed.

(** ** A head is a block of lines the client splits again *)

Lemma concat_length_ge ls : Forall clean ls → (3 * length ls ≤ length (concat (ends_crlf <$> ls)))%nat.
Proof.
  induction 1 as [|l ls (Hne & _) _ IH]; [cbn; lia|]. rewrite fmap_cons. cbn [concat length].
  unfold ends_crlf at 1. rewrite !length_app. destruct l; [done|]. cbn [length crlf]. lia.
Qed.

Lemma lines_of_concat fuel ls :
  Forall clean ls → (length ls ≤ fuel)%nat → lines_of fuel (concat (ends_crlf <$> ls)) = ls.
Proof.
  intros Hcl. revert fuel. induction Hcl as [|l ls Hl _ IH]; intros fuel Hf; [by destruct fuel|].
  destruct fuel as [|fuel]; [cbn in Hf; lia|]. rewrite concat_lines_cons.
  cbn [lines_of]. rewrite Index_crlf_clean, take_line, drop_line by apply Hl.
  f_equal. apply IH. cbn in Hf. lia.
Qed.

Lemma decode_render lines v body rest :
  Forall clean lines → field_value (bs "Content-Length: ") lines = Some v →
  ParseInt v = Some (Z.of_nat (length body)) →
  decode_response (render lines ++ body ++ rest) = Some (lines, body, rest).
Proof.
  intros Hcl Hf Hv. assert (lines ≠ []) as Hne by (by intros ->).
  unfold decode_response. rewrite Index_render by done.
  pose proof (concat_length_ge lines Hcl) as Hge.
  assert (length lines ≠ 0)%nat by (by destruct lines).
  assert (length (render lines) = length (concat (ends_crlf <$> lines)) + 2)%nat as El
    by (unfold render; by rewrite length_app).
  replace (length (render lines) - 4 + 2)%nat with (length (concat (ends_crlf <$> lines))) by lia.
  replace (length (render lines) - 4 + 4)%nat with (length (render lines)) by lia.
  rewrite drop_app_length. cbv zeta.
  assert (take (length (concat (ends_crlf <$> lines))) (render lines ++ body ++ rest)
          = concat (ends_crlf <$> lines)) as -> by (unfold render; by rewrite <-!app_assoc, take_app_length).
  rewrite lines_of_concat, Hf, Hv by (done || lia).
  assert ((0 <=? Z.of_nat (length body)) && (Z.of_nat (length body) <=? Z.of_nat (length (body ++ rest))) = true) as ->.
  { rewrite length_app. apply andb_true_iff. rewrite !Z.leb_le. lia. }
  by rewrite Nat2Z.id, take_app_length, drop_app_length.
Qed.

Definition meta_lines (m : Meta) : list bytes :=
  (if beq (ContentType m) [] then [] else [bs "Content-Type: " ++ ContentType m])
  ++ (if beq (ETag m) [] then [] else [bs "ETag: " ++ ETag m]).

Definition conn_line (k : bool) : bytes :=
  if k then bs "Connection: keep-alive" else bs "Connection: close".

Definition head200_lines (n : Z) (m : Meta) (k : bool) : list bytes :=
  bs "HTTP/1.1 200 OK" :: meta_lines m ++ [bs "Content-Length: " ++ FormatInt n; conn_line k].

Definition content_range (a b total : Z) : bytes :=
  bs "bytes " ++ FormatInt a ++ bs "-" ++ FormatInt (b - 1) ++ bs "/"
  ++ (if total >=? 0 then FormatInt total else bs "*").

Definition head206_lines (a b total n : Z) (m : Meta) (k : bool) : list bytes :=
  bs "HTTP/1.1 206 Partial Content" :: meta_lines m
  ++ [bs "Content-Range: " ++ content_range a b total; bs "Content-Length: " ++ FormatInt n; conn_line k].

(** No line break in the values a head carries. *)
Definition no_break (s : bytes) : Prop := cr ∉ s ∧ lf ∉ s.
Definition meta_clean (m : Meta) : Prop := no_break (ContentType m) ∧ no_break (ETag m).

Lemma writeContentMeta_lines bw m :
  writeContentMeta bw m = bw ++ concat (ends_crlf <$> meta_lines m).
Proof.
  unfold writeContentMeta, meta_lines, ends_crlf.
  destruct (beq (ContentType m) []), (beq (ETag m) []); cbn [app fmap list_fmap concat];
    by rewrite ?app_nil_r, <-?app_assoc.
Qed.

Lemma writeConnection_line bw k : writeConnection bw k = bw ++ ends_crlf (conn_line k).
Proof. by destruct k. Qed.

Lemma writeContentLength_line bw n :
  is_int64 n → writeContentLength bw n = bw ++ ends_crlf (bs "Content-Length: " ++ FormatInt n).
Proof. intros Hn. unfold writeContentLength, ends_crlf. rewrite writeInt_format by done. by rewrite <-!app_assoc. Qed.

Lemma writeWarmHead200_render n m k :
  is_int64 n → writeWarmHead200 [] n m k = render (head200_lines n m k).
Proof.
  intros Hn. unfold writeWarmHead200, render, head200_lines. cbv zeta.
  rewrite writeConnection_line, writeContentLength_line, writeContentMeta_lines by done.
  rewrite fmap_cons, fmap_app. cbn [concat]. rewrite concat_app. cbn [fmap list_fmap concat].
  by rewrite app_nil_r, <-!app_assoc.
Qed.

Lemma writeWarmHead206_render a b total n m k :
  is_int64 a → is_int64 b → is_int64 (b - 1) → is_int64 total → is_int64 n →
  writeWarmHead206 [] a b total n m k = render (head206_lines a b total n m k).
Proof.
  intros Ha Hb Hb1 Ht Hn. unfold writeWarmHead206, render, head206_lines. cbv zeta.
  rewrite writeConnection_line, writeContentLength_line, writeContentMeta_lines by done.
  rewrite (wrap64_id (b - 1)), !writeInt_format by done.
  rewrite fmap_cons, fmap_app. cbn [concat]. rewrite concat_app. cbn [fmap list_fmap concat].
  unfold content_range, ends_crlf. destruct (total >=? 0);
    by rewrite ?app_nil_r, <-?app_assoc.
Qed.

Lemma no_break_visible s : Forall visible s → no_break s.
Proof.
  intros Hs. rewrite Forall_forall in Hs. unfold no_break, cr, lf.
  split; intros Hin; apply Hs in Hin; unfold visible in Hin; lia.
Qed.

Lemma no_break_app a b : no_break a → no_break b → no_break (a ++ b).
Proof. intros [? ?] [? ?]. by split; apply not_elem_of_app. Qed.

Lemma no_break_int n : no_break (FormatInt n).
Proof. apply no_break_visible, FormatInt_visible. Qed.

Lemma clean_app a b : a ≠ [] → no_break a → no_break b → clean (a ++ b).
Proof.
  intros Hne Ha Hb. destruct (no_break_app a b Ha Hb) as [Hc Hl]. split_and!; [|done|done].
  by destruct a.
Qed.

Ltac lit_break := apply (bool_decide_unpack _); vm_compute; exact I.

Lemma meta_lines_clean m : meta_clean m → Forall clean (meta_lines m).
Proof.
  intros [Hc He]. unfold meta_lines. apply Forall_app. split; destruct (beq _ _); try done;
    (constructor; [|done]); apply clean_app; try done; lit_break.
Qed.

Lemma conn_line_clean k : clean (conn_line k).
Proof. destruct k; split_and!; try done; lit_break. Qed.

Lemma clen_line_clean n : clean (bs "Content-Length: " ++ FormatInt n).
Proof. apply clean_app; [done|lit_break|apply no_break_int]. Qed.

Lemma content_range_break a b t : no_break (content_range a b t).
Proof.
  unfold content_range. do 2 (apply no_break_app; [lit_break|apply no_break_app; [apply no_break_int|]]).
  apply no_break_app; [lit_break|].
  destruct (t >=? 0); [apply no_break_int|lit_break].
Qed.

Lemma head200_clean n m k : meta_clean m → Forall clean (head200_lines n m k).
Proof.
  intros Hm. unfold head200_lines. constructor; [split_and!; try done; lit_break|].
  apply Forall_app. split; [by apply meta_lines_clean|].
  repeat constructor; apply clen_line_clean || apply conn_line_clean.
Qed.

Lemma head206_clean a b t n m k : meta_clean m → Forall clean (head206_lines a b t n m k).
Proof.
  intros Hm. unfold head206_lines. constructor; [split_and!; try done; lit_break|].
  apply Forall_app. split; [by apply meta_lines_clean|].
  constructor; [apply clean_app; [done|lit_break|apply content_range_break]|].
  repeat constructor; apply clen_line_clean || apply conn_line_clean.
Qed.

Lemma field_value_skip name l ls : CutPrefix l name = None → field_value name (l :: ls) = field_value name ls.
Proof. intros H. unfold field_value. cbn. by rewrite H. Qed.

Lemma field_value_meta m ls :
  field_value (bs "Content-Length: ") (meta_lines m ++ ls) = field_value (bs "Content-Length: ") ls.
Proof.
  unfold meta_lines. destruct (beq (ContentType m) []), (beq (ETag m) []);
    rewrite <-?app_assoc; cbn [app]; rewrite ?field_value_skip by done; done.
Qed.

Lemma field_value_clen n ls :
  field_value (bs "Content-Length: ") ((bs "Content-Length: " ++ FormatInt n) :: ls) = Some (FormatInt n).
Proof. unfold field_value. cbn [omap list_omap]. by rewrite CutPrefix_app. Qed.

Lemma decode_head200 m k body rest :
  meta_clean m → is_int64 (Z.of_nat (length body)) →
  let n := Z.of_nat (length body) in
  decode_response (writeWarmHead200 [] n m k ++ body ++ rest) = Some (head200_lines n m k, body, rest).
Proof.
  intros Hm Hn n. rewrite writeWarmHead200_render by done.
  apply (decode_render _ (FormatInt n)); [by apply head200_clean| |by apply ParseInt_FormatInt].
  unfold head200_lines. rewrite field_value_skip, field_value_meta by done. apply field_value_clen.
Qed.

Lemma decode_head206 a b total m k body rest :
  meta_clean m → is_int64 a → is_int64 b → is_int64 (b - 1) → is_int64 total →
  is_int64 (Z.of_nat (length body)) →
  let n := Z.of_nat (length body) in
  decode_response (writeWarmHead206 [] a b total n m k ++ body ++ rest)
  = Some (head206_lines a b total n m k, body, rest).
Proof.
  intros Hm Ha Hb Hb1 Ht Hn n. rewrite writeWarmHead206_render by done.
  apply (decode_render _ (FormatInt n)); [by apply head206_clean| |by apply ParseInt_FormatInt].
  unfold head206_lines. rewrite field_value_skip, field_value_meta by done.
  rewrite field_value_skip by done. apply field_value_clen.
Qed.

Definition empty_meta : Meta := mkMeta 1 [] [] [] [] None [] [] 0 [] ∅ [] [] [].

Definition long_etag_meta : Meta :=
  mkMeta 1 [] [] [] [mkSpan 0 3] (Some 3) (replicate 500 65) (bs "text/plain") 0 [] ∅ [] [] [].

(** ** Properties *)

(** the two renderings of a warm response head agree: the fixed-array
    version holds exactly the first 512 bytes of what the buffered version
    writes, whatever the metadata and the range, so the wire formats are
    identical for every head that fits. *)
Theorem warm_heads_agree start end_ total n meta keepAlive :
  hb_bytes (writeWarmHead200Buf acquireHeaderBuf n meta keepAlive)
    = take headerBufSize (writeWarmHead200 [] n meta keepAlive) ∧
  hb_bytes (writeWarmHead206Buf acquireHeaderBuf start end_ total n meta keepAlive)
    = take headerBufSize (writeWarmHead206 [] start end_ total n meta keepAlive).
Proof.
  change acquireHeaderBuf with (hb_of []). by rewrite hb_of_200, hb_of_206.
Qed.

(** the fixed array is not large enough for every cached object: with an
    entity tag of 500 bytes the head loses its Content-Length and its final
    blank line, and the client takes the body for header bytes. *)
Theorem warm_head_truncated :
  let head := hb_bytes (writeWarmHead200Buf acquireHeaderBuf 3 long_etag_meta true) in
  decode_response (writeWarmHead200 [] 3 long_etag_meta true ++ bs "abc")
    = Some (head200_lines 3 long_etag_meta true, bs "abc", []) ∧
  head ≠ writeWarmHead200 [] 3 long_etag_meta true ∧
  decode_response (head ++ bs "abc") = None.
Proof. split_and!; vm_decide. Qed.
