(* ===== verification/RespWriter.v ===== *)
(** * The slow path's response writer (src/internal/coreserver/bridge.go)

    [respWriter] frames what an http.Handler writes: by the Content-Length the
    handler set, or in chunks.  It also slides the connection's write deadline
    while the client makes progress.  The bytes handed to the connection's
    [bufio.Writer] are the list [rw_out]; times are nanoseconds. *)

From stdpp Require Import base strings numbers gmap list.
From S2P Require Import Prelude GoStd HttpParser UringParser RespHead.

Local Open Scope Z_scope.
Local Open Scope go_scope.

Inductive rwMode := rwModeUnknown | rwModeContentLength | rwModeChunked.

(** [http.Header]: a map, whose iteration order is unspecified. *)
Abbreviation header := (gmap bytes (list bytes)).

Definition hdr_Get (h : header) (k : bytes) : bytes :=
  match h !! k with Some (v :: _) => v | _ => [] end.
Definition hdr_Set (h : header) (k v : bytes) : header := <[k := [v]]> h.
Definition hdr_Del (h : header) (k : bytes) : header := delete k h.

Record respWriter := mkRW {
  rw_out : bytes;
  rw_hdr : header;
  rw_mode : rwMode;
  wroteHd : bool;
  rw_keep : bool;
  rw_status : Z;
  rw_cl : Z;
  rw_conn : option Z;          (* the connection's write deadline, if there is a connection *)
  writeTimeout : Z;
  extEvery : Z;
  lastExt : option Z;
}.

Definition millisecond : Z := 1000000.
Definition second : Z := 1000 * millisecond.

Definition extensionInterval (writeTimeout : Z) : Z :=
  if writeTimeout <=? 0 then 0
  else
    let iv := writeTimeout ÷ 4 in
    let iv := if iv >? 60 * second then 60 * second else iv in
    if iv <? 50 * millisecond then 50 * millisecond else iv.

Definition acquireRespWriter (bw : bytes) (req : Request) (conn : option Z) (writeTimeout : Z) : respWriter :=
  mkRW bw ∅ rwModeUnknown false (KeepAlive req) 200 (-1) conn writeTimeout (extensionInterval writeTimeout) None.

Definition rw_write (rw : respWriter) (s : bytes) : respWriter :=
  mkRW (rw_out rw ++ s) (rw_hdr rw) (rw_mode rw) (wroteHd rw) (rw_keep rw) (rw_status rw) (rw_cl rw)
    (rw_conn rw) (writeTimeout rw) (extEvery rw) (lastExt rw).

Definition with_hdr (rw : respWriter) (h : header) : respWriter :=
  mkRW (rw_out rw) h (rw_mode rw) (wroteHd rw) (rw_keep rw) (rw_status rw) (rw_cl rw)
    (rw_conn rw) (writeTimeout rw) (extEvery rw) (lastExt rw).

Definition with_mode (rw : respWriter) (m : rwMode) (cl : Z) (h : header) : respWriter :=
  mkRW (rw_out rw) h m (wroteHd rw) (rw_keep rw) (rw_status rw) cl
    (rw_conn rw) (writeTimeout rw) (extEvery rw) (lastExt rw).

Definition with_status (rw : respWriter) (code : Z) : respWriter :=
  mkRW (rw_out rw) (rw_hdr rw) (rw_mode rw) true (rw_keep rw) code (rw_cl rw)
    (rw_conn rw) (writeTimeout rw) (extEvery rw) (lastExt rw).

Definition maybeExtend (now : Z) (rw : respWriter) : respWriter :=
  match rw_conn rw with
  | None => rw
  | Some _ =>
      if writeTimeout rw <=? 0 then rw
      else if (match lastExt rw with Some t => now - t <? extEvery rw | None => false end) then rw
      else mkRW (rw_out rw) (rw_hdr rw) (rw_mode rw) (wroteHd rw) (rw_keep rw) (rw_status rw) (rw_cl rw)
             (Some (now + writeTimeout rw)) (writeTimeout rw) (extEvery rw) (Some now)
  end.

Section writer.

(** The order in which a header map is ranged over. *)
Context (range : header → list (bytes * list bytes)).

Definition field_lines (f : bytes * list bytes) : bytes :=
  concat ((fun v => f.1 ++ bs ": " ++ v ++ crlf) <$> f.2).

(** Framing and connection headers, decided by [WriteHeader]. *)
Definition framing (rw : respWriter) : respWriter :=
  let cl := hdr_Get (rw_hdr rw) (bs "Content-Length") in
  let rw := if beq cl [] then rw
            else match ParseInt cl with
                 | Some v => if 0 <=? v then with_mode rw rwModeContentLength v (rw_hdr rw) else rw
                 | None => rw
                 end in
  match rw_mode rw with
  | rwModeUnknown =>
      with_mode rw rwModeChunked (rw_cl rw)
        (hdr_Set (hdr_Del (rw_hdr rw) (bs "Content-Length")) (bs "Transfer-Encoding") (bs "chunked"))
  | _ => rw
  end.

Definition connection (rw : respWriter) : respWriter :=
  with_hdr rw (hdr_Set (hdr_Del (rw_hdr rw) (bs "Connection")) (bs "Connection")
                 (if rw_keep rw then bs "keep-alive" else bs "close")).

Definition head_bytes (code : Z) (h : header) : bytes :=
  bs "HTTP/1.1 " ++ FormatInt code ++ bs " " ++ StatusText code ++ crlf
  ++ concat (field_lines <$> range h) ++ crlf.

Definition WriteHeader (rw : respWriter) (code : Z) : respWriter :=
  if wroteHd rw then rw
  else
    let rw := connection (framing (with_status rw code)) in
    rw_write rw (head_bytes code (rw_hdr rw)).

(** [strconv.FormatInt(v, 16)] of a length. *)
Fixpoint hex_digits (fuel : nat) (v : Z) : bytes :=
  match fuel with
  | O => []
  | S f => (if 16 <=? v then hex_digits f (v / 16) else []) ++ [hex_digit (v mod 16)]
  end.

Definition FormatHex (v : Z) : bytes := hex_digits 16 v.

Definition chunk (p : bytes) : bytes := FormatHex (Z.of_nat (length p)) ++ crlf ++ p ++ crlf.

(** [Write]; the buffered writer accepts every byte. *)
Definition rw_Write (now : Z) (rw : respWriter) (p : bytes) : result unit Z * respWriter :=
  let rw := if wroteHd rw then rw else WriteHeader rw 200 in
  let rw := maybeExtend now rw in
  match rw_mode rw with
  | rwModeContentLength => (Ok (Z.of_nat (length p)), rw_write rw p)
  | rwModeChunked =>
      if (length p =? 0)%nat then (Ok 0, rw) else (Ok (Z.of_nat (length p)), rw_write rw (chunk p))
  | rwModeUnknown => (Err (), rw)
  end.

(** A source: the blocks its reads return, and whether it ends cleanly. *)
Fixpoint copy_blocks (rw : respWriter) (src : list (Z * bytes)) : respWriter :=
  match src with
  | [] => rw
  | (now, p) :: src =>
      if (length p =? 0)%nat then copy_blocks rw src
      else copy_blocks (rw_write (maybeExtend now rw) p) src
  end.

Fixpoint write_blocks (rw : respWriter) (src : list (Z * bytes)) : respWriter :=
  match src with
  | [] => rw
  | (now, p) :: src =>
      if (length p =? 0)%nat then write_blocks rw src
      else write_blocks (rw_Write now rw p).2 src
  end.

Definition ReadFrom (rw : respWriter) (src : list (Z * bytes)) : respWriter :=
  let rw := if wroteHd rw then rw else WriteHeader rw 200 in
  match rw_mode rw with
  | rwModeContentLength => copy_blocks rw src
  | _ => write_blocks rw src
  end.

Definition finalize (rw : respWriter) : respWriter :=
  if negb (wroteHd rw) then
    WriteHeader (with_hdr rw (hdr_Set (rw_hdr rw) (bs "Content-Length") (bs "0"))) 200
  else match rw_mode rw with
       | rwModeChunked => rw_write rw (bs "0" ++ crlf ++ crlf)
       | _ => rw
       end.

(** What a handler does to the writer. *)
Inductive wop :=
| OpHeader (k v : bytes)                   (* Header().Set *)
| OpWriteHeader (code : Z)
| OpWrite (now : Z) (p : bytes)
| OpReadFrom (src : list (Z * bytes)).

Definition wstep (rw : respWriter) (o : wop) : respWriter :=
  match o with
  | OpHeader k v => with_hdr rw (hdr_Set (rw_hdr rw) k v)
  | OpWriteHeader code => WriteHeader rw code
  | OpWrite now p => (rw_Write now rw p).2
  | OpReadFrom src => ReadFrom rw src
  end.

Definition serve (rw : respWriter) (os : list wop) : respWriter := finalize (foldl wstep rw os).

Definition payload (o : wop) : bytes :=
  match o with
  | OpWrite _ p => p
  | OpReadFrom src => concat src.*2
  | _ => []
  end.

(** ** Reading chunks *)

Definition hex_value (c : Z) : option Z :=
  if is_digit c then Some (c - 48)
  else if (97 <=? c) && (c <=? 102) then Some (c - 87)
  else if (65 <=? c) && (c <=? 70) then Some (c - 55)
  else None.

Fixpoint hex_val (acc : Z) (s : bytes) : option Z :=
  match s with
  | [] => Some acc
  | c :: s => match hex_value c with Some d => hex_val (16 * acc + d) s | None => None end
  end.

(** The recipient's side of RFC 9112, section 7.1, without extensions and
    trailers: the body and what follows it. *)
Fixpoint decode_chunks (fuel : nat) (s : bytes) : option (bytes * bytes) :=
  match fuel with
  | O => None
  | S fuel =>
      match Index s crlf with
      | None | Some O => None
      | Some e =>
          match hex_val 0 (take e s) with
          | None => None
          | Some n =>
              let d := drop (e + 2) s in
              if n =? 0 then
                match CutPrefix d crlf with Some rest => Some ([], rest) | None => None end
              else
                let k := Z.to_nat n in
                match CutPrefix (drop k d) crlf with
                | Some t =>
                    match decode_chunks fuel t with
                    | Some (b, rest) => Some (take k d ++ b, rest)
                    | None => None
                    end
                | None => None
                end
          end
      end
  end.

Definition decode_chunked (s : bytes) : option (bytes * bytes) := decode_chunks (S (length s)) s.

Lemma hex_val_app acc a b :
  hex_val acc (a ++ b) = match hex_val acc a with Some v => hex_val v b | None => None end.
Proof.
  revert acc. induction a as [|c a IH]; intros acc; cbn [hex_val app]; [done|].
  destruct (hex_value c); [apply IH|done].
Qed.

Lemma hex_value_digit d : 0 ≤ d < 16 → hex_value (hex_digit d) = Some d.
Proof.
  intros Hd. unfold hex_value, hex_digit, is_digit. destruct (Z.ltb_spec d 10).
  - replace ((48 <=? 48 + d) && (48 + d <=? 57)) with true by lia. f_equal; lia.
  - replace ((48 <=? 87 + d) && (87 + d <=? 57)) with false by lia.
    replace ((97 <=? 87 + d) && (87 + d <=? 102)) with true by lia. f_equal; lia.
Qed.

Lemma hex_digits_S f v :
  hex_digits (S f) v = (if 16 <=? v then hex_digits f (v / 16) else []) ++ [hex_digit (v mod 16)].
Proof. done. Qed.

Lemma hex_val_digits fuel v : 0 ≤ v < 16 ^ Z.of_nat (S fuel) → hex_val 0 (hex_digits (S fuel) v) = Some v.
Proof.
  revert v. induction fuel as [|fuel IH]; intros v Hv.
  - cbn [hex_digits]. change (16 ^ Z.of_nat 1) with 16 in Hv. destruct (Z.leb_spec 16 v); [lia|].
    cbn [app hex_val]. rewrite hex_value_digit by (apply Z.mod_pos_bound; lia).
    rewrite Z.mod_small by lia. f_equal; lia.
  - rewrite hex_digits_S. destruct (Z.leb_spec 16 v).
    + rewrite hex_val_app, IH.
      2:{ rewrite Nat2Z.inj_succ, Z.pow_succ_r in Hv by lia. split; [apply Z.div_pos; lia|].
          apply Z.div_lt_upper_bound; lia. }
      cbn [hex_val]. rewrite hex_value_digit by (apply Z.mod_pos_bound; lia).
      f_equal. pose proof (Z.div_mod v 16). lia.
    + cbn [app hex_val]. rewrite hex_value_digit by (apply Z.mod_pos_bound; lia).
      rewrite Z.mod_small by lia. f_equal; lia.
Qed.

Lemma hex_digits_clean fuel v : cr ∉ hex_digits fuel v.
Proof.
  revert v. induction fuel as [|fuel IH]; intros v; cbn [hex_digits]; [apply not_elem_of_nil|].
  apply not_elem_of_app. split; [destruct (16 <=? v); [apply IH|apply not_elem_of_nil]|].
  rewrite list_elem_of_singleton. unfold cr, hex_digit. pose proof (Z.mod_pos_bound v 16).
  destruct (_ <? _); lia.
Qed.

Lemma FormatHex_nonempty v : FormatHex v ≠ [].
Proof. unfold FormatHex. cbn [hex_digits]. by destruct (if 16 <=? v then _ else _). Qed.

Lemma decode_chunk_step fuel p t b rest :
  p ≠ [] → Z.of_nat (length p) < 2 ^ 64 → decode_chunks fuel t = Some (b, rest) →
  decode_chunks (S fuel) (chunk p ++ t) = Some (p ++ b, rest).
Proof.
  intros Hp Hlen Ht. unfold chunk. set (n := Z.of_nat (length p)).
  assert (0 < n) by (destruct p; [done|]; cbn [length] in n; lia).
  rewrite <-!app_assoc. cbn [decode_chunks]. rewrite Index_crlf_clean by apply hex_digits_clean.
  destruct (length (FormatHex n)) as [|e] eqn:El.
  { apply nil_length_inv in El. by apply FormatHex_nonempty in El. }
  rewrite <-El, take_line, drop_line. unfold FormatHex at 1. rewrite hex_val_digits by (cbn; lia).
  destruct (Z.eqb_spec n 0); [lia|]. cbv zeta. unfold n. rewrite Nat2Z.id.
  rewrite drop_app_length, CutPrefix_app, Ht, take_app_length. done.
Qed.

Lemma decode_last rest fuel : decode_chunks (S fuel) ((bs "0" ++ crlf ++ crlf) ++ rest) = Some ([], rest).
Proof.
  rewrite <-!app_assoc. cbn [decode_chunks]. rewrite Index_crlf_clean by vm_decide.
  by rewrite take_line, drop_line, CutPrefix_app.
Qed.

(** ** A writer past its header *)

Definition small (p : bytes) : Prop := Z.of_nat (length p) ≤ int64_max.

(** [rw'] is [rw] after the chunks [ps]. *)
Definition chunked_to (rw : respWriter) (ps : list bytes) (rw' : respWriter) : Prop :=
  Forall (λ p, p ≠ [] ∧ small p) ps ∧ rw_out rw' = rw_out rw ++ concat (chunk <$> ps)
  ∧ rw_mode rw' = rwModeChunked ∧ wroteHd rw' = true.

Definition in_chunks (rw : respWriter) : Prop := rw_mode rw = rwModeChunked ∧ wroteHd rw = true.

Lemma chunked_refl rw : in_chunks rw → chunked_to rw [] rw.
Proof. intros [? ?]. split_and!; try done. by rewrite app_nil_r. Qed.

Lemma chunked_trans rw1 rw2 rw3 ps qs :
  chunked_to rw1 ps rw2 → chunked_to rw2 qs rw3 → chunked_to rw1 (ps ++ qs) rw3.
Proof.
  intros (F1 & O1 & _ & _) (F2 & O2 & M2 & W2). split_and!; try done; [by apply Forall_app|].
  by rewrite O2, O1, fmap_app, concat_app, <-app_assoc.
Qed.

Lemma maybeExtend_same now rw :
  rw_out (maybeExtend now rw) = rw_out rw ∧ rw_mode (maybeExtend now rw) = rw_mode rw
  ∧ wroteHd (maybeExtend now rw) = wroteHd rw.
Proof.
  unfold maybeExtend. destruct (rw_conn rw); [|done]. destruct (_ <=? _); [done|]. by destruct (match lastExt rw with Some _ => _ | None => _ end).
Qed.

Lemma Write_chunked now rw p :
  in_chunks rw → small p →
  chunked_to rw (if (length p =? 0)%nat then [] else [p]) (rw_Write now rw p).2.
Proof.
  intros [M W] Hp. unfold rw_Write. rewrite W. destruct (maybeExtend_same now rw) as (E1 & E2 & E3).
  rewrite E2, M. destruct (length p =? 0)%nat eqn:E; cbn [snd].
  - split_and!; rewrite ?E1, ?E2, ?E3; try done. by rewrite app_nil_r.
  - apply Nat.eqb_neq in E. split_and!; cbn [rw_out rw_mode wroteHd rw_write]; rewrite ?E1, ?E2, ?E3; try done.
    + repeat constructor; [by intros ->|done].
    + cbn. by rewrite app_nil_r.
Qed.

Lemma small_app a b : small (a ++ b) → small a ∧ small b.
Proof. unfold small. rewrite length_app. lia. Qed.

Lemma write_blocks_chunked rw src :
  in_chunks rw → small (concat src.*2) →
  ∃ ps, concat ps = concat src.*2 ∧ chunked_to rw ps (write_blocks rw src).
Proof.
  revert rw. induction src as [|[now p] src IH]; intros rw Hr Hs.
  { exists []. split; [done|]. by apply chunked_refl. }
  cbn [write_blocks fmap list_fmap concat snd] in *. apply small_app in Hs as [Hp Hs].
  destruct (length p =? 0)%nat eqn:E.
  - apply Nat.eqb_eq, nil_length_inv in E. subst p. by apply IH.
  - pose proof (Write_chunked now rw p Hr Hp) as Hw. rewrite E in Hw.
    destruct (IH (rw_Write now rw p).2) as (ps & Hc & Ht); [by destruct Hw as (_ & _ & ? & ?)|done|].
    exists (p :: ps). split; [cbn; by rewrite Hc|]. by apply (chunked_trans _ _ _ [p]) with (1 := Hw).
Qed.

Lemma wstep_chunked rw o :
  in_chunks rw → small (payload o) →
  ∃ ps, concat ps = payload o ∧ chunked_to rw ps (wstep rw o).
Proof.
  intros Hr Hs. destruct Hr as [M W]. destruct o as [k v|code|now p|src]; cbn [wstep payload] in *.
  - exists []. split; [done|]. split_and!; try done. cbn. by rewrite app_nil_r.
  - exists []. split; [done|]. unfold WriteHeader. rewrite W. by apply chunked_refl.
  - pose proof (Write_chunked now rw p (conj M W) Hs) as Hw. destruct (length p =? 0)%nat eqn:E.
    + apply Nat.eqb_eq, nil_length_inv in E. subst p. by exists [].
    + exists [p]. split; [apply app_nil_r|done].
  - unfold ReadFrom. rewrite W, M. by apply write_blocks_chunked.
Qed.

Lemma wsteps_chunked rw os :
  in_chunks rw → small (concat (payload <$> os)) →
  ∃ ps, concat ps = concat (payload <$> os) ∧ chunked_to rw ps (foldl wstep rw os).
Proof.
  revert rw. induction os as [|o os IH]; intros rw Hr Hs.
  { exists []. split; [done|]. by apply chunked_refl. }
  cbn [fmap list_fmap concat foldl] in *. apply small_app in Hs as [Ho Hs].
  destruct (wstep_chunked rw o Hr Ho) as (ps & Hc & Ht).
  destruct (IH (wstep rw o)) as (qs & Hc' & Ht'); [by destruct Ht as (_ & _ & ? & ?)|done|].
  exists (ps ++ qs). rewrite concat_app, Hc, Hc'. split; [done|]. by eapply chunked_trans.
Qed.

Lemma decode_chunk_list ps rest fuel :
  Forall (λ p, p ≠ [] ∧ small p) ps → (length ps < fuel)%nat →
  decode_chunks fuel (concat (chunk <$> ps) ++ (bs "0" ++ crlf ++ crlf) ++ rest) = Some (concat ps, rest).
Proof.
  intros Hps. revert fuel. induction Hps as [|p ps [Hne Hp] _ IH]; intros fuel Hf;
    (destruct fuel as [|fuel]; [cbn in Hf; lia|]).
  - apply decode_last.
  - rewrite fmap_cons. cbn [concat]. rewrite <-(app_assoc (chunk p)). apply decode_chunk_step; [done| |].
    + unfold small in Hp. zlia.
    + apply IH. cbn in Hf. lia.
Qed.

Lemma chunks_length ps : (length ps ≤ length (concat (chunk <$> ps)))%nat.
Proof.
  induction ps as [|p ps IH]; [done|]. rewrite fmap_cons. cbn [concat length]. unfold chunk at 1.
  rewrite !length_app. cbn [length crlf]. lia.
Qed.

(** The length the handler declared, if [WriteHeader] can use it. *)
Definition usable_length (h : header) : option Z :=
  match ParseInt (hdr_Get h (bs "Content-Length")) with
  | Some v => if 0 <=? v then Some v else None
  | None => None
  end.

(** The header map as it is sent. *)
Definition sent_chunked (keep : bool) (h : header) : header :=
  hdr_Set (hdr_Del (hdr_Set (hdr_Del h (bs "Content-Length")) (bs "Transfer-Encoding") (bs "chunked"))
             (bs "Connection")) (bs "Connection") (if keep then bs "keep-alive" else bs "close").

Lemma WriteHeader_chunked bw req conn wt h code :
  usable_length h = None →
  let rw := WriteHeader (with_hdr (acquireRespWriter bw req conn wt) h) code in
  rw_out rw = bw ++ head_bytes code (sent_chunked (KeepAlive req) h) ∧ in_chunks rw.
Proof.
  cbv zeta. unfold usable_length. intros Hu. unfold WriteHeader. cbn [wroteHd with_hdr acquireRespWriter].
  unfold framing. cbn [rw_hdr with_status with_hdr].
  destruct (beq _ []); [done|]. destruct (ParseInt _) as [v|]; [|done]. by destruct (0 <=? v).
Qed.

Lemma extensionInterval_quarter wt : 200 * millisecond ≤ wt → 4 * extensionInterval wt ≤ wt.
Proof.
  unfold extensionInterval, second, millisecond. intros Hw. destruct (Z.leb_spec wt 0); [lia|]. cbv zeta.
  pose proof (Z.quot_rem' wt 4). pose proof (Z.rem_bound_pos wt 4).
  destruct (Z.gtb_spec (wt ÷ 4) (60 * (1000 * 1000000))); [destruct (Z.ltb_spec (60 * (1000 * 1000000)) (50 * 1000000)); lia|].
  destruct (Z.ltb_spec (wt ÷ 4) (50 * 1000000)); lia.
Qed.

(** ** Properties *)

(** C40: a response without a usable Content-Length is sent in chunks a client
    decodes: whatever sequence of header changes, writes and copies the handler
    makes after its header, the bytes on the wire are the head (which announces
    the chunked coding and no length), then an encoding of exactly the bytes
    the handler wrote, in order; what follows on the connection is left for the
    next response. *)
Theorem chunked_response_roundtrip bw req conn wt h code os rest :
  usable_length h = None → small (concat (payload <$> os)) →
  let rw := serve (WriteHeader (with_hdr (acquireRespWriter bw req conn wt) h) code) os in
  ∃ body,
    rw_out rw = bw ++ head_bytes code (sent_chunked (KeepAlive req) h) ++ body ∧
    decode_chunked (body ++ rest) = Some (concat (payload <$> os), rest).
Proof.
  intros Hu Hs. destruct (WriteHeader_chunked bw req conn wt h code Hu) as (Ho & Hc). cbv zeta.
  destruct (wsteps_chunked _ os Hc Hs) as (ps & Hps & F & O & M & W).
  unfold serve, finalize. rewrite W, M. cbn [negb rw_out rw_write]. rewrite O, Ho.
  exists (concat (chunk <$> ps) ++ (bs "0" ++ crlf ++ crlf)). split; [by rewrite <-!app_assoc|].
  rewrite <-Hps, <-app_assoc. apply decode_chunk_list; [done|].
  rewrite !length_app. pose proof (chunks_length ps). lia.
Qed.

(** the write deadline behaves as an idle deadline: for a timeout of at
    least 200 ms, after every [Write] on a connection more than three quarters
    of the timeout remain before the deadline, provided the deadline was armed
    no earlier than the last extension. *)
Theorem write_deadline_slides now rw p dl :
  200 * millisecond ≤ writeTimeout rw → extEvery rw = extensionInterval (writeTimeout rw) →
  wroteHd rw = true → rw_conn rw = Some dl →
  (∀ t, lastExt rw = Some t → dl = t + writeTimeout rw) →
  ∃ dl', rw_conn (rw_Write now rw p).2 = Some dl' ∧ 4 * (dl' - now) > 3 * writeTimeout rw.
Proof.
  intros Hw He Hh Hc Hl.
  assert (rw_conn (rw_Write now rw p).2 = rw_conn (maybeExtend now rw)) as Hsame.
  { unfold rw_Write. rewrite Hh. by destruct (rw_mode _); [|..|destruct (_ =? _)%nat]. }
  rewrite Hsame. unfold maybeExtend. rewrite Hc. destruct (Z.leb_spec (writeTimeout rw) 0); [unfold millisecond in *; lia|].
  destruct (lastExt rw) as [t|]; [destruct (Z.ltb_spec (now - t) (extEvery rw)) as [Ht|Ht]|];
    [|eexists; split; [done|lia]..].
  exists dl. split; [done|]. rewrite (Hl t) by done. rewrite He in Ht.
  pose proof (extensionInterval_quarter _ Hw). lia.
Qed.

End writer.

Definition plain_request (keep : bool) : Request :=
  mkRequest (bs "GET") (bs "/") (bs "/") [] (bs "h") [] [] [] 0 keep true.

Lemma chunked_response_roundtrip_witness :
  let os := [OpWrite 0 (bs "hello "); OpReadFrom [(1, bs "wor"); (2, bs "ld")]] in
  ∃ body,
    rw_out (serve map_to_list
              (WriteHeader map_to_list (with_hdr (acquireRespWriter [] (plain_request true) (Some 0) (300 * second)) ∅) 200) os)
      = [] ++ head_bytes map_to_list 200 (sent_chunked true ∅) ++ body ∧
    decode_chunked (body ++ bs "HTTP/1.1 ") = Some (bs "hello world", bs "HTTP/1.1 ").
Proof.
  apply (chunked_response_roundtrip map_to_list [] (plain_request true) (Some 0) (300 * second) ∅ 200
           [OpWrite 0 (bs "hello "); OpReadFrom [(1, bs "wor"); (2, bs "ld")]] (bs "HTTP/1.1 ")).
  - vm_compute. reflexivity.
  - unfold small. vm_compute. discriminate.
Defined.

Lemma write_deadline_slides_witness :
  let rw := WriteHeader map_to_list (acquireRespWriter [] (plain_request true) (Some 0) (300 * second)) 200 in
  ∃ dl', rw_conn (rw_Write map_to_list 7 rw (bs "x")).2 = Some dl' ∧ 4 * (dl' - 7) > 3 * (300 * second).
Proof.
  apply (write_deadline_slides map_to_list 7
           (WriteHeader map_to_list (acquireRespWriter [] (plain_request true) (Some 0) (300 * second)) 200)
           (bs "x") 0).
  - vm_compute. discriminate.
  - reflexivity.
  - reflexivity.
  - reflexivity.
  - intros t Ht. vm_compute in Ht. discriminate Ht.
Defined.

(** the declared length is not enforced: a handler that announces eleven
    bytes and stops after five leaves a keep-alive connection on which the
    client completes the body with the head of the next response. *)
Theorem short_body_splices_next_response :
  let rw1 := serve map_to_list (acquireRespWriter [] (plain_request true) None 0)
               [OpHeader (bs "Content-Length") (bs "11"); OpWriteHeader 200; OpWrite 0 (bs "hello")] in
  let rw2 := serve map_to_list (acquireRespWriter (rw_out rw1) (plain_request true) None 0)
               [OpHeader (bs "Content-Length") (bs "2"); OpWriteHeader 200; OpWrite 0 (bs "ok")] in
  rw_keep rw1 = true ∧
  ∃ lines rest, decode_response (rw_out rw2) = Some (lines, bs "helloHTTP/1", rest).
Proof. split; [reflexivity|]. eexists _, _. vm_compute. reflexivity. Qed.
