(* ===== verification/Classify.v ===== *)
(** * Which requests are downloads (src/internal/classify/classify.go)

    [ArtifactGET] decides whether a GET is download-class, that is, teed to
    the disk cache and looked up there; the fast path and the handler both
    call it. *)

From stdpp Require Import base strings numbers gmap list.
From S2P Require Import Prelude GoStd HttpParser.

Local Open Scope Z_scope.

(** [equalFoldASCII]: [b] is lower case already. *)
Fixpoint fold_eq (a b : bytes) : bool :=
  match a, b with
  | [], [] => true
  | ca :: a, cb :: b =>
      let ca := if (65 <=? ca) && (ca <=? 90) then ca + 32 else ca in
      if negb (ca =? cb) then false else fold_eq a b
  | _, _ => false
  end.

Definition equalFoldASCII (a b : bytes) : bool :=
  if negb (length a =? length b)%nat then false else fold_eq a b.

(** The loop of [containsLower] over the start positions [i ..]. *)
Fixpoint contains_at (n : nat) (haystack needle : bytes) (i : nat) : bool :=
  match n with
  | O => false
  | S n =>
      if negb (i + length needle <=? length haystack)%nat then false
      else if equalFoldASCII (take (length needle) (drop i haystack)) needle then true
      else contains_at n haystack needle (S i)
  end.

Definition containsLower (haystack needleLower : bytes) : bool :=
  if (length needleLower =? 0)%nat then true
  else contains_at (S (length haystack)) haystack needleLower 0.

Definition containsLowerPrefix (haystack prefixLower : bytes) : bool :=
  if (length haystack <? length prefixLower)%nat then false
  else equalFoldASCII (take (length prefixLower) haystack) prefixLower.

Fixpoint fold_eq_both (a b : bytes) : bool :=
  match a, b with
  | [], [] => true
  | ca :: a, cb :: b =>
      let ca := if (65 <=? ca) && (ca <=? 90) then ca + 32 else ca in
      let cb := if (65 <=? cb) && (cb <=? 90) then cb + 32 else cb in
      if negb (ca =? cb) then false else fold_eq_both a b
  | _, _ => false
  end.

Definition equalFoldHost (a b : bytes) : bool :=
  let a := TrimSpace a in
  let b := TrimSpace b in
  if negb (length a =? length b)%nat then false else fold_eq_both a b.

Definition ArtifactGET (defaultHost upstreamHost method path : bytes) : bool :=
  if negb (beq method (bs "GET")) then false
  else if HasPrefix path (bs "/_p/") then true
  else if containsLower path (bs "/resolve/") then true
  else if containsLower path (bs "/info/lfs/") then true
  else if containsLower path (bs "/resolve%2f") then true
  else if containsLowerPrefix path (bs "/api/resolve-cache/") then true
  else if negb (equalFoldHost upstreamHost defaultHost) then
    if containsLowerPrefix path (bs "/api/") then false else true
  else negb (containsLowerPrefix path (bs "/api/")).

(** ** Folding is comparison after lower-casing *)

Definition ascii_lower (s : bytes) : bytes := lower_byte <$> s.

Lemma fold_eq_lower a b : fold_eq a b = true ↔ ascii_lower a = b.
Proof.
  revert b. induction a as [|ca a IH]; intros [|cb b]; cbn [fold_eq ascii_lower fmap list_fmap]; try done.
  fold (lower_byte ca). cbv zeta. destruct (Z.eqb_spec (lower_byte ca) cb) as [->|Hne]; cbn [negb].
  - rewrite IH. unfold ascii_lower. split; [by intros ->|by intros [= ->]].
  - split; [done|]. intros [= ? _]. done.
Qed.

Lemma equalFoldASCII_lower a b : equalFoldASCII a b = true ↔ ascii_lower a = b.
Proof.
  unfold equalFoldASCII. destruct (Nat.eqb_spec (length a) (length b)); cbn [negb]; [apply fold_eq_lower|].
  split; [done|]. intros <-. unfold ascii_lower in *. by rewrite length_fmap in *.
Qed.

Lemma ascii_lower_app a b : ascii_lower (a ++ b) = ascii_lower a ++ ascii_lower b.
Proof. apply fmap_app. Qed.

Lemma ascii_lower_take n a : ascii_lower (take n a) = take n (ascii_lower a).
Proof. apply fmap_take. Qed.

Lemma ascii_lower_drop n a : ascii_lower (drop n a) = drop n (ascii_lower a).
Proof. apply fmap_drop. Qed.

Lemma contains_at_spec n h needle i :
  (length h < n + i)%nat →
  contains_at n h needle i = true ↔
  ∃ j, (i ≤ j)%nat ∧ (j + length needle ≤ length h)%nat ∧ take (length needle) (drop j (ascii_lower h)) = needle.
Proof.
  revert i. induction n as [|n IH]; intros i Hn; cbn [contains_at].
  - split; [done|]. intros (j & ? & ? & _). lia.
  - destruct (Nat.leb_spec (i + length needle) (length h)); cbn [negb].
    2:{ split; [done|]. intros (j & ? & ? & _). lia. }
    destruct (equalFoldASCII _ needle) eqn:E.
    + apply equalFoldASCII_lower in E. rewrite ascii_lower_take, ascii_lower_drop in E.
      split; [|done]. intros _. by exists i.
    + rewrite IH by lia. split; [intros (j & ? & ? & ?); exists j; split_and!; done || lia|].
      intros (j & Hij & Hj & Ht). exists j. split_and!; try done.
      destruct (decide (i = j)) as [<-|]; [|lia]. exfalso.
      assert (equalFoldASCII (take (length needle) (drop i h)) needle = true) by
        (apply equalFoldASCII_lower; by rewrite ascii_lower_take, ascii_lower_drop). congruence.
Qed.

Lemma containsLower_spec h needle :
  containsLower h needle = true ↔ ∃ a b, ascii_lower h = a ++ needle ++ b.
Proof.
  unfold containsLower. destruct (Nat.eqb_spec (length needle) 0) as [E|E].
  - apply nil_length_inv in E as ->. split; [|done]. intros _. by exists [], (ascii_lower h).
  - rewrite contains_at_spec by lia. split.
    + intros (j & _ & _ & Ht). exists (take j (ascii_lower h)), (drop (length needle) (drop j (ascii_lower h))).
      rewrite <-Ht at 1. by rewrite take_drop, take_drop.
    + intros (a & b & Hh). exists (length a). split_and!; [lia| |].
      * assert (length (ascii_lower h) = length h) as <- by apply length_fmap. rewrite Hh, !length_app. lia.
      * by rewrite Hh, drop_app_length, take_app_length.
Qed.

Lemma containsLowerPrefix_spec h p :
  containsLowerPrefix h p = true ↔ ∃ b, ascii_lower h = p ++ b.
Proof.
  unfold containsLowerPrefix. assert (length (ascii_lower h) = length h) as El by apply length_fmap.
  destruct (Nat.ltb_spec (length h) (length p)).
  - split; [done|]. intros (b & Hb). apply (f_equal length) in Hb. rewrite El, length_app in Hb. lia.
  - rewrite equalFoldASCII_lower, ascii_lower_take. split.
    + intros Ht. exists (drop (length p) (ascii_lower h)). rewrite <-Ht at 1. by rewrite take_drop.
    + intros (b & ->). by rewrite take_app_length.
Qed.

(** ** Properties *)

(** The path after ASCII lower-casing contains / starts with a literal. *)
Definition has_part (path : bytes) (lit : string) : Prop := ∃ a b, ascii_lower path = a ++ bs lit ++ b.
Definition has_head (path : bytes) (lit : string) : Prop := ∃ b, ascii_lower path = bs lit ++ b.

(** exactly which requests are downloads: GETs whose path is a /_p/ route,
    or, ignoring case, mentions a resolve or LFS URL or the resolve-cache
    endpoint, or is outside /api/.  The configured and the requested host do
    not influence the answer. *)
Theorem ArtifactGET_exact defaultHost upstreamHost method path :
  ArtifactGET defaultHost upstreamHost method path = true ↔
  method = bs "GET" ∧
  ((∃ t, path = bs "/_p/" ++ t) ∨ has_part path "/resolve/" ∨ has_part path "/info/lfs/"
   ∨ has_part path "/resolve%2f" ∨ has_head path "/api/resolve-cache/" ∨ ¬ has_head path "/api/").
Proof.
  unfold ArtifactGET, has_part, has_head. destruct (beq method _) eqn:Em; cbn [negb].
  2:{ apply beq_false in Em. split; [done|tauto]. }
  apply beq_true in Em. rewrite <-HasPrefix_spec, <-!containsLower_spec, <-!containsLowerPrefix_spec.
  assert (∀ b : bool, (if b then false else true) = negb b) as Hn by (by intros []). rewrite Hn.
  destruct (HasPrefix path (bs "/_p/")), (containsLower path (bs "/resolve/")), (containsLower path (bs "/info/lfs/")),
    (containsLower path (bs "/resolve%2f")), (containsLowerPrefix path (bs "/api/resolve-cache/")),
    (equalFoldHost upstreamHost defaultHost), (containsLowerPrefix path (bs "/api/")); cbn [negb]; intuition congruence.
Qed.
