(* ===== verification/BodyHandle.v ===== *)
(** * Shared file handles of cached bodies (src/internal/cache/bodyhandle.go)

    Warm hits share one open file per key; the handle counts its borrowers and
    is closed by the last of them after the LRU evicted it.  The model is one
    handle and any number of goroutines inside [AcquireBody] and [Close], each
    atomic operation of the source being one step. *)

From stdpp Require Import base numbers gmap list.
From S2P Require Import Prelude.

Local Open Scope Z_scope.

(** Where a goroutine that found the handle in the LRU stands. *)
Inductive bpc :=
| BLooked                  (* bodyHandles.Get returned the handle *)
| BChecked                 (* evicted.Load() was false, refs.Add(1) is next *)
| BHolding                 (* AcquireBody returned *)
| BReleased                (* Close: refs.Add(-1) returned 0 *)
| BDone                    (* Close returned *)
| BReopen.                 (* the handle was evicted: opens a file of its own *)

#[export] Instance bpc_eq_dec : EqDecision bpc.
Proof. solve_decision. Defined.

Record bodyHandle := mkHandle {
  refs : Z;
  evicted : bool;
  closed : bool;
  users : gmap nat bpc;
}.

(** [bh := &bodyHandle{f: f, ...}; bh.refs.Add(1)], published by goroutine 0. *)
Definition open_handle : bodyHandle := mkHandle 1 false false {[0%nat := BHolding]}.

Inductive bact :=
| ALook (t : nat)          (* Get finds the handle *)
| ACheck (t : nat)         (* evicted.Load() *)
| AAdd (t : nat)           (* refs.Add(1) *)
| ASub (t : nat)           (* refs.Add(-1) *)
| AClose (t : nat)         (* evicted.Load() and f.Close() *)
| AEvict.                  (* markEvicted *)

Definition set_user (h : bodyHandle) (t : nat) (p : bpc) : bodyHandle :=
  mkHandle (refs h) (evicted h) (closed h) (<[t := p]> (users h)).

Definition bstep (h : bodyHandle) (a : bact) : option bodyHandle :=
  match a with
  | ALook t => match users h !! t with None => Some (set_user h t BLooked) | _ => None end
  | ACheck t =>
      match users h !! t with
      | Some BLooked => Some (set_user h t (if evicted h then BReopen else BChecked))
      | _ => None
      end
  | AAdd t =>
      match users h !! t with
      | Some BChecked => Some (mkHandle (refs h + 1) (evicted h) (closed h) (<[t := BHolding]> (users h)))
      | _ => None
      end
  | ASub t =>
      match users h !! t with
      | Some BHolding =>
          let n := refs h - 1 in
          Some (mkHandle n (evicted h) (closed h) (<[t := if n =? 0 then BReleased else BDone]> (users h)))
      | _ => None
      end
  | AClose t =>
      match users h !! t with
      | Some BReleased => Some (mkHandle (refs h) (evicted h) (closed h || evicted h) (<[t := BDone]> (users h)))
      | _ => None
      end
  | AEvict => Some (mkHandle (refs h) true (closed h) (users h))
  end.

Fixpoint brun (h : bodyHandle) (acts : list bact) : option bodyHandle :=
  match acts with
  | [] => Some h
  | a :: acts => match bstep h a with Some h => brun h acts | None => None end
  end.

(** Nobody is between the two atomic operations of [AcquireBody] or of
    [Close]. *)
Definition settled (h : bodyHandle) : Prop :=
  ∀ t, users h !! t ≠ Some BChecked ∧ users h !! t ≠ Some BReleased.

(** Every eviction of a run finds the handle settled. *)
Fixpoint evicts_settled (h : bodyHandle) (acts : list bact) : Prop :=
  match acts with
  | [] => True
  | a :: acts =>
      (a = AEvict → settled h) ∧
      match bstep h a with Some h => evicts_settled h acts | None => True end
  end.

Lemma settled_map h : map_Forall (fun _ p => p ≠ BChecked ∧ p ≠ BReleased) (users h) → settled h.
Proof. intros Hf t. split; intros Ht; by apply Hf in Ht as [? ?]. Qed.

(** ** Counting the borrowers *)

Definition holds1 (p : bpc) : Z := match p with BHolding => 1 | _ => 0 end.

Definition handle_ok (h : bodyHandle) : Prop :=
  refs h = gsum holds1 (users h) ∧
  (evicted h = true → ∀ t, users h !! t ≠ Some BChecked) ∧
  (evicted h = true → ∀ t, users h !! t = Some BReleased → refs h = 0) ∧
  (closed h = true → evicted h = true ∧ refs h = 0).

Lemma holds1_nonneg (m : gmap nat bpc) : ∀ k x, m !! k = Some x → 0 ≤ holds1 x.
Proof. intros k x _. by destruct x. Qed.

Lemma refs_user h t p q :
  refs h = gsum holds1 (users h) → users h !! t = Some p →
  gsum holds1 (<[t := q]> (users h)) = refs h - holds1 p + holds1 q.
Proof. intros Hr Hp. by rewrite gsum_insert, Hp, <-Hr. Qed.

Lemma handle_ok_holding h t : handle_ok h → users h !! t = Some BHolding → 1 ≤ refs h.
Proof.
  intros (Hr & _) Ht. rewrite Hr.
  pose proof (gsum_lookup holds1 (users h) t BHolding (holds1_nonneg _) Ht) as H. exact H.
Qed.

Lemma user_update (m : gmap nat bpc) t t' p q :
  <[t := q]> m !! t' = Some p → p ≠ q → m !! t' = Some p.
Proof.
  intros Hl Hne. destruct (decide (t = t')) as [->|]; [by rewrite lookup_insert_eq in Hl; simplify_eq|].
  by rewrite lookup_insert_ne in Hl.
Qed.

Ltac user := repeat match goal with
  | H : <[?t := ?q]> ?m !! ?t' = Some ?p |- _ => apply user_update in H; [|by repeat case_match]
  end.

Lemma open_handle_ok : handle_ok open_handle.
Proof. by split_and!. Qed.

(** Moves that touch neither the count nor the borrowers. *)
Lemma set_user_ok h t p q :
  handle_ok h → (users h !! t = Some p ∨ users h !! t = None ∧ p = BDone) →
  holds1 p = 0 → holds1 q = 0 → (evicted h = true → q ≠ BChecked) → q ≠ BReleased →
  handle_ok (set_user h t q).
Proof.
  intros (Hr & Hc & Hz & Hx) Hp Hp0 Hq0 Hqc Hqr. split_and!; cbn [refs evicted closed users set_user].
  - rewrite gsum_insert, <-Hr. destruct Hp as [->|[-> _]]; cbn; lia.
  - intros He t' Ht. specialize (Hqc He). apply user_update in Ht; [|congruence]. by apply Hc in Ht.
  - intros He t' Ht. apply user_update in Ht; [|congruence]. eauto.
  - done.
Qed.

Lemma bstep_ok h a h' : handle_ok h → (a = AEvict → settled h) → bstep h a = Some h' → handle_ok h'.
Proof.
  intros Hok Hset. pose proof Hok as (Hr & Hc & Hz & Hx). destruct a as [t|t|t|t|t|]; cbn [bstep].
  - destruct (users h !! t) eqn:Et; [done|]. intros [= <-].
    eapply (set_user_ok h t BDone BLooked); eauto; done.
  - destruct (users h !! t) as [[]|] eqn:Et; try done. intros [= <-].
    apply (set_user_ok h t BLooked); [done|by left|done|by case_match|by intros ->|by case_match].
  - destruct (users h !! t) as [[]|] eqn:Et; try done. intros [= <-].
    assert (evicted h = false) as He by (destruct (evicted h); [by apply (Hc eq_refl) in Et|done]).
    split_and!; cbn [refs evicted closed users]; rewrite ?He; try done.
    + rewrite (refs_user h t BChecked) by done. cbn. lia.
    + intros Hcl. destruct (Hx Hcl). congruence.
  - destruct (users h !! t) as [[]|] eqn:Et; try done. intros [= <-].
    pose proof (handle_ok_holding h t Hok Et) as H1.
    split_and!; cbn [refs evicted closed users].
    + rewrite (refs_user h t BHolding) by done. by destruct (Z.eqb_spec (refs h - 1) 0); cbn; lia.
    + intros He t' Ht. user. by apply (Hc He) in Ht.
    + intros He t' Ht. destruct (Z.eqb_spec (refs h - 1) 0); [done|]. user. apply Hz in Ht; [lia|done].
    + intros Hcl. destruct (Hx Hcl). lia.
  - destruct (users h !! t) as [[]|] eqn:Et; try done. intros [= <-].
    split_and!; cbn [refs evicted closed users].
    + rewrite (refs_user h t BReleased) by done. cbn. lia.
    + intros He t' Ht. user. by apply (Hc He) in Ht.
    + intros He t' Ht. user. eauto.
    + destruct (evicted h) eqn:He; [eauto|]. rewrite orb_false_r. intros Hcl. destruct (Hx Hcl). congruence.
  - intros [= <-]. destruct (Hset eq_refl 0%nat) as [_ _].
    split_and!; cbn [refs evicted closed users]; [done|..].
    + intros _ t. apply Hset. done.
    + intros _ t Ht. by apply Hset in Ht.
    + intros Hcl. split; [done|]. by apply Hx.
Qed.

(** ** Properties *)

(** a borrower's file stays open: in every interleaving in which evictions
    do not hit a goroutine between the two atomic operations of [AcquireBody]
    or of [Close], no goroutine that holds the handle ever sees it closed, and
    the reference count is the number of holders. *)
Theorem handle_open_while_held acts h t :
  evicts_settled open_handle acts → brun open_handle acts = Some h →
  users h !! t = Some BHolding → closed h = false ∧ refs h = gsum holds1 (users h).
Proof.
  intros Hev Hrun Ht. assert (handle_ok h) as Hok.
  { revert Hev Hrun. generalize open_handle_ok. generalize open_handle. induction acts as [|a acts IH].
    - by intros h0 Hok _ [= <-].
    - intros h0 Hok [Ha Hev] Hrun. cbn [brun] in *. destruct (bstep h0 a) as [h1|] eqn:E; [|done].
      apply (IH h1); [by eapply bstep_ok|done|done]. }
  pose proof (handle_ok_holding h t Hok Ht). destruct Hok as (Hr & _ & _ & Hx).
  split; [|done]. destruct (closed h); [|done]. destruct (Hx eq_refl). lia.
Qed.

Lemma handle_open_while_held_witness :
  let acts := [ALook 1; ACheck 1; AAdd 1; AEvict; ASub 0] in
  ∃ h, brun open_handle acts = Some h ∧ evicted h = true ∧ closed h = false ∧ refs h = gsum holds1 (users h).
Proof.
  intros acts. eexists. split; [reflexivity|]. split; [reflexivity|].
  apply (handle_open_while_held acts _ 1).
  - cbn [evicts_settled acts bstep]. do 3 (split; [discriminate|]). split.
    + intros _. apply settled_map. vm_decide.
    + split; [discriminate|exact I].
  - reflexivity.
  - reflexivity.
Defined.

(** neither check is atomic with the count: an eviction after
    [AcquireBody] saw a live handle, or after [Close] brought the count to
    zero, lets the file be closed under a goroutine that goes on to use its
    descriptor. *)
Theorem handle_closed_while_held :
  (∃ h, brun open_handle [ALook 1; ACheck 1; AEvict; ASub 0; AClose 0; AAdd 1] = Some h
        ∧ users h !! 1%nat = Some BHolding ∧ closed h = true) ∧
  (∃ h, brun open_handle [ASub 0; ALook 1; ACheck 1; AAdd 1; AEvict; AClose 0] = Some h
        ∧ users h !! 1%nat = Some BHolding ∧ closed h = true).
Proof. split; eexists; (split; [reflexivity|]); split; reflexivity. Qed.
