(* ===== verification/Rewrite.v ===== *)
(** * Threading the originating path through redirects
    (src/internal/rewrite/rewrite.go)

    A redirect to a content host is rewritten to a /_p/ URL of the proxy whose
    query carries the path that was asked for; the marker is removed again
    before the request goes upstream.  The presigned query around it must
    survive byte for byte.  This file has the query handling; NetUrl.v has
    net/url and Location.v the rewriting of the header. *)

From stdpp Require Import base strings numbers gmap list.
From S2P Require Import Prelude GoStd.

Local Open Scope Z_scope.

(** ** [url.QueryEscape] and [url.QueryUnescape] *)

Definition unreserved (c : Z) : bool :=
  ((97 <=? c) && (c <=? 122)) || ((65 <=? c) && (c <=? 90)) || is_digit c
  || (c =? 45) || (c =? 95) || (c =? 46) || (c =? 126).

Definition upper_hex (d : Z) : Z := if d <? 10 then 48 + d else 55 + d.

Definition query_escape_byte (c : Z) : bytes :=
  if unreserved c then [c]
  else if c =? 32 then [43]
  else [37; upper_hex (c / 16); upper_hex (c mod 16)].

Definition QueryEscape (s : bytes) : bytes := concat (query_escape_byte <$> s).

Definition unhex (c : Z) : option Z :=
  if is_digit c then Some (c - 48)
  else if (97 <=? c) && (c <=? 102) then Some (c - 87)
  else if (65 <=? c) && (c <=? 70) then Some (c - 55)
  else None.

Fixpoint QueryUnescape (s : bytes) : option bytes :=
  match s with
  | [] => Some []
  | 37 :: a :: b :: s =>
      match unhex a, unhex b, QueryUnescape s with
      | Some x, Some y, Some t => Some (16 * x + y :: t)
      | _, _, _ => None
      end
  | 37 :: _ => None
  | 43 :: s => cons 32 <$> QueryUnescape s
  | c :: s => cons c <$> QueryUnescape s
  end.

(** ** The source *)

Definition OriginQueryParam : bytes := bs "__pulsys_origin".

Definition amp : Z := 38.

(** The query of the rewritten URL in [LocationToProxyWithOrigin]. *)
Definition origin_query (rawq origin : bytes) : bytes :=
  if beq origin [] then rawq
  else
    let p := OriginQueryParam ++ bs "=" ++ QueryEscape origin in
    if beq rawq [] then p else rawq ++ bs "&" ++ p.

Fixpoint strip_loop (segs : list bytes) (origin : bytes) (kept : list bytes) : bytes * list bytes :=
  match segs with
  | [] => (origin, kept)
  | s :: segs =>
      match CutPrefix s (OriginQueryParam ++ bs "=") with
      | Some v =>
          let origin := if beq origin [] then
                          match QueryUnescape v with Some dec => dec | None => origin end
                        else origin in
          strip_loop segs origin kept
      | None =>
          if beq s OriginQueryParam then strip_loop segs origin kept
          else strip_loop segs origin (kept ++ [s])
      end
  end.

Definition ExtractAndStripOrigin (rawQuery : bytes) : bytes * bytes :=
  if beq rawQuery [] || negb (Contains rawQuery OriginQueryParam) then ([], rawQuery)
  else
    let '(origin, kept) := strip_loop (Split rawQuery amp) [] [] in
    (origin, Join kept (bs "&")).

(** ** Escaping *)

Lemma unhex_upper d : 0 ≤ d < 16 → unhex (upper_hex d) = Some d.
Proof.
  intros Hd. unfold unhex, upper_hex, is_digit. destruct (Z.ltb_spec d 10).
  - replace ((48 <=? 48 + d) && (48 + d <=? 57)) with true by lia. f_equal; lia.
  - replace ((48 <=? 55 + d) && (55 + d <=? 57)) with false by lia.
    replace ((97 <=? 55 + d) && (55 + d <=? 102)) with false by lia.
    replace ((65 <=? 55 + d) && (55 + d <=? 70)) with true by lia. f_equal; lia.
Qed.

Lemma QueryUnescape_plain c s : c ≠ 37 → c ≠ 43 → QueryUnescape (c :: s) = cons c <$> QueryUnescape s.
Proof.
  intros H1 H2. cbn [QueryUnescape].
  destruct c as [|p|p]; try done. do 6 (destruct p as [p|p|]; try done).
Qed.

Lemma QueryUnescape_escape s : Forall is_byte s → QueryUnescape (QueryEscape s) = Some s.
Proof.
  unfold QueryEscape. induction 1 as [|c s Hc _ IH]; [done|]. rewrite fmap_cons. cbn [concat].
  unfold query_escape_byte at 1. destruct (unreserved c) eqn:Eu.
  - cbn [app]. rewrite QueryUnescape_plain, IH; [done|..]; intros ->; by vm_compute in Eu.
  - destruct (Z.eqb_spec c 32) as [->|_]; [cbn [app QueryUnescape]; by rewrite IH|].
    cbn [app QueryUnescape]. unfold is_byte in Hc.
    rewrite !unhex_upper, IH; [|apply Z.mod_pos_bound; lia|].
    + do 2 f_equal. pose proof (Z.div_mod c 16). lia.
    + split; [apply Z.div_pos; lia|apply Z.div_lt_upper_bound; lia].
Qed.

Lemma upper_hex_not_amp d : 0 ≤ d → upper_hex d ≠ amp.
Proof. unfold upper_hex, amp. intros ?. destruct (_ <? _); lia. Qed.

Lemma QueryEscape_no_amp s : Forall is_byte s → amp ∉ QueryEscape s.
Proof.
  unfold QueryEscape. induction 1 as [|c s Hc _ IH]; [apply not_elem_of_nil|].
  rewrite fmap_cons. cbn [concat]. apply not_elem_of_app. split; [|done].
  unfold query_escape_byte. destruct (unreserved c) eqn:Eu.
  - rewrite list_elem_of_singleton. intros <-. by vm_compute in Eu.
  - destruct (c =? 32); [by apply (bool_decide_unpack _)|]. unfold is_byte in Hc.
    rewrite !not_elem_of_cons. split_and!; [done|..|apply not_elem_of_nil];
      apply not_eq_sym, upper_hex_not_amp; [apply Z.div_pos; lia|apply Z.mod_pos_bound; lia].
Qed.

(** ** Stripping *)

(** A query segment that is not the marker. *)
Definition foreign (s : bytes) : Prop :=
  s ≠ OriginQueryParam ∧ ∀ v, s ≠ OriginQueryParam ++ bs "=" ++ v.

Lemma foreign_cut s : foreign s → CutPrefix s (OriginQueryParam ++ bs "=") = None.
Proof.
  intros [_ H]. destruct (CutPrefix _ _) as [v|] eqn:E; [|done].
  apply CutPrefix_Some in E. rewrite <-app_assoc in E. by apply H in E.
Qed.

Lemma strip_foreign segs rest origin kept :
  Forall foreign segs → strip_loop (segs ++ rest) origin kept = strip_loop rest origin (kept ++ segs).
Proof.
  intros Hs. revert kept. induction Hs as [|s segs Hf _ IH]; intros kept; [by rewrite app_nil_r|].
  cbn [strip_loop app]. rewrite foreign_cut by done.
  destruct (beq s _) eqn:E; [apply beq_true in E; by destruct Hf|]. by rewrite IH, <-app_assoc.
Qed.

Lemma strip_marker origin : Forall is_byte origin →
  ∀ kept, strip_loop [OriginQueryParam ++ bs "=" ++ QueryEscape origin] [] kept = (origin, kept).
Proof.
  intros Hb kept. cbn [strip_loop]. rewrite app_assoc, CutPrefix_app. cbn [beq].
  change (beq [] []) with true. by rewrite QueryUnescape_escape.
Qed.

Lemma Split_snoc s t c : c ∉ t → Split (s ++ c :: t) c = Split s c ++ [t].
Proof.
  intros Ht. induction s as [|a s IH]; [cbn; by rewrite Z.eqb_refl, Split_no_sep|].
  cbn [app Split]. destruct (a =? c); [by rewrite IH|]. rewrite IH.
  destruct (Split s c) as [|w ws] eqn:E; [by apply Split_nonempty in E|]. done.
Qed.

(** the marker comes off again without a trace: for every query whose
    segments do not use the reserved name, and every non-empty originating
    path, extracting from the rewritten query returns that path and the
    upstream query byte for byte. *)
Theorem origin_roundtrip rawq origin :
  Forall foreign (Split rawq amp) → Forall is_byte origin → origin ≠ [] →
  ExtractAndStripOrigin (origin_query rawq origin) = (origin, rawq).
Proof.
  intros Hf Hb Hne. unfold origin_query. destruct (beq origin []) eqn:E; [by apply beq_true in E|]. clear E.
  set (p := OriginQueryParam ++ bs "=" ++ QueryEscape origin).
  assert (amp ∉ p) as Hp.
  { unfold p. rewrite !not_elem_of_app. split_and!; [by apply (bool_decide_unpack _)..|].
    by apply QueryEscape_no_amp. }
  assert (∀ q, ExtractAndStripOrigin (q ++ p) =
    let '(o, kept) := strip_loop (Split (q ++ p) amp) [] [] in (o, Join kept (bs "&"))) as Hx.
  { intros q. unfold ExtractAndStripOrigin. destruct (beq (q ++ p) []) eqn:E0.
    { apply beq_true, app_nil in E0 as [_ E0]. by unfold p in E0. }
    assert (Contains (q ++ p) OriginQueryParam = true) as ->; [|done].
    apply Contains_spec. exists q, (bs "=" ++ QueryEscape origin). done. }
  destruct (beq rawq []) eqn:E.
  - apply beq_true in E as ->. specialize (Hx []). cbn [app] in Hx. rewrite Hx, Split_no_sep by done.
    unfold p. by rewrite strip_marker.
  - rewrite app_assoc, Hx, <-app_assoc. change (bs "&" ++ p) with (amp :: p).
    rewrite Split_snoc, strip_foreign by done. unfold p. rewrite strip_marker by done. cbn [app].
    by rewrite Join_Split.
Qed.

Lemma origin_roundtrip_witness :
  let rawq := bs "X-Amz-Signature=ab%2Fcd&Expires=60" in
  let origin := bs "/org/name with space/resolve/main/f.bin" in
  ExtractAndStripOrigin (origin_query rawq origin) = (origin, rawq).
Proof.
  apply origin_roundtrip.
  - vm_compute. repeat constructor; try discriminate; intros v Hv; discriminate Hv.
  - vm_compute. repeat constructor; discriminate.
  - discriminate.
Defined.
