(* ===== verification/HostAllow.v ===== *)
(** * Which hosts may be contacted
    (src/internal/hostallow/hostallow.go, src/internal/upstream/upstream.go)

    The SSRF gate: a deny list of names and address classes ahead of the
    operator's allowlist, consulted when a /_p/ request is routed and again
    where the outbound URL is built.  [net.ParseIP] and the address-class
    predicates of package net are modelled on 16-byte addresses. *)

From stdpp Require Import base strings numbers gmap list.
From S2P Require Import Prelude GoStd Sha256 CacheKey.

Local Open Scope Z_scope.

(** ** Package net *)

(** Four dotted decimal fields: value and digit count of the current field,
    the fields done, whether the last byte was a dot. *)
Record v4state := mkV4 { v4_val : Z; v4_digs : nat; v4_fields : list Z; v4_dot : bool }.

Definition v4_step (st : v4state) (c : Z) (last : bool) : option v4state :=
  if is_digit c then
    if (v4_digs st =? 1)%nat && (v4_val st =? 0) then None
    else
      let v := v4_val st * 10 + (c - 48) in
      if 255 <? v then None else Some (mkV4 v (S (v4_digs st)) (v4_fields st) false)
  else if c =? 46 then
    if v4_dot st || last then None
    else if (length (v4_fields st) =? 3)%nat then None
    else Some (mkV4 0 0 (v4_fields st ++ [v4_val st]) true)
  else None.

Fixpoint v4_loop (st : v4state) (s : bytes) : option v4state :=
  match s with
  | [] => Some st
  | c :: s' =>
      match v4_step st c (match s' with [] => true | _ => false end) with
      | Some st => v4_loop st s'
      | None => None
      end
  end.

(** A leading dot is rejected as a doubled one would be. *)
Definition parseIPv4Fields (s : bytes) : option (list Z) :=
  match v4_loop (mkV4 0 0 [] true) s with
  | Some st => if (length (v4_fields st) <? 3)%nat then None else Some (v4_fields st ++ [v4_val st])
  | None => None
  end.

Definition is_hex (c : Z) : bool :=
  is_digit c || ((97 <=? c) && (c <=? 102)) || ((65 <=? c) && (c <=? 70)).

Definition hex_of (c : Z) : Z :=
  if is_digit c then c - 48 else if 97 <=? c then c - 87 else c - 55.

Fixpoint hex_span (s : bytes) : bytes :=
  match s with
  | c :: s => if is_hex c then c :: hex_span s else []
  | [] => []
  end.

Definition colon : Z := 58.

(** The loop of [parseIPv6]: the bytes parsed and where the ellipsis stood;
    eight groups at most. *)
Fixpoint v6_loop (fuel : nat) (s : bytes) (ip : list Z) (ellipsis : option nat)
    : option (list Z * option nat * bytes) :=
  match fuel with
  | O => Some (ip, ellipsis, s)
  | S fuel =>
      let ds := hex_span s in
      let off := length ds in
      if (off =? 0)%nat || (4 <? off)%nat then None
      else
        let acc := foldl (fun a c => 16 * a + hex_of c) 0 ds in
        let rest := drop off s in
        match rest with
        | 46 :: _ =>
            if bool_decide (ellipsis = None) && negb (length ip =? 12)%nat then None
            else if (16 <? length ip + 4)%nat then None
            else match parseIPv4Fields s with
                 | Some f => Some (ip ++ f, ellipsis, [])
                 | None => None
                 end
        | _ =>
            let ip := ip ++ [acc / 256; acc mod 256] in
            match rest with
            | [] => Some (ip, ellipsis, [])
            | c :: rest =>
                if negb (c =? colon) then None
                else match rest with
                     | [] => None
                     | c1 :: rest1 =>
                         if c1 =? colon then
                           match ellipsis with
                           | Some _ => None
                           | None =>
                               match rest1 with
                               | [] => Some (ip, Some (length ip), [])
                               | _ => v6_loop fuel rest1 ip (Some (length ip))
                               end
                           end
                         else v6_loop fuel rest ip ellipsis
                     end
            end
        end
  end.

Definition v6_finish (r : option (list Z * option nat * bytes)) : option (list Z) :=
  match r with
  | Some (ip, ellipsis, []) =>
      if (length ip <? 16)%nat then
        match ellipsis with
        | None => None
        | Some e => Some (take e ip ++ replicate (16 - length ip) 0 ++ drop e ip)
        end
      else match ellipsis with Some _ => None | None => Some ip end
  | _ => None
  end.

(** A zone makes [net.ParseIP] fail. *)
Definition parseIPv6 (s : bytes) : option (list Z) :=
  if bool_decide (37 ∈ s) then None
  else match s with
       | 58 :: 58 :: s' =>
           match s' with
           | [] => Some (replicate 16 0)
           | _ => v6_finish (v6_loop 8 s' [] (Some 0%nat))
           end
       | _ => v6_finish (v6_loop 8 s [] None)
       end.

Definition v4_mapped (f : list Z) : list Z := replicate 10 0 ++ [255; 255] ++ f.

(** [net.ParseIP]: the first dot, colon or percent sign selects the syntax. *)
Definition ParseIP (s : bytes) : option (list Z) :=
  match IndexAny s [46; 58; 37] with
  | None => None
  | Some i =>
      match s !! i with
      | Some 46 => v4_mapped <$> parseIPv4Fields s
      | Some 58 => parseIPv6 s
      | _ => None
      end
  end.

Definition To4 (ip : list Z) : option (list Z) :=
  if bool_decide (take 12 ip = replicate 10 0 ++ [255; 255]) then Some (drop 12 ip) else None.

Definition oct (ip : list Z) (i : nat) : Z := default 0 (ip !! i).

Definition IsLoopback (ip : list Z) : bool :=
  match To4 ip with
  | Some f => oct f 0 =? 127
  | None => bool_decide (ip = replicate 15 0 ++ [1])
  end.
Definition IsPrivate (ip : list Z) : bool :=
  match To4 ip with
  | Some f => (oct f 0 =? 10) || ((oct f 0 =? 172) && (Z.land (oct f 1) 240 =? 16))
              || ((oct f 0 =? 192) && (oct f 1 =? 168))
  | None => Z.land (oct ip 0) 254 =? 252
  end.
Definition IsLinkLocalUnicast (ip : list Z) : bool :=
  match To4 ip with
  | Some f => (oct f 0 =? 169) && (oct f 1 =? 254)
  | None => (oct ip 0 =? 254) && (Z.land (oct ip 1) 192 =? 128)
  end.
Definition IsLinkLocalMulticast (ip : list Z) : bool :=
  match To4 ip with
  | Some f => (oct f 0 =? 224) && (oct f 1 =? 0) && (oct f 2 =? 0)
  | None => (oct ip 0 =? 255) && (Z.land (oct ip 1) 15 =? 2)
  end.
Definition IsUnspecified (ip : list Z) : bool :=
  bool_decide (ip = v4_mapped [0; 0; 0; 0]) || bool_decide (ip = replicate 16 0).

(** ** hostallow.go *)

Definition denyHostnames : list bytes :=
  [bs "localhost"; bs "metadata.google.internal"; bs "metadata.aws.internal"; bs "169.254.169.254"].

Definition bareHost (h : bytes) : bytes :=
  match LastIndexByte h colon with
  | Some i =>
      if HasPrefix h (bs "[") then
        match Index h (bs "]") with
        | Some (S j) => Trim (take (S (S j)) h) (bs "[]")
        | _ => h
        end
      else take i h
  | None => if HasPrefix h (bs "[") then Trim h (bs "[]") else h
  end.

Definition parseHostIP (bare : bytes) : option (list Z) := ParseIP (Trim bare (bs "[]")).

Definition ipIsPrivate (ip : list Z) : bool :=
  IsLoopback ip || IsLinkLocalUnicast ip || IsLinkLocalMulticast ip || IsPrivate ip || IsUnspecified ip.

(** An entry of the allowlist names [h] or [bare] or a parent domain. *)
Definition entry_matches (h bare a : bytes) : bool :=
  beq h a || HasSuffix h (bs "." ++ a) || (beq bare a || HasSuffix bare (bs "." ++ a)).

Section hosts.
Context `{GoUnicode}.

(** The matcher [New] returns. *)
Definition allow_match (allowed : list bytes) (host : bytes) : bool :=
  let h := ToLower (TrimSpace host) in
  if beq h [] then false
  else
    let bare := bareHost h in
    if bool_decide (bare ∈ denyHostnames) then false
    else if match parseHostIP bare with Some ip => ipIsPrivate ip | None => false end then false
    else existsb (entry_matches h bare) allowed.

(** ** upstream.go *)

Record netClient := mkClient { AllowHost : list bytes; UpstreamScheme : bytes; defaultHost : bytes }.

(** [New] normalises the configured default host. *)
Definition newClient (allowed : list bytes) (scheme host : bytes) : netClient :=
  mkClient allowed scheme (ToLower (TrimSpace host)).

Definition hostAllowed (c : netClient) (host : bytes) : bool :=
  let h := ToLower (TrimSpace host) in
  if negb (beq h []) && beq h (defaultHost c) then true
  else allow_match (AllowHost c) h.

Record URL := mkURL { u_Scheme : bytes; u_Host : bytes; u_Path : bytes; u_RawQuery : bytes }.

Inductive url_error := ErrEmptyHost | ErrHostNotAllowed.

Definition upstreamURL (c : netClient) (host path query : bytes) : result url_error URL :=
  let host := ToLower (TrimSpace host) in
  if beq host [] then Err ErrEmptyHost
  else if negb (hostAllowed c host) then Err ErrHostNotAllowed
  else
    let path := if beq path [] then bs "/" else path in
    Ok (mkURL (UpstreamScheme c) host path query).

Definition hopByHop : list bytes :=
  [bs "connection"; bs "keep-alive"; bs "proxy-connection"; bs "upgrade"; bs "te"; bs "trailer";
   bs "transfer-encoding"; bs "host"; bs "proxy-authorization"].

(** The headers of the outbound request, for a map with canonical keys. *)
Definition applyHeaders (hdr : gmap bytes (list bytes)) : gmap bytes (list bytes) :=
  filter (fun kv => ToLower kv.1 ∉ hopByHop) hdr.

(** ** Dotted addresses *)

Definition dotted (a b c d : Z) : bytes :=
  FormatUint a ++ bs "." ++ FormatUint b ++ bs "." ++ FormatUint c ++ bs "." ++ FormatUint d.

Definition octet (a : Z) : Prop := 0 ≤ a < 256.

(** Addresses that must never be contacted. *)
Definition private4 (a b c d : Z) : Prop :=
  a = 127 ∨ a = 10 ∨ (a = 172 ∧ 16 ≤ b < 32) ∨ (a = 192 ∧ b = 168) ∨ (a = 169 ∧ b = 254)
  ∨ (a = 0 ∧ b = 0 ∧ c = 0 ∧ d = 0).

(** No port, or one with decimal digits. *)
Definition port_suffix (s : bytes) : Prop :=
  s = [] ∨ ∃ ds, s = colon :: ds ∧ Forall (fun c => is_digit c = true) ds.

(** Reading the digits of one field. *)
Fixpoint v4_digits (v : Z) (n : nat) (s : bytes) : option (Z * nat) :=
  match s with
  | [] => Some (v, n)
  | c :: s =>
      if negb (is_digit c) then None
      else if (n =? 1)%nat && (v =? 0) then None
      else let v := v * 10 + (c - 48) in if 255 <? v then None else v4_digits v (S n) s
  end.

Lemma v4_loop_digits ds v n t st' fs dot :
  v4_digits v n ds = Some st' → ds ≠ [] →
  v4_loop (mkV4 v n fs dot) (ds ++ t) = v4_loop (mkV4 st'.1 st'.2 fs false) t.
Proof.
  revert v n dot. induction ds as [|c ds IH]; intros v n dot Hd Hne; [done|].
  cbn [v4_digits] in Hd. cbn [app v4_loop]. unfold v4_step at 1. cbn [v4_digs v4_val v4_fields v4_dot].
  destruct (is_digit c); [|done]. cbn [negb] in Hd. destruct (_ && _); [done|].
  destruct (255 <? _); [done|]. destruct ds as [|c' ds]; [by injection Hd as <-|]. by apply IH.
Qed.

Lemma octet_digits a : octet a → ∃ n, v4_digits 0 0 (FormatUint a) = Some (a, n).
Proof.
  intros Ha.
  assert (forallb (fun k => match v4_digits 0 0 (FormatUint (Z.of_nat k)) with
                            | Some (v, _) => v =? Z.of_nat k | None => false end) (seq 0 256) = true) as Hall
    by (vm_compute; reflexivity).
  rewrite forallb_forall in Hall. specialize (Hall (Z.to_nat a)).
  rewrite Z2Nat.id in Hall by (unfold octet in Ha; lia).
  destruct (v4_digits 0 0 (FormatUint a)) as [[v n]|].
  - exists n. do 2 f_equal. apply Z.eqb_eq, Hall. apply in_seq. unfold octet in Ha. lia.
  - exfalso. unfold octet in Ha. assert (false = true) by (apply Hall, in_seq; lia). done.
Qed.

Lemma v4_loop_field a fs dot t :
  octet a → (length fs < 3)%nat → t ≠ [] →
  v4_loop (mkV4 0 0 fs dot) (FormatUint a ++ bs "." ++ t) = v4_loop (mkV4 0 0 (fs ++ [a]) true) t.
Proof.
  intros Ha Hf Ht. destruct (octet_digits a Ha) as [n Hn].
  rewrite (v4_loop_digits _ _ _ _ _ _ _ Hn) by apply FormatUint_nonempty. cbn [fst snd].
  change (bs "." ++ t) with (46 :: t). cbn [v4_loop]. unfold v4_step at 1. cbn [v4_digs v4_val v4_fields v4_dot].
  change (is_digit 46) with false. change (46 =? 46) with true. cbv iota.
  destruct t as [|c t]; [done|]. cbn [orb]. destruct (Nat.eqb_spec (length fs) 3); [lia|]. done.
Qed.

Lemma app_ne_nil_l (a b : bytes) : a ≠ [] → a ++ b ≠ [].
Proof. by destruct a. Qed.

Lemma parse_dotted a b c d :
  octet a → octet b → octet c → octet d → parseIPv4Fields (dotted a b c d) = Some [a; b; c; d].
Proof.
  intros Ha Hb Hc Hd. unfold parseIPv4Fields, dotted.
  rewrite !v4_loop_field by (done || (cbn; lia) || apply FormatUint_nonempty || (apply app_ne_nil_l, FormatUint_nonempty)).
  destruct (octet_digits d Hd) as [n Hn]. rewrite <-(app_nil_r (FormatUint d)).
  rewrite (v4_loop_digits _ _ _ _ _ _ _ Hn) by apply FormatUint_nonempty. done.
Qed.

(** ** The gate on dotted addresses *)

Lemma IndexAny_digits_dot ds t :
  Forall (fun x => is_digit x = true) ds →
  ∃ i, IndexAny (ds ++ 46 :: t) [46; 58; 37] = Some i ∧ (ds ++ 46 :: t) !! i = Some 46.
Proof.
  induction 1 as [|x ds Hx _ (i & Hi & Hl)]; [by exists 0%nat|]. exists (S i). split; [|done].
  cbn [app IndexAny]. assert (bool_decide (x ∈ [46; 58; 37]) = false) as ->; [|by rewrite Hi].
  apply bool_decide_eq_false. unfold is_digit in Hx. rewrite !not_elem_of_cons.
  split_and!; [lia..|apply not_elem_of_nil].
Qed.

Lemma dotted_chars a b c d : octet a → octet b → octet c → octet d →
  Forall (fun x => is_digit x = true ∨ x = 46) (dotted a b c d).
Proof.
  intros Ha Hb Hc Hd. unfold octet in *.
  assert (∀ v, 0 ≤ v → Forall (fun x => is_digit x = true ∨ x = 46) (FormatUint v)) as Hf.
  { intros v Hv. eapply Forall_impl; [by apply FormatUint_digit|auto]. }
  assert (Forall (fun x => is_digit x = true ∨ x = 46) (bs ".")) as Hp by (repeat constructor; by right).
  unfold dotted. repeat (apply Forall_app; split; [first [exact Hp|apply Hf; lia]|]). apply Hf. lia.
Qed.

Lemma digit_range x : is_digit x = true → 48 ≤ x ≤ 57.
Proof. unfold is_digit. lia. Qed.

(** Bytes neither case folding nor trimming changes. *)
Definition inert (x : Z) : Prop := is_digit x = true ∨ x = 46 ∨ x = colon.

Lemma inert_range x : inert x → 46 ≤ x ≤ 58.
Proof. unfold inert, colon. intros [Hx%digit_range|[->| ->]]; lia. Qed.

Lemma inert_normal s : Forall inert s → ToLower (TrimSpace s) = s.
Proof.
  intros Hs. rewrite TrimSpace_visible.
  2:{ eapply Forall_impl; [exact Hs|]. intros x Hx%inert_range. unfold visible. lia. }
  unfold ToLower. assert (is_ascii s = true) as ->.
  { unfold is_ascii. apply forallb_forall. intros x Hx. apply list_elem_of_In in Hx.
    rewrite Forall_forall in Hs. apply Hs in Hx. apply inert_range in Hx. apply Z.ltb_lt. lia. }
  induction Hs as [|x s Hx _ IH]; [done|]. rewrite fmap_cons, IH. f_equal.
  apply inert_range in Hx. unfold lower_byte. destruct (_ && _) eqn:E; lia.
Qed.

Lemma drop_while_none p (s : bytes) : Forall (fun x => p x = false) s → drop_while p s = s.
Proof. destruct 1 as [|x s Hx _]; [done|]. cbn. by rewrite Hx. Qed.

Lemma Trim_none s set : Forall (fun x => x ∉ set) s → Trim s set = s.
Proof.
  intros Hs. unfold Trim.
  assert (Forall (fun x => bool_decide (x ∈ set) = false) s) as Hf.
  { eapply Forall_impl; [exact Hs|]. intros x Hx. by apply bool_decide_eq_false. }
  cbv zeta. rewrite (drop_while_none _ s) by exact Hf. rewrite drop_while_none by (by apply Forall_reverse).
  apply reverse_involutive.
Qed.

Lemma LastIndexByte_none s c : c ∉ s → LastIndexByte s c = None.
Proof.
  intros Hs. unfold LastIndexByte. assert (IndexByte (reverse s) c = None) as ->; [|done].
  apply IndexByte_None. by rewrite elem_of_reverse.
Qed.

Lemma LastIndexByte_app a c b : c ∉ b → LastIndexByte (a ++ c :: b) c = Some (length a).
Proof.
  intros Hb. unfold LastIndexByte. rewrite reverse_app, reverse_cons, <-app_assoc. cbn [app].
  rewrite IndexByte_app by (by rewrite elem_of_reverse). cbn [fmap option_fmap option_map].
  rewrite length_app, length_reverse. cbn [length]. f_equal. lia.
Qed.

Lemma dotted_inert a b c d : octet a → octet b → octet c → octet d → Forall inert (dotted a b c d).
Proof.
  intros Ha Hb Hc Hd. eapply Forall_impl; [by apply dotted_chars|]. unfold inert. naive_solver.
Qed.

Lemma dotted_nonempty a b c d : dotted a b c d ≠ [].
Proof. apply app_ne_nil_l, FormatUint_nonempty. Qed.

Lemma dotted_no_colon a b c d : octet a → octet b → octet c → octet d → colon ∉ dotted a b c d.
Proof.
  intros Ha Hb Hc Hd Hin. pose proof (dotted_chars a b c d Ha Hb Hc Hd) as Hf.
  rewrite Forall_forall in Hf. apply Hf in Hin. unfold colon in Hin.
  destruct Hin as [Hin|Hin]; [by vm_compute in Hin|lia].
Qed.

Lemma bare_dotted a b c d s :
  octet a → octet b → octet c → octet d → port_suffix s →
  bareHost (dotted a b c d ++ s) = dotted a b c d.
Proof.
  intros Ha Hb Hc Hd Hs. pose proof (dotted_no_colon a b c d Ha Hb Hc Hd) as Hnc.
  assert (HasPrefix (dotted a b c d ++ s) (bs "[") = false) as Hp.
  { pose proof (dotted_inert a b c d Ha Hb Hc Hd) as Hf. pose proof (dotted_nonempty a b c d) as Hne.
    destruct (dotted a b c d) as [|x l]; [done|]. apply Forall_inv, inert_range in Hf.
    change (bs "[") with [91]. cbn [HasPrefix app]. destruct (Z.eqb_spec 91 x); [lia|done]. }
  unfold bareHost. destruct Hs as [->|(ds & -> & Hds)].
  - rewrite app_nil_r in *. by rewrite LastIndexByte_none, Hp.
  - rewrite LastIndexByte_app, Hp, take_app_length; [done|]. intros Hin.
    rewrite Forall_forall in Hds. apply Hds in Hin. by vm_compute in Hin.
Qed.

Lemma private4_ip a b c d :
  octet a → octet b → octet c → octet d → private4 a b c d → ipIsPrivate (v4_mapped [a; b; c; d]) = true.
Proof.
  intros Ha Hb Hc Hd Hp. unfold ipIsPrivate, IsLoopback, IsLinkLocalUnicast, IsPrivate.
  assert (To4 (v4_mapped [a; b; c; d]) = Some [a; b; c; d]) as -> by done.
  destruct Hp as [->|[->|[[-> Hb']|[[-> ->]|[[-> ->]|(-> & -> & -> & ->)]]]]]; try done.
  - assert ((Z.land b 240 =? 16) = true) as Hl; [|by cbn; rewrite Hl].
    assert (forallb (fun k => Z.land (Z.of_nat k) 240 =? 16) (seq 16 16) = true) as Hall by done.
    rewrite forallb_forall in Hall. specialize (Hall (Z.to_nat b)). rewrite Z2Nat.id in Hall by lia.
    apply Hall, in_seq. lia.
Qed.

Lemma parseHostIP_dotted a b c d :
  octet a → octet b → octet c → octet d → parseHostIP (dotted a b c d) = Some (v4_mapped [a; b; c; d]).
Proof.
  intros Ha Hb Hc Hd. unfold parseHostIP. rewrite Trim_none.
  2:{ eapply Forall_impl; [by apply dotted_inert|]. intros x Hx%inert_range.
      change (bs "[]") with [91; 93]. rewrite !not_elem_of_cons. split_and!; [lia..|apply not_elem_of_nil]. }
  unfold ParseIP. destruct (IndexAny_digits_dot (FormatUint a) (FormatUint b ++ bs "." ++ FormatUint c ++ bs "." ++ FormatUint d))
    as (i & Hi & Hl).
  { apply FormatUint_digit. unfold octet in Ha. lia. }
  change (FormatUint a ++ 46 :: _) with (dotted a b c d) in Hi, Hl. rewrite Hi, Hl.
  by rewrite parse_dotted.
Qed.

(** ** Properties *)

(** no request is built to a loopback, private, link-local or unspecified
    IPv4 address, whatever the allowlist says: a dotted address of those
    classes, with or without a port, is refused at the outbound sink (unless
    it is the operator's configured default upstream) and by the matcher the
    router consults. *)
Theorem upstream_denies_private_ipv4 cl a b c d s path query :
  octet a → octet b → octet c → octet d → private4 a b c d → port_suffix s →
  defaultHost cl ≠ dotted a b c d ++ s →
  upstreamURL cl (dotted a b c d ++ s) path query = Err ErrHostNotAllowed ∧
  allow_match (AllowHost cl) (dotted a b c d ++ s) = false.
Proof.
  intros Ha Hb Hc Hd Hp Hs Hdef. set (host := dotted a b c d ++ s) in *.
  assert (Forall inert host) as Hin.
  { apply Forall_app. split; [by apply dotted_inert|]. destruct Hs as [->|(ds & -> & Hds)]; [done|].
    constructor; [by right; right|]. eapply Forall_impl; [exact Hds|]. by left. }
  pose proof (inert_normal host Hin) as Hn.
  assert (beq host [] = false) as Hne.
  { apply beq_false. apply app_ne_nil_l, dotted_nonempty. }
  assert (allow_match (AllowHost cl) host = false) as Hm.
  { unfold allow_match. rewrite Hn, Hne. cbv zeta. unfold host. rewrite bare_dotted by done.
    destruct (bool_decide _); [done|]. by rewrite parseHostIP_dotted, private4_ip. }
  split; [|done]. unfold upstreamURL, hostAllowed. cbv zeta. rewrite !Hn, Hne.
  assert (beq host (defaultHost cl) = false) as -> by (apply beq_false; congruence).
  by rewrite andb_false_r, Hm.
Qed.

End hosts.

#[local] Existing Instance ascii_unicode.

Lemma upstream_denies_private_ipv4_witness :
  let cl := newClient [bs "huggingface.co"; bs "169.254.169.254"] (bs "https") (bs "HuggingFace.co ") in
  upstreamURL cl (bs "169.254.169.254:80") (bs "/latest") [] = Err ErrHostNotAllowed ∧
  allow_match (AllowHost cl) (bs "169.254.169.254:80") = false ∧
  upstreamURL cl (bs "HuggingFace.co") (bs "/x") [] = Ok (mkURL (bs "https") (bs "huggingface.co") (bs "/x") []).
Proof.
  assert (bs "169.254.169.254:80" = dotted 169 254 169 254 ++ bs ":80") as -> by reflexivity.
  intros cl. destruct (upstream_denies_private_ipv4 cl 169 254 169 254 (bs ":80") (bs "/latest") []) as [H1 H2];
    unfold octet, private4; try lia.
  - right. exists (bs "80"). split; [reflexivity|repeat constructor].
  - vm_compute. discriminate.
  - split; [exact H1|]. split; [exact H2|]. vm_compute. reflexivity.
Defined.

(** the deny gate does not see an IPv6 literal written without brackets:
    [bareHost] cuts it at its last colon, so an operator entry for the
    loopback address is honoured although the package promises to refuse it
    even when listed. *)
Theorem bare_ipv6_bypasses_deny :
  ParseIP (bs "::1") = Some (replicate 15 0 ++ [1]) ∧ ipIsPrivate (replicate 15 0 ++ [1]) = true ∧
  allow_match [bs "::1"] (bs "[::1]") = false ∧ allow_match [bs "::1"] (bs "::1") = true.
Proof. split_and!; vm_compute; reflexivity. Qed.
