(* ===== verification/NetUrl.v ===== *)
(** * Go's net/url and path packages, as the program uses them

    [url.Parse], [URL.String], [EscapedPath], [Hostname], [Query],
    [Values.Encode], [url.JoinPath] and [path.Join], for the Go 1.25 of go.mod,
    on byte strings; bracketed hosts as of release 1.25.8.  Nothing here is code of the repository; the redirect
    rewriting (Location.v), the log scrubber (Logx.v) and the flags (Config.v)
    are written against it. *)

From stdpp Require Import base strings numbers gmap list sorting.
From S2P Require Import Prelude GoStd Rewrite HostAllow.

Local Open Scope Z_scope.

(** ** Percent-encoding *)

Inductive encoding :=
| encodePath | encodePathSegment | encodeHost | encodeZone
| encodeUserPassword | encodeQueryComponent | encodeFragment.

Definition is_alnum (c : Z) : bool :=
  ((97 <=? c) && (c <=? 122)) || ((65 <=? c) && (c <=? 90)) || is_digit c.

(** ! $ & ' ( ) * + , ; = : [ ] < > and the double quote *)
Definition host_plain : list Z := [33; 36; 38; 39; 40; 41; 42; 43; 44; 59; 61; 58; 91; 93; 60; 62; 34].

(** $ & + , / : ; = ? @ *)
Definition reserved : list Z := [36; 38; 43; 44; 47; 58; 59; 61; 63; 64].

Definition member (c : Z) (l : list Z) : bool := existsb (Z.eqb c) l.

Definition shouldEscape (c : Z) (mode : encoding) : bool :=
  if is_alnum c then false
  else if match mode with encodeHost | encodeZone => member c host_plain | _ => false end then false
  else if member c [45; 95; 46; 126] then false
  else if member c reserved && match mode with encodeHost | encodeZone => false | _ => true end then
    match mode with
    | encodePath => c =? 63
    | encodePathSegment => member c [47; 59; 44; 63]
    | encodeUserPassword => member c [64; 47; 63; 58]
    | encodeQueryComponent => true
    | _ => false
    end
  else
    match mode with
    | encodeFragment => negb (member c [33; 40; 41; 42])
    | _ => true
    end.

Definition escape_byte (mode : encoding) (c : Z) : bytes :=
  if shouldEscape c mode then
    if (c =? 32) && match mode with encodeQueryComponent => true | _ => false end then [43]
    else [37; upper_hex (c / 16); upper_hex (c mod 16)]
  else [c].

Definition escape (s : bytes) (mode : encoding) : bytes := concat (escape_byte mode <$> s).

(** The checks on one escape sequence and on one plain byte of a host. *)
Definition escape_allowed (mode : encoding) (a b : Z) (x y : Z) : bool :=
  match mode with
  | encodeHost => (8 <=? x) || ((a =? 50) && (b =? 53))
  | encodeZone => ((a =? 50) && (b =? 53)) || (16 * x + y =? 32) || negb (shouldEscape (16 * x + y) encodeHost)
  | _ => true
  end.

Definition plain_allowed (mode : encoding) (c : Z) : bool :=
  match mode with
  | encodeHost | encodeZone => (128 <=? c) || negb (shouldEscape c mode)
  | _ => true
  end.

Fixpoint unescape (s : bytes) (mode : encoding) : option bytes :=
  match s with
  | [] => Some []
  | c :: s =>
      if c =? 37 then
        match s with
        | a :: b :: s =>
            match unhex a, unhex b with
            | Some x, Some y =>
                if escape_allowed mode a b x y then cons (16 * x + y) <$> unescape s mode else None
            | _, _ => None
            end
        | _ => None
        end
      else if plain_allowed mode c then
        cons (if (c =? 43) && match mode with encodeQueryComponent => true | _ => false end then 32 else c) <$> unescape s mode
      else None
  end.

(** ** URLs *)

Record url := mkUrl {
  ur_Scheme : bytes;
  ur_Opaque : bytes;
  ur_User : option (bytes * option bytes);    (* name and password *)
  ur_Host : bytes;
  ur_Path : bytes;
  ur_RawPath : bytes;
  ur_OmitHost : bool;
  ur_ForceQuery : bool;
  ur_RawQuery : bytes;
  ur_Fragment : bytes;
  ur_RawFragment : bytes;
}.

(** [strings.Cut] at one byte: before, after, found. *)
Definition Cut (s : bytes) (c : Z) : bytes * bytes * bool :=
  match IndexByte s c with
  | Some i => (take i s, drop (S i) s, true)
  | None => (s, [], false)
  end.

Definition contains_byte (s : bytes) (c : Z) : bool := member c s.

Fixpoint get_scheme (first : bool) (acc s : bytes) : option (bytes * bytes) :=
  match s with
  | [] => Some ([], acc)
  | c :: s' =>
      if ((97 <=? c) && (c <=? 122)) || ((65 <=? c) && (c <=? 90)) then get_scheme false (acc ++ [c]) s'
      else if is_digit c || member c [43; 45; 46] then
        if first then Some ([], acc ++ s) else get_scheme false (acc ++ [c]) s'
      else if c =? 58 then if first then None else Some (acc, s')
      else Some ([], acc ++ s)
  end.

(** [None]: missing protocol scheme. *)
Definition getScheme (s : bytes) : option (bytes * bytes) := get_scheme true [] s.

Definition validOptionalPort (port : bytes) : bool :=
  match port with
  | [] => true
  | c :: ds => (c =? 58) && forallb is_digit ds
  end.

(** An IPv6 address with an optional zone, as [netip.ParseAddr] takes it; the
    IPv4 forms are refused. *)
Definition ip_literal (s : bytes) : bool :=
  let '(addr, zone, found) := Cut s 37 in
  contains_byte addr 58 && bool_decide (is_Some (parseIPv6 addr)) && (negb found || negb (beq zone [])).

Definition parseHost (host : bytes) : option bytes :=
  match LastIndexByte host 91 with
  | Some open_ =>
      match LastIndexByte host 93 with
      | None => None
      | Some close =>
          let colonPort := drop (S close) host in
          if negb (open_ =? 0)%nat || negb (validOptionalPort colonPort) then None
          else
            let hostname := take (close - S open_) (drop (S open_) host) in
            let un := match Index hostname (bs "%25") with
                      | Some z =>
                          match unescape (take z hostname) encodeHost, unescape (drop z hostname) encodeZone with
                          | Some a, Some b => Some (a ++ b)
                          | _, _ => None
                          end
                      | None => unescape hostname encodeHost
                      end in
            match un with
            | Some h => if ip_literal h then Some (bs "[" ++ h ++ bs "]" ++ colonPort) else None
            | None => None
            end
      end
  | None =>
      if match LastIndexByte host 58 with Some i => validOptionalPort (drop i host) | None => true end
      then unescape host encodeHost else None
  end.

(** - . _ : ~ ! $ & ' ( ) * + , ; = % @ and alphanumerics *)
Definition validUserinfo (s : bytes) : bool :=
  forallb (λ c, is_alnum c || member c [45; 46; 95; 58; 126; 33; 36; 38; 39; 40; 41; 42; 43; 44; 59; 61; 37; 64]) s.

Definition parseAuthority (a : bytes) : option (option (bytes * option bytes) * bytes) :=
  match LastIndexByte a 64 with
  | None => (λ h, (None, h)) <$> parseHost a
  | Some i =>
      match parseHost (drop (S i) a) with
      | None => None
      | Some h =>
          let ui := take i a in
          if negb (validUserinfo ui) then None
          else
            let '(name, pass, found) := Cut ui 58 in
            match unescape name encodeUserPassword, unescape pass encodeUserPassword with
            | Some n, Some p => Some (Some (n, if found then Some p else None), h)
            | _, _ => None
            end
      end
  end.

(** Path and RawPath of [setPath]. *)
Definition setPath (p : bytes) : option (bytes * bytes) :=
  match unescape p encodePath with
  | Some path => Some (path, if beq p (escape path encodePath) then [] else p)
  | None => None
  end.

Definition has_ctl (s : bytes) : bool := existsb (λ c, (c <? 32) || (c =? 127)) s.

(** Query flag, raw query and the rest of [parse]. *)
Definition cut_query (rest : bytes) : bytes * bytes * bool :=
  let '(before, after, found) := Cut rest 63 in
  if found && beq after [] then (before, [], true) else (before, after, false).

(** [parse(rawURL, false)] *)
Definition parse (raw : bytes) : option url :=
  if has_ctl raw then None
  else if beq raw (bs "*") then Some (mkUrl [] [] None [] (bs "*") [] false false [] [] [])
  else
    match getScheme raw with
    | None => None
    | Some (scheme, rest) =>
        let scheme := lower_byte <$> scheme in
        let '(rest, query, force) := cut_query rest in
        let rootless := negb (HasPrefix rest (bs "/")) in
        if rootless && negb (beq scheme []) then
          Some (mkUrl scheme rest None [] [] [] false force query [] [])
        else if rootless && contains_byte (Cut rest 47).1.1 58 then None
        else
          let authority := (negb (beq scheme []) || negb (HasPrefix rest (bs "///"))) && HasPrefix rest (bs "//") in
          let '(auth, path) :=
            if authority then
              let a := drop 2 rest in
              match IndexByte a 47 with Some i => (take i a, drop i a) | None => (a, []) end
            else ([], rest) in
          match (if authority then parseAuthority auth else Some (None, [])) with
          | None => None
          | Some (user, host) =>
              match setPath path with
              | None => None
              | Some (p, rp) =>
                  Some (mkUrl scheme [] user host p rp
                          (negb authority && negb (beq scheme []) && HasPrefix rest (bs "/")) force query [] [])
              end
          end
    end.

Definition with_fragment (u : url) (f rf : bytes) : url :=
  mkUrl (ur_Scheme u) (ur_Opaque u) (ur_User u) (ur_Host u) (ur_Path u) (ur_RawPath u) (ur_OmitHost u)
    (ur_ForceQuery u) (ur_RawQuery u) f rf.

Definition Parse (raw : bytes) : option url :=
  let '(u, frag, _) := Cut raw 35 in
  match parse u with
  | None => None
  | Some u =>
      if beq frag [] then Some u
      else
        match unescape frag encodeFragment with
        | Some f => Some (with_fragment u f (if beq frag (escape f encodeFragment) then [] else frag))
        | None => None
        end
  end.

(** ** Printing *)

(** ! $ & ' ( ) * + , ; = : @ [ ] % *)
Definition valid_plain : list Z := [33; 36; 38; 39; 40; 41; 42; 43; 44; 59; 61; 58; 64; 91; 93; 37].

Definition validEncoded (s : bytes) (mode : encoding) : bool :=
  forallb (λ c, member c valid_plain || negb (shouldEscape c mode)) s.

Definition EscapedPath (u : url) : bytes :=
  let raw := ur_RawPath u in
  if negb (beq raw []) && validEncoded raw encodePath && bool_decide (unescape raw encodePath = Some (ur_Path u)) then raw
  else if beq (ur_Path u) (bs "*") then bs "*"
  else escape (ur_Path u) encodePath.

Definition EscapedFragment (u : url) : bytes :=
  let raw := ur_RawFragment u in
  if negb (beq raw []) && validEncoded raw encodeFragment && bool_decide (unescape raw encodeFragment = Some (ur_Fragment u)) then raw
  else escape (ur_Fragment u) encodeFragment.

Definition user_String (ui : bytes * option bytes) : bytes :=
  escape ui.1 encodeUserPassword ++ match ui.2 with Some p => bs ":" ++ escape p encodeUserPassword | None => [] end.

Definition is_nil_opt {A} (o : option A) : bool := match o with None => true | Some _ => false end.

(** Scheme and authority. *)
Definition url_authority (u : url) : bytes :=
  if negb (beq (ur_Scheme u) []) || negb (beq (ur_Host u) []) || negb (is_nil_opt (ur_User u)) then
    if ur_OmitHost u && beq (ur_Host u) [] && is_nil_opt (ur_User u) then []
    else
      (if negb (beq (ur_Host u) []) || negb (beq (ur_Path u) []) || negb (is_nil_opt (ur_User u)) then bs "//" else [])
      ++ match ur_User u with Some ui => user_String ui ++ bs "@" | None => [] end
      ++ escape (ur_Host u) encodeHost
  else [].

Definition url_String (u : url) : bytes :=
  let pre := if beq (ur_Scheme u) [] then [] else ur_Scheme u ++ bs ":" in
  let body :=
    if negb (beq (ur_Opaque u) []) then ur_Opaque u
    else
      let auth := url_authority u in
      let path := EscapedPath u in
      let slash := if negb (beq path []) && negb (HasPrefix path (bs "/")) && negb (beq (ur_Host u) []) then bs "/" else [] in
      let dot := if beq (pre ++ auth ++ slash) [] && contains_byte (Cut path 47).1.1 58 then bs "./" else [] in
      auth ++ slash ++ dot ++ path in
  pre ++ body
  ++ (if ur_ForceQuery u || negb (beq (ur_RawQuery u) []) then bs "?" ++ ur_RawQuery u else [])
  ++ (if negb (beq (ur_Fragment u) []) then bs "#" ++ EscapedFragment u else []).

Definition with_path (u : url) (p rp : bytes) : url :=
  mkUrl (ur_Scheme u) (ur_Opaque u) (ur_User u) (ur_Host u) p rp (ur_OmitHost u)
    (ur_ForceQuery u) (ur_RawQuery u) (ur_Fragment u) (ur_RawFragment u).

Definition with_query (u : url) (q : bytes) : url :=
  mkUrl (ur_Scheme u) (ur_Opaque u) (ur_User u) (ur_Host u) (ur_Path u) (ur_RawPath u) (ur_OmitHost u)
    (ur_ForceQuery u) q (ur_Fragment u) (ur_RawFragment u).

(** [Hostname]: the host without a port and without brackets. *)
Definition Hostname (u : url) : bytes :=
  let host := ur_Host u in
  let host := match LastIndexByte host 58 with
              | Some i => if validOptionalPort (drop i host) then take i host else host
              | None => host
              end in
  if HasPrefix host (bs "[") && HasSuffix host (bs "]") then take (length host - 2) (drop 1 host) else host.

(** ** Paths *)

(** The segments that [path.Clean] keeps, last first. *)
Definition clean_step (rooted : bool) (acc : list bytes) (seg : bytes) : list bytes :=
  if beq seg [] || beq seg (bs ".") then acc
  else if beq seg (bs "..") then
    match acc with
    | [] => if rooted then [] else [bs ".."]
    | last :: acc' => if beq last (bs "..") then bs ".." :: acc else acc'
    end
  else seg :: acc.

Definition path_Clean (p : bytes) : bytes :=
  if beq p [] then bs "."
  else
    let rooted := HasPrefix p (bs "/") in
    let segs := reverse (foldl (clean_step rooted) [] (Split p 47)) in
    if rooted then bs "/" ++ Join segs (bs "/")
    else match segs with [] => bs "." | _ => Join segs (bs "/") end.

Fixpoint join_elems (buf : bytes) (elems : list bytes) : bytes :=
  match elems with
  | [] => buf
  | e :: elems => join_elems (if beq buf [] then e else buf ++ bs "/" ++ e) elems
  end.

Definition path_Join (elems : list bytes) : bytes :=
  if forallb (λ e, beq e []) elems then [] else path_Clean (join_elems [] elems).

(** [URL.JoinPath]; a path that does not decode is ignored by [setPath]. *)
Definition url_JoinPath (u : url) (elems : list bytes) : url :=
  let first := EscapedPath u in
  let p := if HasPrefix first (bs "/") then path_Join (first :: elems)
           else drop 1 (path_Join ((bs "/" ++ first) :: elems)) in
  let last := List.last (first :: elems) [] in
  let p := if HasSuffix last (bs "/") && negb (HasSuffix p (bs "/")) then p ++ bs "/" else p in
  match setPath p with Some (path, rp) => with_path u path rp | None => u end.

Definition JoinPath (base : bytes) (elems : list bytes) : option bytes :=
  (λ u, url_String (url_JoinPath u elems)) <$> Parse base.

(** ** Queries *)

Definition maxQueryParams : nat := 10000.

(** [url.ParseQuery] without its error: pairs that do not decode are dropped. *)
Definition parse_pair (m : gmap bytes (list bytes)) (seg : bytes) : gmap bytes (list bytes) :=
  if contains_byte seg 59 then m
  else if beq seg [] then m
  else
    let '(k, v, _) := Cut seg 61 in
    match QueryUnescape k, QueryUnescape v with
    | Some k, Some v => <[k := default [] (m !! k) ++ [v]]> m
    | _, _ => m
    end.

Definition ParseQuery (q : bytes) : gmap bytes (list bytes) :=
  let segs := Split q 38 in
  if (maxQueryParams <? length segs)%nat then ∅ else foldl parse_pair ∅ segs.

(** Keys in byte order. *)
Definition key_le (a b : bytes) : Prop := str_lt b a = false.

#[global] Instance key_le_dec : RelDecision key_le.
Proof. intros a b. unfold key_le. apply _. Defined.

Definition Values_Encode (m : gmap bytes (list bytes)) : bytes :=
  let ks := merge_sort key_le (elements (dom m)) in
  Join (concat ((λ k, (λ v, QueryEscape k ++ bs "=" ++ QueryEscape v) <$> default [] (m !! k)) <$> ks)) (bs "&").
