(* ===== verification/Warm.v ===== *)
(** * The warm path (src/internal/coreserver/server.go, iouring_reactor_linux.go)

    [tryServeWarm] answers a GET from the cache without the http.Handler: key,
    metadata, range, coverage, body file, response head.  The io_uring reactor
    repeats it as [tryServeWarmReactor].  The transfer itself (sendfile and its
    fallbacks) is here its result, the bytes of the file in the wanted range;
    [SendFile] models it.  Telemetry counters are left out. *)

From stdpp Require Import base strings numbers gmap list.
From S2P Require Import Prelude GoStd Spans Sha256 CacheKey Lru Store StoreTrace MetaLru StoreBytes HttpParser UringParser RespHead Classify.

Local Open Scope Z_scope.
Local Open Scope go_scope.

Record warm := mkWarm {
  w_cachekey : bytes;       (* keyHex *)
  w_meta : Meta;
  w_start : Z;              (* wantStart *)
  w_end : Z;                (* wantEnd *)
  w_headbytes : bytes;      (* the head as sent *)
  w_body : bytes;           (* the body as sent *)
}.

Definition warm_total (m : Meta) : Z := match Total m with Some t => t | None => -1 end.

Section warm.
Context {C : Type} `{MetaCache C} `{GoUnicode}.
Context (victim : KeyHexCache → bytes).
Implicit Type s : Store C.

(** [wantStart], [wantEnd]; [None] is a miss. *)
Definition want_range (req : Request) (total : Z) : option (Z * Z) :=
  if (length (rRange req) =? 0)%nat then
    if total <? 0 then None else Some (0, total)
  else
    match ParseSingleRange (rRange req) total with
    | None => None
    | Some (a, b) => if b <? 0 then None else Some (a, b)
    end.

Definition head_full (req : Request) (m : Meta) (a b : Z) : bytes :=
  let n := b -64 a in
  if (length (rRange req) =? 0)%nat then writeWarmHead200 [] n m (KeepAlive req)
  else writeWarmHead206 [] a b (warm_total m) n m (KeepAlive req).

Definition head_fused (req : Request) (m : Meta) (a b : Z) : bytes :=
  let n := b -64 a in
  hb_bytes
    (if (length (rRange req) =? 0)%nat then writeWarmHead200Buf acquireHeaderBuf n m (KeepAlive req)
     else writeWarmHead206Buf acquireHeaderBuf a b (warm_total m) n m (KeepAlive req)).

(** [fused]: a raw connection and a descriptor are at hand, so the head goes
    through the fixed buffer. *)
Definition tryServeWarm (fused : bool) (host : bytes) (kc : KeyHexCache) s (req : Request)
    : option warm * KeyHexCache * Store C :=
  if negb (beq (Method req) (bs "GET")) then (None, kc, s)
  else if negb (ArtifactGET host host (bs "GET") (rPath req)) then (None, kc, s)
  else
    let keyQuery := if IsContentAddressedHost host then [] else rQuery req in
    let '(keyHex, kc) := KeyHexCache_Get victim kc (bs "GET") host (rPath req) keyQuery [] in
    let '(r, s) := LoadMeta s keyHex in
    match r with
    | Err _ | Ok None => (None, kc, s)
    | Ok (Some m) =>
        if (length (Spans m) =? 0)%nat then (None, kc, s)
        else
          match want_range req (warm_total m) with
          | None => (None, kc, s)
          | Some (a, b) =>
              if negb (Covers (Spans m) a b) then (None, kc, s)
              else match read_body s keyHex a b with
                   | None => (None, kc, s)
                   | Some body =>
                       (Some (mkWarm keyHex m a b
                                (if fused then head_fused req m a b else head_full req m a b) body), kc, s)
                   end
          end
    end.

(** The reactor stages the fixed-buffer head only. *)
Definition tryServeWarmReactor (host : bytes) (kc : KeyHexCache) s (req : Request) :=
  tryServeWarm true host kc s req.

(** ** What a hit implies *)

Lemma warm_inv fused host kc s req w kc' s' :
  tryServeWarm fused host kc s req = (Some w, kc', s') →
  let q := if IsContentAddressedHost host then [] else rQuery req in
  w_cachekey w = (KeyHexCache_Get victim kc (bs "GET") host (rPath req) q []).1
  ∧ (LoadMeta s (w_cachekey w)).1 = Ok (Some (w_meta w))
  ∧ s' = (LoadMeta s (w_cachekey w)).2
  ∧ want_range req (warm_total (w_meta w)) = Some (w_start w, w_end w)
  ∧ Covers (Spans (w_meta w)) (w_start w) (w_end w) = true
  ∧ read_body s' (w_cachekey w) (w_start w) (w_end w) = Some (w_body w)
  ∧ w_headbytes w = (if fused then head_fused else head_full) req (w_meta w) (w_start w) (w_end w).
Proof.
  unfold tryServeWarm. destruct (negb (beq _ _)); [done|]. destruct (negb (ArtifactGET _ _ _ _)); [done|].
  cbv zeta. set (q := if IsContentAddressedHost host then [] else rQuery req).
  destruct (KeyHexCache_Get victim kc (bs "GET") host (rPath req) q []) as [key kc1] eqn:Ek.
  destruct (LoadMeta s key) as [r s1] eqn:El. destruct r as [[m|]|]; try done.
  destruct (_ =? 0)%nat; [done|]. destruct (want_range _ _) as [[a b]|] eqn:Ew; [|done].
  destruct (negb (Covers _ _ _)) eqn:Ec; [done|]. apply negb_false_iff in Ec.
  destruct (read_body s1 key a b) as [body|] eqn:Eb; [|done].
  intros [= <- <- <-]. cbn [w_cachekey w_meta w_start w_end w_body w_headbytes].
  rewrite El. split_and!; try done. by destruct fused.
Qed.

(** Loading metadata leaves the files alone. *)
Lemma LoadMeta_body s key k a b : read_body (LoadMeta s key).2 k a b = read_body s k a b.
Proof.
  unfold LoadMeta. destruct (mc_get key (metaCache s)) as [[m|] c]; [done|].
  cbv zeta. by destruct (metas (with_cache s c) !! key) as [[m|]|].
Qed.

Lemma head_fused_take req m a b : head_fused req m a b = take headerBufSize (head_full req m a b).
Proof.
  unfold head_fused, head_full. change acquireHeaderBuf with (hb_of []).
  destruct (_ =? 0)%nat; by rewrite ?hb_of_200, ?hb_of_206.
Qed.

(** Good bytes: the slice of the object is as long as the range. *)
Lemma good_slice_length (origin : bytes → bytes) s key a b :
  0 ≤ a < b → (∀ x, a ≤ x < b → good origin s key x) →
  let d := take (Z.to_nat (b - a)) (drop (Z.to_nat a) (origin key)) in
  Z.of_nat (length d) = b - a ∧ b ≤ Z.of_nat (length (origin key)).
Proof.
  intros Hab Hg. destruct (Hg (b - 1) ltac:(lia)) as (_ & i & f & ch & _ & _ & _ & Ho).
  apply lookup_lt_Some in Ho. cbv zeta. rewrite length_take, length_drop. lia.
Qed.

(** A full head and the body it announces. *)
Lemma decode_full req m a b body rest :
  meta_clean m → 0 ≤ a < b → b ≤ int64_max → is_int64 (warm_total m) → Z.of_nat (length body) = b - a →
  ∃ lines, decode_response (head_full req m a b ++ body ++ rest) = Some (lines, body, rest).
Proof.
  intros Hm Hab Hb Ht Hl. unfold head_full. rewrite wrap64_id by zlia. rewrite <-Hl.
  destruct (_ =? 0)%nat; eexists; [apply decode_head200|apply decode_head206]; try done; zlia.
Qed.

(** The body of a warm hit is the upstream's slice, and the response decodes. *)
Lemma warm_decodes (origin : bytes → bytes) maxBytes dir file c os fused host kc req w kc' s' :
  origin_small origin → mc_ok c → mc_view c = ∅ →
  all_ops (faithful origin) (mkSys (empty_store maxBytes dir file c) ∅) os →
  tryServeWarm fused host kc (sys_store (srun (mkSys (empty_store maxBytes dir file c) ∅) os)) req
    = (Some w, kc', s') →
  w_start w < w_end w → is_int64 (warm_total (w_meta w)) → meta_clean (w_meta w) →
  (fused = true → (length (head_full req (w_meta w) (w_start w) (w_end w)) ≤ headerBufSize)%nat) →
  0 ≤ w_start w ∧ Z.of_nat (length (w_body w)) = w_end w - w_start w ∧
  read_body s' (w_cachekey w) (w_start w) (w_end w) = Some (w_body w) ∧
  w_body w = take (Z.to_nat (w_end w - w_start w)) (drop (Z.to_nat (w_start w)) (origin (w_cachekey w))) ∧
  ∀ rest, ∃ lines, decode_response (w_headbytes w ++ w_body w ++ rest) = Some (lines, w_body w, rest).
Proof.
  intros Hsm Hok Hv Hall Hw Hab Ht Hm Hfit.
  destruct (warm_inv _ _ _ _ _ _ _ _ Hw) as (_ & Hl & -> & _ & Hc & Hb & Hh).
  destruct (loaded_good origin _ _ _ _ _ _ _ _ _ Hsm Hok Hv Hall Hl Hab Hc) as [Ha Hg].
  pose proof Hb as Hrb. rewrite LoadMeta_body, (good_slice origin) in Hb by (done || lia). injection Hb as Hb.
  destruct (good_slice_length origin _ _ _ _ (conj Ha Hab) Hg) as [Hlen Hle].
  rewrite Hb in *. assert (w_headbytes w = head_full req (w_meta w) (w_start w) (w_end w)) as ->.
  { rewrite Hh. destruct fused; [|done]. rewrite head_fused_take. apply take_ge. auto. }
  split_and!; [done..|]. intros rest. apply decode_full; try done. specialize (Hsm (w_cachekey w)). lia.
Qed.

(** a warm response is the upstream's bytes, correctly framed.  After any
    history of the store in which the upstream's bytes were written, a warm
    hit for a non-empty range is a response that a client decodes to exactly
    the bytes [wantStart, wantEnd) of the upstream object, whatever follows on
    the connection; on the fused path, if the head fits its buffer. *)
Theorem warm_response_is_upstream (origin : bytes → bytes) maxBytes dir file c os fused host kc req w kc' s' rest :
  origin_small origin → mc_ok c → mc_view c = ∅ →
  all_ops (faithful origin) (mkSys (empty_store maxBytes dir file c) ∅) os →
  tryServeWarm fused host kc (sys_store (srun (mkSys (empty_store maxBytes dir file c) ∅) os)) req
    = (Some w, kc', s') →
  w_start w < w_end w → is_int64 (warm_total (w_meta w)) → meta_clean (w_meta w) →
  (fused = true → (length (head_full req (w_meta w) (w_start w) (w_end w)) ≤ headerBufSize)%nat) →
  ∃ lines, decode_response (w_headbytes w ++ w_body w ++ rest)
    = Some (lines, take (Z.to_nat (w_end w - w_start w)) (drop (Z.to_nat (w_start w)) (origin (w_cachekey w))), rest).
Proof.
  intros Hsm Hok Hv Hall Hw Hab Ht Hm Hfit.
  destruct (warm_decodes origin _ _ _ _ _ _ _ _ _ _ _ _ Hsm Hok Hv Hall Hw Hab Ht Hm Hfit) as (_ & _ & _ & Hb & Hd).
  destruct (Hd rest) as [lines Hl]. exists lines. by rewrite Hl, <-Hb.
Qed.

End warm.

(** ** Concrete requests *)

#[local] Existing Instance ascii_unicode.

Definition hub : bytes := bs "huggingface.co".
Definition file_path : bytes := bs "/o/m/resolve/main/f".
Definition file_key : bytes := Eval vm_compute in KeyHex (bs "GET") hub file_path [] [].

Definition file_request (range : bytes) : Request :=
  mkRequest (bs "GET") file_path file_path [] hub [] range [] 0 true true.

(** The object fetched whole in one segment. *)
Definition fetch_history (key : bytes) : list (sop (lru Meta)) :=
  [SBegin no_faults key (mkParams 200 hub file_path [] (bs "e1") (bs "text/plain") 0 11 11 ∅ []);
   SWrite no_faults 0 hello 11 false; SClose no_faults 0].

Lemma fetch_faithful c key : all_ops (faithful (fun _ => hello)) sys0 (fetch_history (c :: key)).
Proof. unfold fetch_history. faithful_ops. Qed.

Definition file_history : list (sop (lru Meta)) := fetch_history file_key.

Definition warm_store : Store (lru Meta) := sys_store (srun sys0 file_history).

Lemma warm_sample_facts :
  match (tryServeWarm first_key true hub ∅ warm_store (file_request (bs "bytes=6-"))).1.1 with
  | Some w =>
      bool_decide (w_start w = 6 ∧ w_end w = 11
        ∧ (int64_min ≤ warm_total (w_meta w) ∧ warm_total (w_meta w) ≤ int64_max) ∧ meta_clean (w_meta w)
        ∧ (length (head_full (file_request (bs "bytes=6-")) (w_meta w) (w_start w) (w_end w)) ≤ headerBufSize)%nat)
  | None => false
  end = true.
Proof. vm_compute. reflexivity. Qed.

Lemma warm_response_is_upstream_witness :
  ∃ w kc' s',
    tryServeWarm first_key true hub ∅ warm_store (file_request (bs "bytes=6-")) = (Some w, kc', s') ∧
    ∃ lines, decode_response (w_headbytes w ++ w_body w ++ bs "x") = Some (lines, bs "world", bs "x").
Proof.
  pose proof warm_sample_facts as Hf.
  destruct (tryServeWarm first_key true hub ∅ warm_store (file_request (bs "bytes=6-")))
    as [[[w|] kc'] s'] eqn:Ew; [|discriminate Hf].
  exists w, kc', s'. split; [reflexivity|]. cbn [fst] in Hf.
  apply bool_decide_eq_true_1 in Hf. destruct Hf as (Ea & Eb & [Ht1 Ht2] & Hm & Hl).
  destruct (warm_response_is_upstream first_key (fun _ => hello) 1000 true false newMetaCache file_history
    true hub ∅ (file_request (bs "bytes=6-")) w kc' s' (bs "x")) as [lines Hd].
  - exact hello_small.
  - exact (proj1 newMetaCache_ok).
  - exact (proj2 newMetaCache_ok).
  - exact (fetch_faithful _ _).
  - exact Ew.
  - rewrite Ea, Eb. reflexivity.
  - split; [exact Ht1|exact Ht2].
  - exact Hm.
  - intros _. exact Hl.
  - exists lines. rewrite Hd, Ea, Eb. reflexivity.
Defined.

(** an inverted range is a hit: [ParseSingleRange] accepts it and [Covers]
    holds of every empty range, so the warm path answers 206 with a negative
    Content-Length and no body. *)
Theorem inverted_range_is_hit :
  match (tryServeWarm first_key false hub ∅ warm_store (file_request (bs "bytes=9-3"))).1.1 with
  | Some w => field_value (bs "Content-Length: ") (lines_of 20 (w_headbytes w)) = Some (bs "-5") ∧ w_body w = []
  | None => False
  end.
Proof. vm_compute. split; reflexivity. Qed.
