(* ===== verification/Server.v ===== *)
(** * The connection loop (src/internal/coreserver/server.go)

    [serveConn] reads requests off one connection: parse, auth gate, warm
    path, fallback, keep-alive.  The gate, the warm path and the fallback act
    on the server's state and are arguments; the loop records what it did as a
    list of events and the bytes it wrote.  Deadlines.v adds the clock. *)

From stdpp Require Import base strings numbers gmap list.
From S2P Require Import Prelude GoStd HttpParser UringParser RespHead.

Local Open Scope Z_scope.
Local Open Scope go_scope.

Section serve.
Context {St : Type}.

(** What the fallback did: bytes written, input left, error, state. *)
Record fb_result := mkFB { fb_out : bytes; fb_rest : bytes; fb_err : bool; fb_state : St }.

Record Server := mkServer {
  AuthGate : option (St → bytes → bytes → (Z * bytes) * St);
  RequireAuth : bool;
  tryWarm : St → Request → option bytes * St;
  Fallback : option (St → Request → bytes → fb_result);
}.

Inductive event :=
| EParseError (e : perr)
| EReject (st : St) (req : Request) (status : Z)
| ENoGate (req : Request)
| EWarm (st : St) (req : Request)
| EFallback (st : St) (req : Request)
| ENoFallback (req : Request).

Definition noGateReason : bytes := bs "data plane requires authentication but no gate is configured".

(** The gate's verdict on a parsed request: state, or the rejection. *)
Definition gate (sv : Server) (st : St) (req : Request) : result (event * bytes) St :=
  match AuthGate sv with
  | Some check =>
      let '((status, reason), st') := check st (rAuth req) (rPath req) in
      if negb (status =? 0) then Err (EReject st req status, writeAuthReject [] status reason false)
      else Ok st'
  | None =>
      if RequireAuth sv then Err (ENoGate req, writeAuthReject [] 503 noGateReason false) else Ok st
  end.

(** One turn of the loop: the events, the output, and the state and input to
    go on with, if the connection stays open. *)
Definition serve_one (sv : Server) (t : counters) (st : St) (input : bytes)
    : list event * bytes * counters * option (St * bytes) :=
  match input with
  | [] => ([], [], t, None)
  | _ =>
      match readRequest input zeroRequest with
      | Err e =>
          let '(t, out) := writeParserErrorResponse t [] e in ([EParseError e], out, t, None)
      | Ok (req, rest) =>
          match gate sv st req with
          | Err (ev, out) => ([ev], out, t, None)
          | Ok st1 =>
              match tryWarm sv st1 req with
              | (Some out, st2) =>
                  ([EWarm st req], out, t, if KeepAlive req then Some (st2, rest) else None)
              | (None, st2) =>
                  match Fallback sv with
                  | None => ([ENoFallback req], writeStatus [] 503 (bs "Service Unavailable"), t, None)
                  | Some fb =>
                      let r := fb st2 req rest in
                      ([EFallback st req], fb_out r, t,
                       if fb_err r then None
                       else if KeepAlive req then Some (fb_state r, fb_rest r) else None)
                  end
              end
          end
      end
  end.

(** Every turn consumes input, unless the fallback puts bytes back; [fuel]
    bounds the number of requests. *)
Fixpoint serveConn (fuel : nat) (sv : Server) (t : counters) (st : St) (input : bytes)
    : list event * bytes * counters :=
  match fuel with
  | O => ([], [], t)
  | S fuel =>
      let '(evs, out, t, next) := serve_one sv t st input in
      match next with
      | None => (evs, out, t)
      | Some (st, input) =>
          let '(evs', out', t) := serveConn fuel sv t st input in (evs ++ evs', out ++ out', t)
      end
  end.

Lemma serveConn_S fuel sv t st input :
  serveConn (S fuel) sv t st input =
  let '(evs, out, t, next) := serve_one sv t st input in
  match next with
  | None => (evs, out, t)
  | Some (st, input) =>
      let '(evs', out', t) := serveConn fuel sv t st input in (evs ++ evs', out ++ out', t)
  end.
Proof. done. Qed.

(** The gate let the request pass in the state it was checked in. *)
Definition admitted (sv : Server) (st : St) (req : Request) : Prop :=
  match AuthGate sv with
  | Some check => (check st (rAuth req) (rPath req)).1.1 = 0
  | None => RequireAuth sv = false
  end.

Lemma gate_admitted sv st req st' : gate sv st req = Ok st' → admitted sv st req.
Proof.
  unfold gate, admitted. destruct (AuthGate sv) as [check|]; [|by destruct (RequireAuth sv)].
  destruct (check st _ _) as [[status reason] st1]. cbn. by destruct (Z.eqb_spec status 0).
Qed.

Definition event_ok (sv : Server) (e : event) : Prop :=
  match e with EWarm st r | EFallback st r => admitted sv st r | _ => True end.

Lemma serve_one_ok sv t st input : Forall (event_ok sv) (serve_one sv t st input).1.1.1.
Proof.
  unfold serve_one. destruct input as [|c input]; [by constructor|].
  destruct (readRequest _ _) as [[req rest]|e].
  2:{ destruct (writeParserErrorResponse _ _ _). cbn. by repeat constructor. }
  destruct (gate sv st req) as [st1|[ev out]] eqn:Eg.
  2:{ cbn. constructor; [|constructor]. unfold gate in Eg.
      destruct (AuthGate sv) as [check|]; [|destruct (RequireAuth sv); by simplify_eq].
      destruct (check st _ _) as [[status reason] st1]. destruct (negb _); by simplify_eq. }
  apply gate_admitted in Eg. destruct (tryWarm sv st1 req) as [[out|] st2]; cbn; [by repeat constructor|].
  destruct (Fallback sv); cbn; by repeat constructor.
Qed.

Lemma serveConn_ok fuel sv t st input : Forall (event_ok sv) (serveConn fuel sv t st input).1.1.
Proof.
  revert t st input. induction fuel as [|fuel IH]; intros t st input; cbn [serveConn]; [constructor|].
  pose proof (serve_one_ok sv t st input) as Hok.
  destruct (serve_one sv t st input) as [[[evs out] t'] [[st' input']|]]; cbn [fst] in *; [|done].
  specialize (IH t' st' input'). destruct (serveConn fuel sv t' st' input') as [[evs' out'] t''].
  by apply Forall_app.
Qed.

(** ** Requests without a body *)

(** The bytes of accepted requests, one after the other. *)
Definition accepted (lines : list bytes) (r : Request) : Prop :=
  parse_lines lines zeroRequest = Ok r ∧ (length (render lines) ≤ headerScratchSize)%nat ∧ KeepAlive r = true.

(** A server that always hits. *)
Definition all_warm (resp : Request → bytes) : Server :=
  mkServer None false (fun st r => (Some (resp r), st)) None.

Lemma serve_accepted lines r rest sv t st :
  accepted lines r →
  serve_one sv t st (render lines ++ rest)
  = match gate sv st r with
    | Err (ev, out) => ([ev], out, t, None)
    | Ok st1 =>
        match tryWarm sv st1 r with
        | (Some out, st2) => ([EWarm st r], out, t, Some (st2, rest))
        | (None, st2) =>
            match Fallback sv with
            | None => ([ENoFallback r], writeStatus [] 503 (bs "Service Unavailable"), t, None)
            | Some fb => let x := fb st2 r rest in
                         ([EFallback st r], fb_out x, t, if fb_err x then None else Some (fb_state x, fb_rest x))
            end
        end
    end.
Proof.
  intros (Hp & Hl & Hk). unfold serve_one.
  assert (readRequest (render lines ++ rest) zeroRequest = Ok (r, rest)) as Hr
    by (apply readRequest_spec; by exists lines).
  apply parse_lines_clean in Hp as [Hne _].
  destruct (render lines ++ rest) as [|c i] eqn:E.
  { unfold render in E. by destruct (concat _). }
  rewrite Hr, Hk. done.
Qed.

(** ** Properties *)

(** C10: nothing is served past the gate: every request a connection serves,
    from the cache or through the fallback, was admitted by the gate in the
    state of that moment; without a gate, only if authentication is not
    required. *)
Theorem serveConn_authenticated fuel sv t st input e :
  e ∈ (serveConn fuel sv t st input).1.1 →
  match e with EWarm st r | EFallback st r => admitted sv st r | _ => True end.
Proof.
  intros He. pose proof (serveConn_ok fuel sv t st input) as Hok. rewrite Forall_forall in Hok. apply (Hok e He).
Qed.

(** pipelined requests without bodies are all served, in order: on a
    connection carrying the header blocks of accepted keep-alive requests one
    after the other, each is answered from the cache, and the output is the
    concatenation of the responses. *)
Theorem pipelined_requests_served resp t st reqs :
  Forall (fun lr => accepted lr.1 lr.2) reqs →
  serveConn (S (length reqs)) (all_warm resp) t st (concat ((render ∘ fst) <$> reqs))
  = ((fun lr => EWarm st lr.2) <$> reqs, concat ((resp ∘ snd) <$> reqs), t).
Proof.
  intros Hr. induction Hr as [|[lines r] reqs Hlr _ IH]; [done|]. cbn [fst snd] in Hlr.
  rewrite !fmap_cons. cbn [concat compose fst snd length]. rewrite serveConn_S.
  rewrite (serve_accepted lines r) by done. cbn [gate all_warm AuthGate RequireAuth tryWarm].
  change (mkServer None false (fun st r => (Some (resp r), st)) None) with (all_warm resp).
  by rewrite IH.
Qed.

End serve.
Arguments Server : clear implicits.
Arguments event : clear implicits.

(** ** Witnesses and a counterexample *)

Definition sample_lines (path : string) : list bytes :=
  [bs ("GET " +:+ path +:+ " HTTP/1.1"); bs "Host: h"; bs "Authorization: Bearer tok"].

(** A gate that knows one token. *)
Definition one_token : Server unit :=
  mkServer (Some (fun st auth _ => ((if beq auth (bs "Bearer tok") then 0 else 401, bs "invalid token"), st))) true
    (fun st r => (Some (rPath r), st)) None.

Lemma serveConn_authenticated_witness :
  ∃ r, EWarm tt r ∈ (serveConn 3 one_token (mkCounters 0 0 0) tt (render (sample_lines "/a"))).1.1
    ∧ admitted one_token tt r.
Proof.
  eexists. split; [vm_compute; left|].
  apply (serveConn_authenticated 3 one_token (mkCounters 0 0 0) tt (render (sample_lines "/a")) (EWarm tt _)).
  vm_compute. left.
Defined.

Lemma pipelined_requests_served_witness :
  ∃ r1 r2, serveConn 3 (all_warm rPath) (mkCounters 0 0 0) tt (render (sample_lines "/a") ++ render (sample_lines "/b"))
    = ([EWarm tt r1; EWarm tt r2], bs "/a/b", mkCounters 0 0 0).
Proof.
  destruct (parse_lines (sample_lines "/a") zeroRequest) as [r1|] eqn:E1; [|vm_compute in E1; discriminate E1].
  destruct (parse_lines (sample_lines "/b") zeroRequest) as [r2|] eqn:E2; [|vm_compute in E2; discriminate E2].
  exists r1, r2. pose proof (pipelined_requests_served rPath (mkCounters 0 0 0) tt
    [(sample_lines "/a", r1); (sample_lines "/b", r2)]) as Hp.
  rewrite <-(app_nil_r (render (sample_lines "/b"))). etransitivity; [apply Hp|].
  - constructor; [|constructor; [|constructor]]; cbn [fst snd];
      (split; [assumption|split; [apply Nat.leb_le; vm_compute; reflexivity|]]).
    + vm_compute in E1. injection E1 as <-. reflexivity.
    + vm_compute in E2. injection E2 as <-. reflexivity.
  - vm_compute in E1, E2. injection E1 as <-. injection E2 as <-. reflexivity.
Defined.

(** the body of a request answered from the cache is not consumed: a GET
    with a Content-Length is one request to a front-end proxy, but its body is
    read as the next request of the connection. *)
Theorem warm_body_becomes_request :
  let inner := render [bs "GET /b HTTP/1.1"; bs "Host: h"] in
  let outer := render [bs "GET /a HTTP/1.1"; bs "Host: h";
                       bs "Content-Length: " ++ FormatInt (Z.of_nat (length inner))] in
  ∃ r1 r2,
    readRequest (outer ++ inner) zeroRequest = Ok (r1, inner) ∧ ContentLen r1 = Z.of_nat (length inner) ∧
    serveConn 3 (all_warm rPath) (mkCounters 0 0 0) tt (outer ++ inner)
      = ([EWarm tt r1; EWarm tt r2], bs "/a/b", mkCounters 0 0 0).
Proof.
  intros inner outer. eexists _, _. split; [vm_compute; reflexivity|].
  split; vm_compute; reflexivity.
Qed.
