(* ===== verification/Fallback.v ===== *)
(** * The bridge to net/http handlers (src/internal/coreserver/bridge.go,
    HandlerFallback)

    The fallback hands the connection's input to [http.ReadRequest] through a
    second buffered reader: the header block again, then the bytes after it.
    What that reader has buffered when the handler returns is gone.  The
    connection's own reader is the list of blocks its reads return; how the
    input falls into blocks is an argument, and so is what [http.ReadRequest]
    makes of a header block. *)

From stdpp Require Import base strings numbers gmap list.
From S2P Require Import Prelude GoStd HttpParser UringParser RespHead Server.

Local Open Scope Z_scope.

(** ** Readers *)

(** One [Read] of at most [n] bytes from the connection's reader; nothing at
    the end of the stream. *)
Definition br_read (n : nat) (br : list bytes) : bytes * list bytes :=
  match br with
  | [] => ([], [])
  | b :: br => if (length b <=? n)%nat then (b, br) else (take n b, drop n b :: br)
  end.

(** [prefixReader.Read] *)
Definition prefix_read (n : nat) (b : bytes) : bytes * bytes := (take n b, drop n b).

(** The multi-reader: the prefix to its end, then the connection. *)
Record mreader := mkMR { mr_prefix : bytes; mr_br : list bytes }.

Definition mr_read (n : nat) (m : mreader) : bytes * mreader :=
  match mr_prefix m with
  | [] => let '(b, br) := br_read n (mr_br m) in (b, mkMR [] br)
  | p => let '(b, p) := prefix_read n p in (b, mkMR p (mr_br m))
  end.

(** bufio's default size. *)
Definition hr_size : nat := 4096.

Record hreader := mkHR { hr_buf : bytes; hr_src : mreader }.

(** [bufio.Reader.Read]: a large read into an empty buffer bypasses it, a
    small one fills it first, an empty one does nothing. *)
Definition hr_read (n : nat) (h : hreader) : bytes * hreader :=
  match hr_buf h with
  | [] =>
      if (n =? 0)%nat then ([], h)
      else if (hr_size <=? n)%nat then let '(b, m) := mr_read n (hr_src h) in (b, mkHR [] m)
      else let '(b, m) := mr_read hr_size (hr_src h) in (take n b, mkHR (drop n b) m)
  | b => (take n b, mkHR (drop n b) (hr_src h))
  end.

(** ** The fallback *)

(** The handler's reads of the body, each with the size of its buffer, while
    [todo] bytes of it are left: the bytes it got. *)
Fixpoint body_reads (plan : list nat) (todo : nat) (h : hreader) : bytes * hreader :=
  match plan with
  | [] => ([], h)
  | n :: plan =>
      if (todo =? 0)%nat then ([], h)
      else
        let '(b, h) := hr_read (Nat.min n todo) h in
        let '(bs, h) := body_reads plan (todo - length b) h in (b ++ bs, h)
  end.

Section fallback.
Context {St : Type}.
(** What [http.ReadRequest] makes of a header block: the length of the body,
    or an error. *)
Context (ReadRequest : bytes → option nat).
(** How the rest of the input arrives. *)
Context (blocks : bytes → list bytes).
(** The handler: how it reads the body, and its response; an error of
    [finalize] is its third part. *)
Context (plan : Request → list nat) (serve : St → Request → bytes → bytes * St * bool).

(** The header block is read line by line; it is all of the prefix. *)
Definition HandlerFallback (st : St) (req : Request) (rest : bytes) : @fb_result St :=
  match ReadRequest (Raw req) with
  | None => mkFB (writeStatus [] 400 (bs "Bad Request")) rest true st
  | Some len =>
      let h := mkHR [] (mkMR [] (blocks rest)) in
      let '(body, h) := body_reads (plan req) len h in
      let '(out, st, err) := serve st req body in
      mkFB out (concat (mr_br (hr_src h))) err st
  end.
End fallback.

(** ** What the readers hold *)

Definition mr_pending (m : mreader) : bytes := mr_prefix m ++ concat (mr_br m).
Definition hr_pending (h : hreader) : bytes := hr_buf h ++ mr_pending (hr_src h).

(** The blocks of the connection are not empty and the buffer is bounded. *)
Definition hr_ok (h : hreader) : Prop := Forall (.≠ []) (mr_br (hr_src h)) ∧ (length (hr_buf h) ≤ hr_size)%nat.

Lemma br_read_spec n br : Forall (.≠ []) br →
  concat br = (br_read n br).1 ++ concat (br_read n br).2 ∧ (length (br_read n br).1 ≤ n)%nat ∧
  Forall (.≠ []) (br_read n br).2 ∧ ((0 < n)%nat → concat br ≠ [] → (br_read n br).1 ≠ []).
Proof.
  intros Hne. destruct br as [|b br]; cbn [br_read]; [split_and!; try done; cbn; lia|].
  apply Forall_cons in Hne as [Hb Hne]. destruct (Nat.leb_spec (length b) n); cbn [fst snd concat]; split_and!; try done.
  - by rewrite app_assoc, take_drop.
  - rewrite length_take. lia.
  - constructor; [|done]. intros E%(f_equal length). rewrite length_drop in E. cbn in E. lia.
  - intros Hn _ E%(f_equal length). rewrite length_take in E. cbn in E. lia.
Qed.

Lemma mr_read_spec n m : Forall (.≠ []) (mr_br m) →
  mr_pending m = (mr_read n m).1 ++ mr_pending (mr_read n m).2 ∧ (length (mr_read n m).1 ≤ n)%nat ∧
  Forall (.≠ []) (mr_br (mr_read n m).2) ∧ ((0 < n)%nat → mr_pending m ≠ [] → (mr_read n m).1 ≠ []).
Proof.
  intros Hne. destruct m as [[|c p] br]; unfold mr_read, mr_pending; cbn [mr_prefix mr_br] in *.
  - destruct (br_read_spec n br Hne) as (H1 & H2 & H3 & H4). destruct (br_read n br). done.
  - unfold prefix_read. cbn [fst snd mr_prefix mr_br]. split_and!; [by rewrite app_assoc, take_drop|rewrite length_take; lia|done|].
    intros Hn _. by destruct n; [lia|].
Qed.

Lemma hr_read_spec n h : hr_ok h →
  hr_pending h = (hr_read n h).1 ++ hr_pending (hr_read n h).2 ∧ (length (hr_read n h).1 ≤ n)%nat ∧
  hr_ok (hr_read n h).2 ∧ ((0 < n)%nat → hr_pending h ≠ [] → (hr_read n h).1 ≠ []).
Proof.
  intros [Hne Hb]. destruct h as [[|c b] m]; unfold hr_read, hr_pending, hr_ok in *; cbn [hr_buf hr_src app] in *.
  - destruct (Nat.eqb_spec n 0) as [->|]; [split_and!; cbn; [done|lia|done|lia..]|].
    destruct (Nat.leb_spec hr_size n).
    + destruct (mr_read_spec n m Hne) as (H1 & H2 & H3 & H4). destruct (mr_read n m) as [d m']. cbn in *.
      split_and!; done.
    + destruct (mr_read_spec hr_size m Hne) as (H1 & H2 & H3 & H4). destruct (mr_read hr_size m) as [d m']. cbn [fst snd hr_buf hr_src] in *.
      split_and!; [by rewrite app_assoc, take_drop|rewrite length_take; lia|done|rewrite length_drop; lia|].
      intros Hn Hp E. apply H4 in Hp; [|unfold hr_size; lia]. by destruct d, n; try lia.
  - split_and!; cbn [fst snd hr_buf hr_src]; [by rewrite app_assoc, take_drop|rewrite length_take; lia|done|rewrite length_drop; lia|].
    intros Hn _. by destruct n; [lia|].
Qed.

Lemma body_reads_spec plan todo h : hr_ok h →
  hr_pending h = (body_reads plan todo h).1 ++ hr_pending (body_reads plan todo h).2 ∧
  (length (body_reads plan todo h).1 ≤ todo)%nat ∧ hr_ok (body_reads plan todo h).2.
Proof.
  revert todo h. induction plan as [|n plan IH]; intros todo h Hok; cbn [body_reads]; [split_and!; cbn; [done|lia|done..]|].
  destruct (Nat.eqb_spec todo 0); [split_and!; cbn; [done|lia|done..]|].
  destruct (hr_read_spec (Nat.min n todo) h Hok) as (H1 & H2 & H3 & _).
  destruct (hr_read (Nat.min n todo) h) as [b h1]. cbn [fst snd] in *.
  destruct (IH (todo - length b)%nat h1 H3) as (K1 & K2 & K3).
  destruct (body_reads plan (todo - length b) h1) as [bs h2]. cbn [fst snd] in *.
  split_and!; [by rewrite H1, K1, app_assoc|rewrite length_app; lia|done..].
Qed.

Lemma body_reads_prefix plan todo h : mr_prefix (hr_src h) = [] → mr_prefix (hr_src (body_reads plan todo h).2) = [].
Proof.
  revert todo h. induction plan as [|n plan IH]; intros todo h Hp; cbn [body_reads]; [done|].
  destruct (Nat.eqb_spec todo 0); [done|].
  assert (mr_prefix (hr_src (hr_read (Nat.min n todo) h).2) = []) as Hr.
  { unfold hr_read, mr_read. rewrite Hp. destruct (hr_buf h); [|done].
    destruct (_ =? _)%nat; [done|]. destruct (_ <=? _)%nat; by destruct (br_read _ _). }
  destruct (hr_read (Nat.min n todo) h) as [b h1]. specialize (IH (todo - length b)%nat h1 Hr).
  by destruct (body_reads plan (todo - length b) h1).
Qed.

(** Reads that go on get the whole body. *)
Lemma body_reads_all plan todo h : hr_ok h → Forall (λ n, (0 < n)%nat) plan → (todo ≤ length plan)%nat →
  (todo ≤ length (hr_pending h))%nat → length (body_reads plan todo h).1 = todo.
Proof.
  revert todo h. induction plan as [|n plan IH]; intros todo h Hok Hpl Hl Hp; cbn [body_reads length] in *; [cbn; lia|].
  apply Forall_cons in Hpl as [Hn Hpl]. destruct (Nat.eqb_spec todo 0) as [->|Ht]; [done|].
  destruct (hr_read_spec (Nat.min n todo) h Hok) as (H1 & H2 & H3 & H4).
  assert (hr_pending h ≠ []) as Hne by (intros E; rewrite E in Hp; cbn in Hp; lia).
  specialize (H4 ltac:(lia) Hne). apply (f_equal length) in H1. rewrite length_app in H1.
  destruct (hr_read (Nat.min n todo) h) as [b h1]. cbn [fst snd] in *.
  assert (0 < length b)%nat by (destruct b; [done|cbn; lia]).
  specialize (IH (todo - length b)%nat h1 H3 Hpl ltac:(lia) ltac:(lia)).
  destruct (body_reads plan (todo - length b) h1). cbn [fst] in *. rewrite length_app. lia.
Qed.

(** The bridge never puts bytes back. *)
Lemma fallback_suffix {St} ReadRequest blocks plan (serve : St → Request → bytes → bytes * St * bool) st req rest :
  concat (blocks rest) = rest → Forall (.≠ []) (blocks rest) →
  fb_rest (HandlerFallback ReadRequest blocks plan serve st req rest) `suffix_of` rest.
Proof.
  intros Hc Hne. unfold HandlerFallback. destruct (ReadRequest (Raw req)) as [len|]; [|done].
  set (h := mkHR [] (mkMR [] (blocks rest))).
  destruct (body_reads_spec (plan req) len h) as (H1 & _ & _); [split; [done|cbn; lia]|].
  destruct (body_reads (plan req) len h) as [body h']. destruct (serve st req body) as [[out st'] err]. cbn [fb_rest fst snd] in *.
  change (hr_pending h) with (concat (blocks rest)) in H1. rewrite Hc in H1. rewrite H1.
  unfold hr_pending, mr_pending. do 3 apply suffix_app_r. done.
Qed.

(** ** Properties *)

Section properties.
Context {St : Type} (ReadRequest : bytes → option nat) (blocks : bytes → list bytes).
Context (plan : Request → list nat) (serve : St → Request → bytes → bytes * St * bool).

(** C16: the bridge hands a request over without mixing it with others, as far
    as its buffer goes: the handler gets a prefix of the input no longer than
    the body, at most one buffer of what follows is lost, and the rest stays
    on the connection.  If the handler reads the body to its end it gets
    exactly the body; if nothing follows the body, nothing is lost; and if the
    handler does not read, nothing is taken off the connection. *)
Theorem fallback_accounts st req rest len :
  concat (blocks rest) = rest → Forall (.≠ []) (blocks rest) → ReadRequest (Raw req) = Some len →
  let r := HandlerFallback ReadRequest blocks plan serve st req rest in
  ∃ body lost,
    rest = body ++ lost ++ fb_rest r ∧ (length body ≤ len)%nat ∧ (length lost ≤ hr_size)%nat ∧
    (fb_out r, fb_state r, fb_err r) = serve st req body ∧
    (Forall (λ n, (0 < n)%nat) (plan req) → (len ≤ length (plan req))%nat → (len ≤ length rest)%nat → body = take len rest) ∧
    (length rest ≤ length body → lost = [] ∧ fb_rest r = [])%nat ∧
    (plan req = [] ∨ len = 0%nat → body = [] ∧ lost = []).
Proof.
  intros Hc Hne Hr. unfold HandlerFallback. rewrite Hr. set (h := mkHR [] (mkMR [] (blocks rest))).
  assert (hr_ok h) as Hok by (split; [done|cbn; lia]).
  assert (hr_pending h = rest) as Hp by exact Hc.
  destruct (body_reads_spec (plan req) len h Hok) as (H1 & H2 & [H3 H4]).
  pose proof (body_reads_all (plan req) len h Hok) as Hall. rewrite Hp in H1, Hall.
  assert (plan req = [] ∨ len = 0%nat → body_reads (plan req) len h = ([], h)) as Hnone.
  { intros [-> | ->]; [done|]. by destruct (plan req). }
  destruct (body_reads (plan req) len h) as [body h'] eqn:E. cbn [fst snd] in *.
  destruct (serve st req body) as [[out st'] err] eqn:Es. cbn [fb_rest fb_out fb_state fb_err].
  assert (mr_prefix (hr_src h') = []) as Hpre.
  { pose proof (body_reads_prefix (plan req) len h eq_refl) as Hx. by rewrite E in Hx. }
  exists body, (hr_buf h'). unfold hr_pending, mr_pending in H1. rewrite Hpre in H1. cbn [app] in H1.
  split_and!; [done|done|done|done| | |].
  - intros Hpos Hlen Hl. specialize (Hall Hpos Hlen Hl). by rewrite H1, take_app_length' by done.
  - intros Hle. apply (f_equal length) in H1. rewrite !length_app in H1.
    split; apply length_zero_iff_nil; lia.
  - intros Hn. specialize (Hnone Hn). injection Hnone as -> ->. done.
Qed.
End properties.

(** ** Concrete connections *)

Definition post_lines : list bytes := [bs "POST /api/x HTTP/1.1"; bs "Host: h"; bs "Content-Length: 4"].
Definition next_request : bytes := render [bs "GET /b HTTP/1.1"; bs "Host: h"].

(** A server whose handler answers with the body it read; [sizes] are its
    reads. *)
Definition echo_server (sizes : list nat) : Server unit :=
  mkServer None false (λ st r, (None, st))
    (Some (HandlerFallback (λ _, Some 4%nat) (λ rest, if beq rest [] then [] else [rest]) (λ _, sizes) (λ st _ body, (body, st, false)))).

Lemma fallback_accounts_witness :
  ∃ body lost,
    bs "data" ++ next_request =
      body ++ lost ++ fb_rest (HandlerFallback (λ _, Some 4%nat) (λ rest, [rest]) (λ _, [512; 512; 512; 512]%nat)
                                 (λ (st : unit) _ body, (body, st, false)) tt zeroRequest (bs "data" ++ next_request)) ∧
    body = bs "data".
Proof.
  destruct (fallback_accounts (λ _, Some 4%nat) (λ rest, [rest]) (λ _, [512; 512; 512; 512]%nat)
    (λ (st : unit) _ body, (body, st, false)) tt zeroRequest (bs "data" ++ next_request) 4)
    as (body & lost & H1 & _ & _ & _ & H5 & _); [reflexivity|constructor; [done|constructor]|done|].
  exists body, lost. split; [exact H1|]. rewrite H5; [reflexivity|repeat constructor|cbn; lia|apply Nat.leb_le; reflexivity].
Defined.

(** A request sent behind a body is lost with the buffer that read it. *)
Lemma pipelined_request_lost :
  (serveConn 5 (echo_server [512; 512]%nat) (mkCounters 0 0 0) tt (render post_lines ++ bs "data" ++ next_request)).1.2 = bs "data" ∧
  length (serveConn 5 (echo_server [512; 512]%nat) (mkCounters 0 0 0) tt (render post_lines ++ bs "data" ++ next_request)).1.1 = 1%nat.
Proof. split; vm_compute; reflexivity. Qed.

(** A body the handler leaves unread is taken for the next request. *)
Lemma unread_body_becomes_request :
  let body := next_request in
  match (serveConn 2 (echo_server []) (mkCounters 0 0 0) tt (render post_lines ++ body)).1.1 with
  | [EFallback _ r1; EFallback _ r2] => rPath r1 = bs "/api/x" ∧ rPath r2 = bs "/b"
  | _ => False
  end.
Proof. vm_compute. split; reflexivity. Qed.
