(* ===== verification/Deadlines.v ===== *)
(** * Deadlines of a connection (src/internal/coreserver/server.go,
    iouring_reactor_linux.go)

    [serveConn] again, with the clock: the read deadline is armed before the
    first byte, re-armed for the header and once more for the body.  A client
    is the script of what it sends and when; a wait ends with the bytes, with
    the end of the stream or with the deadline.  Times are nanoseconds.  The
    steps between the waits are those of [Server.serve_one]; the time a
    response takes is an argument. *)

From stdpp Require Import base strings numbers gmap list.
From S2P Require Import Prelude GoStd HttpParser UringParser RespHead Server.

Local Open Scope Z_scope.

Definition second : Z := 1000000000.

(** ** Effective timeouts *)

(** The fields of [Server], and of its [Cfg] when there is one. *)
Record timeouts := mkTimeouts {
  ReadTimeout : Z;
  WriteTimeout : Z;
  IdleTimeout : Z;
  ReadHeaderTimeout : Z;
  Cfg : option (Z * Z);          (* Cfg.ReadTimeout, Cfg.WriteTimeout *)
}.

Definition defaultIdleTimeout : Z := 60 * second.
Definition defaultReadHeaderTimeout : Z := 5 * second.
Definition detachedConnDefaultDeadline : Z := 120 * second.

Definition effectiveIdleTimeout (o : timeouts) : Z :=
  if IdleTimeout o >? 0 then IdleTimeout o else defaultIdleTimeout.

Definition effectiveReadHeaderTimeout (o : timeouts) : Z :=
  if ReadHeaderTimeout o >? 0 then ReadHeaderTimeout o else defaultReadHeaderTimeout.

(** [readDl] and [writeDl] of [serveConn]; zero or less arms no deadline. *)
Definition serveConn_readDl (o : timeouts) : Z :=
  if ReadTimeout o =? 0 then match Cfg o with Some c => c.1 | None => ReadTimeout o end else ReadTimeout o.

Definition serveConn_writeDl (o : timeouts) : Z :=
  if WriteTimeout o =? 0 then match Cfg o with Some c => c.2 | None => WriteTimeout o end else WriteTimeout o.

(** The reactor's variants have a default of their own. *)
Definition effectiveWriteTimeout (o : timeouts) : Z :=
  let writeDl := serveConn_writeDl o in
  if writeDl =? 0 then detachedConnDefaultDeadline else writeDl.

(** The read and the write deadline of a connection detached at [now]. *)
Definition applyDetachedDeadlines (o : timeouts) (now : Z) : Z * Z :=
  let readDl := serveConn_readDl o in
  let readDl := if readDl =? 0 then detachedConnDefaultDeadline else readDl in
  (now + readDl, now + effectiveWriteTimeout o).

(** ** A client *)

(** Segments with their arrival times, and when the stream ends; without an
    end the client stays silent. *)
Record client := mkClient { cl_buf : bytes; cl_script : list (Z * bytes); cl_fin : option Z }.

Definition future (s : list (Z * bytes)) : bytes := concat (s.*2).

(** Read until [ready] holds of the buffer, under the deadline [dl]: whether it
    did, the time, and what is left. *)
Fixpoint wait_for (ready : bytes → bool) (s : list (Z * bytes)) (fin : option Z) (b : bytes) (now dl : Z)
    : bool * Z * client :=
  if ready b then (true, now, mkClient b s fin)
  else
    match s with
    | (a, d) :: s' =>
        let t := Z.max now a in
        if t <? dl then wait_for ready s' fin (b ++ d) t dl else (false, dl, mkClient b s fin)
    | [] =>
        match fin with
        | Some e => (false, Z.min dl (Z.max now e), mkClient b [] fin)
        | None => (false, dl, mkClient b [] fin)
        end
    end.

(** [br.Peek(1)] *)
Definition has_byte (b : bytes) : bool := match b with [] => false | _ => true end.

(** [readRequest] needs nothing further. *)
Definition decided (b : bytes) : bool :=
  match readRequest b zeroRequest with Err ErrRead => false | _ => true end.

(** Take [n] bytes off the stream: the time the last of them arrived. *)
Fixpoint consume (n : nat) (b : bytes) (s : list (Z * bytes)) (now : Z) : Z * bytes * list (Z * bytes) :=
  if (n <=? length b)%nat then (now, drop n b, s)
  else
    match s with
    | (a, d) :: s' => consume (n - length b) d s' (Z.max now a)
    | [] => (now, [], [])
    end.

Section timed.
Context {St : Type} (sv : Server St) (o : timeouts).

(** One turn of the loop at [now]: events, output and counters, and either the
    time the connection closes or the state of the next turn.  [dur] is the
    time the response takes once the request's bytes are there. *)
Definition timed_turn (t : counters) (st : St) (c : client) (now dur : Z)
    : list (event St) * bytes * counters * (Z + St * client * Z) :=
  let '(ok, now, c) := wait_for has_byte (cl_script c) (cl_fin c) (cl_buf c) now (now + effectiveIdleTimeout o) in
  if negb ok then ([], [], t, inl now)
  else
    let rd := now + effectiveReadHeaderTimeout o in
    let '(_, now, c) := wait_for decided (cl_script c) (cl_fin c) (cl_buf c) now rd in
    match readRequest (cl_buf c) zeroRequest with
    | Err _ =>
        let '(evs, out, t, _) := serve_one sv t st (cl_buf c) in (evs, out, t, inl now)
    | Ok _ =>
        let rd := if serveConn_readDl o >? 0 then now + serveConn_readDl o else rd in
        let input := cl_buf c ++ future (cl_script c) in
        let '(evs, out, t, next) := serve_one sv t st input in
        match next with
        | None => (evs, out, t, inl (now + dur))
        | Some (st, input') =>
            let '(got, b, s) := consume (length input - length input') (cl_buf c) (cl_script c) now in
            (* a read past the deadline fails, and with it the fallback *)
            if (now <? got) && (rd <=? got) then (evs, out, t, inl (rd + dur))
            else (evs, out, t, inr (st, mkClient b s (cl_fin c), got + dur))
        end
    end.

(** A connection; [durs] are the times its responses take. *)
Fixpoint timed_conn (t : counters) (st : St) (c : client) (now : Z) (durs : list Z)
    : option (list (event St) * bytes * counters * Z) :=
  match durs with
  | [] => None
  | dur :: durs =>
      let '(evs, out, t, next) := timed_turn t st c now dur in
      match next with
      | inl closed => Some (evs, out, t, closed)
      | inr (st, c, now) =>
          match timed_conn t st c now durs with
          | Some (evs', out', t, closed) => Some (evs ++ evs', out ++ out', t, closed)
          | None => None
          end
      end
  end.

(** ** Waits are bounded *)

Lemma wait_for_bounds ready s fin b now dl :
  now ≤ dl → let '(ok, t, _) := wait_for ready s fin b now dl in now ≤ t ≤ dl.
Proof.
  revert b now. induction s as [|[a d] s IH]; intros b now Hdl; cbn [wait_for]; destruct (ready b); try lia.
  - destruct fin; lia.
  - cbv zeta. destruct (Z.ltb_spec (Z.max now a) dl); [|lia].
    specialize (IH (b ++ d) (Z.max now a) ltac:(lia)). destruct (wait_for _ _ _ _ _ _) as [[ok t] c']. lia.
Qed.

Lemma wait_for_ready ready s fin b now dl :
  let '(ok, _, c) := wait_for ready s fin b now dl in ok = true → ready (cl_buf c) = true.
Proof.
  revert b now. induction s as [|[a d] s IH]; intros b now; cbn [wait_for]; destruct (ready b) eqn:E; try done.
  - by destruct fin.
  - cbv zeta. destruct (_ <? _); [|done]. specialize (IH (b ++ d) (Z.max now a)).
    by destruct (wait_for _ _ _ _ _ _) as [[ok t] c'].
Qed.

Lemma timeouts_positive : 0 < effectiveIdleTimeout o ∧ 0 < effectiveReadHeaderTimeout o.
Proof.
  unfold effectiveIdleTimeout, effectiveReadHeaderTimeout, defaultIdleTimeout, defaultReadHeaderTimeout, second.
  destruct (Z.gtb_spec (IdleTimeout o) 0), (Z.gtb_spec (ReadHeaderTimeout o) 0); lia.
Qed.

Lemma consume_time n b s now : now ≤ (consume n b s now).1.1.
Proof.
  revert n b now. induction s as [|[a d] s IH]; intros n b now; cbn [consume]; destruct (_ <=? _)%nat; cbn [fst]; try lia.
  specialize (IH (n - length b)%nat d (Z.max now a)). lia.
Qed.

(** ** What the parser needs *)

Lemma ReadSlice_app x input line rest :
  ReadSlice input = Ok (line, rest) → ReadSlice (input ++ x) = Ok (line, rest ++ x).
Proof.
  unfold ReadSlice. destruct (IndexByte input lf) as [i|] eqn:E; [|by destruct (_ <=? _)%nat].
  rewrite (IndexByte_app_l _ _ _ _ E). destruct (i <? bufReadSize)%nat; [|done]. intros [= <- <-].
  apply IndexByte_lt in E. by rewrite take_app_le, drop_app_le by lia.
Qed.

Lemma ReadSlice_app_err x input e :
  ReadSlice input = Err e → e ≠ ErrRead → ReadSlice (input ++ x) = Err e.
Proof.
  unfold ReadSlice. destruct (IndexByte input lf) as [i|] eqn:E.
  - rewrite (IndexByte_app_l _ _ _ _ E). by destruct (i <? bufReadSize)%nat.
  - destruct (Nat.leb_spec bufReadSize (length input)); intros [= <-] He; [|done].
    destruct (IndexByte (input ++ x) lf) as [i|] eqn:Ei.
    + pose proof (IndexByte_app_r _ _ _ _ E Ei). destruct (Nat.ltb_spec i bufReadSize); [lia|done].
    + rewrite length_app. by destruct (Nat.leb_spec bufReadSize (length input + length x)); [|lia].
Qed.

Lemma read_block_app x f f' scratch input :
  (f ≤ f')%nat →
  match read_block f scratch input with
  | Ok (hdr, rest) => read_block f' scratch (input ++ x) = Ok (hdr, rest ++ x)
  | Err e => e ≠ ErrRead → read_block f' scratch (input ++ x) = Err e
  end.
Proof.
  revert f' scratch input. induction f as [|f IH]; intros f' scratch input Hf; cbn [read_block]; [done|].
  destruct f' as [|f']; [lia|]. cbn [read_block].
  destruct (ReadSlice input) as [[line rest]|e] eqn:E.
  - rewrite (ReadSlice_app x _ _ _ E). destruct (_ <? _)%nat; [done|]. cbv zeta.
    destruct (beq line crlf); [done|]. destruct (beq line [lf]); [done|]. apply IH. lia.
  - intros He. by rewrite (ReadSlice_app_err x _ _ E He).
Qed.

(** Bytes after those the parser needs do not change its verdict. *)
Lemma readRequest_app x b :
  match readRequest b zeroRequest with
  | Ok (r, rest) => readRequest (b ++ x) zeroRequest = Ok (r, rest ++ x)
  | Err e => e ≠ ErrRead → readRequest (b ++ x) zeroRequest = Err e
  end.
Proof.
  unfold readRequest. pose proof (read_block_app x (S (length b)) (S (length (b ++ x))) [] b) as H.
  rewrite length_app in *. specialize (H ltac:(lia)).
  destruct (read_block (S (length b)) [] b) as [[hdr rest]|e]; [|intros He; by rewrite (H He)].
  rewrite H. by destruct (parse_block hdr zeroRequest).
Qed.

(** ** Turns *)

Definition parse_error (e : event St) : Prop := match e with EParseError _ => True | _ => False end.

Lemma serve_one_accepted t st input r rest :
  readRequest input zeroRequest = Ok (r, rest) →
  let '(evs, _, _, next) := serve_one sv t st input in
  (∃ e, evs = [e] ∧ ¬ parse_error e).
Proof.
  intros Hr. unfold serve_one. destruct input as [|c input]; [done|]. rewrite Hr.
  destruct (gate sv st r) as [st1|[ev out]] eqn:Eg.
  - destruct (tryWarm sv st1 r) as [[out|] st2]; [|destruct (Fallback sv)]; (eexists; split; [done|by intros []]).
  - exists ev. split; [done|]. unfold gate in Eg. destruct (AuthGate sv) as [check|].
    + destruct (check st _ _) as [[status reason] st1]. destruct (negb _); simplify_eq. by intros [].
    + destruct (RequireAuth sv); simplify_eq. by intros [].
Qed.

Lemma serve_one_refused t st b e :
  readRequest b zeroRequest = Err e → let '(evs, _, _, next) := serve_one sv t st b in Forall parse_error evs ∧ next = None.
Proof.
  intros Hr. unfold serve_one. destruct b as [|c b]; [by split|]. rewrite Hr.
  destruct (writeParserErrorResponse t [] e). split; [|done]. by repeat constructor.
Qed.

(** A turn that reaches no request closes within both waits; any other ends
    within the body's and the response's time. *)
Lemma timed_turn_time t st c now dur :
  0 ≤ dur → 0 < serveConn_readDl o →
  let '(evs, _, _, next) := timed_turn t st c now dur in
  let waits := effectiveIdleTimeout o + effectiveReadHeaderTimeout o in
  match next with
  | inl closed => closed ≤ now + waits + serveConn_readDl o + dur ∧ (length evs ≤ 1)%nat
      ∧ (Forall parse_error evs → closed ≤ now + waits)
  | inr (_, _, now') => now' ≤ now + waits + serveConn_readDl o + dur ∧ length evs = 1%nat ∧ ¬ Forall parse_error evs
  end.
Proof.
  intros Hd Hr. unfold timed_turn. destruct timeouts_positive as [Hi Hh].
  pose proof (wait_for_bounds has_byte (cl_script c) (cl_fin c) (cl_buf c) now (now + effectiveIdleTimeout o) ltac:(lia)) as H1.
  destruct (wait_for has_byte _ _ _ _ _) as [[ok n1] c1]. destruct ok; cbn [negb]; [|cbn; split_and!; lia].
  pose proof (wait_for_bounds decided (cl_script c1) (cl_fin c1) (cl_buf c1) n1 (n1 + effectiveReadHeaderTimeout o) ltac:(lia)) as H2.
  destruct (wait_for decided _ _ _ _ _) as [[ok2 n2] c2].
  destruct (readRequest (cl_buf c2) zeroRequest) as [[r rest]|e] eqn:Er.
  - destruct (Z.gtb_spec (serveConn_readDl o) 0) as [_|]; [|lia].
    set (input := cl_buf c2 ++ future (cl_script c2)).
    pose proof (readRequest_app (future (cl_script c2)) (cl_buf c2)) as Happ. rewrite Er in Happ.
    pose proof (serve_one_accepted t st input r _ Happ) as He.
    destruct (serve_one sv t st input) as [[[evs out] t'] [[st' input']|]]; destruct He as (e & -> & He).
    + pose proof (consume_time (length input - length input') (cl_buf c2) (cl_script c2) n2) as Hct.
      destruct (consume _ _ _ _) as [[got b'] s']. cbn [fst] in Hct.
      destruct (Z.ltb_spec n2 got), (Z.leb_spec (n2 + serveConn_readDl o) got); cbn [andb];
        (split_and!; [lia|done|]); intros Hf; rewrite Forall_singleton in Hf; by destruct (He Hf).
    + split_and!; [lia|done|]. intros Hf. rewrite Forall_singleton in Hf. by destruct (He Hf).
  - pose proof (serve_one_refused t st _ e Er) as Hs.
    destruct (serve_one sv t st (cl_buf c2)) as [[[evs out] t'] next] eqn:Es. cbn. split_and!; [lia| |lia].
    unfold serve_one in Es. destruct (cl_buf c2); [by simplify_eq/=; lia|]. rewrite Er in Es.
    destruct (writeParserErrorResponse t [] e). simplify_eq/=. lia.
Qed.

(** ** Connections *)

Lemma timed_conn_time t st c now durs evs out t' closed :
  Forall (Z.le 0) durs → 0 < serveConn_readDl o → timed_conn t st c now durs = Some (evs, out, t', closed) →
  let waits := effectiveIdleTimeout o + effectiveReadHeaderTimeout o in
  closed ≤ now + Z.of_nat (S (length evs)) * (waits + serveConn_readDl o) + foldr Z.add 0 durs
  ∧ (Forall parse_error evs → closed ≤ now + waits).
Proof.
  intros Hd Hr. cbv zeta. destruct timeouts_positive as [Hi Hh]. revert t st c now evs out t' closed.
  induction Hd as [|dur durs Hdur Hd IH]; intros t st c now evs out t' closed; cbn [timed_conn foldr]; [done|].
  assert (0 ≤ foldr Z.add 0 durs) as Hsum by (clear IH; induction Hd; cbn; lia).
  pose proof (timed_turn_time t st c now dur Hdur Hr) as Ht.
  destruct (timed_turn t st c now dur) as [[[evs1 out1] t1] [closed1|[[st1 c1] now1]]].
  - intros [= <- <- <- <-]. destruct Ht as (H1 & H2 & H3). split; [nia|exact H3].
  - destruct (timed_conn t1 st1 c1 now1 durs) as [[[[evs2 out2] t2] closed2]|] eqn:E; [|done].
    intros [= <- <- <- <-]. destruct Ht as (H1 & H2 & H3).
    destruct (IH _ _ _ _ _ _ _ _ E) as [H4 _]. split.
    + rewrite length_app, H2. nia.
    + intros Hf. apply Forall_app in Hf as [Hf _]. by destruct H3.
Qed.

(** The fallback reads the connection, it does not put bytes back. *)
Definition fallback_reads : Prop :=
  ∀ fb st req rest, Fallback sv = Some fb → fb_rest (fb st req rest) `suffix_of` rest.

Lemma consume_rest n b s now :
  (n ≤ length (b ++ future s))%nat →
  let '(_, b', s') := consume n b s now in b' ++ future s' = drop n (b ++ future s).
Proof.
  revert n b now. induction s as [|[a d] s IH]; intros n b now Hn; cbn [consume]; destruct (Nat.leb_spec n (length b)) as [Hle|Hlt].
  1, 3: by rewrite drop_app_le.
  - rewrite length_app in Hn. cbn in Hn. lia.
  - unfold future in *. cbn [fmap list_fmap concat snd] in *. rewrite length_app in Hn.
    specialize (IH (n - length b)%nat d (Z.max now a)). destruct (consume _ _ _ _) as [[got b'] s'].
    rewrite IH by lia. by rewrite (drop_app_ge b) by lia.
Qed.

Lemma serve_one_next t st input evs out t' st' input' :
  fallback_reads → serve_one sv t st input = (evs, out, t', Some (st', input')) →
  input' `suffix_of` input ∧ (length input' < length input)%nat.
Proof.
  intros Hfb. unfold serve_one. destruct input as [|c input]; [done|].
  destruct (readRequest (c :: input) zeroRequest) as [[r rest]|e] eqn:Er; [|by destruct (writeParserErrorResponse t [] e)].
  assert (rest `suffix_of` c :: input ∧ (length rest < length (c :: input))%nat) as [Hs Hl].
  { apply readRequest_spec in Er as (lines & E & _ & _). rewrite E. split; [by exists (render lines)|].
    rewrite length_app. unfold render. rewrite length_app. cbn. lia. }
  assert (∀ i, i `suffix_of` rest → i `suffix_of` c :: input ∧ (length i < length (c :: input))%nat) as Hi.
  { intros i Hi. split; [by etransitivity|]. apply suffix_length in Hi. lia. }
  destruct (gate sv st r) as [st1|[ev o1]]; [|done]. destruct (tryWarm sv st1 r) as [[o1|] st2].
  - destruct (KeepAlive r); [|done]. intros [= <- <- <- <- <-]. by apply Hi.
  - destruct (Fallback sv) as [fb|] eqn:Efb; [|done]. destruct (fb_err _); [done|]. destruct (KeepAlive r); [|done].
    intros [= <- <- <- <- <-]. by eapply Hi, Hfb.
Qed.

(** What a turn leaves is shorter than what it found. *)
Definition pending (c : client) : bytes := cl_buf c ++ future (cl_script c).

Lemma wait_for_pending ready s fin b now dl :
  let '(_, _, c) := wait_for ready s fin b now dl in pending c = b ++ future s ∧ cl_fin c = fin.
Proof.
  revert b now. induction s as [|[a d] s IH]; intros b now; cbn [wait_for]; destruct (ready b); try done.
  - by destruct fin.
  - cbv zeta. destruct (_ <? _); [|done]. specialize (IH (b ++ d) (Z.max now a)).
    destruct (wait_for _ _ _ _ _ _) as [[ok t] c']. destruct IH as [-> ->]. split; [|done].
    unfold future. cbn. by rewrite app_assoc.
Qed.

Lemma timed_turn_pending t st c now dur evs out t' st' c' now' :
  fallback_reads → timed_turn t st c now dur = (evs, out, t', inr (st', c', now')) →
  (length (pending c') < length (pending c))%nat.
Proof.
  intros Hfb. unfold timed_turn.
  pose proof (wait_for_pending has_byte (cl_script c) (cl_fin c) (cl_buf c) now (now + effectiveIdleTimeout o)) as H1.
  destruct (wait_for has_byte _ _ _ _ _) as [[ok n1] c1]. destruct H1 as [H1 _]. destruct ok; [|done]. cbn [negb].
  pose proof (wait_for_pending decided (cl_script c1) (cl_fin c1) (cl_buf c1) n1 (n1 + effectiveReadHeaderTimeout o)) as H2.
  destruct (wait_for decided _ _ _ _ _) as [[ok2 n2] c2]. destruct H2 as [H2 _].
  destruct (readRequest (cl_buf c2) zeroRequest) as [[r rest]|e]; [|by destruct (serve_one sv t st (cl_buf c2)) as [[[? ?] ?] ?]].
  change (cl_buf c2 ++ future (cl_script c2)) with (pending c2).
  destruct (serve_one sv t st (pending c2)) as [[[evs1 out1] t1] [[st1 input1]|]] eqn:Es; [|done].
  destruct (serve_one_next _ _ _ _ _ _ _ _ Hfb Es) as [_ Hl].
  pose proof (consume_rest (length (pending c2) - length input1) (cl_buf c2) (cl_script c2) n2) as Hc.
  destruct (consume _ _ _ _) as [[got b'] s']. destruct (_ && _); [done|]. intros [= <- <- <- <- <- <-].
  change (pending (mkClient b' s' (cl_fin c2))) with (b' ++ future s'). rewrite Hc by (unfold pending; lia).
  rewrite length_drop. fold (pending c2).
  assert (pending c2 = pending c) as Hp by (rewrite H2; exact H1). rewrite Hp in *. lia.
Qed.

Lemma timed_conn_closes t st c now durs :
  fallback_reads → (length (pending c) < length durs)%nat → is_Some (timed_conn t st c now durs).
Proof.
  intros Hfb. revert t st c now. induction durs as [|dur durs IH]; intros t st c now Hl; cbn [length] in Hl; [lia|].
  cbn [timed_conn]. destruct (timed_turn t st c now dur) as [[[evs1 out1] t1] [closed1|[[st1 c1] now1]]] eqn:E; [by eexists|].
  apply timed_turn_pending in E; [|done]. destruct (IH t1 st1 c1 now1) as [[[[evs2 out2] t2] closed2] ->]; [lia|by eexists].
Qed.


(** ** Prompt clients *)

(** Everything the client will send is there. *)
Definition prompt (c : client) (now : Z) : Prop :=
  Forall (λ s, s.1 ≤ now) (cl_script c) ∧ ∃ e, cl_fin c = Some e ∧ e ≤ now.

Lemma prompt_later c now now' : prompt c now → now ≤ now' → prompt c now'.
Proof.
  intros [Hs (e & He & Hle)] Hn. split; [|exists e; split; [done|lia]].
  eapply Forall_impl; [exact Hs|]. intros s. cbn. lia.
Qed.

Lemma wait_for_prompt ready s fin b now dl :
  prompt (mkClient b s fin) now → now < dl →
  let '(ok, t, c) := wait_for ready s fin b now dl in
  t = now ∧ prompt c now ∧ ready (cl_buf c) = ok ∧ (ok = false → cl_script c = []).
Proof.
  intros Hp Hdl. revert b Hp. induction s as [|[a d] s IH]; intros b [Hs (e & He & Hle)]; cbn [wait_for cl_script cl_fin] in *;
    destruct (ready b) eqn:E.
  - split_and!; [done| |done|done]. split; [done|by exists e].
  - subst fin. split_and!; [lia| |done|done]. split; [done|by exists e].
  - split_and!; [done| |done|done]. split; [done|by exists e].
  - cbv zeta. apply Forall_cons in Hs as [Ha Hs]. cbn [fst] in Ha. replace (Z.max now a) with now by lia.
    destruct (Z.ltb_spec now dl); [|lia]. apply IH. split; [done|by exists e].
Qed.

Lemma consume_prompt n b s now :
  Forall (λ x, x.1 ≤ now) s → let '(got, _, s') := consume n b s now in got = now ∧ Forall (λ x, x.1 ≤ now) s'.
Proof.
  intros Hs. revert n b. induction s as [|[a d] s IH]; intros n b; cbn [consume]; destruct (_ <=? _)%nat; try done.
  apply Forall_cons in Hs as [Ha Hs]. cbn [fst] in Ha. replace (Z.max now a) with now by lia. by apply IH.
Qed.

Lemma wait_for_prefix ready s fin b now dl : b `prefix_of` cl_buf (wait_for ready s fin b now dl).2.
Proof.
  revert b now. induction s as [|[a d] s IH]; intros b now; cbn [wait_for]; destruct (ready b); try done.
  - by destruct fin.
  - cbv zeta. destruct (_ <? _); [|done]. etransitivity; [|apply IH]. by apply prefix_app_r.
Qed.

(** Both inputs are refused alike. *)
Lemma serve_one_same_error t st b x e :
  b ≠ [] → readRequest b zeroRequest = Err e → e ≠ ErrRead → serve_one sv t st (b ++ x) = serve_one sv t st b.
Proof.
  intros Hb Hr He. pose proof (readRequest_app x b) as Ha. rewrite Hr in Ha. specialize (Ha He).
  unfold serve_one. destruct b as [|c b]; [done|]. cbn [app] in *. by rewrite Hr, Ha.
Qed.

Lemma suffix_drop (a b : bytes) : a `suffix_of` b → drop (length b - length a) b = a.
Proof. intros [k ->]. rewrite length_app. by rewrite drop_app_length' by lia. Qed.

Lemma timed_turn_prompt t st c now dur :
  fallback_reads → 0 ≤ dur → prompt c now →
  let '(evs, out, t', next) := timed_turn t st c now dur in
  ∃ next', serve_one sv t st (pending c) = (evs, out, t', next') ∧
    match next, next' with
    | inl _, None => True
    | inr (st', c', now'), Some (st'', input') => st'' = st' ∧ pending c' = input' ∧ prompt c' now'
    | _, _ => False
    end.
Proof.
  intros Hfb Hd Hp. unfold timed_turn. destruct timeouts_positive as [Hi Hh].
  pose proof (wait_for_prompt has_byte (cl_script c) (cl_fin c) (cl_buf c) now (now + effectiveIdleTimeout o)
    ltac:(by destruct c) ltac:(lia)) as H1.
  pose proof (wait_for_pending has_byte (cl_script c) (cl_fin c) (cl_buf c) now (now + effectiveIdleTimeout o)) as P1.
  destruct (wait_for has_byte _ _ _ _ _) as [[ok n1] c1]. destruct H1 as (-> & Hp1 & Hr1 & Hs1), P1 as [P1 _].
  change (cl_buf c ++ future (cl_script c)) with (pending c) in P1.
  destruct ok; cbn [negb].
  2:{ assert (pending c = []) as ->.
      { rewrite <-P1. unfold pending. rewrite Hs1 by done. by destruct (cl_buf c1). }
      by exists None. }
  pose proof (wait_for_prompt decided (cl_script c1) (cl_fin c1) (cl_buf c1) now (now + effectiveReadHeaderTimeout o)
    ltac:(by destruct c1) ltac:(lia)) as H2.
  pose proof (wait_for_pending decided (cl_script c1) (cl_fin c1) (cl_buf c1) now (now + effectiveReadHeaderTimeout o)) as P2.
  destruct (wait_for decided _ _ _ _ _) as [[ok2 n2] c2] eqn:E2. destruct H2 as (-> & Hp2 & Hr2 & Hs2), P2 as [P2 _].
  change (cl_buf c1 ++ future (cl_script c1)) with (pending c1) in P2. rewrite P1 in P2.
  assert (cl_buf c2 ≠ []) as Hne.
  { pose proof (wait_for_prefix decided (cl_script c1) (cl_fin c1) (cl_buf c1) now (now + effectiveReadHeaderTimeout o)) as [k Hk].
    rewrite E2 in Hk. cbn [snd] in Hk. rewrite Hk. by destruct (cl_buf c1). }
  destruct (readRequest (cl_buf c2) zeroRequest) as [[r rest]|e] eqn:Er.
  - change (cl_buf c2 ++ future (cl_script c2)) with (pending c2). rewrite P2.
    destruct (serve_one sv t st (pending c)) as [[[evs out] t'] [[st' input']|]] eqn:Es; [|by exists None].
    destruct (serve_one_next _ _ _ _ _ _ _ _ Hfb Es) as [Hsuf Hl]. destruct Hp2 as [Hs Hfin].
    pose proof (consume_rest (length (pending c) - length input') (cl_buf c2) (cl_script c2) now) as Hcr.
    pose proof (consume_prompt (length (pending c) - length input') (cl_buf c2) (cl_script c2) now Hs) as Hcp.
    destruct (consume _ _ _ _) as [[got b'] s']. destruct Hcp as [-> Hs'].
    rewrite Z.ltb_irrefl. cbn [andb]. eexists. split; [done|]. split_and!; [done| |].
    + change (b' ++ future s' = input'). change (cl_buf c2 ++ future (cl_script c2)) with (pending c2) in Hcr.
      rewrite P2 in Hcr. rewrite Hcr by lia. by apply suffix_drop.
    + apply (prompt_later _ now); [|lia]. by split.
  - assert (serve_one sv t st (pending c) = serve_one sv t st (cl_buf c2)) as ->.
    { rewrite <-P2. unfold pending. destruct ok2.
      - apply (serve_one_same_error t st _ _ e); [done|done|]. intros ->. unfold decided in Hr2. by rewrite Er in Hr2.
      - rewrite Hs2 by done. unfold future. cbn. by rewrite app_nil_r. }
    pose proof (serve_one_refused t st _ e Er) as Hn.
    destruct (serve_one sv t st (cl_buf c2)) as [[[evs out] t'] next]. destruct Hn as [_ ->]. by exists None.
Qed.

(** Deadlines do not touch prompt clients: when what a client sends is there
    in time, the timed connection does exactly what [serveConn] does on its
    bytes. *)
Theorem prompt_client_unaffected t st c now durs :
  fallback_reads → Forall (Z.le 0) durs → prompt c now → (length (pending c) < length durs)%nat →
  ∃ closed, timed_conn t st c now durs = (λ '(evs, out, t'), Some (evs, out, t', closed)) (serveConn (length durs) sv t st (pending c)).
Proof.
  intros Hfb Hd. revert t st c now. induction Hd as [|dur durs Hdur Hd IH]; intros t st c now Hp Hl; cbn [length] in Hl; [lia|].
  cbn [timed_conn length]. rewrite serveConn_S. pose proof (timed_turn_prompt t st c now dur Hfb Hdur Hp) as Ht.
  destruct (timed_turn t st c now dur) as [[[evs out] t1] next] eqn:E. destruct Ht as (next' & -> & Hn).
  destruct next as [closed|[[st1 c1] now1]], next' as [[st2 input']|]; try done; [by exists closed|].
  destruct Hn as (-> & <- & Hp1). apply timed_turn_pending in E; [|done].
  destruct (IH t1 st1 c1 now1 Hp1 ltac:(lia)) as [closed ->]. exists closed.
  by destruct (serveConn (length durs) sv t1 st1 (pending c1)) as [[evs' out'] t2].
Qed.
End timed.

(** ** Concrete clients *)

Definition default_timeouts : timeouts := mkTimeouts 0 0 0 0 (Some (300 * second, 300 * second)).

(** A client that sends one byte a second and never ends its header. *)
Definition dribble : client := mkClient [] ((λ k, (Z.of_nat k * second, bs "G")) <$> seq 1 20) None.


(** Two requests in one segment, the client's end right behind them. *)
Definition prompt_client : client := mkClient [] [(0, render (sample_lines "/a") ++ render (sample_lines "/b"))] (Some 0).

Lemma prompt_client_unaffected_witness :
  ∃ closed, timed_conn one_token default_timeouts (mkCounters 0 0 0) tt prompt_client 0 (replicate 200 0) =
    (λ '(evs, out, t'), Some (evs, out, t', closed)) (serveConn 200 one_token (mkCounters 0 0 0) tt (pending prompt_client)).
Proof.
  apply (prompt_client_unaffected one_token default_timeouts (mkCounters 0 0 0) tt prompt_client 0 (replicate 200 0)).
  - by intros fb st req rest [=].
  - by apply Forall_replicate.
  - split; [|by exists 0]. constructor; [cbn; lia|constructor].
  - apply Nat.ltb_lt. vm_compute. reflexivity.
Defined.

(** A server whose fallback stores the body of a PUT. *)
Definition upload_server : Server unit :=
  mkServer None false (λ st _, (None, st))
    (Some (λ st req rest, mkFB (bs "stored") (drop (Z.to_nat (ContentLen req)) rest) false st)).

Definition upload_lines : list bytes := [bs "PUT /lfs-storage/x HTTP/1.1"; bs "Host: h"; bs "Content-Length: 4"].

(** The body comes six seconds after the head. *)
Definition upload_client : client := mkClient [] [(0, render upload_lines); (6 * second, bs "data")] (Some (7 * second)).

(** When a connection closes; -1 when the script of response times is short. *)
Definition close_time (o : timeouts) : Z :=
  match timed_conn upload_server o (mkCounters 0 0 0) tt upload_client 0 [0; 0; 0] with
  | Some (_, _, _, closed) => closed
  | None => -1
  end.

(** With a read timeout of zero no deadline is armed for the body, and the
    header's stays: an upload whose body arrives six seconds after its first
    byte is cut after five, while the default read timeout lets it finish. *)
Theorem zero_read_timeout_keeps_header_deadline :
  close_time (mkTimeouts 0 0 0 0 (Some (0, 0))) = 5 * second ∧ close_time default_timeouts = 7 * second.
Proof. split; vm_compute; reflexivity. Qed.

(** A write timeout of zero arms no write deadline in the connection loop; only
    the reactor has a default. *)
Theorem zero_write_timeout_unarmed readDl :
  let o := mkTimeouts 0 0 0 0 (Some (readDl, 0)) in
  serveConn_writeDl o = 0 ∧ effectiveWriteTimeout o = detachedConnDefaultDeadline.
Proof. by split. Qed.
