(* ===== verification/PerIP.v ===== *)
(** * The per-IP connection cap (src/internal/coreserver/server.go)

    [acquirePerIPSlot] admits a connection if its peer has fewer than
    [MaxConnsPerIP] open; the release function it returns runs once when the
    connection closes.  The critical sections run under one mutex, so an
    execution is a sequence of admissions and releases. *)

From stdpp Require Import base numbers gmap list.
From S2P Require Import Prelude GoStd HostAllow.

Local Open Scope Z_scope.

(** The peer's address bytes; [None] when it is not a TCP address. *)
Abbreviation remote := (option (list Z)).

(** [netip.AddrFromSlice(tcp.IP)] followed by [Unmap]: both forms of an IPv4
    address are one key. *)
Definition addr_key (r : remote) : option (list Z) :=
  match r with
  | Some ip => if (length ip =? 4)%nat then Some (v4_mapped ip)
               else if (length ip =? 16)%nat then Some ip else None
  | None => None
  end.

(** The release closure: a no-op, or one for an address. *)
Abbreviation perIPSlot := (option (list Z)).

Abbreviation connsPerIP := (gmap (list Z) Z).

(** [None] is a refusal. *)
Definition acquirePerIPSlot (max : Z) (m : connsPerIP) (r : remote) : option perIPSlot * connsPerIP :=
  if max <=? 0 then (Some None, m)
  else match addr_key r with
       | None => (Some None, m)
       | Some a =>
           let n := default 0 (m !! a) in
           if n >=? max then (None, m) else (Some (Some a), <[a := n + 1]> m)
       end.

Definition releaseSlot (m : connsPerIP) (slot : perIPSlot) : connsPerIP :=
  match slot with
  | None => m
  | Some a =>
      let n := default 0 (m !! a) - 1 in
      if n <=? 0 then delete a m else <[a := n]> m
  end.

(** The open connections and the slot of each. *)
Record conns := mkConns { c_map : connsPerIP; c_open : gmap nat perIPSlot }.

Inductive conn_op := Accept (id : nat) (r : remote) | Disconnect (id : nat).

Definition conn_step (max : Z) (c : conns) (o : conn_op) : conns :=
  match o with
  | Accept id r =>
      match c_open c !! id with
      | Some _ => c
      | None =>
          match acquirePerIPSlot max (c_map c) r with
          | (Some slot, m) => mkConns m (<[id := slot]> (c_open c))
          | (None, m) => mkConns m (c_open c)
          end
      end
  | Disconnect id =>
      match c_open c !! id with
      | Some slot => mkConns (releaseSlot (c_map c) slot) (delete id (c_open c))
      | None => c
      end
  end.

Definition is_at (a : list Z) (slot : perIPSlot) : Z := if bool_decide (slot = Some a) then 1 else 0.

(** Open connections counted for [a]. *)
Definition open_at (c : conns) (a : list Z) : Z := gsum (is_at a) (c_open c).

Definition conns_ok (max : Z) (c : conns) : Prop :=
  ∀ a, default 0 (c_map c !! a) = open_at c a ∧ open_at c a ≤ Z.max 0 max
       ∧ (∀ n, c_map c !! a = Some n → 0 < n).

Lemma is_at_nonneg a (m : gmap nat perIPSlot) : ∀ k x, m !! k = Some x → 0 ≤ is_at a x.
Proof. intros k x _. unfold is_at. by case_bool_decide. Qed.

Lemma open_at_add c id slot a :
  c_open c !! id = None → gsum (is_at a) (<[id := slot]> (c_open c)) = is_at a slot + open_at c a.
Proof. intros Hn. by rewrite gsum_insert_None. Qed.

Lemma open_at_del c id slot a :
  c_open c !! id = Some slot → gsum (is_at a) (delete id (c_open c)) = open_at c a - is_at a slot.
Proof. intros Hs. by apply gsum_delete. Qed.

Lemma accept_ok max c id r : conns_ok max c → conns_ok max (conn_step max c (Accept id r)).
Proof.
  intros Hok. cbn [conn_step]. destruct (c_open c !! id) eqn:E; [done|]. unfold acquirePerIPSlot.
  assert (∀ m, m = c_map c → conns_ok max (mkConns m (<[id := None]> (c_open c)))) as Hnone.
  { intros m -> a. unfold open_at. cbn [c_map c_open]. rewrite open_at_add by done. apply Hok. }
  destruct (Z.leb_spec max 0); [by apply Hnone|]. destruct (addr_key r) as [a0|]; [|by apply Hnone].
  cbv zeta. destruct (Z.geb_spec (default 0 (c_map c !! a0)) max); [done|].
  intros a. unfold open_at. cbn [c_map c_open]. rewrite open_at_add by done.
  destruct (Hok a) as (H1 & H2 & H3). unfold is_at. case_bool_decide as Ea.
  - injection Ea as ->. rewrite lookup_insert_eq. simpl (default _ _).
    split_and!; [cbn; lia|lia|]. intros n [= <-].
    assert (0 ≤ open_at c a) by apply gsum_nonneg, is_at_nonneg. lia.
  - rewrite lookup_insert_ne by congruence. split_and!; [lia..|done].
Qed.

Lemma disconnect_ok max c id : conns_ok max c → conns_ok max (conn_step max c (Disconnect id)).
Proof.
  intros Hok. cbn [conn_step]. destruct (c_open c !! id) as [slot|] eqn:E; [|done].
  intros a. unfold open_at. cbn [c_map c_open]. rewrite (open_at_del c id slot) by done.
  destruct (Hok a) as (H1 & H2 & H3).
  assert (is_at a slot ≤ open_at c a) as Hle by (by eapply gsum_lookup; [apply is_at_nonneg|]).
  destruct slot as [a0|]; [|change (is_at a None) with 0; cbn [releaseSlot]; split_and!; [lia..|done]]. cbn [releaseSlot].
  unfold is_at in *. case_bool_decide as Ea.
  - injection Ea as ->. destruct (Z.leb_spec (default 0 (c_map c !! a) - 1) 0).
    + rewrite lookup_delete_eq. simpl (default _ _). split_and!; [lia..|done].
    + rewrite lookup_insert_eq. simpl (default _ _). split_and!; [lia..|]. intros n [= <-]. lia.
  - destruct (_ <=? 0); [rewrite lookup_delete_ne by congruence|rewrite lookup_insert_ne by congruence];
      split_and!; done || lia.
Qed.

Lemma conns_run_ok max os : conns_ok max (foldl (conn_step max) (mkConns ∅ ∅) os).
Proof.
  assert (conns_ok max (mkConns ∅ ∅)) as H0.
  { intros a'. unfold open_at. cbn [c_map c_open]. rewrite lookup_empty, gsum_empty. cbn. split_and!; [lia..|done]. }
  revert H0. generalize (mkConns ∅ ∅). induction os as [|o os IH]; intros c0 H0; [done|]. cbn [foldl].
  apply IH. destruct o; [by apply accept_ok|by apply disconnect_ok].
Qed.

(** the cap holds and slots are not lost: after any sequence of accepts
    and disconnects, the count kept for an address is the number of its open
    connections, never more than [MaxConnsPerIP], and addresses without
    connections have no entry. *)
Theorem per_ip_cap max os a :
  0 < max →
  let c := foldl (conn_step max) (mkConns ∅ ∅) os in
  default 0 (c_map c !! a) = open_at c a ∧ open_at c a ≤ max ∧ (open_at c a = 0 → c_map c !! a = None).
Proof.
  intros Hmax c. pose proof (conns_run_ok max os) as Hok. fold c in Hok.
  destruct (Hok a) as (H1 & H2 & H3). split_and!; [done|lia|]. intros Hz.
  destruct (c_map c !! a) as [n|] eqn:E; [|done]. specialize (H3 n eq_refl). cbn in H1. lia.
Qed.

Lemma per_ip_cap_witness :
  let c := foldl (conn_step 2) (mkConns ∅ ∅)
             [Accept 0 (Some [10; 0; 0; 1]); Accept 1 (Some (v4_mapped [10; 0; 0; 1]));
              Accept 2 (Some [10; 0; 0; 1]); Disconnect 0] in
  default 0 (c_map c !! v4_mapped [10; 0; 0; 1]) = open_at c (v4_mapped [10; 0; 0; 1])
  ∧ open_at c (v4_mapped [10; 0; 0; 1]) ≤ 2
  ∧ (open_at c (v4_mapped [10; 0; 0; 1]) = 0 → c_map c !! v4_mapped [10; 0; 0; 1] = None).
Proof. apply (per_ip_cap 2). reflexivity. Defined.
