(* ===== verification/Lifecycle.v ===== *)
(** * Starting and stopping the server (src/internal/coreserver/server.go,
    iouring_linux.go, iouring_reactor_linux.go)

    [ServeMulti] picks the reactors or the accept loops; an accept loop admits
    connections until [Accept] fails.  [startReactors] allocates rings, event
    descriptors and duplicates of the listeners; [close] and the teardown of
    [run] meet under one mutex, and [Close] waits for the reactors with bounds. *)

From stdpp Require Import base strings numbers gmap list.
From S2P Require Import Prelude GoStd HostAllow PerIP Deadlines.

Local Open Scope Z_scope.

(** ** The kernel's version *)

Definition nullTerminated (b : bytes) : bytes :=
  match IndexByte b 0 with Some i => take i b | None => b end.

Fixpoint leading_digits (s : bytes) : bytes :=
  match s with
  | c :: s' => if is_digit c then c :: leading_digits s' else []
  | [] => []
  end.

(** [uname] is the release field, [None] when the call fails. *)
Definition kernelGE (uname : option bytes) (major minor : Z) : bool :=
  match uname with
  | None => false
  | Some release =>
      match Split (nullTerminated release) 46 with
      | p0 :: p1 :: _ =>
          match ParseInt p0 with
          | None => false
          | Some ma =>
              match ParseInt (leading_digits p1) with
              | None => false
              | Some mi => if ma >? major then true else (ma =? major) && (mi >=? minor)
              end
          end
      | _ => false
      end
  end.

(** ** The mode of [ServeMulti] *)

Inductive serve_mode := NoListener | ReactorMode | ClassicMode (pool : bool).

(** [reactors] is the outcome of [startReactors], [pool] that of [pool.init]. *)
Definition ServeMulti_mode (ioUring kernel61 : bool) (reactors : option nat) (pool : bool) (lns : nat) : serve_mode :=
  if (lns =? 0)%nat then NoListener
  else if ioUring && kernel61 && match reactors with Some n => (0 <? n)%nat | None => false end then ReactorMode
  else ClassicMode (ioUring && kernel61 && pool).

(** ** The accept loops *)

Inductive loop_status := LoopRunning | LoopReturned (err : option Z).

(** [as_returns] is what the loops sent on [errCh], in order. *)
Record accept_state := mkAccept {
  as_closed : bool;
  as_conns : conns;
  as_loops : gmap nat loop_status;
  as_returns : list (option Z);
  as_dropped : Z;
}.

Inductive accept_op :=
| AAccept (l id : nat) (r : remote)   (* listener [l]'s Accept returns a connection *)
| AError (l : nat) (e : Z)            (* ... or fails *)
| ADone (id : nat)                    (* serveConn of a connection returns *)
| AClose.                             (* Server.Close *)

Definition accept_step (max : Z) (a : accept_state) (o : accept_op) : accept_state :=
  match o with
  | AAccept l id r =>
      match as_loops a !! l, c_open (as_conns a) !! id with
      | Some LoopRunning, None =>
          match acquirePerIPSlot max (c_map (as_conns a)) r with
          | (None, m) => mkAccept (as_closed a) (mkConns m (c_open (as_conns a))) (as_loops a) (as_returns a) (as_dropped a + 1)
          | (Some slot, m) =>
              mkAccept (as_closed a) (mkConns m (<[id := slot]> (c_open (as_conns a)))) (as_loops a) (as_returns a) (as_dropped a)
          end
      | _, _ => a
      end
  | AError l e =>
      match as_loops a !! l with
      | Some LoopRunning =>
          let err := if as_closed a then None else Some e in
          mkAccept (as_closed a) (as_conns a) (<[l := LoopReturned err]> (as_loops a)) (as_returns a ++ [err]) (as_dropped a)
      | _ => a
      end
  | ADone id =>
      match c_open (as_conns a) !! id with
      | Some slot =>
          mkAccept (as_closed a) (mkConns (releaseSlot (c_map (as_conns a)) slot) (delete id (c_open (as_conns a))))
            (as_loops a) (as_returns a) (as_dropped a)
      | None => a
      end
  | AClose => mkAccept true (as_conns a) (as_loops a) (as_returns a) (as_dropped a)
  end.

Definition accept_run (max : Z) (a : accept_state) (os : list accept_op) : accept_state := foldl (accept_step max) a os.

(** What [ServeMulti] has returned, if it has: the first value on [errCh]. *)
Definition ServeMulti_returned (a : accept_state) : option (option Z) := head (as_returns a).

Definition accept_start (lns : nat) : accept_state :=
  mkAccept false (mkConns ∅ ∅) (gset_to_gmap LoopRunning (set_seq 0 lns)) [] 0.

(** ** Slots by descriptor *)

Inductive sockaddr := SockaddrInet4 (a : list Z) | SockaddrInet6 (a : list Z) | SockaddrOther.

(** [peer] is what getpeername gives. *)
Definition acquirePerIPSlotFromFd (max : Z) (m : connsPerIP) (peer : option sockaddr) : option perIPSlot * connsPerIP :=
  if max <=? 0 then (Some None, m)
  else
    match peer with
    | None | Some SockaddrOther => (Some None, m)
    | Some (SockaddrInet4 a) | Some (SockaddrInet6 a) =>
        let a := if (length a =? 4)%nat then v4_mapped a else a in
        let n := default 0 (m !! a) in
        if n >=? max then (None, m) else (Some (Some a), <[a := n + 1]> m)
    end.

(** ** Reactors and what they hold *)

(** Rings, event descriptors and listener duplicates of the process. *)
Record resources := mkRes { rs_rings : gset nat; rs_eventfds : gset nat; rs_dups : gset nat }.

Record ioReactor := mkIO { io_ring : nat; io_wakeupFd : nat; io_listenerFd : nat }.

(** Outcomes for one listener: a TCP listener, [File], [SetNonblock], the two
    ring set-ups and [Eventfd]. *)
Record reactor_env := mkRE {
  re_tcp : bool; re_file : bool; re_nonblock : bool; re_ring : bool; re_ring_plain : bool; re_eventfd : bool;
}.

(** [listenerFdFor]: the duplicate stays in [listenerFiles]. *)
Definition listenerFdFor (x : reactor_env) (s : resources) : option nat * resources :=
  if negb (re_tcp x) then (None, s)
  else if negb (re_file x) then (None, s)
  else if negb (re_nonblock x) then (None, s)
  else let fd := fresh (rs_dups s) in (Some fd, mkRes (rs_rings s) (rs_eventfds s) ({[fd]} ∪ rs_dups s)).

(** [newIoReactor]: a failed first set-up is tried again without flags; a
    failed [Eventfd] closes the ring. *)
Definition newIoReactor (x : reactor_env) (listenerFd : nat) (s : resources) : option ioReactor * resources :=
  if re_ring x || re_ring_plain x then
    if re_eventfd x then
      let ring := fresh (rs_rings s) in
      let fd := fresh (rs_eventfds s) in
      (Some (mkIO ring fd listenerFd), mkRes ({[ring]} ∪ rs_rings s) ({[fd]} ∪ rs_eventfds s) (rs_dups s))
    else (None, s)
  else (None, s).

(** A failure calls [close] on the reactors built so far, which are not
    running: that releases nothing. *)
Fixpoint startReactors (envs : list reactor_env) (rs : list ioReactor) (s : resources) : option (list ioReactor) * resources :=
  match envs with
  | [] => (Some rs, s)
  | x :: envs =>
      match listenerFdFor x s with
      | (None, s) => (None, s)
      | (Some fd, s) =>
          match newIoReactor x fd s with
          | (None, s) => (None, s)
          | (Some r, s) => startReactors envs (rs ++ [r]) s
          end
      end
  end.

(** The deferred teardown of [run]. *)
Definition teardown (s : resources) (r : ioReactor) : resources :=
  mkRes (rs_rings s ∖ {[io_ring r]}) (rs_eventfds s ∖ {[io_wakeupFd r]}) (rs_dups s).

(** ** Stopping one reactor *)

(** Where [run] is: before its check of [stop], inside [enter], handling
    completions, in its deferred function, or gone. *)
Inductive run_phase := PCheck | PEnter | PDrain | PExit | PDone.

Record stopping := mkStop {
  sp_stop : bool;        (* the channel is closed *)
  sp_wakeupFd : bool;    (* the event descriptor is open *)
  sp_poked : bool;       (* its counter is not zero *)
  sp_armed : bool;       (* the READ on it is outstanding *)
  sp_phase : run_phase;
}.

(** [ioReactor.close], one critical section. *)
Definition reactor_close (s : stopping) : stopping :=
  if sp_stop s then s
  else if sp_wakeupFd s then mkStop true (sp_wakeupFd s) true (sp_armed s) (sp_phase s)
  else mkStop true (sp_wakeupFd s) (sp_poked s) (sp_armed s) (sp_phase s).

(** One step of [run]; [other] is whether a completion other than the wake-up
    is there.  [enter] stays blocked while there is none. *)
Definition run_step (other : bool) (s : stopping) : stopping :=
  match sp_phase s with
  | PCheck => mkStop (sp_stop s) (sp_wakeupFd s) (sp_poked s) (sp_armed s) (if sp_stop s then PExit else PEnter)
  | PEnter =>
      if sp_armed s && sp_poked s then mkStop (sp_stop s) (sp_wakeupFd s) false false PDrain
      else if other then mkStop (sp_stop s) (sp_wakeupFd s) (sp_poked s) (sp_armed s) PDrain
      else s
  | PDrain => mkStop (sp_stop s) (sp_wakeupFd s) (sp_poked s) (sp_armed s) PCheck
  | PExit => mkStop (sp_stop s) false (sp_poked s) (sp_armed s) PDone
  | PDone => s
  end.

Inductive stop_op := OpClose | OpRun (other : bool).

Definition stop_step (s : stopping) (o : stop_op) : stopping :=
  match o with OpClose => reactor_close s | OpRun other => run_step other s end.

Definition stop_run (s : stopping) (os : list stop_op) : stopping := foldl stop_step s os.

Definition stop_start : stopping := mkStop false true false true PCheck.

(** ** Server.Close *)

Definition closeReactorTimeout : Z := 10 * second.

(** [waitDone] and [waitInFlight]: whether the event came, and when the wait
    ends; [at_] is when the event happens, if it does. *)
Definition wait_until (now timeout : Z) (at_ : option Z) : bool * Z :=
  match at_ with
  | Some t => if t <=? now + timeout then (true, Z.max now t) else (false, now + timeout)
  | None => (false, now + timeout)
  end.

(** The waits of [Close] for one reactor after the other. *)
Fixpoint Close_waits (now : Z) (rs : list (option Z * option Z)) : bool * Z :=
  match rs with
  | [] => (true, now)
  | (done_, inflight) :: rs =>
      let '(b1, now) := wait_until now closeReactorTimeout done_ in
      let '(b2, now) := wait_until now closeReactorTimeout inflight in
      let '(b3, now) := Close_waits now rs in
      (b1 && b2 && b3, now)
  end.

(** ** Properties of the version check *)

Lemma leading_digits_app ds rest :
  Forall (λ c, is_digit c = true) ds → (∀ c r, rest = c :: r → is_digit c = false) → leading_digits (ds ++ rest) = ds.
Proof.
  intros Hd Hr. induction Hd as [|c ds Hc _ IH]; cbn [app leading_digits].
  - destruct rest as [|c r]; [done|]. cbn. by rewrite (Hr c r eq_refl).
  - by rewrite Hc, IH.
Qed.

Lemma FormatInt_digits v : 0 ≤ v → Forall (λ c, is_digit c = true) (FormatInt v).
Proof. intros Hv. unfold FormatInt. destruct (Z.ltb_spec v 0); [lia|]. by apply dec_digits_digit. Qed.

(** The first word of [Split] is what comes before the separator. *)
Lemma Split_head s c : ∃ ws, Split s c = (match IndexByte s c with Some i => take i s | None => s end) :: ws.
Proof.
  induction s as [|x s (ws & IH)]; cbn [Split IndexByte]; [by eexists|].
  destruct (x =? c); [by eexists|]. rewrite IH. destruct (IndexByte s c) as [i|]; cbn; by eexists.
Qed.

(** The version check compares the first two numbers of the release
    lexicographically, whatever follows them. *)
Theorem kernelGE_exact ma mi rest major minor :
  0 ≤ ma ≤ int64_max → 0 ≤ mi ≤ int64_max → 0 ∉ rest → (∀ c r, rest = c :: r → is_digit c = false) →
  kernelGE (Some (FormatInt ma ++ bs "." ++ FormatInt mi ++ rest ++ [0])) major minor = true ↔
  major < ma ∨ (ma = major ∧ minor ≤ mi).
Proof.
  intros Hma Hmi H0 Hrest. unfold kernelGE.
  assert (∀ v, 0 ≤ v → 0 ∉ FormatInt v ∧ 46 ∉ FormatInt v) as Hnot.
  { intros v Hv. split; apply FormatInt_not_in; [left; unfold visible; lia|right; done]. }
  assert (nullTerminated (FormatInt ma ++ bs "." ++ FormatInt mi ++ rest ++ [0])
          = FormatInt ma ++ 46 :: FormatInt mi ++ rest) as ->.
  { unfold nullTerminated.
    replace (FormatInt ma ++ bs "." ++ FormatInt mi ++ rest ++ [0]) with ((FormatInt ma ++ 46 :: FormatInt mi ++ rest) ++ [0])
      by (rewrite <-app_assoc; change (bs ".") with [46]; cbn [app]; by rewrite <-app_assoc).
    destruct (Hnot ma) as [? _]; [lia|]. destruct (Hnot mi) as [? _]; [lia|].
    rewrite IndexByte_app by set_solver. by rewrite take_app_length. }
  rewrite Split_app_sep by (by apply (Hnot ma ltac:(lia))). destruct (Split_head (FormatInt mi ++ rest) 46) as [ws ->].
  assert (∃ rest', (match IndexByte (FormatInt mi ++ rest) 46 with
                    | Some i => take i (FormatInt mi ++ rest) | None => FormatInt mi ++ rest end) = FormatInt mi ++ rest'
          ∧ ∀ c r, rest' = c :: r → is_digit c = false) as (rest' & -> & Hr').
  { destruct (IndexByte (FormatInt mi ++ rest) 46) as [i|] eqn:E; [|by exists rest].
    assert (IndexByte (FormatInt mi) 46 = None) as Hn by (by apply IndexByte_None, (Hnot mi ltac:(lia))).
    pose proof (IndexByte_app_r _ _ _ _ Hn E) as Hi. rewrite take_app_ge by lia. eexists. split; [done|].
    intros c r Ht. destruct rest as [|c' r']; [by rewrite take_nil in Ht|]. destruct (i - length (FormatInt mi))%nat; [done|].
    cbn in Ht. injection Ht as <- _. by eapply Hrest. }
  rewrite leading_digits_app by (try apply FormatInt_digits; done || lia).
  rewrite !ParseInt_FormatInt by (unfold is_int64, int64_min, int64_max in *; lia).
  destruct (Z.gtb_spec ma major); [split; [lia|done]|]. rewrite andb_true_iff, Z.eqb_eq, Z.geb_le. lia.
Qed.

(** ** Accept loops *)

(** The connections an accept loop deals with: those its running loops accept. *)
Fixpoint conn_trace (max : Z) (a : accept_state) (os : list accept_op) : list conn_op :=
  match os with
  | [] => []
  | o :: os =>
      let rest := conn_trace max (accept_step max a o) os in
      match o with
      | AAccept l id r => match as_loops a !! l with Some LoopRunning => Accept id r :: rest | _ => rest end
      | ADone id => Disconnect id :: rest
      | _ => rest
      end
  end.

Lemma accept_run_conns max a os :
  as_conns (accept_run max a os) = foldl (conn_step max) (as_conns a) (conn_trace max a os).
Proof.
  revert a. induction os as [|o os IH]; intros a; [done|]. cbn [conn_trace]. unfold accept_run in *. cbn [foldl]. rewrite IH.
  destruct o as [l id r|l e|id|]; cbn [accept_step].
  - destruct (as_loops a !! l) as [[|e]|]; [|done..]. cbn [foldl conn_step].
    destruct (c_open (as_conns a) !! id) as [x|] eqn:E; [done|].
    by destruct (acquirePerIPSlot max (c_map (as_conns a)) r) as [[slot|] m].
  - by destruct (as_loops a !! l) as [[|?]|].
  - cbn [foldl conn_step]. by destruct (c_open (as_conns a) !! id) as [x|].
  - done.
Qed.

(** A loop ends only with a failed [Accept], and with nil exactly when the
    server was closed before. *)
Definition returns_ok (closed : bool) (rs : list (option Z)) : Prop := closed = false → Forall is_Some rs.

Lemma accept_step_returns max a o :
  returns_ok (as_closed a) (as_returns a) → returns_ok (as_closed (accept_step max a o)) (as_returns (accept_step max a o)).
Proof.
  intros Ha. destruct o as [l id r|l e|id|]; cbn [accept_step].
  - destruct (as_loops a !! l) as [[|?]|]; try done. destruct (c_open _ !! id); [done|].
    by destruct (acquirePerIPSlot _ _ _) as [[slot|] m].
  - destruct (as_loops a !! l) as [[|?]|]; try done. intros Hc. cbn in *. rewrite Hc. apply Forall_app. split; [by apply Ha|].
    constructor; [by eexists|constructor].
  - destruct (c_open (as_conns a) !! id); exact Ha.
  - by intros [=].
Qed.

Lemma accept_run_returns max a os :
  returns_ok (as_closed a) (as_returns a) → returns_ok (as_closed (accept_run max a os)) (as_returns (accept_run max a os)).
Proof.
  revert a. induction os as [|o os IH]; intros a Ha; [done|]. apply IH. by apply accept_step_returns.
Qed.

(** The accept loops keep the books.  Through any interleaving of accepts
    on all listeners, failures, closed connections and a shutdown, the count kept for an
    address is the number of its connections being served, never above the
    cap; and [ServeMulti] returns nil only if the server was closed. *)
Theorem accept_loops_sound max lns os addr :
  0 < max →
  let a := accept_run max (accept_start lns) os in
  default 0 (c_map (as_conns a) !! addr) = open_at (as_conns a) addr ∧ open_at (as_conns a) addr ≤ max ∧
  (ServeMulti_returned a = Some None → as_closed a = true).
Proof.
  intros Hmax a. assert (conns_ok max (as_conns a)) as Hok.
  { unfold a. rewrite accept_run_conns. apply conns_run_ok. }
  destruct (Hok addr) as (H1 & H2 & _). split_and!; [done|lia|]. intros Hr.
  pose proof (accept_run_returns max (accept_start lns) os ltac:(by constructor)) as Hret. fold a in Hret.
  destruct (as_closed a); [done|]. specialize (Hret eq_refl). unfold ServeMulti_returned in Hr.
  destruct (as_returns a) as [|x rs]; [done|]. injection Hr as ->. by inversion_clear Hret as [|? ? [? ?] ?].
Qed.

(** [Close] alone stops no accept loop: until its listener fails, a loop goes on
    admitting connections. *)
Theorem closed_server_still_accepts :
  let a := accept_run 4 (accept_start 1) [AClose; AAccept 0 7 (Some [10; 0; 0; 1])] in
  as_closed a = true ∧ as_loops a !! 0%nat = Some LoopRunning ∧ is_Some (c_open (as_conns a) !! 7%nat).
Proof. vm_compute. split_and!; [reflexivity..|by eexists]. Qed.

(** With several listeners [ServeMulti] returns with the first loop that ends,
    even with nil, while the others still accept. *)
Theorem ServeMulti_returns_with_first_loop :
  let a := accept_run 4 (accept_start 2) [AClose; AError 1 22; AAccept 0 7 (Some [10; 0; 0; 1])] in
  ServeMulti_returned a = Some None ∧ as_loops a !! 0%nat = Some LoopRunning ∧ is_Some (c_open (as_conns a) !! 7%nat).
Proof. vm_compute. split_and!; [reflexivity..|by eexists]. Qed.

(** Both ways of finding the peer share one count per client. *)
Theorem slot_from_fd_agrees max m ip :
  length ip = 4%nat ∨ length ip = 16%nat →
  acquirePerIPSlotFromFd max m (Some (if (length ip =? 4)%nat then SockaddrInet4 ip else SockaddrInet6 ip))
  = acquirePerIPSlot max m (Some ip).
Proof.
  intros Hl. unfold acquirePerIPSlotFromFd, acquirePerIPSlot, addr_key. destruct (max <=? 0); [done|].
  destruct Hl as [Hl|Hl]; rewrite Hl; cbn [Nat.eqb]; by rewrite Hl.
Qed.

(** ** Reactors *)

Lemma teardown_all_dups s rs : rs_dups (foldl teardown s rs) = rs_dups s.
Proof. revert s. induction rs as [|r rs IH]; intros s; [done|]. cbn [foldl]. by rewrite IH. Qed.

Lemma teardown_all s rs :
  rs_rings (foldl teardown s rs) = rs_rings s ∖ list_to_set (io_ring <$> rs) ∧
  rs_eventfds (foldl teardown s rs) = rs_eventfds s ∖ list_to_set (io_wakeupFd <$> rs).
Proof.
  revert s. induction rs as [|r rs IH]; intros s; cbn [foldl fmap list_fmap list_to_set]; [split; set_solver|].
  destruct (IH (teardown s r)) as [-> ->]. cbn [teardown rs_rings rs_eventfds]. split; set_solver.
Qed.

(** What the reactors of [rs] hold beyond [s0]. *)
Definition holds (s0 : resources) (rs : list ioReactor) (s : resources) : Prop :=
  rs_rings s ∖ list_to_set (io_ring <$> rs) = rs_rings s0 ∧
  rs_eventfds s ∖ list_to_set (io_wakeupFd <$> rs) = rs_eventfds s0 ∧
  size (rs_dups s) = (size (rs_dups s0) + length rs)%nat.

Lemma fresh_out (x : nat) (X L Y : gset nat) : x ∉ X → X ∖ L = Y → ({[x]} ∪ X) ∖ (L ∪ {[x]}) = Y.
Proof. set_solver. Qed.

Lemma startReactors_spec envs rs s s0 :
  holds s0 rs s →
  match startReactors envs rs s with
  | (Some rs', s') => length rs' = (length rs + length envs)%nat ∧ holds s0 rs' s'
  | (None, _) => True
  end.
Proof.
  revert rs s. induction envs as [|x envs IH]; intros rs s Hh; cbn [startReactors].
  { split; [cbn; lia|done]. }
  unfold listenerFdFor. destruct (negb (re_tcp x)); [done|]. destruct (negb (re_file x)); [done|].
  destruct (negb (re_nonblock x)); [done|]. cbv zeta. unfold newIoReactor.
  destruct (re_ring x || re_ring_plain x); [|done]. destruct (re_eventfd x); [|done]. cbv zeta.
  cbn [rs_rings rs_eventfds rs_dups]. set (r := mkIO _ _ _). set (s' := mkRes _ _ _).
  specialize (IH (rs ++ [r]) s'). destruct (startReactors envs (rs ++ [r]) s') as [[rs'|] s'']; [|done].
  destruct IH as [Hl Hh'].
  - destruct Hh as (H1 & H2 & H3). unfold holds, s', r. cbn [rs_rings rs_eventfds rs_dups].
    rewrite !fmap_app, !list_to_set_app_L. cbn [fmap list_fmap list_to_set io_ring io_wakeupFd]. rewrite !union_empty_r_L.
    split_and!; [apply fresh_out; [apply is_fresh|done]..|].
    rewrite size_union by (pose proof (is_fresh (rs_dups s)); set_solver). rewrite size_singleton, length_app. cbn. lia.
  - split; [|done]. rewrite length_app in Hl. cbn in *. lia.
Qed.

(** Reactors that ran give back their rings and event descriptors; the
    duplicates of the listeners stay open. *)
Theorem reactors_torn_down envs s0 rs s :
  startReactors envs [] s0 = (Some rs, s) →
  let s' := foldl teardown s rs in
  length rs = length envs ∧ rs_rings s' = rs_rings s0 ∧ rs_eventfds s' = rs_eventfds s0 ∧
  size (rs_dups s') = (size (rs_dups s0) + length envs)%nat.
Proof.
  intros Hs. cbv zeta. pose proof (startReactors_spec envs [] s0 s0) as Hspec. rewrite Hs in Hspec.
  destruct Hspec as (Hl & H1 & H2 & H3).
  { unfold holds. cbn. split_and!; [set_solver..|lia]. }
  cbn in Hl. destruct (teardown_all s rs) as [-> ->]. rewrite teardown_all_dups, H1, H2, H3. split_and!; [done..|lia].
Qed.

(** A failure after the first listener leaves the earlier reactor's ring and
    event descriptor, and both duplicates, behind: closing a reactor that does
    not run releases nothing. *)
Theorem failed_start_leaks :
  let ok := mkRE true true true true true true in
  let bad := mkRE true true true false false true in
  ∃ s, startReactors [ok; bad] [] (mkRes ∅ ∅ ∅) = (None, s) ∧
    size (rs_rings s) = 1%nat ∧ size (rs_eventfds s) = 1%nat ∧ size (rs_dups s) = 2%nat.
Proof. eexists. split; [reflexivity|]. split_and!; vm_compute; reflexivity. Qed.

(** ** No lost wake-up *)

Definition stop_inv (s : stopping) : Prop :=
  match sp_phase s with
  | PEnter => if sp_stop s then sp_armed s = true ∧ sp_poked s = true ∧ sp_wakeupFd s = true
              else sp_armed s = true ∧ sp_poked s = false ∧ sp_wakeupFd s = true
  | PCheck | PDrain => sp_wakeupFd s = true ∧ (sp_stop s = false → sp_armed s = true ∧ sp_poked s = false)
  | PExit => sp_stop s = true
  | PDone => sp_stop s = true ∧ sp_wakeupFd s = false
  end.

Lemma stop_step_inv s o : stop_inv s → stop_inv (stop_step s o).
Proof.
  destruct s as [[] [] [] [] ph], o as [|[]], ph; cbn; naive_solver.
Qed.


(** ** Shutdown time *)

(** [Close] returns within twenty seconds per reactor, whatever their
    goroutines do; and when each event comes within its wait, it returns with
    everything finished. *)
Theorem Close_bounded now rs :
  now ≤ (Close_waits now rs).2 ≤ now + Z.of_nat (length rs) * (2 * closeReactorTimeout) ∧
  ((Close_waits now rs).1 = true → Forall (λ r, ∃ d f, r = (Some d, Some f) ∧ d ≤ (Close_waits now rs).2 ∧ f ≤ (Close_waits now rs).2) rs).
Proof.
  assert (0 < closeReactorTimeout) as Ht by (vm_compute; reflexivity).
  revert now. induction rs as [|[d f] rs IH]; intros now; cbn [Close_waits length]; [split; [cbn; lia|by constructor]|].
  assert (∀ n at_, n ≤ (wait_until n closeReactorTimeout at_).2 ≤ n + closeReactorTimeout ∧
    ((wait_until n closeReactorTimeout at_).1 = true → ∃ t, at_ = Some t ∧ t ≤ (wait_until n closeReactorTimeout at_).2)) as Hw.
  { intros n [t|]; cbn [wait_until]; [|split; [cbn; lia|done]].
    destruct (Z.leb_spec t (n + closeReactorTimeout)); cbn [fst snd]; (split; [lia|]); [|done]. intros _. exists t. split; [done|lia]. }
  pose proof (Hw now d) as [W1 D1]. destruct (wait_until now _ d) as [b1 n1]. cbn [fst snd] in *.
  pose proof (Hw n1 f) as [W2 D2]. destruct (wait_until n1 _ f) as [b2 n2]. cbn [fst snd] in *.
  specialize (IH n2). destruct (Close_waits n2 rs) as [b3 n3]. cbn [fst snd] in *. destruct IH as [I1 I2]. split; [lia|].
  intros [[B1 B2]%andb_true_iff B3]%andb_true_iff. destruct (D1 B1) as (td & -> & ?), (D2 B2) as (tf & -> & ?).
  constructor; [|by apply I2]. exists td, tf. split_and!; [done|lia|lia].
Qed.

(** ** Concrete runs *)

Lemma kernelGE_exact_witness :
  kernelGE (Some (FormatInt 6 ++ bs "." ++ FormatInt 10 ++ bs "-rc1" ++ [0])) 6 1 = true.
Proof.
  apply (kernelGE_exact 6 10 (bs "-rc1") 6 1); [unfold int64_max; lia..|vm_decide| |right; lia].
  intros c r [= <- _]. reflexivity.
Defined.

Lemma accept_loops_sound_witness :
  let a := accept_run 1 (accept_start 2) [AAccept 0 1 (Some [10; 0; 0; 1]); AAccept 1 2 (Some [10; 0; 0; 1]); AClose; AError 0 9] in
  default 0 (c_map (as_conns a) !! v4_mapped [10; 0; 0; 1]) = open_at (as_conns a) (v4_mapped [10; 0; 0; 1]) ∧
  open_at (as_conns a) (v4_mapped [10; 0; 0; 1]) ≤ 1 ∧ (ServeMulti_returned a = Some None → as_closed a = true).
Proof.
  apply (accept_loops_sound 1 2 [AAccept 0 1 (Some [10; 0; 0; 1]); AAccept 1 2 (Some [10; 0; 0; 1]); AClose; AError 0 9]
           (v4_mapped [10; 0; 0; 1])). lia.
Defined.
