(* ===== verification/PatGate.v ===== *)
(** * The data plane's token gate
    (src/internal/auth/proxygate.go, token.go, store/pg.go LookupAPIToken)

    [PATGate.Check] admits a request if its bearer token is in the gate's
    cache or in the token table.  A check is three steps, since the lock is
    not held while the database is asked; revocations and invalidations of
    other goroutines fall between them.  The token table is the set of the
    hashes its query finds.  Times are nanoseconds. *)

From stdpp Require Import base strings numbers gmap list.
From S2P Require Import Prelude GoStd Sha256.

Local Open Scope Z_scope.

Definition TokenHash (plaintext : bytes) : bytes := Sum256 plaintext.

Definition patPrefix : bytes := bs "pulsys_".

Definition IsPAT (tok : bytes) : bool := HasPrefix tok patPrefix.

(** The scheme, compared byte by byte without case. *)
Fixpoint scheme_matches (auth prefix : bytes) : bool :=
  match prefix, auth with
  | [], _ => true
  | b :: prefix, a :: auth =>
      let a := if (65 <=? a) && (a <=? 90) then a + 32 else a in
      let b := if (65 <=? b) && (b <=? 90) then b + 32 else b in
      if negb (a =? b) then false else scheme_matches auth prefix
  | _ :: _, [] => false
  end.

Definition bearerFromBytes (auth : bytes) : option bytes :=
  let prefix := bs "Bearer " in
  if (length auth <? length prefix)%nat then None
  else if negb (scheme_matches auth prefix) then None
  else
    let tok := TrimSpace (drop (length prefix) auth) in
    if (length tok =? 0)%nat then None else Some tok.

Definition gateAllow : list bytes := [bs "/healthz"; bs "/readyz"; bs "/metrics"].

Definition defaultTTL : Z := 60 * 1000000000.

Definition positiveTTL (PositiveTTL : Z) : Z := if PositiveTTL >? 0 then PositiveTTL else defaultTTL.

(** The cache maps a token's hash to the time its entry expires. *)
Abbreviation pat_cache := (gmap bytes Z).

Definition lookupCached (now : Z) (c : pat_cache) (token : bytes) : bool * pat_cache :=
  let key := TokenHash token in
  match c !! key with
  | None => (false, c)
  | Some expires => if expires <? now then (false, delete key c) else (true, c)
  end.

Definition storeCached (now ttl : Z) (c : pat_cache) (token : bytes) : pat_cache :=
  <[TokenHash token := now + positiveTTL ttl]> c.

Definition InvalidateByHash (c : pat_cache) (hash : bytes) : pat_cache :=
  if negb (length hash =? 32)%nat then c else delete hash c.

Definition Invalidate (c : pat_cache) (token : bytes) : pat_cache := InvalidateByHash c (TokenHash token).

(** Where a goroutine stands in [Check]. *)
Inductive gpc :=
| GAsking (tok : bytes)        (* cache miss; LookupAPIToken is next *)
| GStoring (tok : bytes).      (* the table had it; storeCached is next *)

Record PATGate := mkGate {
  g_now : Z;
  g_cache : pat_cache;
  g_table : gset bytes;              (* hashes of live tokens *)
  g_calls : gmap nat gpc;
}.

Inductive gact :=
| GCheck (id : nat) (auth path : bytes)
| GLookup (id : nat) (dberr : bool)
| GStore (id : nat)
| GGrant (hash : bytes)
| GRevoke (hash : bytes)
| GInvalidate (hash : bytes)
| GTick (d : N).

(** What [Check] returned: admitted without a token, admitted with one of
    this hash at this time, or status 401. *)
Inductive gevent :=
| GBypass (id : nat)
| GAdmit (id : nat) (hash : bytes) (at_ : Z)
| GDeny (id : nat) (status : Z).

Section gate.
Context (ttl : Z).

Definition gstep (g : PATGate) (a : gact) : PATGate * list gevent :=
  match a with
  | GCheck id auth path =>
      match g_calls g !! id with
      | Some _ => (g, [])
      | None =>
          if bool_decide (path ∈ gateAllow) then (g, [GBypass id])
          else match bearerFromBytes auth with
               | None => (g, [GDeny id 401])
               | Some tok =>
                   if negb (IsPAT tok) then (g, [GDeny id 401])
                   else
                     let '(hit, c) := lookupCached (g_now g) (g_cache g) tok in
                     if hit then (mkGate (g_now g) c (g_table g) (g_calls g), [GAdmit id (TokenHash tok) (g_now g)])
                     else (mkGate (g_now g) c (g_table g) (<[id := GAsking tok]> (g_calls g)), [])
               end
      end
  | GLookup id dberr =>
      match g_calls g !! id with
      | Some (GAsking tok) =>
          if negb dberr && bool_decide (TokenHash tok ∈ g_table g)
          then (mkGate (g_now g) (g_cache g) (g_table g) (<[id := GStoring tok]> (g_calls g)), [])
          else (mkGate (g_now g) (g_cache g) (g_table g) (delete id (g_calls g)), [GDeny id 401])
      | _ => (g, [])
      end
  | GStore id =>
      match g_calls g !! id with
      | Some (GStoring tok) =>
          (mkGate (g_now g) (storeCached (g_now g) ttl (g_cache g) tok) (g_table g) (delete id (g_calls g)),
           [GAdmit id (TokenHash tok) (g_now g)])
      | _ => (g, [])
      end
  | GGrant hash => (mkGate (g_now g) (g_cache g) ({[hash]} ∪ g_table g) (g_calls g), [])
  | GRevoke hash => (mkGate (g_now g) (g_cache g) (g_table g ∖ {[hash]}) (g_calls g), [])
  | GInvalidate hash => (mkGate (g_now g) (InvalidateByHash (g_cache g) hash) (g_table g) (g_calls g), [])
  | GTick d => (mkGate (g_now g + Z.of_N d) (g_cache g) (g_table g) (g_calls g), [])
  end.

Fixpoint grun (g : PATGate) (acts : list gact) : PATGate * list gevent :=
  match acts with
  | [] => (g, [])
  | a :: acts =>
      let '(g, ev) := gstep g a in
      let '(g, evs) := grun g acts in (g, ev ++ evs)
  end.

Definition NewPATGate : PATGate := mkGate 0 ∅ ∅ ∅.

(** No check of [hash] is between its table lookup and its cache entry. *)
Definition quiet (hash : bytes) (g : PATGate) : Prop :=
  ∀ id tok, g_calls g !! id = Some (GStoring tok) → TokenHash tok ≠ hash.

(** Not granted again. *)
Definition not_granted (hash : bytes) (acts : list gact) : Prop := Forall (.≠ GGrant hash) acts.

(** ** Invariants *)

(** Entries expire within the lifetime from now. *)
Definition fresh (g : PATGate) : Prop :=
  ∀ h e, g_cache g !! h = Some e → e ≤ g_now g + positiveTTL ttl.

Lemma lookupCached_sub now c tok :
  ∀ h e, (lookupCached now c tok).2 !! h = Some e → c !! h = Some e.
Proof.
  unfold lookupCached. intros h e. destruct (c !! TokenHash tok); [|done].
  destruct (_ <? _); [|done]. cbn. intros [_ ?]%lookup_delete_Some. done.
Qed.

Lemma Invalidate_sub c hash h e : InvalidateByHash c hash !! h = Some e → c !! h = Some e.
Proof.
  unfold InvalidateByHash. destruct (negb _); [done|]. intros [_ ?]%lookup_delete_Some. done.
Qed.

Lemma gstep_fresh g a : fresh g → fresh (gstep g a).1.
Proof.
  intros Hf. destruct a as [id auth path|id dberr|id|h0|h0|h0|d]; cbn [gstep].
  - destruct (g_calls g !! id); [done|]. destruct (bool_decide _); [done|].
    destruct (bearerFromBytes auth) as [tok|]; [|done]. destruct (negb _); [done|].
    pose proof (lookupCached_sub (g_now g) (g_cache g) tok) as Hs.
    destruct (lookupCached _ _ _) as [[] c]; intros h e Hh; apply Hs in Hh; by apply Hf in Hh.
  - destruct (g_calls g !! id) as [[]|]; try done. by destruct (_ && _).
  - destruct (g_calls g !! id) as [[]|]; try done. intros h e. cbn. unfold storeCached.
    destruct (decide (TokenHash tok = h)) as [<-|].
    + rewrite lookup_insert_eq. intros [= <-]. lia.
    + rewrite lookup_insert_ne by done. apply Hf.
  - done.
  - done.
  - intros h e Hh. cbn in *. apply Invalidate_sub in Hh. by apply Hf in Hh.
  - intros h e Hh. cbn in *. apply Hf in Hh. lia.
Qed.

Lemma grun_fresh g acts : fresh g → fresh (grun g acts).1.
Proof.
  revert g. induction acts as [|a acts IH]; intros g Hf; [done|]. cbn [grun].
  pose proof (gstep_fresh g a Hf) as H1. destruct (gstep g a) as [g1 ev]. cbn [fst] in H1.
  specialize (IH g1 H1). by destruct (grun g1 acts).
Qed.

(** A revoked hash: not in the table, no check in flight past the table, and
    what the cache has of it expires at [e]. *)
Definition revoked (hash : bytes) (e : option Z) (g : PATGate) : Prop :=
  hash ∉ g_table g ∧ quiet hash g ∧ (∀ x, g_cache g !! hash = Some x → e = Some x).

Definition within (e : option Z) (hash : bytes) (ev : gevent) : Prop :=
  match ev with
  | GAdmit _ h t => h = hash → ∃ x, e = Some x ∧ t ≤ x
  | _ => True
  end.

Lemma gstep_revoked hash e g a :
  revoked hash e g → a ≠ GGrant hash →
  revoked hash e (gstep g a).1 ∧ Forall (within e hash) (gstep g a).2.
Proof.
  intros (Ht & Hq & Hc) Ha. destruct a as [id auth path|id dberr|id|h0|h0|h0|d]; cbn [gstep].
  - destruct (g_calls g !! id); [by split; [split_and!|]|].
    destruct (bool_decide _); [by split; [split_and!|repeat constructor]|].
    destruct (bearerFromBytes auth) as [tok|]; [|by split; [split_and!|repeat constructor]].
    destruct (negb _); [by split; [split_and!|repeat constructor]|].
    pose proof (lookupCached_sub (g_now g) (g_cache g) tok) as Hs. unfold lookupCached in *.
    destruct (g_cache g !! TokenHash tok) as [x|] eqn:Ex; [destruct (Z.ltb_spec x (g_now g))|]; cbn [fst snd] in *.
    + split; [|constructor]. split_and!; [done| |eauto].
      intros id' tok'; cbn [g_calls]; intros [[? ?]|[_ ?]]%lookup_insert_Some; [done|eauto].
    + split; [by split_and!|]. constructor; [|constructor]. cbn. intros <-. eauto.
    + split; [|constructor]. split_and!; [done| |eauto].
      intros id' tok'; cbn [g_calls]; intros [[? ?]|[_ ?]]%lookup_insert_Some; [done|eauto].
  - destruct (g_calls g !! id) as [[tok|tok]|] eqn:E; try (by split; [split_and!|]).
    destruct (negb dberr && bool_decide (TokenHash tok ∈ g_table g)) eqn:Eb; cbn [fst snd].
    + apply andb_true_iff in Eb as [_ Eb]. apply bool_decide_eq_true_1 in Eb.
      split; [|constructor]. split_and!; [done| |done].
      intros id' tok'; cbn [g_calls]; intros [[_ [= <-]]|[_ ?]]%lookup_insert_Some; [congruence|eauto].
    + split; [|by repeat constructor]. split_and!; [done| |done].
      intros id' tok'; cbn [g_calls]; intros [_ ?]%lookup_delete_Some. eauto.
  - destruct (g_calls g !! id) as [[tok|tok]|] eqn:E; try (by split; [split_and!|]). cbn [fst snd].
    pose proof (Hq _ _ E) as Hne. split.
    + split_and!; [done| |].
      * intros id' tok'; cbn [g_calls]; intros [_ ?]%lookup_delete_Some. eauto.
      * cbn. unfold storeCached. intros x. rewrite lookup_insert_ne by done. apply Hc.
    + constructor; [|constructor]. cbn. congruence.
  - split; [|constructor]. split_and!; [|done|done]. cbn. set_solver.
  - split; [|constructor]. split_and!; [|done|done]. cbn. set_solver.
  - split; [|constructor]. split_and!; [done|done|]. cbn. intros x Hx%Invalidate_sub. eauto.
  - split; [|constructor]. by split_and!.
Qed.

Lemma grun_revoked hash e g acts :
  revoked hash e g → not_granted hash acts → Forall (within e hash) (grun g acts).2.
Proof.
  intros Hr Hn. revert g Hr. induction Hn as [|a acts Ha _ IH]; intros g Hr; [constructor|]. cbn [grun].
  destruct (gstep_revoked hash e g a Hr Ha) as [H1 H2]. destruct (gstep g a) as [g1 ev]. cbn [fst snd] in *.
  specialize (IH g1 H1). destruct (grun g1 acts). cbn [snd] in *. by apply Forall_app.
Qed.

(** ** Properties *)

(** revocation takes effect within the lifetime of a cache entry, and at
    once with an invalidation: from any reachable state in which no check of
    the token is between its table lookup and its cache entry, after the
    revocation every admission of the token, in any interleaving of further
    checks, happens at most [PositiveTTL] later; if its hash is invalidated
    after the revocation, it is never admitted again. *)
Theorem revocation_takes_effect pre hash post id t :
  let g := (grun NewPATGate pre).1 in
  quiet hash g → length hash = 32%nat → not_granted hash post →
  (GAdmit id hash t ∈ (grun g (GRevoke hash :: post)).2 → t ≤ g_now g + positiveTTL ttl) ∧
  GAdmit id hash t ∉ (grun g (GRevoke hash :: GInvalidate hash :: post)).2.
Proof.
  intros g Hq Hlen Hn.
  assert (fresh g) as Hf by (apply grun_fresh; intros h e He; cbn in He; by rewrite lookup_empty in He).
  assert (∀ c, (∀ x, c !! hash = Some x → g_cache g !! hash = Some x) →
    revoked hash (c !! hash) (mkGate (g_now g) c (g_table g ∖ {[hash]}) (g_calls g))) as Hr.
  { intros c Hc. split_and!; cbn; [set_solver|exact Hq|done]. }
  split.
  - cbn [grun gstep]. pose proof (grun_revoked hash _ _ post (Hr (g_cache g) ltac:(done)) Hn) as Hw.
    destruct (grun _ post) as [g' evs]. cbn [snd app] in *. intros Hin.
    rewrite Forall_forall in Hw. apply Hw in Hin. destruct (Hin eq_refl) as (x & Hx & Hle).
    apply Hf in Hx. lia.
  - cbn [grun gstep]. set (c := InvalidateByHash (g_cache g) hash).
    assert (c !! hash = None) as Hc.
    { unfold c, InvalidateByHash. rewrite Hlen. cbn. apply lookup_delete_eq. }
    pose proof (grun_revoked hash _ _ post (Hr c ltac:(intros x Hx; congruence)) Hn) as Hw.
    cbn [g_now g_cache g_table g_calls] in *. destruct (grun _ post) as [g' evs]. cbn [snd app] in *. intros Hin.
    rewrite Forall_forall in Hw. apply Hw in Hin. destruct (Hin eq_refl) as (x & Hx & _). congruence.
Qed.

End gate.

Definition sample_pat : bytes := bs "pulsys_0a1b2c3d_secret".
Definition sample_auth : bytes := bs "bearer pulsys_0a1b2c3d_secret ".
Definition sample_hash : bytes := Eval vm_compute in TokenHash sample_pat.

Lemma revocation_takes_effect_witness :
  let pre := [GGrant sample_hash; GCheck 1 sample_auth (bs "/f"); GLookup 1 false; GStore 1; GTick 5] in
  let post := [GTick 10; GCheck 2 sample_auth (bs "/f"); GLookup 2 false] in
  let g := (grun 0 NewPATGate pre).1 in
  (grun 0 g (GRevoke sample_hash :: post)).2 = [GAdmit 2 sample_hash 15] ∧
  15 ≤ g_now g + positiveTTL 0 ∧
  GAdmit 2 sample_hash 15 ∉ (grun 0 g (GRevoke sample_hash :: GInvalidate sample_hash :: post)).2.
Proof.
  intros pre post g.
  assert ((grun 0 g (GRevoke sample_hash :: post)).2 = [GAdmit 2 sample_hash 15]) as Hev by (vm_compute; reflexivity).
  destruct (revocation_takes_effect 0 pre sample_hash post 2 15) as [H1 H2].
  - intros id tok Hid. exfalso. change (g_calls g !! id = Some (GStoring tok)) in Hid.
    assert (g_calls g = ∅) as Hg by (vm_compute; reflexivity). rewrite Hg, lookup_empty in Hid. discriminate Hid.
  - reflexivity.
  - repeat constructor; discriminate.
  - split; [exact Hev|]. split; [|exact H2]. apply H1. fold g. rewrite Hev. left.
Defined.

(** an invalidation can be overtaken: a check that has read the token
    table before the revocation writes its cache entry after the
    invalidation, and the revoked token is admitted until that entry
    expires. *)
Theorem invalidation_overtaken :
  (grun 0 NewPATGate
     [GGrant sample_hash; GCheck 1 sample_auth (bs "/f"); GLookup 1 false;
      GRevoke sample_hash; GInvalidate sample_hash; GStore 1;
      GTick 59000000000; GCheck 2 sample_auth (bs "/f")]).2
  = [GAdmit 1 sample_hash 0; GAdmit 2 sample_hash 59000000000].
Proof. vm_compute. reflexivity. Qed.
