(* ===== verification/Auth.v ===== *)
(** * Admin authentication and authorisation
    (src/internal/auth/actor.go, csrf.go, middleware.go, rbac.go, token.go,
    src/internal/admin/api/authz.go, src/internal/admin/server.go)

    The chain in front of an admin handler: resolve the actor from a bearer
    token or a session cookie, check the double-submit CSRF token on mutating
    requests, require authentication, require a role or a scope.  The session
    and token tables are the store's answers, an argument of the model that
    [AdminApi.pg_store] supplies. *)

From stdpp Require Import base strings numbers gmap list.
From S2P Require Import Prelude GoStd Sha256 PatGate.

Local Open Scope Z_scope.

(** ** Actors and roles *)

Inductive ActorType := NoActor | ActorUser | ActorToken | ActorSystem.

#[export] Instance ActorType_eq_dec : EqDecision ActorType.
Proof. solve_decision. Defined.

(** Roles are strings. *)
Definition RoleOwner : bytes := bs "owner".
Definition RoleAdmin : bytes := bs "admin".
Definition RoleMember : bytes := bs "member".
Definition RoleReader : bytes := bs "reader".

Definition ParseRole (s : bytes) : option bytes :=
  if bool_decide (s ∈ [RoleOwner; RoleAdmin; RoleMember; RoleReader]) then Some s else None.

Definition Rank (r : bytes) : Z :=
  if beq r RoleOwner then 4
  else if beq r RoleAdmin then 3
  else if beq r RoleMember then 2
  else if beq r RoleReader then 1
  else 0.

Definition AtLeast (r min : bytes) : bool := Rank min <=? Rank r.

Record Actor := mkActor {
  a_Type : ActorType;
  a_TenantID : bytes;
  a_UserID : bytes;
  a_TokenID : bytes;
  a_Role : bytes;
  a_Scopes : list bytes;
  a_Email : bytes;
}.

Definition zeroActor : Actor := mkActor NoActor [] [] [] [] [] [].

Definition HasScope (a : Actor) (scope : bytes) : bool :=
  match a_Type a with
  | NoActor => false
  | t =>
      if bool_decide (t = ActorUser) && AtLeast (a_Role a) RoleAdmin then true
      else existsb (fun s => beq s scope || beq s (bs "*")) (a_Scopes a)
  end.

Definition RoleFromGroups (groups ownerGroups adminGroups : list bytes) (defaultRole : bytes) : bytes :=
  if existsb (fun g => bool_decide (g ∈ groups)) ownerGroups then RoleOwner
  else if existsb (fun g => bool_decide (g ∈ groups)) adminGroups then RoleAdmin
  else defaultRole.

(** ** Requests *)

(** What the chain reads of an http.Request: the parsed header fields and
    cookies. *)
Record HttpRequest := mkHttp {
  q_Method : bytes;
  q_Path : bytes;
  q_Authorization : bytes;             (* Header.Get *)
  q_CSRFHeader : bytes;                (* Header.Get *)
  q_SessionCookie : option bytes;      (* Cookie *)
  q_CSRFCookie : option bytes;
}.

Definition ParseBearer (h : bytes) : option bytes :=
  let pfx := bs "Bearer " in
  if (length h <? length pfx)%nat || negb (scheme_matches (take (length pfx) h) pfx) then None
  else
    let tok := TrimSpace (drop (length pfx) h) in
    if beq tok [] then None else Some tok.

Definition SafeMethod (m : bytes) : bool := bool_decide (m ∈ [bs "GET"; bs "HEAD"; bs "OPTIONS"]).

Definition CSRFExemptPath (p : bytes) : bool := bool_decide (p ∈ [bs "/auth/session"; bs "/auth/oidc/config"]).

Definition ValidateCSRF (r : HttpRequest) (actor : Actor) (sessionCSRF : bytes) : bool :=
  match a_Type actor with
  | ActorToken => true
  | ActorUser =>
      if beq sessionCSRF [] then false
      else
        let header := TrimSpace (q_CSRFHeader r) in
        if beq header [] then false
        else if negb (beq header sessionCSRF) then false
        else match q_CSRFCookie r with
             | None => false
             | Some v => if beq v [] then false else beq v header
             end
  | _ => false
  end.

(** ** The chain *)

(** The store: a session's CSRF token, its user's tenant, id, role and email;
    a token's tenant, id, owner and scopes. *)
Record UserRow := mkUser { u_Tenant : bytes; u_ID : bytes; u_Role : bytes; u_Email : bytes }.
Record TokenRow := mkToken { t_Tenant : bytes; t_ID : bytes; t_User : bytes; t_Scopes : list bytes }.

Inductive auth_error := ErrInvalidSession | ErrStore.

Record AuthStore := mkAuthStore {
  LookupSession : bytes → result auth_error (bytes * UserRow);
  LookupAPIToken : bytes → result auth_error TokenRow;
}.

(** The handler ran for this actor, or the status written instead. *)
Inductive reply := Served (a : Actor) | Refused (status : Z).

Section chain.
Context (st : AuthStore).

Definition actorFromSession (plain : bytes) : result auth_error (Actor * bytes) :=
  match LookupSession st plain with
  | Err e => Err e
  | Ok (csrf, u) => Ok (mkActor ActorUser (u_Tenant u) (u_ID u) [] (u_Role u) [] (u_Email u), csrf)
  end.

Definition actorFromPAT (plain : bytes) : result auth_error Actor :=
  match LookupAPIToken st plain with
  | Err e => Err e
  | Ok t => Ok (mkActor ActorToken (t_Tenant t) (t_User t) (t_ID t) [] (t_Scopes t) [])
  end.

(** The bearer token the chain looks at. *)
Definition presented_pat (r : HttpRequest) : option bytes :=
  match ParseBearer (q_Authorization r) with
  | Some tok => if IsPAT tok then Some tok else None
  | None => None
  end.

Definition ActorFromRequest (r : HttpRequest) : result auth_error (Actor * bytes) :=
  match presented_pat r with
  | Some tok => match actorFromPAT tok with Ok a => Ok (a, []) | Err e => Err e end
  | None =>
      match q_SessionCookie r with
      | Some v => if beq v [] then Ok (zeroActor, []) else actorFromSession v
      | None => Ok (zeroActor, [])
      end
  end.

(** A handler sees the request, the actor and the CSRF token of its context. *)
Abbreviation handler := (HttpRequest → Actor → bytes → reply).

Definition Middleware (next : handler) (r : HttpRequest) : reply :=
  match ActorFromRequest r with
  | Err _ => Refused 401
  | Ok (actor, csrf) => next r actor csrf
  end.

Definition CSRFProtect (next : handler) : handler := fun r actor csrf =>
  if SafeMethod (q_Method r) || CSRFExemptPath (q_Path r) then next r actor csrf
  else if bool_decide (a_Type actor = NoActor) then next r actor csrf
  else if negb (ValidateCSRF r actor csrf) then Refused 403
  else next r actor csrf.

Definition requireAuthenticated (next : handler) : handler := fun r actor csrf =>
  if bool_decide (a_Type actor = NoActor) then Refused 401 else next r actor csrf.

Definition requireAccess (minRole tokenScope : bytes) (next : handler) : handler := fun r actor csrf =>
  match a_Type actor with
  | NoActor => Refused 401
  | ActorUser => if negb (AtLeast (a_Role actor) minRole) then Refused 403 else next r actor csrf
  | ActorToken =>
      if negb (HasScope actor tokenScope) && negb (HasScope actor (bs "admin:*")) then Refused 403
      else next r actor csrf
  | ActorSystem => Refused 403
  end.

Definition RequireRole (min : bytes) (next : handler) : handler := fun r actor csrf =>
  if negb (bool_decide (a_Type actor = ActorUser)) || negb (AtLeast (a_Role actor) min) then Refused 403
  else next r actor csrf.

(** An /admin/ route. *)
Definition admin_route (minRole tokenScope : bytes) (r : HttpRequest) : reply :=
  Middleware (CSRFProtect (requireAuthenticated (requireAccess minRole tokenScope (fun _ a _ => Served a)))) r.

(** ** Specification *)

(** The double-submit check: header, cookie and session token are the same
    non-empty string. *)
Definition csrf_ok (r : HttpRequest) (csrf : bytes) : Prop :=
  csrf ≠ [] ∧ TrimSpace (q_CSRFHeader r) = csrf ∧ q_CSRFCookie r = Some csrf.

Definition token_allows (scopes : list bytes) (scope : bytes) : Prop :=
  scope ∈ scopes ∨ bs "admin:*" ∈ scopes ∨ bs "*" ∈ scopes.

(** Why an admin route may run. *)
Definition authorised (minRole scope : bytes) (r : HttpRequest) : Prop :=
  match presented_pat r with
  | Some tok => ∃ t, LookupAPIToken st tok = Ok t ∧ token_allows (t_Scopes t) scope
  | None =>
      ∃ v csrf u, q_SessionCookie r = Some v ∧ v ≠ [] ∧ LookupSession st v = Ok (csrf, u)
        ∧ Rank minRole ≤ Rank (u_Role u)
        ∧ (SafeMethod (q_Method r) = true ∨ CSRFExemptPath (q_Path r) = true ∨ csrf_ok r csrf)
  end.

Lemma ValidateCSRF_user r a csrf :
  a_Type a = ActorUser → ValidateCSRF r a csrf = true ↔ csrf_ok r csrf.
Proof.
  intros Ht. unfold ValidateCSRF, csrf_ok. rewrite Ht.
  destruct (beq csrf []) eqn:E1; [apply beq_true in E1; by split; [|intros [? _]]|].
  apply beq_false in E1. cbv zeta.
  destruct (beq (TrimSpace _) csrf) eqn:E3.
  2:{ destruct (beq _ []); (split; [done|]); intros (_ & E & _); apply beq_false in E3; by apply E3 in E. }
  apply beq_true in E3. rewrite E3. rewrite (proj2 (beq_false _ _) E1). cbn [negb].
  destruct (q_CSRFCookie r) as [v|]; [|by split; [|intros (_ & _ & ?)]].
  destruct (beq v []) eqn:E4.
  - apply beq_true in E4 as ->. split; [done|]. by intros (_ & _ & [= <-]).
  - rewrite beq_true. split; [by intros ->|]. by intros (_ & _ & [= ->]).
Qed.

Lemma HasScope_token a scope :
  a_Type a = ActorToken → HasScope a scope = true ↔ scope ∈ a_Scopes a ∨ bs "*" ∈ a_Scopes a.
Proof.
  intros Ht. unfold HasScope. rewrite Ht. change (bool_decide (ActorToken = ActorUser)) with false.
  cbn [andb]. induction (a_Scopes a) as [|s l IH]; cbn [existsb]; [set_solver|].
  rewrite !orb_true_iff, !beq_true, IH, !elem_of_cons.
  split; [intros [[->| ->]|[?|?]]; auto|intros [[->|?]|[<-|?]]; auto].
Qed.

Lemma token_access a scope :
  a_Type a = ActorToken →
  negb (HasScope a scope) && negb (HasScope a (bs "admin:*")) = false ↔ token_allows (a_Scopes a) scope.
Proof.
  intros Ht. rewrite andb_false_iff, !negb_false_iff, !HasScope_token by done. unfold token_allows. tauto.
Qed.

Lemma served_if (b : bool) a n : (∃ x, (if b then Refused n else Served a) = Served x) ↔ b = false.
Proof. destruct b; split; [by intros [? ?]|done|done|by eexists]. Qed.

Lemma refused_none n (P : Prop) : ¬ P → (∃ x, Refused n = Served x) ↔ P.
Proof. intros HP. split; [by intros [? ?]|done]. Qed.

(** The chain for a token actor and for a session user. *)
Lemma token_route minRole scope r t csrf :
  let a := mkActor ActorToken (t_Tenant t) (t_User t) (t_ID t) [] (t_Scopes t) [] in
  (∃ x, CSRFProtect (requireAuthenticated (requireAccess minRole scope (fun _ a _ => Served a))) r a csrf = Served x)
  ↔ token_allows (t_Scopes t) scope.
Proof.
  intros a.
  assert (CSRFProtect (requireAuthenticated (requireAccess minRole scope (fun _ a _ => Served a))) r a csrf
          = if negb (HasScope a scope) && negb (HasScope a (bs "admin:*")) then Refused 403 else Served a) as ->.
  { unfold CSRFProtect. by destruct (SafeMethod (q_Method r) || CSRFExemptPath (q_Path r)). }
  rewrite served_if. apply (token_access a). done.
Qed.

Lemma user_route minRole scope r u csrf :
  let a := mkActor ActorUser (u_Tenant u) (u_ID u) [] (u_Role u) [] (u_Email u) in
  (∃ x, CSRFProtect (requireAuthenticated (requireAccess minRole scope (fun _ a _ => Served a))) r a csrf = Served x)
  ↔ Rank minRole ≤ Rank (u_Role u)
    ∧ (SafeMethod (q_Method r) = true ∨ CSRFExemptPath (q_Path r) = true ∨ csrf_ok r csrf).
Proof.
  intros a. rewrite <-(ValidateCSRF_user r a csrf eq_refl), <-!orb_true_iff, orb_assoc.
  assert (CSRFProtect (requireAuthenticated (requireAccess minRole scope (fun _ a _ => Served a))) r a csrf
          = if negb ((SafeMethod (q_Method r) || CSRFExemptPath (q_Path r)) || ValidateCSRF r a csrf)
            then Refused 403 else if negb (AtLeast (u_Role u) minRole) then Refused 403 else Served a) as ->.
  { unfold CSRFProtect. destruct (SafeMethod (q_Method r) || CSRFExemptPath (q_Path r)); [done|].
    cbn [orb]. by destruct (ValidateCSRF r a csrf). }
  destruct (_ || _); cbn [negb]; [|apply refused_none; by intros [_ ?]].
  rewrite served_if, negb_false_iff. unfold AtLeast. rewrite Z.leb_le. tauto.
Qed.

Lemma anonymous_route minRole scope r csrf :
  ¬ ∃ x, CSRFProtect (requireAuthenticated (requireAccess minRole scope (fun _ a _ => Served a))) r zeroActor csrf = Served x.
Proof. unfold CSRFProtect, requireAuthenticated. cbn. by destruct (_ || _); intros [? ?]. Qed.

(** who reaches an admin handler: a request whose bearer is a Pulsys token
    is served exactly when the token table has it with the route's scope or a
    wildcard; any other request exactly when its session cookie belongs to a
    live session of a user of at least the route's role and, unless the method
    is safe or the path exempt, the CSRF header, the CSRF cookie and the
    session's token agree. *)
Theorem admin_route_exact minRole scope r :
  (∃ a, admin_route minRole scope r = Served a) ↔ authorised minRole scope r.
Proof.
  unfold admin_route, Middleware, ActorFromRequest, authorised.
  destruct (presented_pat r) as [tok|].
  - unfold actorFromPAT. destruct (LookupAPIToken st tok) as [t|e].
    + rewrite token_route. split; [by exists t|]. by intros (t' & [= <-] & ?).
    + apply refused_none. by intros (t & ? & _).
  - destruct (q_SessionCookie r) as [v|].
    2:{ split; [by intros ?%anonymous_route|]. by intros (? & ? & ? & ? & _). }
    destruct (beq v []) eqn:Ev.
    { apply beq_true in Ev. split; [by intros ?%anonymous_route|]. by intros (? & ? & ? & [= <-] & ? & _). }
    apply beq_false in Ev. unfold actorFromSession. destruct (LookupSession st v) as [[csrf u]|e] eqn:El.
    + rewrite user_route. split.
      * intros [? ?]. by exists v, csrf, u.
      * intros (v' & csrf' & u' & [= <-] & _ & Hl & ? & ?). rewrite El in Hl. injection Hl as <- <-. done.
    + apply refused_none. intros (v' & csrf' & u' & [= <-] & _ & Hl & _). congruence.
Qed.

End chain.
