(* ===== verification/Models.v ===== *)
(** * Which model owns a cached body
    (src/internal/admin/models/cache.go, src/internal/admin/api/handler.go)

    Bodies are shared between repositories; their metadata lists the request
    paths that led to them.  The admin API purges a repository by trimming it
    from that list, and removes a body only when nobody is left.  The listing
    aggregates entries by repository. *)

From stdpp Require Import base strings numbers gmap list sorting.
From S2P Require Import Prelude GoStd Spans Store.

Local Open Scope Z_scope.
Local Open Scope go_scope.

Definition slash : Z := 47.

(** [(org, name, rev)] of the cache path shapes. *)
Definition ParseHFModelPath (p : bytes) : option (bytes * bytes * bytes) :=
  let parts := Split (TrimPrefix p (bs "/")) slash in
  let typed (l : list bytes) (kinds : list bytes) :=
    match l with k :: l' => if bool_decide (k ∈ kinds) then l' else l | [] => l end in
  let plain :=
    match typed parts [bs "datasets"; bs "spaces"] with
    | org :: name :: kind :: rev :: _ :: _ =>
        if negb (beq kind (bs "resolve")) then None else Some (org, name, rev)
    | _ => None
    end in
  match parts with
  | a :: b :: c :: rest =>
      if beq a (bs "api") && beq b (bs "resolve-cache") then
        match typed (c :: rest) [bs "models"; bs "datasets"; bs "spaces"] with
        | org :: name :: rev :: _ :: _ => Some (org, name, rev)
        | _ => None
        end
      else plain
  | _ => plain
  end.

Definition matches (p org name : bytes) : bool :=
  if beq p [] then false
  else match ParseHFModelPath p with
       | Some (o, n, _) => beq o org && beq n name
       | None => false
       end.

Definition parses (p : bytes) : bool := bool_decide (is_Some (ParseHFModelPath p)).

(** The first element that parses. *)
Fixpoint first_parse (l : list bytes) : option (bytes * bytes * bytes) :=
  match l with
  | [] => None
  | p :: l => match ParseHFModelPath p with Some r => Some r | None => first_parse l end
  end.

Definition PrimaryAttribution (m : Meta) : option (bytes * bytes * bytes) :=
  let rest := match first_parse (OriginPaths m) with Some r => Some r | None => ParseHFModelPath (Path m) end in
  if negb (beq (OriginPath m) []) then
    match ParseHFModelPath (OriginPath m) with Some r => Some r | None => rest end
  else rest.

(** The path the listing attributes an entry by. *)
Definition attributionPath (m : Meta) : bytes :=
  if negb (beq (OriginPath m) []) then OriginPath m
  else match List.find (fun op => negb (beq op [])) (OriginPaths m) with
       | Some op => op
       | None => Path m
       end.

Definition OwnedBy (m : Meta) (org name : bytes) : bool :=
  if matches (OriginPath m) org name then true
  else if existsb (fun op => matches op org name) (OriginPaths m) then true
  else matches (Path m) org name.

Definition with_origins (m : Meta) (op : bytes) (ops : list bytes) : Meta :=
  mkMeta (Version m) (UpstreamHost m) (Path m) (RawQuery m) (Spans m) (Total m) (ETag m) (ContentType m)
    (StatusCode m) (Location m) (ExtraHeaders m) (AliasOf m) op ops.

Definition RemoveOwner (m : Meta) (org name : bytes) : Meta :=
  let ops := List.filter (fun op => negb (matches op org name)) (OriginPaths m) in
  if matches (OriginPath m) org name then
    with_origins m (match ops with op :: _ => op | [] => [] end) ops
  else with_origins m (OriginPath m) ops.

Definition HasAnyOwner (m : Meta) : bool :=
  if negb (beq (OriginPath m) []) && parses (OriginPath m) then true
  else existsb parses (OriginPaths m).

(** The callback [purgeCacheByPrefix] passes to [PurgeOrTrim]. *)
Definition purge_decision (org name : bytes) (key : bytes) (m : Meta) : PurgeDecision * option Meta :=
  if negb (OwnedBy m org name) then (DecisionKeep, None)
  else
    let trimmed := RemoveOwner m org name in
    if negb (HasAnyOwner trimmed) then (DecisionRemove, None) else (DecisionTrim, Some trimmed).

Definition name_byte (c : Z) : bool :=
  ((97 <=? c) && (c <=? 122)) || ((65 <=? c) && (c <=? 90)) || ((48 <=? c) && (c <=? 57))
  || (c =? 45) || (c =? 95) || (c =? 46).

Definition validHFNameSegment (s : bytes) : bool :=
  if beq s [] || (96 <? length s)%nat then false
  else match s with
       | 46 :: _ => false
       | _ => if beq s (bs "..") || beq s (bs ".") then false else forallb name_byte s
       end.

Definition validHFRepoID (s : bytes) : bool :=
  let parts := Split s slash in
  if (length parts <? 1)%nat || (2 <? length parts)%nat then false else forallb validHFNameSegment parts.

Definition validHFRevision (s : bytes) : bool :=
  if beq s [] || (128 <? length s)%nat then false
  else match s with
       | 46 :: _ => false
       | _ => if beq s (bs ".") || beq s (bs "..") || Contains s (bs "..") then false
              else forallb (fun c => name_byte c || (c =? slash)) s
       end.

Section purge.
Context {C : Type} `{MetaCache C}.
Implicit Type s : Store C.

(** The handler after decoding its body: the status and the counts returned;
    the audit record is in [AdminApi.purgeCache]. *)
Definition purgeCacheByPrefix (x : faults) (rmerr : bool) (order : list bytes) s (org name : bytes)
    : (Z * PurgeResult) * Store C :=
  if beq org [] || beq name [] then ((400, mkPurge 0 0 0), s)
  else if negb (validHFNameSegment org) then ((400, mkPurge 0 0 0), s)
  else if negb (validHFNameSegment name) then ((400, mkPurge 0 0 0), s)
  else match PurgeOrTrim x rmerr (purge_decision org name) order s with
       | (Some _, s, res) => ((500, res), s)
       | (None, s, res) => ((200, res), s)
       end.

(** ** Owners *)

(** [(org, name)] is recorded as an owner through a request path. *)
Definition origin_owned (m : Meta) (org name : bytes) : Prop :=
  ∃ p, (p = OriginPath m ∨ p ∈ OriginPaths m) ∧ matches p org name = true.

Lemma matches_other p o n o' n' : matches p o n = true → matches p o' n' = true → (o, n) = (o', n').
Proof.
  unfold matches. destruct (beq p []); [done|]. destruct (ParseHFModelPath p) as [[[a b] c]|]; [|done].
  rewrite !andb_true_iff, !beq_true. naive_solver.
Qed.

Lemma matches_parses p o n : matches p o n = true → p ≠ [] ∧ parses p = true.
Proof.
  unfold matches, parses. destruct (beq p []) eqn:E; [done|]. apply beq_false in E.
  destruct (ParseHFModelPath p); [|done]. by intros _.
Qed.

Lemma existsb_elem {A} (f : A → bool) l : existsb f l = true ↔ ∃ x, x ∈ l ∧ f x = true.
Proof. rewrite existsb_exists. setoid_rewrite list_elem_of_In. done. Qed.

Lemma origin_OwnedBy m o n : origin_owned m o n → OwnedBy m o n = true.
Proof.
  intros (p & [->|Hp] & Hm); unfold OwnedBy; [by rewrite Hm|].
  destruct (matches (OriginPath m) o n); [done|].
  assert (existsb (λ op, matches op o n) (OriginPaths m) = true) as ->; [|done].
  apply existsb_elem. eauto.
Qed.

Lemma filter_elem f (l : list bytes) x : x ∈ List.filter f l ↔ x ∈ l ∧ f x = true.
Proof. rewrite !list_elem_of_In, filter_In. done. Qed.

(** Trimming an owner removes it and nobody else. *)
Lemma RemoveOwner_owned m org name o n :
  origin_owned (RemoveOwner m org name) o n ↔ origin_owned m o n ∧ (o, n) ≠ (org, name).
Proof.
  unfold RemoveOwner, origin_owned. set (ops := List.filter _ _).
  assert (∀ p, p ∈ ops → p ∈ OriginPaths m ∧ matches p org name = false) as Hops.
  { intros p Hp. apply filter_elem in Hp as [? Hp]. by apply negb_true_iff in Hp. }
  assert (∀ p, p ∈ OriginPaths m → matches p o n = true → (o, n) ≠ (org, name) → p ∈ ops) as Hkeep.
  { intros p Hp Hm Hne. apply filter_elem. split; [done|]. apply negb_true_iff.
    destruct (matches p org name) eqn:E; [|done]. by destruct Hne; eapply matches_other. }
  assert (∀ p, matches p org name = false → matches p o n = true → (o, n) ≠ (org, name)) as Hdiff.
  { intros p Hf Ht [= -> ->]. congruence. }
  destruct (matches (OriginPath m) org name) eqn:Eo; cbn [with_origins OriginPath OriginPaths].
  - split.
    + intros (p & Hp & Hm). assert (p ∈ ops) as Hin.
      { destruct Hp as [->|?]; [|done]. destruct ops as [|q ops]; [done|left]. }
      destruct (Hops p Hin) as [Hi Hf]. split; [eauto|by eapply Hdiff].
    + intros [(p & [->|Hp] & Hm) Hne]; [by destruct Hne; eapply matches_other|]. eauto 6.
  - split.
    + intros (p & [->|Hp] & Hm); [split; [eauto|by eapply Hdiff]|].
      destruct (Hops p Hp). split; [eauto|by eapply Hdiff].
    + intros [(p & [->|Hp] & Hm) Hne]; eauto 6.
Qed.

Lemma HasAnyOwner_owned m o n : origin_owned m o n → HasAnyOwner m = true.
Proof.
  intros (p & Hp & Hm). apply matches_parses in Hm as [Hne Hparse]. unfold HasAnyOwner.
  destruct Hp as [->|Hp].
  - apply beq_false in Hne. by rewrite Hne, Hparse.
  - destruct (_ && _); [done|]. apply existsb_elem. eauto.
Qed.

(** What a purge decides about an entry another model owns. *)
Lemma purge_decision_other org name key m o n :
  origin_owned m o n → (o, n) ≠ (org, name) →
  purge_decision org name key m = (DecisionKeep, None) ∨
  purge_decision org name key m = (DecisionTrim, Some (RemoveOwner m org name)).
Proof.
  intros Ho Hne. unfold purge_decision. destruct (negb (OwnedBy m org name)); [by left|right].
  rewrite (HasAnyOwner_owned (RemoveOwner m org name) o n); [done|]. by apply RemoveOwner_owned.
Qed.

Lemma RemoveOwner_spans m org name : Spans (RemoveOwner m org name) = Spans m.
Proof. unfold RemoveOwner. by destruct (matches _ _ _). Qed.

(** ** Purging a store *)

(** The entry of [key]: still owned by [(o, n)], same spans, same file. *)
Definition still_owned (o n : bytes) (key : bytes) (sp : list Span) (b : option nat) (f : option bytes) s : Prop :=
  (∃ m, readMetaLocked s key = Some m ∧ origin_owned m o n ∧ Spans m = sp)
  ∧ bodies s !! key = b ∧ (i ← b; inodes s !! i) = f.

Lemma remove_still o n key sp b f s k x rmerr res (m m0 : Meta) t :
  readMetaLocked s key = Some m0 → origin_owned m0 o n → Spans m0 = sp →
  bodies s !! key = b → (i ← b; inodes s !! i) = f → k ≠ key →
  still_owned o n key sp b f (purge_one x rmerr s res k m (DecisionRemove, t)).1.2.
Proof.
  intros Hm Ho Hsp Hb Hf Hne. cbn [purge_one]. destruct rmerr; cbn [fst snd]; [split; [by exists m0|done]|].
  generalize (match Total m with Some t => t | None => 0 end). intros freed.
  set (s1 := with_files s _ _ _).
  assert (metas (purge_account s1 freed) = metas s1 ∧ bodies (purge_account s1 freed) = bodies s1
          ∧ inodes (purge_account s1 freed) = inodes s1) as (E1 & E2 & E3)
    by (unfold purge_account; by repeat case_match).
  unfold still_owned, readMetaLocked. cbn [with_cache metas bodies inodes]. rewrite E1, E2, E3. cbn [s1 with_files metas bodies inodes].
  rewrite !lookup_delete_ne by done. split; [|done]. exists m0. done.
Qed.

Lemma purge_one_still x rmerr org name o n key sp b f s res k m :
  (o, n) ≠ (org, name) → still_owned o n key sp b f s → readMetaLocked s k = Some m →
  still_owned o n key sp b f (purge_one x rmerr s res k m (purge_decision org name k m)).1.2.
Proof.
  intros Hne Hst Hk. destruct (decide (k = key)) as [->|Hkk].
  - destruct Hst as ((m0 & Hm & Ho & Hsp) & Hb). rewrite Hk in Hm. injection Hm as <-.
    destruct (purge_decision_other org name key m o n Ho Hne) as [->| ->]; cbn.
    { split; [by exists m|done]. }
    unfold writeMetaLocked. destruct (_ || _); cbn; [split; [by exists m|done]|].
    split; [|done]. exists (RemoveOwner m org name). split_and!.
    + unfold readMetaLocked. cbn. by rewrite lookup_insert_eq.
    + by apply RemoveOwner_owned.
    + by rewrite RemoveOwner_spans.
  - destruct Hst as ((m0 & Hm & Ho & Hsp) & Hb & Hf).
    destruct (purge_decision org name k m) as [[| |] t]; [split; [by exists m0|done]| |by eapply remove_still].
    destruct t as [t|]; cbn; [|split; [by exists m0|done]].
    unfold writeMetaLocked. destruct (_ || _); cbn; [split; [by exists m0|done]|].
    split; [|done]. exists m0. split; [|done]. unfold readMetaLocked in *. cbn. by rewrite lookup_insert_ne.
Qed.

Lemma purge_walk_still x rmerr org name o n key sp b f s res keys :
  (o, n) ≠ (org, name) → still_owned o n key sp b f s →
  still_owned o n key sp b f (purge_walk x rmerr (purge_decision org name) s res keys).1.2.
Proof.
  intros Hne. revert s res. induction keys as [|k keys IH]; intros s res Hst; cbn; [done|].
  destruct (readMetaLocked s k) as [m|] eqn:Ek; [|by apply IH].
  pose proof (purge_one_still x rmerr org name o n key sp b f s res k m Hne Hst Ek) as H1.
  destruct (purge_one _ _ _ _ _ _ _) as [[[e|] s1] res1]; [done|]. by apply IH.
Qed.

Definition gone (org name key : bytes) s : Prop :=
  ∀ m, readMetaLocked s key = Some m → ¬ origin_owned m org name.

(** The metadata one iteration leaves. *)
Lemma purge_one_meta x rmerr org name s res k m key m' :
  readMetaLocked s k = Some m →
  readMetaLocked (purge_one x rmerr s res k m (purge_decision org name k m)).1.2 key = Some m' →
  readMetaLocked s key = Some m' ∨ (key = k ∧ m' = RemoveOwner m org name).
Proof.
  intros Hk. unfold purge_decision. destruct (negb _); [by left|]. destruct (negb _); cbn.
  - destruct rmerr; cbn; [by left|]. generalize (match Total m with Some t => t | None => 0 end). intros freed.
    set (s1 := with_files s _ _ _).
    assert (metas (purge_account s1 freed) = metas s1) as E1 by (unfold purge_account; by repeat case_match).
    unfold readMetaLocked. cbn [with_cache metas]. rewrite E1. cbn [s1 with_files metas].
    destruct (decide (k = key)) as [->|]; [by rewrite lookup_delete_eq|]. rewrite lookup_delete_ne by done. by left.
  - unfold writeMetaLocked. destruct (_ || _); cbn; [by left|]. unfold readMetaLocked. cbn.
    destruct (decide (k = key)) as [->|]; [rewrite lookup_insert_eq; intros [= <-]; by right|].
    rewrite lookup_insert_ne by done. by left.
Qed.

Lemma purge_one_gone x rmerr org name s res k m key s1 res1 :
  readMetaLocked s k = Some m →
  purge_one x rmerr s res k m (purge_decision org name k m) = (None, s1, res1) →
  key = k ∨ gone org name key s → gone org name key s1.
Proof.
  intros Hk Hp Hor m' Hm' Ho. pose proof (purge_one_meta x rmerr org name s res k m key m' Hk) as Hmeta.
  rewrite Hp in Hmeta. cbn in Hmeta. destruct (Hmeta Hm') as [Hm|[-> ->]].
  2:{ apply RemoveOwner_owned in Ho as [_ Hne]. done. }
  destruct Hor as [->|Hg]; [|by apply (Hg m')]. rewrite Hk in Hm. injection Hm as <-.
  unfold purge_decision in Hp. rewrite (origin_OwnedBy m org name Ho) in Hp. cbn [negb] in Hp.
  unfold readMetaLocked in Hm'. destruct (negb _); cbn in Hp.
  - destruct rmerr; [done|]. injection Hp as <- _. revert Hm'.
    generalize (match Total m with Some t => t | None => 0 end). intros freed.
    set (s2 := with_files s _ _ _).
    assert (metas (purge_account s2 freed) = metas s2) as E1 by (unfold purge_account; by repeat case_match).
    cbn [with_cache metas]. rewrite E1. cbn. by rewrite lookup_delete_eq.
  - unfold writeMetaLocked in Hp. destruct (_ || _); [done|]. injection Hp as <- _. cbn in Hm'.
    rewrite lookup_insert_eq in Hm'. injection Hm' as Hm'. rewrite <-Hm' in Ho.
    by apply RemoveOwner_owned in Ho as [_ ?].
Qed.

Lemma purge_walk_gone x rmerr org name key s res keys s' res' :
  purge_walk x rmerr (purge_decision org name) s res keys = (None, s', res') →
  key ∈ keys ∨ gone org name key s → gone org name key s'.
Proof.
  revert s res. induction keys as [|k keys IH]; intros s res; cbn.
  { intros [= <- <-] [?%elem_of_nil|?]; done. }
  destruct (readMetaLocked s k) as [m|] eqn:Ek.
  - destruct (purge_one _ _ _ _ _ _ _) as [[[e|] s1] res1] eqn:E1; [done|]. intros Hw Hor.
    apply (IH s1 res1 Hw). destruct Hor as [[->|?]%elem_of_cons|?]; [right|by left|right];
      eapply purge_one_gone; eauto.
  - intros Hw Hor. apply (IH s res Hw). destruct Hor as [[->|?]%elem_of_cons|?]; [right|by left|by right].
    intros m Hm. congruence.
Qed.

(** ** Properties *)

(** purging a repository leaves the others intact: an entry that another
    repository owns through a request path keeps that owner, its spans and its
    file, whatever fails on the way; and when the purge reports success, no
    visited entry lists the purged repository any more. *)
Theorem purge_preserves_other_owners x rmerr order s org name :
  let '((status, _), s') := purgeCacheByPrefix x rmerr order s org name in
  (∀ key m o n, readMetaLocked s key = Some m → origin_owned m o n → (o, n) ≠ (org, name) →
     (∃ m', readMetaLocked s' key = Some m' ∧ origin_owned m' o n ∧ Spans m' = Spans m)
     ∧ ∀ a b, read_body s' key a b = read_body s key a b) ∧
  (status = 200 → ∀ key m, key ∈ order → readMetaLocked s' key = Some m → ¬ origin_owned m org name).
Proof.
  assert (∀ res : Z * PurgeResult,
    (∀ key m o n, readMetaLocked s key = Some m → origin_owned m o n → (o, n) ≠ (org, name) →
     (∃ m', readMetaLocked s key = Some m' ∧ origin_owned m' o n ∧ Spans m' = Spans m)
     ∧ ∀ a b, read_body s key a b = read_body s key a b)) as Hsame by (intros _ key m o n ? ? ?; eauto).
  unfold purgeCacheByPrefix. destruct (_ || _); [by split; [apply (Hsame (0, mkPurge 0 0 0))|]|].
  destruct (negb _); [by split; [apply (Hsame (0, mkPurge 0 0 0))|]|].
  destruct (negb _); [by split; [apply (Hsame (0, mkPurge 0 0 0))|]|].
  unfold PurgeOrTrim. destruct (purge_walk _ _ _ _ _ _) as [[e s'] res'] eqn:Ew.
  assert (∀ key m o n, readMetaLocked s key = Some m → origin_owned m o n → (o, n) ≠ (org, name) →
     (∃ m', readMetaLocked s' key = Some m' ∧ origin_owned m' o n ∧ Spans m' = Spans m)
     ∧ ∀ a b, read_body s' key a b = read_body s key a b) as Hkeep.
  { intros key m o n Hm Ho Hne.
    assert (still_owned o n key (Spans m) (bodies s !! key) (i ← bodies s !! key; inodes s !! i) s') as (Hmm & Hb & Hf).
    { change s' with ((e, s', res').1.2). rewrite <-Ew. apply purge_walk_still; [done|]. split; [by exists m|done]. }
    split; [done|]. intros a b. unfold read_body. rewrite Hb.
    destruct (bodies s !! key) as [i|]; [|done]. cbn in *. by rewrite Hf. }
  destruct e as [e|]; (split; [exact Hkeep|]); [done|]. intros _ key m Hin Hm.
  eapply purge_walk_gone; [exact Ew|by left|exact Hm].
Qed.

End purge.
