(* ===== verification/Listing.v ===== *)
(** * The model-first cache inventory (src/internal/admin/models/cache.go)

    [ListGroupedFromCache] folds the metadata files, in directory order, into
    one group per repository and sorts the groups.  The per-file rows
    ([includeFiles]) are presentation only and are left out. *)

From stdpp Require Import base strings numbers gmap list sorting.
From S2P Require Import Prelude GoStd Spans Store Models.

Local Open Scope Z_scope.
Local Open Scope go_scope.

Record ModelGroup := mkGroup {
  mg_Org : bytes;
  mg_Name : bytes;
  mg_Revisions : gset bytes;       (* revSets; sorted on output *)
  mg_Upstream : bytes;
  mg_FileCount : Z;
  mg_TotalBytes : Z;
}.

Record scan := mkScan {
  sc_groups : gmap (bytes * bytes) ModelGroup;
  sc_seen : gset bytes;
  sc_total : Z;
  sc_scanned : Z;
}.

Definition base_name (p : bytes) : bytes :=
  match LastIndexByte p slash with Some i => drop (S i) p | None => p end.

Definition dedupe_key (org name rev base : bytes) : bytes :=
  org ++ bs "|" ++ name ++ bs "|" ++ rev ++ bs "|" ++ base.

(** One entry that is not a duplicate: [g.FileCount++] and the totals. *)
Definition scan_add (sc : scan) (m : Meta) (org name rev : bytes) (key : bytes) : scan :=
  let n := match Total m with Some t => t | None => 0 end in
  let gk := (org, name) in
  let g := default (mkGroup org name ∅ (UpstreamHost m) 0 0) (sc_groups sc !! gk) in
  let g := mkGroup (mg_Org g) (mg_Name g) ({[rev]} ∪ mg_Revisions g) (mg_Upstream g)
             (mg_FileCount g + 1) (mg_TotalBytes g +64 n) in
  mkScan (<[gk := g]> (sc_groups sc)) ({[key]} ∪ sc_seen sc) (sc_total sc +64 n) (sc_scanned sc).

(** The loop body; [None] is [break]. *)
Definition scan_entry (max : Z) (sc : scan) (e : option Meta) : option scan :=
  match e with
  | None => Some sc
  | Some m =>
      if beq (Path m) [] then Some sc
      else
        let sc := mkScan (sc_groups sc) (sc_seen sc) (sc_total sc) (sc_scanned sc + 1) in
        if sc_scanned sc >? max then None
        else if (StatusCode m <? 200) || (StatusCode m >=? 300) then Some sc
        else
          let a := attributionPath m in
          match ParseHFModelPath a with
          | None => Some sc
          | Some (org, name, rev) =>
              let key := dedupe_key org name rev (base_name a) in
              if bool_decide (key ∈ sc_seen sc) then Some sc
              else Some (scan_add sc m org name rev key)
          end
  end.

Fixpoint scan_loop (max : Z) (sc : scan) (es : list (option Meta)) : scan :=
  match es with
  | [] => sc
  | e :: es => match scan_entry max sc e with Some sc => scan_loop max sc es | None => sc end
  end.

(** [str_lt] as the string order of [sort.Slice]'s less function. *)
Definition group_le (a b : ModelGroup) : Prop :=
  mg_TotalBytes b < mg_TotalBytes a ∨
  (mg_TotalBytes a = mg_TotalBytes b ∧
   (str_lt (mg_Org a) (mg_Org b) = true ∨
    (mg_Org a = mg_Org b ∧ str_lt (mg_Name b) (mg_Name a) = false))).

#[export] Instance group_le_dec : RelDecision group_le.
Proof. intros a b. unfold group_le. solve_decision. Defined.

Record GroupedListing := mkListing { gl_Items : list ModelGroup; gl_GrandTotalBytes : Z }.

Definition clamp_entries (maxEntries : Z) : Z :=
  if (maxEntries <=? 0) || (maxEntries >? 5000) then 500 else maxEntries.

Definition ListGroupedFromCache (maxEntries : Z) (entries : list (option Meta)) : GroupedListing :=
  let sc := scan_loop (clamp_entries maxEntries) (mkScan ∅ ∅ 0 0) entries in
  mkListing (merge_sort group_le (map_to_list (sc_groups sc)).*2) (sc_total sc).

(** ** The flat listing *)

Record CachedModel := mkCached { cm_Path : bytes; cm_UpstreamHost : bytes; cm_StatusCode : Z; cm_TotalBytes : option Z }.

(** The entries kept, by host and path; the order in which a map's values are
    returned is not fixed. *)
Fixpoint cached_loop (max : Z) (seen : gmap bytes CachedModel) (es : list (option Meta)) : gmap bytes CachedModel :=
  match es with
  | [] => seen
  | None :: es => cached_loop max seen es
  | Some m :: es =>
      if beq (Path m) [] || negb (Contains (Path m) (bs "/")) then cached_loop max seen es
      else
        let key := UpstreamHost m ++ bs "|" ++ Path m in
        match seen !! key with
        | Some _ => cached_loop max seen es
        | None =>
            let seen := <[key := mkCached (Path m) (UpstreamHost m) (StatusCode m) (Total m)]> seen in
            if max <=? Z.of_nat (size seen) then seen else cached_loop max seen es
        end
  end.

Definition ListFromCache (maxEntries : Z) (entries : list (option Meta)) : gmap bytes CachedModel :=
  cached_loop (clamp_entries maxEntries) ∅ entries.

(** ** The groups account for every byte *)

Definition zsum (l : list Z) : Z := foldr Z.add 0 l.

Lemma zsum_perm l k : l ≡ₚ k → zsum l = zsum k.
Proof. unfold zsum. induction 1; cbn; lia. Qed.

Lemma gsum_to_list {K A} `{Countable K} (f : A → Z) (m : gmap K A) :
  gsum f m = zsum (f <$> (map_to_list m).*2).
Proof.
  induction m as [|k x m Hk IH] using map_ind; [by rewrite gsum_empty, map_to_list_empty|].
  rewrite gsum_insert_None, IH by done.
  rewrite (zsum_perm (f <$> (map_to_list (<[k:=x]> m)).*2) (f <$> ((k, x) :: map_to_list m).*2)); [done|].
  by rewrite map_to_list_insert.
Qed.

(** Group totals, file counts and keys agree with the running totals. *)
Definition scan_ok (sc : scan) : Prop :=
  wrap64 (gsum mg_TotalBytes (sc_groups sc)) = sc_total sc
  ∧ gsum mg_FileCount (sc_groups sc) = Z.of_nat (size (sc_seen sc))
  ∧ map_Forall (fun k g => k = (mg_Org g, mg_Name g)) (sc_groups sc).

Lemma wrap64_congr_add a b c : wrap64 a = wrap64 b → wrap64 (a + c) = wrap64 (b + c).
Proof. intros Hab. by rewrite <-(wrap64_add_l a), Hab, wrap64_add_l. Qed.

Lemma scan_add_ok sc m org name rev key :
  scan_ok sc → key ∉ sc_seen sc → scan_ok (scan_add sc m org name rev key).
Proof.
  intros (Ht & Hc & Hk) Hnew. unfold scan_add. cbv zeta.
  set (n := match Total m with Some t => t | None => 0 end).
  set (g := default _ (sc_groups sc !! (org, name))).
  assert (from_option mg_TotalBytes 0 (sc_groups sc !! (org, name)) = mg_TotalBytes g
    ∧ from_option mg_FileCount 0 (sc_groups sc !! (org, name)) = mg_FileCount g
    ∧ (org, name) = (mg_Org g, mg_Name g)) as (Eg1 & Eg2 & Eg3).
  { subst g. destruct (sc_groups sc !! (org, name)) as [g|] eqn:E; cbn; [|done].
    split_and!; [done..|]. by apply Hk in E. }
  split_and!; cbn [sc_groups sc_seen sc_total].
  - rewrite gsum_insert, Eg1. cbn [mg_TotalBytes]. rewrite <-Ht.
    rewrite (Z.add_comm _ (wrap64 _)), wrap64_add_l, wrap64_add_l. f_equal. lia.
  - rewrite gsum_insert, Eg2, Hc. cbn [mg_FileCount].
    rewrite size_union by set_solver. rewrite size_singleton. lia.
  - apply map_Forall_insert_2; [by cbn|done].
Qed.

Lemma scan_entry_ok max sc e sc' : scan_ok sc → scan_entry max sc e = Some sc' → scan_ok sc'.
Proof.
  intros Hok. unfold scan_entry. destruct e as [m|]; [|by intros [= <-]].
  destruct (beq _ _); [by intros [= <-]|]. cbv zeta. destruct (_ >? _); [done|].
  destruct (_ || _); [by intros [= <-]|]. destruct (ParseHFModelPath _) as [[[org name] rev]|]; [|by intros [= <-]].
  case_bool_decide as Hin; intros [= <-]; [done|]. by apply scan_add_ok.
Qed.

Lemma scan_loop_ok max sc es : scan_ok sc → scan_ok (scan_loop max sc es).
Proof.
  revert sc. induction es as [|e es IH]; intros sc Hok; [done|]. cbn.
  destruct (scan_entry max sc e) as [sc'|] eqn:E; [|done]. apply IH. by eapply scan_entry_ok.
Qed.

(** the inventory adds up: each repository appears once, and the grand
    total is the sum of the repositories' totals in 64-bit arithmetic. *)
Theorem grouped_listing_adds_up maxEntries entries :
  let l := ListGroupedFromCache maxEntries entries in
  NoDup ((fun g => (mg_Org g, mg_Name g)) <$> gl_Items l) ∧
  gl_GrandTotalBytes l = wrap64 (zsum (mg_TotalBytes <$> gl_Items l)).
Proof.
  unfold ListGroupedFromCache. cbn [gl_Items gl_GrandTotalBytes]. set (sc := scan_loop _ _ _).
  assert (scan_ok sc) as (Ht & _ & Hk) by (apply scan_loop_ok; by split_and!).
  assert (merge_sort group_le (map_to_list (sc_groups sc)).*2 ≡ₚ (map_to_list (sc_groups sc)).*2) as Hp
    by apply merge_sort_Permutation.
  split.
  - rewrite Hp. assert (((λ g, (mg_Org g, mg_Name g)) <$> (map_to_list (sc_groups sc)).*2)
      = (map_to_list (sc_groups sc)).*1) as ->; [|apply NoDup_fst_map_to_list].
    rewrite <-list_fmap_compose. apply list_fmap_ext. intros i [k g] Hi. cbn.
    apply list_elem_of_lookup_2, elem_of_map_to_list in Hi. apply Hk in Hi. by cbn in Hi.
  - rewrite <-Ht, gsum_to_list. f_equal. apply zsum_perm. by rewrite Hp.
Qed.

Lemma cached_loop_spec max seen es :
  0 < max → Z.of_nat (size seen) < max →
  Z.of_nat (size (cached_loop max seen es)) ≤ max
  ∧ ∀ k c, cached_loop max seen es !! k = Some c →
      seen !! k = Some c ∨ ∃ m, Some m ∈ es ∧ c = mkCached (Path m) (UpstreamHost m) (StatusCode m) (Total m).
Proof.
  intros Hm. revert seen. induction es as [|[m|] es IH]; intros seen Hs; cbn [cached_loop]; [split; [lia|by left]|..].
  2:{ destruct (IH seen Hs) as [Hb Hin]. split; [done|]. intros k c Hk. destruct (Hin k c Hk) as [?|(m & ? & ?)]; [by left|].
      right. exists m. split; [by right|done]. }
  assert (∀ seen', Z.of_nat (size seen') < max →
    (∀ k c, seen' !! k = Some c → seen !! k = Some c ∨ c = mkCached (Path m) (UpstreamHost m) (StatusCode m) (Total m)) →
    Z.of_nat (size (cached_loop max seen' es)) ≤ max ∧ ∀ k c, cached_loop max seen' es !! k = Some c →
      seen !! k = Some c ∨ ∃ m0, Some m0 ∈ Some m :: es ∧ c = mkCached (Path m0) (UpstreamHost m0) (StatusCode m0) (Total m0))
    as Hnext.
  { intros seen' Hs' Hsub. destruct (IH seen' Hs') as [Hb Hin]. split; [done|]. intros k c Hk.
    destruct (Hin k c Hk) as [Hc|(m' & ? & ?)]; [|right; exists m'; split; [by right|done]].
    destruct (Hsub k c Hc) as [?|?]; [by left|]. right. exists m. split; [by left|done]. }
  destruct (_ || _); [by apply Hnext; [|left]|]. cbv zeta. destruct (seen !! _) eqn:E; [by apply Hnext; [|left]|].
  assert (∀ k c, <[UpstreamHost m ++ bs "|" ++ Path m := mkCached (Path m) (UpstreamHost m) (StatusCode m) (Total m)]> seen !! k
     = Some c → seen !! k = Some c ∨ c = mkCached (Path m) (UpstreamHost m) (StatusCode m) (Total m)) as Hins.
  { intros k c [[_ <-]|[_ ?]]%lookup_insert_Some; [by right|by left]. }
  destruct (max <=? _) eqn:El; [|apply Z.leb_gt in El; by apply Hnext].
  split; [rewrite map_size_insert_None by done; lia|]. intros k c Hk. destruct (Hins k c Hk) as [?|?]; [by left|].
  right. exists m. split; [by left|done].
Qed.

(** The flat listing holds no more than the limit, and only scanned entries. *)
Lemma flat_listing_bounded maxEntries entries :
  Z.of_nat (size (ListFromCache maxEntries entries)) ≤ clamp_entries maxEntries
  ∧ ∀ k c, ListFromCache maxEntries entries !! k = Some c →
      ∃ m, Some m ∈ entries ∧ c = mkCached (Path m) (UpstreamHost m) (StatusCode m) (Total m).
Proof.
  assert (0 < clamp_entries maxEntries) by (unfold clamp_entries; destruct (_ || _) eqn:E; lia).
  destruct (cached_loop_spec (clamp_entries maxEntries) ∅ entries) as [Hb Hin]; [done|by rewrite map_size_empty|].
  split; [done|]. intros k c Hk. by destruct (Hin k c Hk).
Qed.
