(* ===== verification/LinkHeader.v ===== *)
(** * Link headers in the proxy handler (src/internal/proxy/handler.go)

    Hugging Face advertises its chunked transfer protocol through Link header
    values whose relation starts with "xet-"; [stripXetLinks] removes those and
    keeps the rest, so that clients come back through the cache. *)

From stdpp Require Import base strings numbers list.
From S2P Require Import Prelude GoStd.

Local Open Scope Z_scope.

Section links.
Context `{GoUnicode}.

(** [splitLinkValues]: bracket depth, inside quotes, the current part
    reversed, the parts so far. *)
Fixpoint split_links (depth : nat) (inQuote : bool) (cur : bytes) (v : bytes) : list bytes :=
  match v with
  | [] => [TrimSpace (reverse cur)]
  | c :: v =>
      if c =? 60 then split_links (if inQuote then depth else S depth) inQuote (c :: cur) v
      else if c =? 62 then split_links (if inQuote then depth else pred depth) inQuote (c :: cur) v
      else if c =? 34 then split_links depth (negb inQuote) (c :: cur) v
      else if (c =? 44) && (depth =? 0)%nat && negb inQuote
      then TrimSpace (reverse cur) :: split_links depth inQuote [] v
      else split_links depth inQuote (c :: cur) v
  end.

Definition splitLinkValues (v : bytes) : list bytes := split_links 0 false [] v.

(** [strings.Fields]: every white-space code point becomes one separator, and
    empty words are dropped. *)
Fixpoint blank_spaces (s : bytes) : bytes :=
  match s with
  | [] => []
  | a :: s1 =>
      if ascii_space a then 32 :: blank_spaces s1
      else match s1 with
           | [] => [a]
           | b :: s2 =>
               if space2 a b then 32 :: blank_spaces s2
               else match s2 with
                    | [] => a :: blank_spaces s1
                    | c :: s3 => if space3 a b c then 32 :: blank_spaces s3 else a :: blank_spaces s1
                    end
           end
  end.

Definition Fields (s : bytes) : list bytes :=
  List.filter (fun w => negb (beq w [])) (Split (blank_spaces s) 32).

Definition linkValueIsXet (part : bytes) : bool :=
  let rel := ToLower part in
  match Index rel (bs "rel=") with
  | None => false
  | Some idx =>
      let rest := drop (idx + 4) rel in
      let rest :=
        match rest with
        | 34 :: rest => match IndexByte rest 34 with Some e => take e rest | None => rest end
        | _ => match IndexAny rest [59; 44] with Some e => take e rest | None => rest end
        end in
      existsb (fun tok => HasPrefix (ToLower tok) (bs "xet-")) (Fields rest)
  end.

Definition stripXetLinks (values : list bytes) : list bytes :=
  omap (fun v =>
    match List.filter (fun part => negb (linkValueIsXet part)) (splitLinkValues v) with
    | [] => None
    | kept => Some (Join kept (bs ", "))
    end) values.

(** ** Splitting and joining *)

(** The bracket depth and quotation state after [s], if no comma of [s]
    separates. *)
Fixpoint scan (depth : nat) (inQuote : bool) (s : bytes) : option (nat * bool) :=
  match s with
  | [] => Some (depth, inQuote)
  | c :: s =>
      if c =? 60 then scan (if inQuote then depth else S depth) inQuote s
      else if c =? 62 then scan (if inQuote then depth else pred depth) inQuote s
      else if c =? 34 then scan depth (negb inQuote) s
      else if (c =? 44) && (depth =? 0)%nat && negb inQuote then None
      else scan depth inQuote s
  end.

(** The parts of a value: trimmed, without a separating comma, and all but the
    last one with brackets and quotes closed. *)
Fixpoint links_ok (ps : list bytes) : Prop :=
  match ps with
  | [] => True
  | p :: ps =>
      trimmed p ∧ is_Some (scan 0 false p) ∧ (ps ≠ [] → scan 0 false p = Some (0%nat, false)) ∧ links_ok ps
  end.

Lemma scan_app d q s t : scan d q (s ++ t) = scan d q s ≫= fun st => scan st.1 st.2 t.
Proof. revert d q. induction s as [|c s IH]; intros d q; [done|]. cbn. repeat case_match; done || apply IH. Qed.

Lemma scan_neutral d q s : Forall (fun c => space_byte c = true) s → scan d q s = Some (d, q).
Proof.
  induction 1 as [|c s Hc _ IH]; [done|]. cbn. unfold space_byte, ascii_space in Hc.
  repeat case_match; lia || done.
Qed.

Lemma scan_trim d q s st : scan d q s = Some st → scan d q (TrimSpace s) = Some st.
Proof.
  destruct (TrimSpace_parts s) as (w1 & w2 & Hs & H1 & H2). rewrite Hs at 1.
  rewrite scan_app, scan_neutral by done. cbn. rewrite scan_app.
  destruct (scan d q (TrimSpace s)) as [[d' q']|]; [|done]. cbn. by rewrite scan_neutral.
Qed.

Lemma split_links_scan d q cur s t d' q' :
  scan d q s = Some (d', q') → split_links d q cur (s ++ t) = split_links d' q' (reverse s ++ cur) t.
Proof.
  revert d q cur. induction s as [|c s IH]; intros d q cur; [by intros [= <- <-]|].
  cbn [scan app split_links]. rewrite reverse_cons, <-app_assoc. cbn [app].
  repeat case_match; try done; apply IH.
Qed.

Lemma split_links_nonempty d q cur v : split_links d q cur v ≠ [].
Proof. revert d q cur. induction v as [|c v IH]; intros d q cur; cbn; repeat case_match; done || apply IH. Qed.

Lemma split_links_ok v d q cur :
  scan 0 false (reverse cur) = Some (d, q) → links_ok (split_links d q cur v).
Proof.
  assert (∀ d q cur c, scan 0 false (reverse cur) = Some (d, q) →
    scan 0 false (reverse (c :: cur)) = scan d q [c]) as Hsnoc.
  { intros d' q' cur' c Hs. by rewrite reverse_cons, scan_app, Hs. }
  revert d q cur. induction v as [|c v IH]; intros d q cur Hcur.
  { cbn. split_and!; [apply TrimSpace_trimmed| |done|done]. eexists. by apply scan_trim. }
  specialize (Hsnoc d q cur c Hcur). cbn [scan] in Hsnoc. cbn [split_links].
  destruct (c =? 60); [by apply IH|]. destruct (c =? 62); [by apply IH|].
  destruct (c =? 34); [by apply IH|]. destruct (_ && _ && _) eqn:E; [|by apply IH].
  assert (d = 0%nat ∧ q = false) as [-> ->].
  { apply andb_true_iff in E as [[_ E%Nat.eqb_eq]%andb_true_iff Eq]. split; [done|by destruct q]. }
  apply scan_trim in Hcur. cbn [links_ok]. split_and!; [apply TrimSpace_trimmed|by eexists|done|by apply IH].
Qed.

Lemma links_ok_filter f ps : links_ok ps → links_ok (List.filter f ps).
Proof.
  induction ps as [|p ps IH]; [done|]. intros (Ht & Hs & Hb & Hps). cbn [List.filter].
  destruct (f p); [|by apply IH]. cbn [links_ok]. split_and!; [done|done| |by apply IH].
  intros Hne. apply Hb. by intros ->.
Qed.

(** Joining parts and splitting again gives the parts; [sp] is the blank after
    the previous comma. *)
Lemma split_links_join ps sp :
  links_ok ps → ps ≠ [] → (sp = [] ∨ sp = [32]) → split_links 0 false sp (Join ps (bs ", ")) = ps.
Proof.
  assert (∀ p sp, trimmed p → (sp = [] ∨ sp = [32]) → TrimSpace (reverse (reverse p ++ sp)) = p) as Htrim.
  { intros p sp' Hp Hsp. rewrite reverse_app, reverse_involutive.
    destruct Hsp as [-> | ->]; [by apply TrimSpace_fixed|]. by apply TrimSpace_space. }
  revert sp. induction ps as [|p ps IH]; intros sp Hok Hne Hsp; [done|].
  destruct Hok as (Ht & [[d q] Hs] & Hb & Hok). destruct ps as [|p2 ps].
  - cbn [Join]. rewrite <-(app_nil_r p) at 1. rewrite (split_links_scan _ _ _ _ _ _ _ Hs).
    cbn [split_links]. by rewrite Htrim.
  - rewrite Join_cons by done. rewrite (split_links_scan _ _ _ _ _ _ _ (Hb ltac:(done))).
    change (bs ", ") with [44; 32] at 1. cbn [app split_links Z.eqb Pos.eqb andb Nat.eqb negb].
    rewrite Htrim by done. f_equal. apply IH; [done|done|by right].
Qed.

(** a client that splits the Link headers it receives sees, value by value
    and in order, exactly the upstream link-values that are not Xet relations:
    none of the Xet ones, all of the others unchanged, and no header line for a
    value that only carried Xet relations. *)
Theorem stripXetLinks_exact values :
  splitLinkValues <$> stripXetLinks values =
  List.filter (fun parts => negb (bool_decide (parts = [])))
    ((fun v => List.filter (fun part => negb (linkValueIsXet part)) (splitLinkValues v)) <$> values).
Proof.
  induction values as [|v vs IH]; [done|]. unfold stripXetLinks in *. cbn [omap list_omap fmap list_fmap List.filter].
  assert (links_ok (List.filter (fun part => negb (linkValueIsXet part)) (splitLinkValues v))) as Hok.
  { by apply links_ok_filter, split_links_ok. }
  destruct (List.filter _ (splitLinkValues v)) as [|p ps]; [exact IH|].
  cbn [fmap list_fmap]. rewrite bool_decide_eq_false_2 by done. cbn [negb]. f_equal; [|exact IH].
  apply split_links_join; [done|done|by left].
Qed.
End links.
