(* ===== verification/ProxyHeaders.v ===== *)
(** * Headers and paths in the proxy handler
    (src/internal/proxy/handler.go, util.go)

    What is sent upstream, what is relayed to the client, Content-Range in both
    directions, the commit-pinned alias of a resolve path, and routing.  An
    http.Header is its map of values; a range over it is a list of its entries
    in some order. *)

From stdpp Require Import base strings numbers gmap list.
From S2P Require Import Prelude GoStd Sha256 CacheKey HttpParser RespHead RespWriter HostAllow LinkHeader.

Local Open Scope Z_scope.
Local Open Scope go_scope.

(** ** net/http headers *)

(** [textproto.CanonicalMIMEHeaderKey] of a token: upper case at the start and
    after each dash. *)
Fixpoint canonical_bytes (upper : bool) (s : bytes) : bytes :=
  match s with
  | [] => []
  | c :: s => (if upper then upper_byte c else lower_byte c) :: canonical_bytes (c =? 45) s
  end.

Definition CanonicalHeaderKey (k : bytes) : bytes :=
  if forallb isTchar k then canonical_bytes true k else k.

Definition hdr_Add (h : header) (k v : bytes) : header :=
  let k := CanonicalHeaderKey k in <[k := default [] (h !! k) ++ [v]]> h.

Definition hdr_AddAll (h : header) (k : bytes) (vv : list bytes) : header :=
  foldl (fun h v => hdr_Add h k v) h vv.

(** Every value of a header satisfies [P] with its name. *)
Definition hdr_all (P : bytes → bytes → Prop) (h : header) : Prop :=
  ∀ k vv v, h !! k = Some vv → v ∈ vv → P k v.

(** ** Requests to upstream *)

Definition hopRequestHeaders : list bytes :=
  [bs "connection"; bs "keep-alive"; bs "proxy-connection"; bs "upgrade"; bs "te"; bs "trailer";
   bs "transfer-encoding"; bs "host"; bs "accept-encoding"].

Section requests.
Context `{GoUnicode}.

(** The headers [forward] builds: [entries] is the client's header map. *)
Definition forward_step (h : header) (e : bytes * list bytes) : header :=
  let kk := ToLower e.1 in
  if bool_decide (kk ∈ hopRequestHeaders) then h
  else if beq kk (bs "authorization") then h
  else hdr_AddAll h e.1 e.2.

Definition forward_headers (upstreamHost token : bytes) (entries : list (bytes * list bytes)) : header :=
  let injectHFToken := negb (IsContentAddressedHost upstreamHost) && negb (beq token []) in
  let h := foldl forward_step ∅ entries in
  if injectHFToken then hdr_Set h (bs "Authorization") (bs "Bearer " ++ token) else h.

(** ** Responses to the client *)

Definition hopResponseHeaders : list bytes :=
  [bs "connection"; bs "keep-alive"; bs "proxy-connection"; bs "upgrade"; bs "transfer-encoding"].

Definition crlfnul : list Z := [13; 10; 0].

Definition sanitiseHeaderValue (v : bytes) : option bytes :=
  if ContainsAny v crlfnul then None else Some v.

(** [dst.Add] of the values that survive [sanitiseHeaderValue]. *)
Definition add_sanitised (h : header) (k : bytes) (vv : list bytes) : header :=
  foldl (fun h v => match sanitiseHeaderValue v with Some v => hdr_Add h k v | None => h end) h vv.

Definition copy_step (h : header) (e : bytes * list bytes) : header :=
  let kk := ToLower e.1 in
  if bool_decide (kk ∈ hopResponseHeaders) then h
  else if beq kk (bs "content-length") then h
  else if beq kk (bs "location") || beq kk (bs "content-location") then h
  else if ContainsAny e.1 crlfnul then h
  else if beq kk (bs "link") then add_sanitised h e.1 (stripXetLinks e.2)
  else add_sanitised h e.1 e.2.

(** The Location fields, rewritten by [LocationToProxyWithOrigin] where that
    succeeds. *)
Definition set_location (rewrite : bytes → option bytes) (h : header) (name loc : bytes) : header :=
  if beq loc [] then h
  else
    let v := match rewrite loc with Some nl => nl | None => loc end in
    match sanitiseHeaderValue v with Some s => hdr_Set h name s | None => h end.

Definition entry_Get (entries : list (bytes * list bytes)) (k : bytes) : bytes :=
  match List.find (fun e => beq e.1 k) entries with
  | Some (_, v :: _) => v
  | _ => []
  end.

Definition copyAndRewriteHeaders (rewrite : bytes → option bytes) (dst : header)
    (entries : list (bytes * list bytes)) : header :=
  let h := foldl copy_step dst entries in
  let h := set_location rewrite h (bs "Location") (entry_Get entries (bs "Location")) in
  set_location rewrite h (bs "Content-Location") (entry_Get entries (bs "Content-Location")).

(** Headers replayed on warm hits. *)
Definition preservedResponseHeaders : list bytes :=
  [bs "X-Repo-Commit"; bs "X-Linked-Etag"; bs "X-Linked-Size"; bs "X-Xet-Hash"; bs "Accept-Ranges"].

Definition pickPreservedHeaders (entries : list (bytes * list bytes)) : gmap bytes bytes :=
  foldl (fun out k => let v := entry_Get entries k in if beq v [] then out else <[k := v]> out)
    ∅ preservedResponseHeaders.

Definition applyExtraHeaders (dst : header) (extra : gmap bytes bytes) : header :=
  map_fold (fun k v h => if beq v [] then h else hdr_Set h (CanonicalHeaderKey k) v) dst extra.

(** ** Routing and paths *)

Inductive route := Route (host path : bytes) | RouteError (status : Z).

Definition routeUpstream (allow : bytes → bool) (defaultHost path : bytes) : route :=
  if negb (HasPrefix path (bs "/_p/")) then Route (ToLower (TrimSpace defaultHost)) path
  else
    let rest := TrimPrefix path (bs "/_p/") in
    match IndexByte rest 47 with
    | None | Some O => RouteError 400
    | Some i =>
        if (i =? length rest - 1)%nat then RouteError 400
        else
          let prefHost := ToLower (take i rest) in
          if negb (allow prefHost) then RouteError 403 else Route prefHost (drop i rest)
    end.

Definition resolve_marker : bytes := bs "/resolve/".

Definition resolveRevAliasPath (path newRev : bytes) : option bytes :=
  match Index path resolve_marker with
  | None => None
  | Some i =>
      let rest := drop (i + length resolve_marker) path in
      match IndexByte rest 47 with
      | None | Some O => None
      | Some j =>
          if beq (take j rest) newRev then Some path
          else Some (take (i + length resolve_marker) path ++ newRev ++ drop j rest)
      end
  end.

(** ** Content-Range *)

Definition formatContentRange (start end_ total : Z) : bytes :=
  let last := end_ -64 1 in
  if total >=? 0 then
    bs "bytes " ++ FormatInt start ++ bs "-" ++ FormatInt last ++ bs "/" ++ FormatInt total
  else bs "bytes " ++ FormatInt start ++ bs "-" ++ FormatInt last ++ bs "/*".

Definition parseContentRangeResponse (s : bytes) : option (Z * Z * Z) :=
  let s := TrimSpace s in
  let pfx := bs "bytes " in
  if negb (HasPrefix (ToLower s) pfx) then None
  else
    match Split (drop (length pfx) s) 47 with
    | [p0; p1] =>
        let se := TrimSpace p0 in
        let totalStr := TrimSpace p1 in
        match IndexByte se 45 with
        | None => None
        | Some dash =>
            match ParseInt (take dash se), ParseInt (drop (S dash) se) with
            | Some a, Some b =>
                if (a <? 0) || (b <? a) then None
                else
                  let end_ := b +64 1 in
                  if beq totalStr (bs "*") then Some (a, end_, -1)
                  else match ParseInt totalStr with
                       | Some t => if t <? 0 then None else Some (a, end_, t)
                       | None => None
                       end
            | _, _ => None
            end
        end
    | _ => None
    end.

(** ** Lemmas: header maps *)

Lemma isTchar_ascii c : isTchar c = true → (c <? 128) = true.
Proof.
  unfold isTchar. do 3 (case_match; [lia|]). intros Hc%bool_decide_eq_true.
  assert (Forall (fun c => (c <? 128) = true) (bs "!#$%&'*+-.^_`|~")) as Hall by vm_decide.
  rewrite Forall_forall in Hall. by apply Hall.
Qed.

Lemma upper_lower c : lower_byte (upper_byte c) = lower_byte c.
Proof. unfold lower_byte, upper_byte. repeat case_match; lia. Qed.

Lemma canonical_bytes_lower u s : lower_byte <$> canonical_bytes u s = lower_byte <$> s.
Proof.
  revert u. induction s as [|c s IH]; intros u; [done|]. cbn. rewrite IH.
  destruct u; [by rewrite upper_lower|by rewrite lower_byte_idemp].
Qed.

Lemma canonical_bytes_ascii u s : is_ascii s = true → is_ascii (canonical_bytes u s) = true.
Proof.
  unfold is_ascii. revert u. induction s as [|c s IH]; intros u; [done|]. cbn.
  intros [Hc Hs]%andb_true_iff. rewrite IH by done. rewrite andb_true_r.
  unfold upper_byte, lower_byte. repeat case_match; lia.
Qed.

(** Canonical form does not change a name's lower-case form. *)
Lemma ToLower_canonical k : ToLower (CanonicalHeaderKey k) = ToLower k.
Proof.
  unfold CanonicalHeaderKey. destruct (forallb isTchar k) eqn:E; [|done].
  assert (is_ascii k = true) as Ha.
  { unfold is_ascii. rewrite forallb_forall in E |- *. intros c Hc. by apply isTchar_ascii, E. }
  unfold ToLower. rewrite Ha, canonical_bytes_ascii by done. apply canonical_bytes_lower.
Qed.

Lemma hdr_all_empty (P : bytes → bytes → Prop) : hdr_all P ∅.
Proof. intros k vv v Hk. by rewrite lookup_empty in Hk. Qed.

Lemma hdr_all_Add (P : bytes → bytes → Prop) h k v : P (CanonicalHeaderKey k) v → hdr_all P h → hdr_all P (hdr_Add h k v).
Proof.
  intros Hp Hh k' vv w. unfold hdr_Add. destruct (decide (CanonicalHeaderKey k = k')) as [<-|Hne].
  - rewrite lookup_insert_eq. intros [= <-] [Hw|Hw%list_elem_of_singleton]%elem_of_app; [|by subst].
    destruct (h !! CanonicalHeaderKey k) as [ws|] eqn:E; [by apply (Hh _ ws)|by apply not_elem_of_nil in Hw].
  - rewrite lookup_insert_ne by done. apply Hh.
Qed.

Lemma hdr_all_AddAll (P : bytes → bytes → Prop) h k vv :
  (∀ v, v ∈ vv → P (CanonicalHeaderKey k) v) → hdr_all P h → hdr_all P (hdr_AddAll h k vv).
Proof.
  unfold hdr_AddAll. revert h. induction vv as [|v vv IH]; intros h Hp Hh; [done|]. cbn.
  apply IH; [intros w Hw; apply Hp; by right|]. apply hdr_all_Add; [apply Hp; by left|done].
Qed.

Lemma hdr_all_Set (P : bytes → bytes → Prop) h k v : P k v → hdr_all P h → hdr_all P (hdr_Set h k v).
Proof.
  intros Hp Hh k' vv w. unfold hdr_Set. destruct (decide (k = k')) as [<-|Hne].
  - rewrite lookup_insert_eq. by intros [= <-] ->%list_elem_of_singleton.
  - rewrite lookup_insert_ne by done. apply Hh.
Qed.

(** A fold whose steps keep [hdr_all P]. *)
Lemma hdr_all_fold {A} (P : bytes → bytes → Prop) (f : header → A → header) (l : list A) h :
  (∀ h x, x ∈ l → hdr_all P h → hdr_all P (f h x)) → hdr_all P h → hdr_all P (foldl f h l).
Proof.
  revert h. induction l as [|x l IH]; intros h Hf Hh; [done|]. cbn.
  apply IH; [intros h' y Hy; apply Hf; by right|]. apply Hf; [by left|done].
Qed.

Lemma hdr_all_sanitised (P : bytes → bytes → Prop) h k vv :
  (∀ v, v ∈ vv → ContainsAny v crlfnul = false → P (CanonicalHeaderKey k) v) →
  hdr_all P h → hdr_all P (add_sanitised h k vv).
Proof.
  intros Hp. unfold add_sanitised. apply hdr_all_fold. intros h' v Hv Hh'.
  unfold sanitiseHeaderValue. destruct (ContainsAny v crlfnul) eqn:E; [done|].
  apply hdr_all_Add; [by apply Hp|done].
Qed.

Lemma hdr_all_location (P : bytes → bytes → Prop) rewrite h name loc :
  (∀ v, ContainsAny v crlfnul = false → P name v) →
  hdr_all P h → hdr_all P (set_location rewrite h name loc).
Proof.
  intros Hp Hh. unfold set_location, sanitiseHeaderValue. destruct (beq loc []); [done|].
  cbv zeta. case_match eqn:E; [|done]. case_match; [done|]. simplify_eq. by apply hdr_all_Set; [apply Hp|].
Qed.

Lemma canonical_clean k : ContainsAny k crlfnul = false → ContainsAny (CanonicalHeaderKey k) crlfnul = false.
Proof.
  unfold CanonicalHeaderKey. destruct (forallb isTchar k); [|done].
  rewrite !ContainsAny_false. generalize true. induction k as [|c k IH]; intros u Hk; [by constructor|].
  inversion_clear Hk as [|? ? Hc Hk']. cbn. constructor; [|by apply IH].
  unfold crlfnul in *. rewrite !not_elem_of_cons in Hc |- *. destruct Hc as (? & ? & ? & ?).
  unfold upper_byte, lower_byte. repeat case_match; split_and!; solve [lia | apply not_elem_of_nil].
Qed.

(** ** What goes upstream *)

Lemma hdr_Add_elem h k v : v ∈ default [] (hdr_Add h k v !! CanonicalHeaderKey k).
Proof. unfold hdr_Add. rewrite lookup_insert_eq. cbn. set_solver. Qed.

Lemma hdr_Add_mono h k v k' w : w ∈ default [] (h !! k') → w ∈ default [] (hdr_Add h k v !! k').
Proof.
  intros Hw. unfold hdr_Add. destruct (decide (CanonicalHeaderKey k = k')) as [<-|Hne].
  - rewrite lookup_insert_eq. cbn. set_solver.
  - by rewrite lookup_insert_ne.
Qed.

Lemma hdr_AddAll_mono h k vv k' w : w ∈ default [] (h !! k') → w ∈ default [] (hdr_AddAll h k vv !! k').
Proof.
  unfold hdr_AddAll. revert h. induction vv as [|v vv IH]; intros h Hw; [done|]. cbn.
  by apply IH, hdr_Add_mono.
Qed.

Lemma hdr_AddAll_elem h k vv v : v ∈ vv → v ∈ default [] (hdr_AddAll h k vv !! CanonicalHeaderKey k).
Proof.
  revert h. induction vv as [|w vv IH]; intros h; [by intros ?%not_elem_of_nil|].
  intros [->|Hv]%elem_of_cons; [|by apply IH].
  apply (hdr_AddAll_mono (hdr_Add h k w)), hdr_Add_elem.
Qed.

(** A request header the handler is meant to forward. *)
Definition forwarded (k : bytes) : Prop :=
  ToLower k ∉ hopRequestHeaders ∧ ToLower k ≠ bs "authorization".

Lemma forward_step_all (P : bytes → bytes → Prop) h e :
  (∀ v, v ∈ e.2 → forwarded e.1 → P (CanonicalHeaderKey e.1) v) →
  hdr_all P h → hdr_all P (forward_step h e).
Proof.
  intros Hp Hh. unfold forward_step. case_bool_decide as Hhop; [done|].
  destruct (beq _ _) eqn:Ea; [done|]. apply hdr_all_AddAll; [|done].
  intros v Hv. apply Hp; [done|]. split; [done|]. by apply beq_false.
Qed.

Lemma forward_step_mono h e k v : v ∈ default [] (h !! k) → v ∈ default [] (forward_step h e !! k).
Proof.
  intros Hv. unfold forward_step. do 2 (case_match; [done|]). by apply hdr_AddAll_mono.
Qed.

Lemma forward_steps_elem h entries e v :
  e ∈ entries → v ∈ e.2 → forwarded e.1 →
  v ∈ default [] (foldl forward_step h entries !! CanonicalHeaderKey e.1).
Proof.
  intros He Hv [Hh Ha]. apply list_elem_of_split in He as (l1 & l2 & ->).
  rewrite foldl_app. cbn [foldl]. set (h1 := foldl forward_step h l1).
  assert (v ∈ default [] (forward_step h1 e !! CanonicalHeaderKey e.1)) as H1.
  { unfold forward_step. rewrite bool_decide_eq_false_2 by done.
    destruct (beq _ _) eqn:E; [by apply beq_true in E|]. by apply hdr_AddAll_elem. }
  clearbody h1. revert H1. generalize (forward_step h1 e). clear.
  induction l2 as [|e2 l2 IH]; intros h H1; [done|]. cbn. by apply IH, forward_step_mono.
Qed.

(** no client credential and no connection-level header is ever sent
    upstream.  Whatever headers the client sends, the upstream request carries
    none of the hop-by-hop names, and an Authorization value only when it is
    the proxy's own token and the upstream host is not content-addressed;
    every other client header is forwarded with all its values. *)
Theorem forward_headers_safe host token entries :
  hdr_all (fun k v => ToLower k ∉ hopRequestHeaders ∧
             (ToLower k = bs "authorization" →
                v = bs "Bearer " ++ token ∧ IsContentAddressedHost host = false))
    (forward_headers host token entries) ∧
  (∀ e v, e ∈ entries → v ∈ e.2 → forwarded e.1 →
     v ∈ default [] (forward_headers host token entries !! CanonicalHeaderKey e.1)).
Proof.
  unfold forward_headers. split.
  - assert (hdr_all (fun k _ => forwarded k) (foldl forward_step ∅ entries)) as Hall.
    { apply hdr_all_fold; [|apply hdr_all_empty]. intros h e _. apply forward_step_all.
      intros v _. unfold forwarded. by rewrite ToLower_canonical. }
    set (P := fun k v : bytes => _). assert (hdr_all P (foldl forward_step ∅ entries)) as HP.
    { intros k vv v Hk Hv. destruct (Hall k vv v Hk Hv) as [Hh Ha]. by split. }
    destruct (_ && _) eqn:Ei; [|done]. apply andb_true_iff in Ei as [Ei _].
    apply hdr_all_Set; [|done]. split; [vm_decide|]. intros _. split; [done|]. by apply negb_true_iff.
  - intros e v He Hv Hf. pose proof (forward_steps_elem ∅ entries e v He Hv Hf) as Hin.
    destruct (_ && _); [|done]. unfold hdr_Set. rewrite lookup_insert_ne; [done|].
    intros Heq. destruct Hf as [_ Hf]. apply Hf. rewrite <-ToLower_canonical, <-Heq. vm_decide.
Qed.

(** ** What comes back *)

(** A header the client may receive: no line break or NUL in name or value,
    neither hop-by-hop nor a length. *)
Definition relayed (k v : bytes) : Prop :=
  ContainsAny k crlfnul = false ∧ ContainsAny v crlfnul = false ∧
  ToLower k ∉ hopResponseHeaders ∧ ToLower k ≠ bs "content-length".

Lemma copy_step_all (P : bytes → bytes → Prop) h e :
  (∀ k v, relayed k v → P k v) → hdr_all P h → hdr_all P (copy_step h e).
Proof.
  intros Hp Hh. unfold copy_step. case_bool_decide as Hhop; [done|].
  destruct (beq _ (bs "content-length")) eqn:El; [done|].
  destruct (_ || _); [done|]. destruct (ContainsAny e.1 crlfnul) eqn:Ek; [done|].
  assert (∀ (vv : list bytes) v, v ∈ vv → ContainsAny v crlfnul = false → P (CanonicalHeaderKey e.1) v) as Hv.
  { intros _ v _ Hv. apply Hp. split_and!; [by apply canonical_clean|done|by rewrite ToLower_canonical|].
    rewrite ToLower_canonical. by apply beq_false. }
  destruct (beq _ (bs "link")); apply hdr_all_sanitised; eauto.
Qed.

(** response splitting through upstream headers is impossible.  Whatever
    names and values upstream sends, and whatever the Location rewriting
    returns, every header the handler adds to the client's response is free of
    CR, LF and NUL in name and value, is not a hop-by-hop header and is not
    upstream's Content-Length. *)
Theorem response_headers_clean rewrite dst entries :
  hdr_all (fun k v => v ∈ default [] (dst !! k) ∨ relayed k v) (copyAndRewriteHeaders rewrite dst entries).
Proof.
  unfold copyAndRewriteHeaders.
  apply hdr_all_location; [intros v Hv; right; split_and!; [vm_decide|done|vm_decide|vm_decide]|].
  apply hdr_all_location; [intros v Hv; right; split_and!; [vm_decide|done|vm_decide|vm_decide]|].
  apply hdr_all_fold.
  - intros h e _. apply copy_step_all. by right.
  - intros k vv v Hk Hv. left. by rewrite Hk.
Qed.

(** ** Content-Range *)

Lemma content_range_prefix s :
  Forall visible s → s ≠ [] → TrimSpace (bs "bytes " ++ s) = bs "bytes " ++ s.
Proof.
  intros Hs Hne. destruct s as [|b s _] using rev_ind; [done|].
  apply Forall_app in Hs as [_ Hb]. inversion_clear Hb as [|? ? Hb' _].
  exact (TrimSpace_ends 98 (bs "ytes " ++ s) b ltac:(unfold visible; lia) Hb').
Qed.

Lemma ToLower_bytes_prefix s :
  Forall visible s → HasPrefix (ToLower (bs "bytes " ++ s)) (bs "bytes ") = true.
Proof.
  intros Hs. unfold ToLower. replace (is_ascii _) with true.
  - rewrite fmap_app. apply HasPrefix_app.
  - symmetry. unfold is_ascii. rewrite forallb_app. apply andb_true_iff. split; [done|].
    apply forallb_forall. intros c Hc. rewrite Forall_forall in Hs.
    assert (visible c) as Hv by (apply Hs; by apply list_elem_of_In). unfold visible in Hv. lia.
Qed.

(** Reading a range whose bounds and total are written out. *)
Lemma parse_content_range a b T :
  0 ≤ a ≤ b → b < int64_max → Forall visible T → T ≠ [] → 47 ∉ T →
  parseContentRangeResponse (bs "bytes " ++ FormatInt a ++ 45 :: FormatInt b ++ 47 :: T) =
    if beq T (bs "*") then Some (a, b + 1, -1)
    else match ParseInt T with Some t => if t <? 0 then None else Some (a, b + 1, t) | None => None end.
Proof.
  intros Hab Hb HT HTne HTs. unfold parseContentRangeResponse.
  assert (is_int64 a ∧ is_int64 b) as [Hia Hib] by (unfold is_int64, int64_min, int64_max in *; lia).
  assert (visible 45 ∧ visible 47) as [Hv1 Hv2] by (unfold visible; lia).
  set (se := FormatInt a ++ 45 :: FormatInt b).
  assert (Forall visible se) as Hse.
  { apply Forall_app. split; [apply FormatInt_visible|]. constructor; [done|apply FormatInt_visible]. }
  replace (FormatInt a ++ 45 :: FormatInt b ++ 47 :: T) with (se ++ 47 :: T) by (unfold se; by rewrite <-app_assoc).
  assert (Forall visible (se ++ 47 :: T)) as Hall by (apply Forall_app; split; [done|by constructor]).
  rewrite content_range_prefix by (done || (by destruct se)).
  rewrite ToLower_bytes_prefix by done. cbn [negb]. rewrite drop_app_length.
  assert (47 ∉ se) as Hns.
  { unfold se. rewrite elem_of_app, elem_of_cons. intros [H1|[H1|H1]]; [|lia|];
      revert H1; apply FormatInt_not_in; right; split; done || lia. }
  rewrite Split_app_sep, Split_no_sep by done. rewrite !TrimSpace_visible by done.
  unfold se. rewrite IndexByte_app by (apply FormatInt_not_in; right; split; done || lia).
  rewrite take_app_length. rewrite (cons_middle 45), app_assoc, drop_app_length' by (rewrite length_app; cbn; lia).
  rewrite !ParseInt_FormatInt by done.
  rewrite (proj2 (orb_false_iff _ _)) by (split; lia).
  rewrite wrap64_id by (unfold is_int64, int64_min, int64_max in *; lia). done.
Qed.

Lemma parse_format_content_range start end_ total :
  0 ≤ start → start < end_ → end_ ≤ int64_max → -1 ≤ total → total ≤ int64_max →
  parseContentRangeResponse (formatContentRange start end_ total) = Some (start, end_, total).
Proof.
  intros Hs Hse He Ht Htm. unfold formatContentRange.
  rewrite wrap64_id by (unfold is_int64, int64_min, int64_max in *; lia).
  change (bs "-") with [45]. change (bs "/") with [47]. change (bs "/*") with (47 :: bs "*"). cbn [app].
  assert (end_ - 1 < int64_max) as Hlast by lia. destruct (Z.geb_spec total 0) as [Hpos|Hneg].
  - rewrite (parse_content_range start (end_ - 1) (FormatInt total)).
    + rewrite (proj2 (beq_false _ _)).
      * rewrite ParseInt_FormatInt by (unfold is_int64, int64_min, int64_max in *; lia).
        destruct (Z.ltb_spec total 0); [lia|]. repeat f_equal; lia.
      * intros Heq. apply (FormatInt_not_in total 42); [right; split; [done|lia]|]. rewrite Heq. by left.
    + lia.
    + done.
    + apply FormatInt_visible.
    + unfold FormatInt. destruct (Z.ltb_spec total 0); [done|]. apply FormatUint_nonempty.
    + apply FormatInt_not_in. right. split; [done|lia].
  - rewrite (parse_content_range start (end_ - 1) (bs "*")); [|lia|done|unfold visible; vm_decide|done|].
    + rewrite beq_refl. repeat f_equal; lia.
    + vm_decide.
Qed.

(** the Content-Range the proxy writes is the one it reads.  For every
    non-empty half-open range and every total, known or not, parsing the
    formatted header gives back the range and the total. *)
Theorem content_range_roundtrip start end_ total :
  0 ≤ start → start < end_ → end_ ≤ int64_max → -1 ≤ total → total ≤ int64_max →
  parseContentRangeResponse (formatContentRange start end_ total) = Some (start, end_, total).
Proof. apply parse_format_content_range. Qed.

(** ** Routing *)

(** where a request can be sent.  A path without the /_p/ prefix goes to
    the configured default host unchanged; a path with it goes upstream exactly
    when it is "/_p/" followed by a non-empty host segment that the allow-list
    admits and a non-empty rest, to that host and with that rest; every other
    path is refused. *)
Theorem routeUpstream_exact allow defaultHost path host out :
  routeUpstream allow defaultHost path = Route host out ↔
    (HasPrefix path (bs "/_p/") = false ∧ host = ToLower (TrimSpace defaultHost) ∧ out = path)
    ∨ ∃ raw rest, path = bs "/_p/" ++ raw ++ 47 :: rest ∧ raw ≠ [] ∧ 47 ∉ raw ∧ rest ≠ []
        ∧ host = ToLower raw ∧ allow host = true ∧ out = 47 :: rest.
Proof.
  unfold routeUpstream. destruct (HasPrefix path (bs "/_p/")) eqn:Ep; cbn [negb].
  - apply HasPrefix_spec in Ep as [t ->]. rewrite TrimPrefix_app. split.
    + destruct (IndexByte t 47) as [[|i]|] eqn:Ei; [done| |done].
      apply IndexByte_Some in Ei as (b & Ht & Hl & Ha). set (a := take (S i) t) in *. clearbody a. subst t.
      destruct (Nat.eqb_spec (S i) (length (a ++ 47 :: b) - 1)) as [|Hne]; [done|].
      rewrite drop_app_length' by done.
      destruct (allow (ToLower a)) eqn:Eal; [|done]. intros [= <- <-]. right. exists a, b.
      split_and!; try done; [by destruct a|].
      intros ->. rewrite length_app in Hne. cbn in Hne. lia.
    + intros [[? _]|(raw & rest & Heq & Hr & Hn & Hrest & -> & Hal & ->)]; [done|].
      apply app_inv_head in Heq as ->. rewrite IndexByte_app by done.
      destruct (length raw) as [|l] eqn:El; [by destruct raw|].
      destruct (Nat.eqb_spec (S l) (length (raw ++ 47 :: rest) - 1)) as [Heq|_].
      { rewrite length_app in Heq. destruct rest; [done|]. cbn in Heq. lia. }
      rewrite <-El, take_app_length, drop_app_length, Hal. done.
  - split; [intros [= <- <-]; by left|]. intros [(_ & -> & ->)|(raw & rest & -> & _)]; [done|].
    by rewrite HasPrefix_app in Ep.
Qed.

(** The alias of a resolve path: the revision is replaced, the repository and
    the file stay. *)
Lemma resolveRevAliasPath_spec pre rev file newRev :
  Index (pre ++ resolve_marker ++ rev ++ 47 :: file) resolve_marker = Some (length pre) →
  rev ≠ [] → 47 ∉ rev →
  resolveRevAliasPath (pre ++ resolve_marker ++ rev ++ 47 :: file) newRev =
    Some (pre ++ resolve_marker ++ newRev ++ 47 :: file).
Proof.
  intros Hi Hne Hs. unfold resolveRevAliasPath. rewrite Hi, <-length_app, app_assoc, drop_app_length.
  rewrite IndexByte_app by done. destruct (length rev) as [|l] eqn:El; [by destruct rev|].
  rewrite <-El, take_app_length. destruct (beq rev newRev) eqn:E.
  - apply beq_true in E as ->. by rewrite <-app_assoc.
  - by rewrite take_app_length, drop_app_length, <-app_assoc.
Qed.
End requests.

#[local] Existing Instance ascii_unicode.

Lemma content_range_roundtrip_witness :
  formatContentRange 100 200 (-1) = bs "bytes 100-199/*" ∧
  parseContentRangeResponse (formatContentRange 100 200 1000) = Some (100, 200, 1000).
Proof. split; [vm_decide|]. apply content_range_roundtrip; vm_decide. Defined.
