(* ===== verification/Location.v ===== *)
(** * Rewriting redirects (src/internal/rewrite/rewrite.go)

    [LocationToProxyWithOrigin] turns the Location of an upstream redirect into
    a URL of the proxy; [Rewrite] has its query part.  The results follow the
    URL through the client's parser and the proxy's routing back to upstream. *)

From stdpp Require Import base strings numbers gmap list.
From S2P Require Import Prelude GoStd CacheKey Rewrite HostAllow NetUrl ProxyHeaders.

Local Open Scope Z_scope.

Section location.
Context `{GoUnicode}.

(** [NotRewritten] is the second result false; [Crashed] a nil URL, when the
    joined URL does not parse. *)
Inductive location_outcome := Rewritten (loc : bytes) | NotRewritten | Crashed.

Definition LocationToProxyWithOrigin (publicBase : url) (allow : bytes → bool) (location origin : bytes) : location_outcome :=
  match Parse location with
  | None => NotRewritten
  | Some u =>
      if beq (ur_Scheme u) [] || beq (ur_Host u) [] then NotRewritten
      else if negb (beq (ur_Scheme u) (bs "https")) && negb (beq (ur_Scheme u) (bs "http")) then NotRewritten
      else
        let host := ToLower (Hostname u) in
        if negb (allow host) then NotRewritten
        else
          let path := EscapedPath u in
          let path := if beq path [] then bs "/" else path in
          let trim := TrimPrefix path (bs "/") in
          match JoinPath (url_String publicBase) [bs "_p"; host; trim] with
          | None => NotRewritten
          | Some joined =>
              match Parse joined with
              | None => Crashed
              | Some ju => Rewritten (url_String (with_query ju (origin_query (ur_RawQuery u) origin)))
              end
          end
  end.

Definition LocationToProxy (publicBase : url) (allow : bytes → bool) (location : bytes) : location_outcome :=
  LocationToProxyWithOrigin publicBase allow location [].
End location.

(** ** Plain absolute URLs *)

Definition host_char (c : Z) : bool := ((97 <=? c) && (c <=? 122)) || is_digit c || (c =? 45) || (c =? 46).

Definition hostport_ok (hp : bytes) : Prop :=
  hp ≠ [] ∧ Forall (λ c, host_char c = true ∨ c = 58) hp ∧
  match LastIndexByte hp 58 with Some i => validOptionalPort (drop i hp) = true | None => True end.

(** A byte of a path that needs no escape. *)
Definition path_char (c : Z) : bool := (0 <=? c) && negb (shouldEscape c encodePath).

Definition path_ok (p : bytes) : Prop := Forall (λ c, path_char c = true) p ∧ (p = [] ∨ HasPrefix p (bs "/") = true).

(** No fragment and no control byte. *)
Definition query_ok (q : bytes) : Prop := Forall (λ c, c ≠ 35 ∧ 32 ≤ c ∧ c ≠ 127) q.

Definition scheme_ok (s : bytes) : Prop := s = bs "http" ∨ s = bs "https".

Definition qpart (q : bytes) : bytes := if beq q [] then [] else bs "?" ++ q.

Definition absolute (sch hp path q : bytes) : bytes := sch ++ bs "://" ++ hp ++ path ++ qpart q.

Definition plain_url (sch hp path q : bytes) : url := mkUrl sch [] None hp path [] false false q [] [].

(** What one byte of such a URL is. *)
Lemma path_char_facts c :
  path_char c = true → 32 ≤ c ∧ c ≠ 35 ∧ c ≠ 37 ∧ c ≠ 63 ∧ c ≠ 127 ∧ shouldEscape c encodePath = false.
Proof.
  unfold path_char. intros [H0%Z.leb_le Hs%negb_true_iff]%andb_true_iff.
  assert (∀ k, shouldEscape k encodePath = true → c ≠ k) as Hne by (intros k Hk ->; congruence).
  split_and!; [|apply Hne; reflexivity..|done].
  destruct (decide (c < 32)); [|lia]. exfalso.
  assert (∀ n, (n < 32)%nat → shouldEscape (Z.of_nat n) encodePath = true) as Hall.
  { intros n Hn. do 32 (destruct n as [|n]; [reflexivity|]). lia. }
  specialize (Hall (Z.to_nat c) ltac:(lia)). rewrite Z2Nat.id in Hall by lia. congruence.
Qed.

Lemma host_char_facts c :
  host_char c = true ∨ c = 58 →
  32 ≤ c ∧ c ∉ [35; 37; 47; 63; 64; 91; 127] ∧ shouldEscape c encodeHost = false ∧ (host_char c = true → c ≠ 58).
Proof.
  intros Hc. assert (c ∉ [35; 37; 47; 63; 64; 91; 127] ∧ 32 ≤ c ∧ (host_char c = true → c ≠ 58)) as (H1 & H2 & H3).
  { assert (∀ k, host_char k = false → k ≠ 58 → c ≠ k) as Hne by (intros k Hk Hk2 ->; destruct Hc; congruence).
    split_and!.
    - rewrite !not_elem_of_cons. split_and!; [apply Hne; done..|]. by intros ?%elem_of_nil.
    - unfold host_char, is_digit in Hc. destruct Hc as [Hc|Hc]; [|lia]. rewrite !orb_true_iff, !andb_true_iff in Hc. lia.
    - by intros Hh ->. }
  split_and!; [done|done| |done]. unfold shouldEscape, is_alnum. destruct Hc as [Hc| ->]; [|reflexivity].
  unfold host_char in Hc. rewrite !orb_true_iff in Hc. destruct Hc as [[[Hc|Hc]|Hc%Z.eqb_eq]|Hc%Z.eqb_eq].
  - by rewrite Hc.
  - rewrite Hc. by rewrite orb_true_r.
  - by subst c.
  - by subst c.
Qed.

(** ** Encoding is the identity on them *)

Lemma escape_plain s mode : Forall (λ c, shouldEscape c mode = false) s → escape s mode = s.
Proof.
  unfold escape. induction 1 as [|c s Hc _ IH]; [done|]. cbn. unfold escape_byte at 1. rewrite Hc. cbn. by rewrite IH.
Qed.

Lemma unescape_plain s mode :
  Forall (λ c, c ≠ 37 ∧ c ≠ 43 ∧ plain_allowed mode c = true) s → unescape s mode = Some s.
Proof.
  induction 1 as [|c s (H1 & H2 & H3) _ IH]; [done|]. cbn [unescape].
  destruct (Z.eqb_spec c 37); [done|]. destruct (Z.eqb_spec c 43); [done|]. by rewrite H3, IH.
Qed.

Lemma unescape_path p : Forall (λ c, path_char c = true) p → unescape p encodePath = Some p.
Proof.
  induction 1 as [|c p Hc _ IH]; [done|]. apply path_char_facts in Hc as (_ & _ & Hc & _). cbn [unescape].
  destruct (Z.eqb_spec c 37); [done|]. cbn [plain_allowed]. rewrite andb_false_r, IH. done.
Qed.

Lemma escape_path p : Forall (λ c, path_char c = true) p → escape p encodePath = p.
Proof. intros Hp. apply escape_plain. eapply Forall_impl; [exact Hp|]. intros c Hc. apply path_char_facts in Hc. tauto. Qed.

Lemma setPath_plain p : Forall (λ c, path_char c = true) p → setPath p = Some (p, []).
Proof. intros Hp. unfold setPath. rewrite unescape_path, escape_path by done. by rewrite beq_refl. Qed.

Lemma EscapedPath_plain sch hp p q : Forall (λ c, path_char c = true) p → EscapedPath (plain_url sch hp p q) = p.
Proof.
  intros Hp. unfold EscapedPath. cbn [ur_RawPath plain_url ur_Path]. rewrite beq_refl. cbn [negb andb].
  destruct (beq p (bs "*")) eqn:E; [by apply beq_true in E as ->|]. by apply escape_path.
Qed.

Lemma hostport_notin hp c : hostport_ok hp → c ∈ [35; 37; 47; 63; 64; 91; 127] → c ∉ hp.
Proof.
  intros (_ & Hc & _) Hin Hhp. rewrite Forall_forall in Hc. by destruct (host_char_facts c (Hc c Hhp)) as (_ & ? & _).
Qed.

Lemma hostport_escape hp : hostport_ok hp → escape hp encodeHost = hp.
Proof. intros (_ & Hc & _). apply escape_plain. eapply Forall_impl; [exact Hc|]. intros c H. apply host_char_facts in H. tauto. Qed.

Lemma parseAuthority_plain hp : hostport_ok hp → parseAuthority hp = Some (None, hp).
Proof.
  intros Hhp. unfold parseAuthority. rewrite LastIndexByte_none by (apply hostport_notin; [done|set_solver]).
  unfold parseHost. rewrite LastIndexByte_none by (apply hostport_notin; [done|set_solver]).
  assert (unescape hp encodeHost = Some hp) as ->.
  { destruct Hhp as (_ & Hc & _). clear -Hc. induction Hc as [|c hp Hc _ IH]; [done|].
    apply host_char_facts in Hc as (_ & Hc & He & _). cbn [unescape].
    destruct (Z.eqb_spec c 37); [set_solver|]. cbn [plain_allowed]. rewrite He, orb_true_r, andb_false_r, IH. done. }
  destruct Hhp as (_ & _ & Hp). destruct (LastIndexByte hp 58); by rewrite ?Hp.
Qed.

(** ** Parsing and printing *)

Lemma Cut_none s c : c ∉ s → Cut s c = (s, [], false).
Proof. intros H. unfold Cut. by rewrite (proj2 (IndexByte_None s c) H). Qed.

Lemma Cut_app a c b : c ∉ a → Cut (a ++ c :: b) c = (a, b, true).
Proof.
  intros H. unfold Cut. rewrite IndexByte_app by done. rewrite take_app_length.
  by rewrite (cons_middle c a b), (app_assoc a [c] b), drop_app_length' by (rewrite length_app; cbn; lia).
Qed.

(** A byte of a path in a printed URL. *)
Definition raw_char (c : Z) : Prop := 32 ≤ c ∧ c ≠ 35 ∧ c ≠ 63 ∧ c ≠ 127.

Lemma path_raw_char p : Forall (λ c, path_char c = true) p → Forall raw_char p.
Proof. intros Hp. eapply Forall_impl; [exact Hp|]. intros c Hc%path_char_facts. unfold raw_char. lia. Qed.

(** No byte of such a URL is a control byte or a hash. *)
Lemma absolute_clean sch hp path q :
  scheme_ok sch → hostport_ok hp → Forall raw_char path → query_ok q → query_ok (absolute sch hp path q).
Proof.
  intros Hs (_ & Hhp & _) Hp Hq. unfold absolute, query_ok. rewrite !Forall_app. split_and!.
  - destruct Hs as [-> | ->]; vm_decide.
  - vm_decide.
  - eapply Forall_impl; [exact Hhp|]. intros c Hc. apply host_char_facts in Hc as (? & Hn & _). set_solver.
  - eapply Forall_impl; [exact Hp|]. unfold raw_char. intros c Hc. lia.
  - unfold qpart. destruct (beq q []); [constructor|]. apply Forall_app. split; [vm_decide|done].
Qed.

Lemma query_ok_ctl s : query_ok s → has_ctl s = false ∧ 35 ∉ s.
Proof.
  induction 1 as [|c s (H1 & H2 & H3) _ [IH1 IH2]]; [split; [done|set_solver]|]. cbn [has_ctl existsb].
  split; [|set_solver]. unfold has_ctl in IH1. rewrite IH1. destruct (Z.ltb_spec c 32), (Z.eqb_spec c 127); try lia; done.
Qed.

Lemma getScheme_plain sch rest : scheme_ok sch → getScheme (sch ++ bs "://" ++ rest) = Some (sch, bs "//" ++ rest).
Proof. by intros [-> | ->]. Qed.

Lemma cut_query_plain p q : 63 ∉ p → cut_query (p ++ qpart q) = (p, q, false).
Proof.
  intros Hp. unfold cut_query, qpart. destruct (beq q []) eqn:E.
  - apply beq_true in E as ->. by rewrite app_nil_r, Cut_none.
  - change (bs "?") with [63]. cbn [app]. rewrite Cut_app by done. by rewrite E.
Qed.

(** Parsing of a printed URL, given what [setPath] makes of its path. *)
Lemma Parse_printed sch hp path p q :
  scheme_ok sch → hostport_ok hp → Forall raw_char path → path = [] ∨ HasPrefix path (bs "/") = true → query_ok q →
  setPath path = Some (p, []) →
  Parse (absolute sch hp path q) = Some (plain_url sch hp p q).
Proof.
  intros Hs Hhp Hp Hpre Hq Hset. pose proof (absolute_clean _ _ _ _ Hs Hhp Hp Hq) as Hc.
  apply query_ok_ctl in Hc as [Hctl Hhash]. unfold Parse. rewrite Cut_none by done.
  assert (parse (absolute sch hp path q) = Some (plain_url sch hp p q)) as ->; [|done].
  unfold parse. rewrite Hctl. destruct (beq (absolute sch hp path q) (bs "*")) eqn:Est.
  { apply beq_true in Est. by destruct Hs as [-> | ->]. }
  clear Est Hctl Hhash. unfold absolute. rewrite getScheme_plain by done.
  assert (lower_byte <$> sch = sch) as -> by (by destruct Hs as [-> | ->]).
  rewrite !app_assoc, cut_query_plain, <-!app_assoc.
  2:{ rewrite !not_elem_of_app. split_and!; [by apply (bool_decide_unpack _)|apply hostport_notin; [done|set_solver]|].
      intros Hin. rewrite Forall_forall in Hp. apply Hp in Hin. unfold raw_char in Hin. lia. }
  change (bs "//" ++ hp ++ path) with (47 :: 47 :: hp ++ path).
  assert (beq sch [] = false) as -> by (by destruct Hs as [-> | ->]).
  assert (HasPrefix (47 :: 47 :: hp ++ path) (bs "/") = true) as -> by exact (HasPrefix_app (bs "/") (47 :: hp ++ path)).
  assert (HasPrefix (47 :: 47 :: hp ++ path) (bs "//") = true) as -> by exact (HasPrefix_app (bs "//") (hp ++ path)). cbn [negb andb orb drop].
  cbv zeta. rewrite !drop_0.
  assert (47 ∉ hp) as Hsl by (apply hostport_notin; [done|set_solver]).
  assert (match IndexByte (hp ++ path) 47 with
          | Some i => (take i (hp ++ path), drop i (hp ++ path)) | None => (hp ++ path, []) end = (hp, path)) as ->.
  { destruct Hpre as [->|Hpre].
    - by rewrite app_nil_r, (proj2 (IndexByte_None hp 47) Hsl).
    - apply HasPrefix_spec in Hpre as [t ->]. change (bs "/" ++ t) with (47 :: t). rewrite IndexByte_app by done.
      by rewrite take_app_length, drop_app_length. }
  by rewrite parseAuthority_plain, Hset by done.
Qed.

Lemma Parse_absolute sch hp path q :
  scheme_ok sch → hostport_ok hp → path_ok path → query_ok q →
  Parse (absolute sch hp path q) = Some (plain_url sch hp path q).
Proof. intros Hs Hhp [Hp Hpre] Hq. apply Parse_printed; auto using path_raw_char, setPath_plain. Qed.

(** A relative path is printed with the slash that separates it from the host. *)
Definition slashed (p : bytes) : bytes := if beq p [] || HasPrefix p (bs "/") then p else bs "/" ++ p.

Lemma url_String_plain sch hp path q :
  scheme_ok sch → hostport_ok hp → Forall (λ c, path_char c = true) path →
  url_String (plain_url sch hp path q) = absolute sch hp (slashed path) q.
Proof.
  intros Hs Hhp Hp. unfold url_String, absolute, slashed, qpart, url_authority.
  rewrite EscapedPath_plain by done. cbn [plain_url ur_Scheme ur_Host ur_User ur_Opaque ur_OmitHost ur_Path ur_ForceQuery ur_RawQuery ur_Fragment].
  rewrite hostport_escape by done. assert (beq sch [] = false) as -> by (by destruct Hs as [-> | ->]).
  assert (beq hp [] = false) as -> by (by apply beq_false, Hhp).
  rewrite !beq_refl. cbn [negb andb orb is_nil_opt]. change (bs "//" ++ hp) with (bs "//" ++ [] ++ hp).
  assert (∀ x, beq (sch ++ bs ":" ++ x) [] = false) as Hne by (intros x; by destruct Hs as [-> | ->]).
  rewrite <-!app_assoc, Hne. cbn [andb]. rewrite app_nil_r.
  destruct (beq path []), (HasPrefix path (bs "/")); destruct (beq q []); cbn [negb andb orb]; by rewrite ?app_nil_r, <-?app_assoc.
Qed.

(** ** Joining paths *)

(** A segment that [path.Clean] keeps. *)
Definition seg_ok (w : bytes) : Prop :=
  w ≠ [] ∧ w ≠ bs "." ∧ w ≠ bs ".." ∧ Forall (λ c, path_char c = true ∧ c ≠ 47) w.

Lemma clean_segments rooted acc ws : Forall seg_ok ws → foldl (clean_step rooted) acc ws = reverse ws ++ acc.
Proof.
  intros Hw. revert acc. induction Hw as [|w ws (H1 & H2 & H3 & _) _ IH]; intros acc; [done|]. cbn [foldl].
  unfold clean_step at 2. rewrite (proj2 (beq_false _ _) H1), (proj2 (beq_false _ _) H2), (proj2 (beq_false _ _) H3).
  cbn [orb]. by rewrite IH, reverse_cons, <-app_assoc.
Qed.

Lemma seg_ok_slash w : seg_ok w → 47 ∉ w.
Proof. intros (_ & _ & _ & Hw) Hin. rewrite Forall_forall in Hw. by apply Hw in Hin as [_ ?]. Qed.

Lemma join_chars ws : Forall seg_ok ws → Forall (λ c, path_char c = true) (Join ws (bs "/")).
Proof.
  induction 1 as [|w ws (_ & _ & _ & Hw) Hws IH]; [constructor|].
  assert (Forall (λ c, path_char c = true) w) by (eapply Forall_impl; [exact Hw|]; by intros c [? _]).
  destruct ws as [|w' ws]; [done|]. rewrite Join_cons by done. rewrite !Forall_app. split_and!; [done|vm_decide|done].
Qed.

Lemma join_last ws : ws ≠ [] → Forall seg_ok ws → HasSuffix (Join ws (bs "/")) (bs "/") = false ∧ Join ws (bs "/") ≠ [].
Proof.
  intros Hne Hws. assert (∃ a w, Join ws (bs "/") = a ++ w ∧ seg_ok w) as (a & w & -> & Hw).
  { induction Hws as [|w ws Hw Hws IH]; [done|]. destruct ws as [|w' ws]; [by exists [], w|].
    destruct IH as (a & x & Ha & Hx); [done|]. exists (w ++ bs "/" ++ a), x. rewrite Join_cons, Ha by done.
    by rewrite <-!app_assoc. }
  split; [|intros [_ ->]%app_nil; by destruct Hw]. apply not_true_iff_false. intros [t Ht]%HasSuffix_spec.
  pose proof (seg_ok_slash w Hw) as Hs. destruct Hw as (Hn & _). destruct (exists_last Hn) as (w0 & c & ->).
  rewrite app_assoc in Ht. apply app_inj_tail in Ht as [_ ->]. set_solver.
Qed.

Lemma JoinPath_plain sch hp host segs :
  scheme_ok sch → hostport_ok hp → seg_ok host → segs ≠ [] → Forall seg_ok segs →
  JoinPath (absolute sch hp [] []) [bs "_p"; host; Join segs (bs "/")]
  = Some (absolute sch hp (bs "/_p/" ++ host ++ bs "/" ++ Join segs (bs "/")) []).
Proof.
  intros Hs Hhp Hh Hne Hsegs. unfold JoinPath.
  rewrite Parse_absolute by first [done | constructor; [constructor|by left] | constructor]. cbn [fmap option_fmap option_map].
  f_equal. unfold url_JoinPath. rewrite EscapedPath_plain by constructor.
  change (HasPrefix [] (bs "/")) with false. cbn [List.last]. cbv iota.
  destruct (join_last segs Hne Hsegs) as [Hsuf Hj]. rewrite Hsuf. cbn [andb].
  assert (Forall seg_ok (bs "_p" :: host :: segs)) as Hall.
  { constructor; [|by constructor]. split_and!; [done..|vm_decide]. }
  assert (path_Join [bs "/" ++ []; bs "_p"; host; Join segs (bs "/")] = bs "/" ++ Join (bs "_p" :: host :: segs) (bs "/")) as ->.
  { unfold path_Join. change (forallb _ _) with false. cbn [join_elems].
    change (beq [] []) with true. cbv iota. change (bs "/" ++ []) with (bs "/"). change (beq (bs "/") []) with false. cbv iota.
    change (bs "/" ++ bs "/" ++ bs "_p") with (bs "//_p"). change (beq (bs "//_p") []) with false. cbv iota.
    change (beq (bs "//_p" ++ bs "/" ++ host) []) with false. cbv iota.
    unfold path_Clean. change (beq _ []) with false. change (HasPrefix _ (bs "/")) with true. cbv iota zeta.
    assert (((bs "//_p" ++ bs "/" ++ host) ++ bs "/" ++ Join segs (bs "/")) = Join ([] :: [] :: bs "_p" :: host :: segs) (bs "/")) as ->.
    { destruct segs; [done|]. rewrite !(Join_cons _ (_ :: _)) by done. by rewrite <-!app_assoc. }
    change (Split (Join ?ws (bs "/")) 47) with (Split (Join ws [47]) 47). rewrite Split_Join.
    - change ([] :: [] :: bs "_p" :: host :: segs) with ([[]; []] ++ bs "_p" :: host :: segs). rewrite foldl_app.
      change (foldl (clean_step true) [] [[]; []]) with (@nil bytes). rewrite clean_segments by done.
      by rewrite app_nil_r, reverse_involutive.
    - done.
    - do 2 (constructor; [apply not_elem_of_nil|]). eapply Forall_impl; [exact Hall|]. apply seg_ok_slash. }
  change (drop 1 (bs "/" ++ ?x)) with x.
  rewrite setPath_plain by (by apply join_chars).
  change (with_path _ ?p _) with (plain_url sch hp p []). rewrite url_String_plain by (done || by apply join_chars).
  unfold slashed. rewrite !Join_cons by (done || by destruct segs). done.
Qed.

(** ** Round trip *)

Lemma host_seg host : host ≠ [] → host ≠ bs "." → host ≠ bs ".." → Forall (λ c, host_char c = true) host → seg_ok host.
Proof.
  intros H1 H2 H3 Hc. split_and!; [done..|]. eapply Forall_impl; [exact Hc|]. intros c Hh.
  destruct (host_char_facts c (or_introl Hh)) as (H32 & Hn & He & _). split; [|set_solver].
  unfold path_char. apply andb_true_iff. split; [apply Z.leb_le; lia|]. apply negb_true_iff.
  unfold shouldEscape. unfold host_char in Hh. rewrite !orb_true_iff in Hh. unfold is_alnum.
  destruct Hh as [[[Hh|Hh]|Hh%Z.eqb_eq]|Hh%Z.eqb_eq]; [by rewrite Hh| |by subst c..]. by rewrite Hh, orb_true_r.
Qed.

Lemma QueryEscape_query s : Forall is_byte s → query_ok (QueryEscape s).
Proof.
  unfold QueryEscape, query_ok. induction 1 as [|c s Hc _ IH]; [constructor|]. cbn. apply Forall_app. split; [|exact IH].
  unfold query_escape_byte. destruct (unreserved c) eqn:E.
  - constructor; [|constructor]. unfold unreserved, is_digit in E. rewrite !orb_true_iff, !andb_true_iff in E. lia.
  - destruct (c =? 32); [vm_decide|]. unfold is_byte in Hc.
    assert (∀ d, 0 ≤ d < 16 → upper_hex d ≠ 35 ∧ 32 ≤ upper_hex d ∧ upper_hex d ≠ 127) as Hd.
    { intros d ?. unfold upper_hex. destruct (Z.ltb_spec d 10); lia. }
    constructor; [lia|]. constructor; [|constructor; [|constructor]]; apply Hd.
    + split; [apply Z.div_pos; lia|apply Z.div_lt_upper_bound; lia].
    + apply Z.mod_pos_bound. lia.
Qed.

Lemma origin_query_ok q origin : query_ok q → Forall is_byte origin → query_ok (origin_query q origin).
Proof.
  intros Hq Ho. apply QueryEscape_query in Ho. unfold origin_query. destruct (beq origin []); [done|].
  assert (query_ok (OriginQueryParam ++ bs "=" ++ QueryEscape origin)) as Hp.
  { unfold query_ok. rewrite !Forall_app. split_and!; [vm_decide|vm_decide|done]. }
  destruct (beq q []); [done|]. apply Forall_app. split; [done|]. apply Forall_app. split; [vm_decide|exact Hp].
Qed.

Section roundtrip.
Context `{GoUnicode}.

Lemma lower_host host : Forall (λ c, host_char c = true) host → ToLower host = host.
Proof.
  intros Hc. assert (∀ c, host_char c = true → 45 ≤ c ≤ 57 ∨ 97 ≤ c ≤ 122) as Hr.
  { intros c Hh. unfold host_char, is_digit in Hh. rewrite !orb_true_iff, !andb_true_iff in Hh. lia. }
  unfold ToLower. assert (is_ascii host = true) as ->.
  { unfold is_ascii. apply forallb_forall. intros x Hx. apply list_elem_of_In in Hx. rewrite Forall_forall in Hc.
    apply Hc, Hr in Hx. apply Z.ltb_lt. lia. }
  induction Hc as [|x s Hx _ IH]; [done|]. rewrite fmap_cons, IH. f_equal. apply Hr in Hx. unfold lower_byte.
  destruct (Z.leb_spec 65 x), (Z.leb_spec x 90); cbn; lia.
Qed.

(** The rewritten Location, spelled out. *)
Lemma rewritten_plain sch hp allow host segs q origin scheme :
  scheme_ok sch → hostport_ok hp → scheme_ok scheme →
  seg_ok host → Forall (λ c, host_char c = true) host → allow host = true → segs ≠ [] → Forall seg_ok segs → query_ok q →
  LocationToProxyWithOrigin (plain_url sch hp [] []) allow (absolute scheme host (bs "/" ++ Join segs (bs "/")) q) origin
  = Rewritten (absolute sch hp (bs "/_p/" ++ host ++ bs "/" ++ Join segs (bs "/")) (origin_query q origin)).
Proof.
  intros Hs Hhp Hsch Hh Hhc Hal Hne Hsegs Hq. unfold LocationToProxyWithOrigin.
  assert (hostport_ok host) as Hhost.
  { split_and!; [by destruct Hh|eapply Forall_impl; [exact Hhc|by left]|]. rewrite LastIndexByte_none; [done|].
    intros Hin. rewrite Forall_forall in Hhc. by apply Hhc in Hin. }
  assert (Forall (λ c, path_char c = true) (bs "/" ++ Join segs (bs "/"))) as Hpc.
  { apply Forall_app. split; [vm_decide|by apply join_chars]. }
  rewrite Parse_absolute by (done || (split; [done|right; apply HasPrefix_app])).
  cbn [plain_url ur_Scheme ur_Host ur_RawQuery].
  assert (beq scheme [] = false ∧ negb (beq scheme (bs "https")) && negb (beq scheme (bs "http")) = false) as [-> ->]
    by (by destruct Hsch as [-> | ->]).
  rewrite (proj2 (beq_false host []) (proj1 Hh)). cbn [orb]. cbv zeta.
  change (mkUrl scheme [] None host ?p [] false false q [] []) with (plain_url scheme host p q).
  assert (ToLower (Hostname (plain_url scheme host (bs "/" ++ Join segs (bs "/")) q)) = host) as ->.
  { unfold Hostname. cbn [plain_url ur_Host]. rewrite LastIndexByte_none.
    2:{ intros Hin. rewrite Forall_forall in Hhc. by apply Hhc in Hin. }
    assert (HasPrefix host (bs "[") = false) as ->.
    { apply not_true_iff_false. intros [t ->]%HasPrefix_spec. apply Forall_app in Hhc as [Hb _].
      change (bs "[") with [91] in Hb. by inversion_clear Hb. }
    cbn [andb]. apply lower_host. done. }
  rewrite Hal. cbn [negb]. rewrite EscapedPath_plain by done.
  assert (beq (bs "/" ++ Join segs (bs "/")) [] = false) as -> by done. rewrite TrimPrefix_app.
  rewrite url_String_plain by (done || constructor). change (slashed []) with (@nil Z).
  rewrite JoinPath_plain by done.
  assert (Forall (λ c, path_char c = true) (bs "/_p/" ++ host ++ bs "/" ++ Join segs (bs "/"))) as Hpc2.
  { rewrite !Forall_app. split_and!; [vm_decide| |vm_decide|by apply join_chars]. destruct Hh as (_ & _ & _ & Hh).
    eapply Forall_impl; [exact Hh|]. by intros c [? _]. }
  rewrite Parse_absolute by first [done | split; [exact Hpc2|right; exact (HasPrefix_app (bs "/") (bs "_p/" ++ _))] | constructor].
  change (with_query (plain_url sch hp ?p []) ?q') with (plain_url sch hp p q').
  rewrite url_String_plain by done. f_equal.
Qed.


(** Only hosts of the allow-list are rewritten. *)
Theorem rewritten_host_allowed base allow location origin loc :
  LocationToProxyWithOrigin base allow location origin = Rewritten loc →
  ∃ u, Parse location = Some u ∧ scheme_ok (ur_Scheme u) ∧ allow (ToLower (Hostname u)) = true.
Proof.
  unfold LocationToProxyWithOrigin. destruct (Parse location) as [u|]; [|done]. destruct (_ || _); [done|].
  destruct (beq (ur_Scheme u) (bs "https")) eqn:E1, (beq (ur_Scheme u) (bs "http")) eqn:E2; cbn [negb andb]; try done; cbv zeta;
    destruct (allow (ToLower (Hostname u))) eqn:Ea; try done; intros _; exists u; split_and!; try done;
    first [by left; apply beq_true | by right; apply beq_true].
Qed.
End roundtrip.

(** ** Where the round trip ends *)

#[local] Existing Instance ascii_unicode.

Definition demo_base : url := plain_url (bs "http") (bs "127.0.0.1:8080") [] [].

Definition demo_rewrite (loc : string) : location_outcome := LocationToProxyWithOrigin demo_base (λ _, true) (bs loc) [].

(** The port of a redirect is dropped: the follow-up goes to the default port. *)
Theorem redirect_port_dropped :
  demo_rewrite "https://cdn.hf.co:8443/a/b?x=1" = Rewritten (bs "http://127.0.0.1:8080/_p/cdn.hf.co/a/b?x=1").
Proof. vm_compute. reflexivity. Qed.

(** The path is not kept byte for byte: doubled slashes and dot segments are
    cleaned away, although signed URLs cover the path. *)
Theorem redirect_path_cleaned :
  demo_rewrite "https://cdn.hf.co/a//b/./c?Signature=s" = Rewritten (bs "http://127.0.0.1:8080/_p/cdn.hf.co/a/b/c?Signature=s").
Proof. vm_compute. reflexivity. Qed.

(** A redirect to the root of an allowed host becomes a URL that the proxy
    itself refuses. *)
Theorem root_redirect_refused :
  demo_rewrite "https://hf.co/" = Rewritten (bs "http://127.0.0.1:8080/_p/hf.co") ∧
  routeUpstream (λ _, true) (bs "huggingface.co") (bs "/_p/hf.co") = RouteError 400.
Proof. split; vm_compute; reflexivity. Qed.


(** An escaped slash of the redirect's path comes back as a slash. *)
Theorem redirect_escape_lost :
  demo_rewrite "https://cdn.hf.co/a%2Fb" = Rewritten (bs "http://127.0.0.1:8080/_p/cdn.hf.co/a%2Fb") ∧
  (λ v, routeUpstream (λ _, true) (bs "huggingface.co") (ur_Path v)) <$> Parse (bs "http://127.0.0.1:8080/_p/cdn.hf.co/a%2Fb")
  = Some (Route (bs "cdn.hf.co") (bs "/a/b")).
Proof. split; vm_compute; reflexivity. Qed.
