(* ===== verification/Upstream.v ===== *)
(** * The upstream client (src/internal/upstream/upstream.go)

    [netClient.Do]: the request it sends, its deadline, and the body it hands
    back.  The HTTP exchange itself is an argument; [http.NewRequest] is Go's.
    The host check and the header filter are HostAllow.v's, URLs are
    NetUrl.v's.  Times are nanoseconds. *)

From stdpp Require Import base strings numbers gmap list.
From S2P Require Import Prelude GoStd CacheKey HttpParser Rewrite HostAllow NetUrl Location.

Local Open Scope Z_scope.
Local Open Scope go_scope.

(** ** Requests *)

(** [http.removeEmptyPort] *)
Definition removeEmptyPort (host : bytes) : bytes :=
  match LastIndexByte host 58 with
  | None => host
  | Some i =>
      if match LastIndexByte host 93 with Some j => (j <? i)%nat | None => true end then TrimSuffix host (bs ":") else host
  end.

Record wire_request := mkWire {
  w_Method : bytes;
  w_URL : url;
  w_Host : bytes;
  w_Header : gmap bytes (list bytes);
  w_Body : option bytes;
}.

(** [http.NewRequestWithContext]: method, URL and body. *)
Definition NewRequest (method urlStr : bytes) (body : option bytes) : option wire_request :=
  let method := if beq method [] then bs "GET" else method in
  if negb (forallb isTchar method) then None
  else
    match Parse urlStr with
    | None => None
    | Some u =>
        let u := mkUrl (ur_Scheme u) (ur_Opaque u) (ur_User u) (removeEmptyPort (ur_Host u)) (ur_Path u) (ur_RawPath u)
                   (ur_OmitHost u) (ur_ForceQuery u) (ur_RawQuery u) (ur_Fragment u) (ur_RawFragment u) in
        Some (mkWire method u (ur_Host u) ∅ body)
    end.

Inductive do_error := DoURL (e : url_error) | DoRequest | DoExchange.

(** A body read under a context: blocks with the times they arrive at. *)
Record stream := mkBody { sb_blocks : list (Z * bytes); sb_deadline : option Z; sb_cancel : bool }.

Record Response := mkResponse {
  rp_Status : Z;
  rp_Header : gmap bytes (list bytes);
  rp_ContentLength : Z;
  rp_Body : stream;
}.

(** What the peer answers: status, header, length and the blocks of the body. *)
Record answer := mkAnswer { an_Status : Z; an_Header : gmap bytes (list bytes); an_Length : Z; an_Blocks : list (Z * bytes) }.

Definition wrap (a : answer) (deadline : option Z) (cancel : bool) : Response :=
  mkResponse (an_Status a) (an_Header a) (an_Length a) (mkBody (an_Blocks a) deadline cancel).

Definition seconds30 : Z := 30000000000.

Section do.
Context `{GoUnicode}.
Context (cl : netClient) (ReadTimeout WriteTimeout : Z).

(** The budget of a request whose context has no deadline. *)
Definition do_budget : Z := ReadTimeout +64 WriteTimeout +64 seconds30.

(** The part common to both branches of [Do]; an exchange whose deadline has
    passed fails. *)
Definition do_exchange (exchange : wire_request → option answer) (now : Z) (deadline : option Z) (cancel : bool)
    (method host : bytes) (u : URL) (hdr : gmap bytes (list bytes)) (body : bytes) : result do_error Response :=
  let reqBody := if beq body [] then None else Some body in
  match NewRequest method (url_String (plain_url (u_Scheme u) (u_Host u) (u_Path u) (u_RawQuery u))) reqBody with
  | None => Err DoRequest
  | Some req =>
      let req := mkWire (w_Method req) (w_URL req) host (applyHeaders hdr) (w_Body req) in
      if match deadline with Some d => d <=? now | None => false end then Err DoExchange
      else match exchange req with Some a => Ok (wrap a deadline cancel) | None => Err DoExchange end
  end.

Definition Do (exchange : wire_request → option answer) (now : Z) (ctx_deadline : option Z)
    (method host path query : bytes) (hdr : gmap bytes (list bytes)) (body : bytes) : result do_error Response :=
  match upstreamURL cl host path query with
  | Err e => Err (DoURL e)
  | Ok u =>
      match ctx_deadline with
      | None => do_exchange exchange now (Some (now + do_budget)) true method host u hdr body
      | Some d => do_exchange exchange now (Some d) false method host u hdr body
      end
  end.
End do.

(** Reading a body to its end: the bytes, and whether the deadline cut it. *)
Fixpoint read_stream (deadline : option Z) (blocks : list (Z * bytes)) : bytes * bool :=
  match blocks with
  | [] => ([], false)
  | (t, b) :: blocks =>
      if match deadline with Some d => d <? t | None => false end then ([], true)
      else let '(out, cut) := read_stream deadline blocks in (b ++ out, cut)
  end.

(** ** Closing *)

(** [cancelOnCloseReader]: how often the body was closed and the context
    cancelled. *)
Record cancelOnCloseReader := mkCloser { cc_closed : bool; cc_rc : nat; cc_cancel : nat }.

Definition closer_Close (c : cancelOnCloseReader) : cancelOnCloseReader :=
  if cc_closed c then c else mkCloser true (S (cc_rc c)) (S (cc_cancel c)).

(** ** Escaped paths *)

Lemma unescape_escape_byte c r : is_byte c →
  unescape (escape_byte encodePath c ++ r) encodePath = cons c <$> unescape r encodePath.
Proof.
  intros Hc. unfold is_byte in Hc. unfold escape_byte. destruct (shouldEscape c encodePath) eqn:E.
  - rewrite andb_false_r. cbn [app unescape]. change (37 =? 37) with true. cbn [escape_allowed].
    rewrite !unhex_upper by (first [apply Z.mod_pos_bound; lia|split; [apply Z.div_pos; lia|apply Z.div_lt_upper_bound; lia]]).
    do 2 f_equal. pose proof (Z.div_mod c 16). lia.
  - cbn [app unescape]. destruct (Z.eqb_spec c 37) as [->|]; [done|]. cbn [plain_allowed]. by rewrite andb_false_r.
Qed.

Lemma unescape_escape p : Forall is_byte p → unescape (escape p encodePath) encodePath = Some p.
Proof.
  induction 1 as [|c p Hc _ IH]; [done|]. unfold escape in *. rewrite fmap_cons. cbn [concat].
  by rewrite unescape_escape_byte, IH by done.
Qed.

Lemma upper_hex_raw d : 0 ≤ d < 16 → raw_char (upper_hex d).
Proof. unfold raw_char, upper_hex. intros. destruct (Z.ltb_spec d 10); lia. Qed.

Lemma escape_raw p : Forall is_byte p → Forall raw_char (escape p encodePath).
Proof.
  unfold escape. induction 1 as [|c p Hc _ IH]; [constructor|]. rewrite fmap_cons. cbn [concat]. apply Forall_app. split; [|done].
  unfold is_byte in Hc. unfold escape_byte. destruct (shouldEscape c encodePath) eqn:E.
  - rewrite andb_false_r. repeat constructor; try lia;
      apply upper_hex_raw; (first [apply Z.mod_pos_bound; lia|split; [apply Z.div_pos; lia|apply Z.div_lt_upper_bound; lia]]).
  - constructor; [|constructor]. assert (path_char c = true) as Hp.
    { unfold path_char. rewrite E. apply andb_true_iff. split; [apply Z.leb_le; lia|done]. }
    apply path_char_facts in Hp. unfold raw_char. lia.
Qed.

Lemma setPath_escape p : Forall is_byte p → setPath (escape p encodePath) = Some (p, []).
Proof. intros Hp. unfold setPath. rewrite unescape_escape by done. by rewrite beq_refl. Qed.

(** What [String] prints for a URL built from its parts. *)
Lemma url_String_parts sch hp p q :
  scheme_ok sch → hostport_ok hp → Forall is_byte p → HasPrefix p (bs "/") = true →
  url_String (plain_url sch hp p q) = absolute sch hp (escape p encodePath) q ∧ HasPrefix (escape p encodePath) (bs "/") = true.
Proof.
  intros Hs Hhp Hp Hpre. apply HasPrefix_spec in Hpre as [t ->].
  assert (escape (bs "/" ++ t) encodePath = bs "/" ++ escape t encodePath) as He by done.
  split; [|rewrite He; apply HasPrefix_app].
  unfold url_String, absolute, qpart, url_authority, EscapedPath.
  cbn [plain_url ur_Scheme ur_Host ur_User ur_Opaque ur_OmitHost ur_Path ur_RawPath ur_ForceQuery ur_RawQuery ur_Fragment].
  rewrite hostport_escape by done.
  assert (beq sch [] = false) as -> by (by destruct Hs as [-> | ->]).
  assert (beq hp [] = false) as -> by (by apply beq_false, Hhp).
  assert (beq (bs "/" ++ t) (bs "*") = false) as -> by (apply beq_false; by destruct t).
  rewrite !beq_refl. cbn [negb andb orb is_nil_opt].
  assert (∀ x, beq (sch ++ bs ":" ++ x) [] = false) as Hne by (intros x; by destruct Hs as [-> | ->]).
  rewrite <-!app_assoc, He, ?HasPrefix_app, Hne. cbn [negb andb]. rewrite ?andb_false_r, ?app_nil_r.
  destruct (beq q []); cbn [negb]; by rewrite ?app_nil_r, <-?app_assoc.
Qed.

Lemma removeEmptyPort_plain hp : HasSuffix hp (bs ":") = false → removeEmptyPort hp = hp.
Proof.
  intros Hs. unfold removeEmptyPort. destruct (LastIndexByte hp 58); [|done]. unfold TrimSuffix. rewrite Hs. by destruct (match LastIndexByte hp 93 with Some _ => _ | None => _ end).
Qed.

Lemma NewRequest_parts method sch hp p q body :
  method ≠ [] → forallb isTchar method = true → scheme_ok sch → hostport_ok hp → HasSuffix hp (bs ":") = false →
  Forall is_byte p → HasPrefix p (bs "/") = true → query_ok q →
  NewRequest method (url_String (plain_url sch hp p q)) body = Some (mkWire method (plain_url sch hp p q) hp ∅ body).
Proof.
  intros Hm Ht Hs Hhp Hc Hp Hpre Hq. unfold NewRequest. rewrite (proj2 (beq_false _ _) Hm), Ht. cbn [negb].
  destruct (url_String_parts sch hp p q Hs Hhp Hp Hpre) as [-> Hpre'].
  rewrite (Parse_printed sch hp _ p q) by auto using escape_raw, setPath_escape.
  cbn [plain_url ur_Scheme ur_Opaque ur_User ur_Host ur_Path ur_RawPath ur_OmitHost ur_ForceQuery ur_RawQuery ur_Fragment ur_RawFragment].
  by rewrite removeEmptyPort_plain.
Qed.

Lemma read_stream_app d a b t c :
  Forall (λ e, e.1 ≤ d) a → d < t → read_stream (Some d) (a ++ (t, c) :: b) = (concat a.*2, true).
Proof.
  induction 1 as [|[u e] a Hu _ IH]; intros Ht; cbn [app read_stream fst] in *.
  - by rewrite (proj2 (Z.ltb_lt d t)).
  - rewrite (proj2 (Z.ltb_ge d u)) by done. by rewrite IH.
Qed.

(** ** Properties *)

Section properties.
Context `{GoUnicode}.


(** A download that never stalls is cut all the same: with the default
    timeouts and a context without a deadline, as the connection loops pass
    it, a body that delivers a block every second ends with an error 630
    seconds after the request. *)
Theorem steady_transfer_cut (f : nat → bytes) (now : Z) n :
  (630 < n)%nat →
  let sec := 1000000000 in
  let blocks := (λ i, (now + Z.of_nat i * sec, f i)) <$> seq 1 n in
  read_stream (Some (now + do_budget (300 * sec) (300 * sec))) blocks = (concat (f <$> seq 1 630), true).
Proof.
  intros Hn sec blocks. subst blocks. change (do_budget (300 * sec) (300 * sec)) with (630 * sec).
  replace n with (630 + (1 + (n - 631)))%nat by lia. rewrite !seq_app, !fmap_app.
  change (seq (1 + 630) 1) with [631%nat]. cbn [fmap list_fmap app].
  rewrite read_stream_app; [by rewrite <-list_fmap_compose| |subst sec; lia].
  apply Forall_fmap, Forall_seq. intros i Hi. cbn. subst sec. lia.
Qed.

(** A body is closed and its context released exactly once, however often it
    is closed. *)
Theorem closed_once n : (0 < n)%nat → Nat.iter n closer_Close (mkCloser false 0 0) = mkCloser true 1 1.
Proof. destruct n as [|n]; [lia|]. intros _. induction n as [|n IH]; [done|]. rewrite Nat.iter_succ, IH. done. Qed.
End properties.

(** ** Concrete requests *)

#[local] Existing Instance ascii_unicode.

Definition demo_client : netClient := newClient [bs "hf.co"] (bs "https") (bs "huggingface.co").

Definition echo (w : wire_request) : option answer := Some (mkAnswer 200 (w_Header w) 3 [(5, w_Host w)]).


Lemma steady_transfer_cut_witness :
  (read_stream (Some (0 + do_budget (300 * 1000000000) (300 * 1000000000)))
     ((λ i, (0 + Z.of_nat i * 1000000000, [65])) <$> seq 1 1000)).2 = true.
Proof. rewrite (steady_transfer_cut (λ _, [65]) 0 1000); [reflexivity|lia]. Defined.

(** Two paths a client can tell apart are one upstream: the slash that was
    escaped in the request arrives as a separator. *)
Lemma escaped_slash_lost :
  setPath (bs "/o/m/resolve/refs%2Fpr%2F1/f") = Some (bs "/o/m/resolve/refs/pr/1/f", bs "/o/m/resolve/refs%2Fpr%2F1/f") ∧
  url_String (plain_url (bs "https") (bs "huggingface.co") (bs "/o/m/resolve/refs/pr/1/f") []) =
    bs "https://huggingface.co/o/m/resolve/refs/pr/1/f".
Proof. split; vm_compute; reflexivity. Qed.

(** Large timeouts wrap around and every request expires before it is sent. *)
Lemma budget_overflow :
  do_budget (2 ^ 62) (2 ^ 62) < 0 ∧
  Do demo_client (2 ^ 62) (2 ^ 62) echo 0 None (bs "GET") (bs "hf.co") (bs "/") [] ∅ [] = Err DoExchange.
Proof. split; vm_compute; reflexivity. Qed.
