(* ===== verification/ColdPath.v ===== *)
(** * The cold path of the proxy handler (src/internal/proxy/handler.go)

    A cache miss streams the upstream body to the client and to a segment
    writer of the store in one pass ([diskTeeReader] under io.Copy), closes the
    writer, and records the commit-pinned alias.  System calls take their
    outcome from fault records, reads from upstream are the list of blocks they
    return. *)

From stdpp Require Import base strings numbers gmap list.
From S2P Require Import Prelude GoStd Sha256 Spans CacheKey Lru Store StoreTrace MetaLru StoreBytes RespWriter HostAllow LinkHeader ProxyHeaders Warm.

Local Open Scope Z_scope.
Local Open Scope go_scope.

(** An upstream response; [u_Body] is what successive reads return. *)
Record upstream_response := mkUp {
  u_Status : Z;
  u_ContentLength : Z;
  u_Header : list (bytes * list bytes);
  u_Body : list bytes;
}.

(** What happens around one block: the faults of a checkpoint, the bytes the
    file accepts and whether it fails, and where the client's connection
    breaks, if it does. *)
Record tee_env := mkTee {
  t_faults : faults;
  t_accepted : nat;
  t_werr : bool;
  t_client : option nat;
}.

(** The response to the client. *)
Inductive cold_result :=
| ColdError (status : Z)                                  (* http.Error *)
| Cold (status : Z) (contentLength contentRange : option bytes) (body : bytes).

Section cold.
Context {C : Type} `{MetaCache C} `{GoUnicode}.
Context (victim : KeyHexCache → bytes).
Implicit Types (s : Store C) (w : SegmentWriter).

(** [io.Copy(w, &diskTeeReader{src, disk})]: a block read is written to disk,
    then to the client, and only then is the disk's error looked at.  Reading
    stops with the body or, on a read error, with [env]. *)
Fixpoint tee_copy s w (body : list bytes) (env : list tee_env) : bytes * Store C * SegmentWriter :=
  match body, env with
  | b :: body, e :: env =>
      let '(r, s, w) := Write (t_faults e) s w b (t_accepted e) (t_werr e) in
      match t_client e, r with
      | Some k, _ => (take k b, s, w)
      | None, Err _ => (b, s, w)
      | None, Ok _ => let '(out, s, w) := tee_copy s w body env in (b ++ out, s, w)
      end
  | _, _ => ([], s, w)
  end.

Definition maybeWriteRevAlias (x : faults) (kc : KeyHexCache) s
    (method host path rawQuery canonicalKey : bytes) (headers : list (bytes * list bytes))
    : KeyHexCache * Store C :=
  let sha := entry_Get headers (bs "X-Repo-Commit") in
  if beq sha [] then (kc, s)
  else
    match resolveRevAliasPath path sha with
    | None => (kc, s)
    | Some aliasPath =>
        if beq aliasPath path then (kc, s)
        else
          let keyQuery := if IsContentAddressedHost host then [] else rawQuery in
          let '(aliasKey, kc) := KeyHexCache_Get victim kc method host aliasPath keyQuery [] in
          if beq aliasKey canonicalKey then (kc, s)
          else (kc, (StoreAlias x s aliasKey canonicalKey host aliasPath rawQuery).2)
    end.

Definition setArtifactHeaders (contentLength : Z) : option bytes :=
  if contentLength >=? 0 then Some (FormatInt contentLength) else None.

(** The parameters of the segment a response fills. *)
Definition segment_params (status start len total : Z) (host path rawQuery : bytes)
    (headers : list (bytes * list bytes)) (originPath : bytes) : SegmentParams :=
  mkParams status host path rawQuery (entry_Get headers (bs "Etag"))
    (entry_Get headers (bs "Content-Type")) start len total (pickPreservedHeaders headers) originPath.

Definition begin_error (e : error) : Z :=
  match e with EQuotaExceeded => 507 | _ => 500 end.

(** The faults of one cold fetch. *)
Record cold_env := mkCold {
  c_begin : faults;
  c_tee : list tee_env;
  c_close : faults;
  c_alias : faults;
}.

(** The body of both cacheable cases, from [BeginSegment] on. *)
Definition stream_segment (x : cold_env) (kc : KeyHexCache) s (key : bytes) (p : SegmentParams)
    (resp : upstream_response) (contentLength contentRange : option bytes)
    : cold_result * KeyHexCache * Store C :=
  match BeginSegment (c_begin x) s key p with
  | (Err e, s) => (ColdError (begin_error e), kc, s)
  | (Ok w, s) =>
      let '(out, s, w) := tee_copy s w (u_Body resp) (c_tee x) in
      let '(_, s, _) := Close (c_close x) s w in
      let '(kc, s) := maybeWriteRevAlias (c_alias x) kc s (bs "GET") (p_UpstreamHost p) (p_Path p)
                        (p_RawQuery p) key (u_Header resp) in
      (Cold (p_Status p) contentLength contentRange out, kc, s)
  end.

Definition streamCacheable200 (x : cold_env) (kc : KeyHexCache) s (resp : upstream_response)
    (key host path rawQuery originPath : bytes) : cold_result * KeyHexCache * Store C :=
  let n := u_ContentLength resp in
  stream_segment x kc s key
    (segment_params 200 0 n n host path rawQuery (u_Header resp) originPath) resp
    (setArtifactHeaders n) None.

(** Pass-through: nothing is recorded. *)
Definition streamMetadata (resp : upstream_response) : cold_result :=
  Cold (u_Status resp) (setArtifactHeaders (u_ContentLength resp)) None (concat (u_Body resp)).

Definition streamCacheable206 (x : cold_env) (kc : KeyHexCache) s (resp : upstream_response)
    (key host path rawQuery originPath : bytes) : cold_result * KeyHexCache * Store C :=
  match parseContentRangeResponse (entry_Get (u_Header resp) (bs "Content-Range")) with
  | None => (streamMetadata resp, kc, s)
  | Some (start, end_, total) =>
      stream_segment x kc s key
        (segment_params 206 start (end_ -64 start) total host path rawQuery (u_Header resp) originPath) resp
        (setArtifactHeaders (end_ -64 start)) (Some (formatContentRange start end_ total))
  end.

Definition streamCacheable (x : cold_env) (kc : KeyHexCache) s (resp : upstream_response)
    (key host path rawQuery originPath : bytes) : cold_result * KeyHexCache * Store C :=
  if u_Status resp =? 200 then streamCacheable200 x kc s resp key host path rawQuery originPath
  else if u_Status resp =? 206 then streamCacheable206 x kc s resp key host path rawQuery originPath
  else (streamMetadata resp, kc, s).

(** ** Publishing *)

(** The metadata that a load of [key] returns. *)
Definition current s (key : bytes) (m : Meta) : Prop :=
  metas s !! key = Some (Some m) ∧ mc_ok (metaCache s) ∧
  ∀ m', mc_view (metaCache s) !! key = Some m' → m' = m.

Lemma current_same s s' key m : same_files s s' → current s key m → current s' key m.
Proof. intros (Hm & _ & _ & Hc). unfold current. by rewrite Hm, Hc. Qed.

Lemma LoadMeta_current s key m : current s key m → (LoadMeta s key).1 = Ok (Some m).
Proof.
  intros (Hm & Hok & Hv). unfold LoadMeta. destruct (mc_get_spec key _ Hok) as (Hg & _ & _).
  destruct (mc_get key (metaCache s)) as [[m'|] c]; cbn in *.
  - by rewrite (Hv m').
  - by rewrite Hm.
Qed.

Lemma current_publish s key m :
  mc_ok (metaCache s) → metas s !! key = Some (Some m) →
  current (with_cache s (mc_add key m (metaCache s))) key m.
Proof.
  intros Hok Hm. destruct (mc_add_spec key m _ Hok) as [Hok' Hv]. split_and!; [done|done|].
  intros m' Hm'. apply (lookup_weaken _ _ _ _ Hm') in Hv. rewrite lookup_insert_eq in Hv. by simplify_eq.
Qed.

(** Publishing another key keeps what this one returns. *)
Lemma current_publish_other s key m k m2 :
  k ≠ key → current s key m → current (with_cache s (mc_add k m2 (metaCache s))) key m.
Proof.
  intros Hne (Hm & Hok & Hv). destruct (mc_add_spec k m2 _ Hok) as [Hok' Hv2]. split_and!; [done|done|].
  intros m' Hm'. apply Hv. apply (lookup_weaken _ _ _ _ Hm') in Hv2. by rewrite lookup_insert_ne in Hv2.
Qed.

Lemma current_write_other x s key m k m2 :
  k ≠ key → current s key m → current (writeMetaLocked x s k m2).2 key m.
Proof.
  intros Hne (Hm & Hok & Hv). unfold writeMetaLocked. destruct (_ || _); [done|].
  split_and!; [|done|done]. cbn. by rewrite lookup_insert_ne.
Qed.

Lemma StoreAlias_current x s key m a c h p q :
  a ≠ key → current s key m → current (StoreAlias x s a c h p q).2 key m.
Proof.
  intros Hne Hc. unfold StoreAlias. do 3 (case_match; [done|]). cbv zeta. case_match; [done|].
  set (m2 := mkMeta _ _ _ _ _ _ _ _ _ _ _ _ _ _).
  pose proof (current_write_other x s key m a m2 Hne Hc) as Hw.
  destruct (writeMetaLocked x s a m2) as [[e|] s1]; [done|]. cbn in Hw.
  destruct (maybeFsyncDir x s1); [done|].
  eapply current_same; [apply account_same|]. by apply current_publish_other.
Qed.

Lemma maybeWriteRevAlias_current x kc s method host path q key hs m :
  current s key m → current (maybeWriteRevAlias x kc s method host path q key hs).2 key m.
Proof.
  intros Hc. unfold maybeWriteRevAlias. case_match; [done|]. case_match; [|done]. case_match; [done|].
  destruct (KeyHexCache_Get _ _ _ _ _ _ _) as [ak kc'] eqn:Ek. destruct (beq ak key) eqn:E; [done|].
  apply beq_false in E. by apply StoreAlias_current.
Qed.

(** The system calls that publish metadata succeed. *)
Definition publishes (x : faults) : Prop :=
  x_mkdir x = false ∧ x_writeMeta x = false ∧ x_fsyncDir x = false.

Lemma Close_current x s w :
  publishes x → mc_ok (metaCache s) → w_closed w = false →
  current (Close x s w).1.2 (w_key w) (commit_meta (readMetaLocked s (w_key w)) (with_closed w)).
Proof.
  intros (Hx1 & Hx2 & Hx3) Hok Hc. unfold Close. rewrite Hc. cbv zeta. unfold commit, writeMetaLocked, maybeFsyncDir.
  cbn [w_key with_closed]. rewrite Hx1, Hx2. cbn [orb]. rewrite Hx3, andb_false_r.
  set (m := commit_meta _ _). set (s1 := with_cache _ _).
  assert (current s1 (w_key w) m) as H1.
  { apply (current_publish (with_files s _ _ _)); [done|]. cbn. by rewrite lookup_insert_eq. }
  clearbody s1.
  pose proof (account_same s1 (metaTotal (readMetaLocked s (w_key w)))
    (bool_decide (is_Some (readMetaLocked s (w_key w)))) m) as H2.
  destruct (accountMetaTransition s1 _ _ m) as [acc s2]. cbn in H2.
  destruct (releaseReserved_same s2 (with_closed w) acc) as [H3 _].
  destruct (releaseReserved s2 (with_closed w) acc) as [s3 w3]. cbn [fst snd] in H3.
  destruct (releaseReserved_same s3 w3 (w_reserved (with_closed w))) as [H4 _].
  destruct (releaseReserved s3 w3 (w_reserved (with_closed w))) as [s4 w4]. cbn [fst snd] in *.
  eapply current_same; [exact H4|]. eapply current_same; [exact H3|]. by eapply current_same.
Qed.

(** ** Writing a segment *)

Context (origin : bytes → bytes).

(** A checkpoint leaves the writer's position and mode alone. *)
Lemma write_checkpoint_writer x s w werr :
  same_writer w (write_checkpoint x s w werr).2
  ∧ w_dynamicQuota (write_checkpoint x s w werr).2 = w_dynamicQuota w.
Proof.
  unfold write_checkpoint, checkpoint. destruct (_ && _); [|by split_and!].
  destruct (_ =? _); [by split_and!|]. cbv zeta.
  destruct (writeMetaLocked _ _ _ _) as [[e|] s1]; [by split_and!|].
  destruct (accountMetaTransition _ _ _ _) as [acc s2].
  unfold releaseReserved. destruct (_ || _); by split_and!.
Qed.

(** A block that the file takes whole. *)
Lemma Write_full x s w b :
  w_closed w = false → w_dynamicQuota w = false → 0 ≤ w_written w →
  w_written w + Z.of_nat (length b) ≤ int64_max →
  let '(r, s', w') := Write x s w b (length b) false in
  r = Ok (Z.of_nat (length b)) ∧ w_key w' = w_key w ∧ w_params w' = w_params w ∧ w_closed w' = false
  ∧ w_dynamicQuota w' = false ∧ w_written w' = w_written w + Z.of_nat (length b).
Proof.
  intros Hc Hd Hw Hmax. unfold Write. destruct b as [|c b]; [cbn; split_and!; (done || lia)|].
  set (l := c :: b) in *. assert (0 < length l)%nat as Hl by (cbn; lia). clearbody l. rewrite Hc. cbv zeta.
  unfold write_admit. rewrite Hd. unfold write_file. rewrite Hd. cbn [andb orb].
  destruct (Nat.ltb_spec 0 (length l)); [|lia].
  set (w1 := with_written w _). set (s1 := with_files _ _ _ _).
  destruct (write_checkpoint_writer x s1 w1 false) as [(Hk & _ & Hp & Hwr & Hcl) Hdq].
  destruct (write_checkpoint x s1 w1 false) as [s2 w2]. cbn [fst snd] in *.
  split_and!; try done; [by rewrite Hcl|by rewrite Hdq|].
  rewrite Hwr. cbn. rewrite wrap64_id; [done|]. unfold is_int64, int64_min, int64_max in *. lia.
Qed.

(** The entry of a body: neither an alias nor a redirect. *)
Definition plain (p : SegmentParams) (om : option Meta) : Prop :=
  match om with
  | Some m => AliasOf m = [] ∧ Location m = [] ∧ StatusCode m = p_Status p
  | None => True
  end.

Lemma readMetaLocked_same s s' key : metas s' = metas s → readMetaLocked s' key = readMetaLocked s key.
Proof. intros Hm. unfold readMetaLocked. by rewrite Hm. Qed.

Lemma checkpoint_plain x s w :
  plain (w_params w) (readMetaLocked s (w_key w)) →
  plain (w_params w) (readMetaLocked (checkpoint x s w).1.2 (w_key w)).
Proof.
  intros Hp. unfold checkpoint. destruct (_ =? _); [done|]. cbv zeta.
  set (m := checkpoint_meta _ w). unfold writeMetaLocked. destruct (_ || _); [done|].
  set (s1 := with_cache _ _).
  assert (plain (w_params w) (readMetaLocked s1 (w_key w))) as Hp1.
  { unfold readMetaLocked. cbn. rewrite lookup_insert_eq. unfold m, checkpoint_meta.
    destruct (readMetaLocked s (w_key w)); [exact Hp|done]. }
  pose proof (account_same s1 (metaTotal (readMetaLocked s (w_key w)))
    (bool_decide (is_Some (readMetaLocked s (w_key w)))) m) as [Ha _].
  destruct (accountMetaTransition _ _ _ _) as [acc s2]. cbn in Ha.
  destruct (releaseReserved_same s2 w acc) as [[Hr _] _].
  destruct (releaseReserved s2 w acc) as [s3 w3]. cbn in *.
  rewrite (readMetaLocked_same s2 s3), (readMetaLocked_same s1 s2); done.
Qed.

Lemma Write_plain x s w b :
  w_closed w = false → w_dynamicQuota w = false → plain (w_params w) (readMetaLocked s (w_key w)) →
  plain (w_params w) (readMetaLocked (Write x s w b (length b) false).1.2 (w_key w)).
Proof.
  intros Hc Hd Hp. unfold Write. destruct b as [|c b]; [done|]. rewrite Hc. cbv zeta.
  unfold write_admit. rewrite Hd. unfold write_file. rewrite Hd. cbn [andb].
  assert ((0 <? length (c :: b))%nat = true) as -> by done.
  set (w1 := with_written w _). set (s1 := with_files _ _ _ _).
  unfold write_checkpoint. destruct (_ && _ && _); [|exact Hp].
  pose proof (checkpoint_plain x s1 w1 Hp) as Hck.
  by destruct (checkpoint x s1 w1) as [[e s2] w2].
Qed.

Lemma BeginSegment_metas x s key p : metas (BeginSegment x s key p).2 = metas s.
Proof.
  assert (∀ (s' : Store C) n, metas (releaseReservation s' n) = metas s') as Hrel.
  { intros s' n. apply releaseReservation_same. }
  unfold BeginSegment. destruct (validateSegmentParams key p); [done|].
  pose proof (reserveQuota_same s (quotaReservationFor p)) as [[Hq _] _].
  destruct (reserveQuota _ _) as [[e|] s1]; [done|]. cbn in Hq.
  assert (metas (open_body s1 key).2 = metas s) as Ho.
  { unfold open_body. by destruct (bodies s1 !! key). }
  destruct (x_mkdir x); [by cbn; rewrite Hrel|]. destruct (x_open x); [by cbn; rewrite Hrel|].
  destruct (open_body s1 key) as [i s2]. cbn in Ho.
  destruct (_ && _); [by cbn; rewrite Hrel|]. destruct (_ >? 0); (destruct (x_seek x); [by cbn; rewrite Hrel|done]).
Qed.

Lemma commit_meta_plain old w :
  p_Status (w_params w) ≠ 0 → plain (w_params w) old → plain (w_params w) (Some (commit_meta old w)).
Proof.
  intros Hst Hp. unfold commit_meta. cbn. destruct old as [m|]; cbn.
  - destruct Hp as (-> & -> & ->). split_and!; [done|done|]. by destruct (_ && _).
  - split_and!; [done|done|]. by destruct (_ && _).
Qed.

(** Nothing fails while the body is copied: every block is accepted by the
    file and by the client.  Checkpoints may still fail. *)
Definition copies (body : list bytes) (env : list tee_env) : Prop :=
  Forall2 (fun b e => t_accepted e = length b ∧ t_werr e = false ∧ t_client e = None) body env.

Lemma tee_copy_full body env s w :
  copies body env → origin_small origin → store_ok origin s → writer_ok origin s w →
  w_closed w = false → w_dynamicQuota w = false →
  concat body `prefix_of` drop (Z.to_nat (p_Start (w_params w) + w_written w)) (origin (w_key w)) →
  let '(out, s', w') := tee_copy s w body env in
  out = concat body ∧ store_ok origin s' ∧ writer_ok origin s' w' ∧ w_closed w' = false
  ∧ w_key w' = w_key w ∧ w_params w' = w_params w
  ∧ w_written w' = w_written w + Z.of_nat (length (concat body))
  ∧ (plain (w_params w) (readMetaLocked s (w_key w)) → plain (w_params w) (readMetaLocked s' (w_key w))).
Proof.
  intros Hcp Hsm. revert s w. induction Hcp as [|b e body env (Ha & Hwe & Hcl) _ IH];
    intros s w Hs Hw Hc Hd Hpre; [cbn; split_and!; (done || lia)|].
  cbn [concat] in Hpre. cbn [tee_copy]. rewrite Ha, Hwe, Hcl.
  pose proof Hw as (_ & Hst & Hwr & Hmx & _).
  destruct Hpre as [rest Hrest].
  assert (p_Start (w_params w) + w_written w + Z.of_nat (length b) ≤ int64_max) as Hmax.
  { specialize (Hsm (w_key w)). apply (f_equal length) in Hrest.
    rewrite length_drop, !length_app in Hrest. lia. }
  pose proof (Write_full (t_faults e) s w b Hc Hd Hwr ltac:(lia)) as Hf.
  assert (take (length b) b `prefix_of` drop (Z.to_nat (p_Start (w_params w) + w_written w)) (origin (w_key w))) as Hpb.
  { rewrite firstn_all, Hrest, <-app_assoc. by apply prefix_app_r. }
  pose proof (Write_ok origin (t_faults e) s w b (length b) false Hsm Hs
    (fun _ => Hw) (fun _ => conj Hpb (le_n _))) as Hok.
  pose proof (Write_plain (t_faults e) s w b Hc Hd) as Hpl.
  destruct (Write _ _ _ _ _ _) as [[r s1] w1]. destruct Hf as (-> & Hk & Hp & Hc1 & Hd1 & Hwr1).
  destruct Hok as (Hs1 & _ & _ & Hw1). specialize (IH s1 w1 Hs1 (Hw1 Hc) Hc1 Hd1).
  rewrite Hk, Hp, Hwr1 in IH.
  assert (concat body `prefix_of`
    drop (Z.to_nat (p_Start (w_params w) + (w_written w + Z.of_nat (length b)))) (origin (w_key w))) as Hpre2.
  { replace (Z.to_nat _) with (Z.to_nat (p_Start (w_params w) + w_written w) + length b)%nat by lia.
    rewrite <-drop_drop, Hrest, <-app_assoc, drop_app_length. by exists rest. }
  specialize (IH Hpre2). destruct (tee_copy s1 w1 body env) as [[out s2] w2].
  destruct IH as (-> & ? & ? & ? & ? & ? & Hw2 & Hpl2). split_and!; try done; [|by intros Hp'; auto].
  rewrite Hw2. cbn [concat]. rewrite length_app. lia.
Qed.

(** The parameters of a fetch whose size upstream announced. *)
Definition sized (key : bytes) (p : SegmentParams) : Prop :=
  key ≠ [] ∧ 0 ≤ p_Start p ∧ -1 ≤ p_Length p ∧ 0 < p_Total p
  ∧ p_Total p = Z.of_nat (length (origin key)) ∧ (p_Status p = 200 ∨ p_Status p = 206).

(** Opening the segment succeeds. *)
Definition opens (x : faults) : Prop :=
  x_mkdir x = false ∧ x_open x = false ∧ x_truncate x = false ∧ x_seek x = false.

Lemma BeginSegment_sized x s key p :
  sized key p → opens x → (reserveQuota s (p_Total p)).1 = None →
  ∃ w s', BeginSegment x s key p = (Ok w, s') ∧ w_key w = key ∧ w_params w = p
    ∧ w_written w = 0 ∧ w_closed w = false ∧ w_dynamicQuota w = false.
Proof.
  intros (Hk & Hst & Hl & Ht & _ & Hs) (H1 & H2 & H3 & H4) Hq. unfold BeginSegment.
  assert (validateSegmentParams key p = None) as ->.
  { unfold validateSegmentParams. rewrite (proj2 (beq_false _ _) Hk).
    destruct (Z.ltb_spec (p_Start p) 0), (Z.ltb_spec (p_Length p) (-1)), (Z.ltb_spec (p_Total p) (-1)); try lia.
    destruct Hs as [-> | ->]; done. }
  assert (quotaReservationFor p = p_Total p) as ->.
  { unfold quotaReservationFor. destruct (Z.gtb_spec (p_Total p) 0); [done|lia]. }
  destruct (reserveQuota s (p_Total p)) as [[e|] s1]; [done|]. rewrite H1, H2.
  destruct (open_body s1 key) as [i s2]. rewrite H3, andb_false_r, H4.
  do 2 eexists. split; [reflexivity|]. cbn. split_and!; try done.
  destruct (Z.eqb_spec (p_Total p) 0); [lia|done].
Qed.

(** The metadata of a committed segment covers what was written. *)
Lemma commit_meta_covers s w a b :
  store_ok origin s → writer_ok origin s w → 0 < w_written w →
  p_Start (w_params w) ≤ a → b ≤ p_Start (w_params w) + w_written w →
  Covers (Spans (commit_meta (readMetaLocked s (w_key w)) w)) a b = true.
Proof.
  intros Hs Hw Hpos Ha Hb. pose proof (commit_meta_ok origin s w Hs Hw) as [Hwf _].
  apply Covers_spec; [done|]. intros x Hx. unfold commit_meta. cbn [Spans].
  destruct (Z.gtb_spec (w_written w) 0); [|lia].
  destruct (old_or_new_ok origin s w _ Hs eq_refl) as [Hold _].
  destruct Hw as (_ & Hst & Hwr & Hmx & _). unfold int64_max in *.
  rewrite wrap64_id by (unfold is_int64, int64_min, int64_max; lia).
  apply MergeSpans_covered.
  - apply Forall_app. split; [done|]. repeat constructor. unfold wf_span. cbn. lia.
  - apply covered_app. right. apply covered_cons. left. unfold in_span. cbn. lia.
Qed.

(** A fetch in which nothing fails. *)
Definition fetch_succeeds (x : cold_env) (body : list bytes) : Prop :=
  opens (c_begin x) ∧ copies body (c_tee x) ∧ publishes (c_close x).

(** Every part of [start, end) is now a hit on the upstream's bytes. *)
Definition populated s (key : bytes) (start end_ : Z) : Prop :=
  ∃ m, (LoadMeta s key).1 = Ok (Some m) ∧ warm_total m = Z.of_nat (length (origin key)) ∧
    ∀ a b, start ≤ a → a < b → b ≤ end_ →
      Covers (Spans m) a b = true ∧
      read_body s key a b = Some (take (Z.to_nat (b - a)) (drop (Z.to_nat a) (origin key))).

Lemma maybeWriteRevAlias_ok x kc s method host path q key hs :
  store_ok origin s → store_ok origin (maybeWriteRevAlias x kc s method host path q key hs).2.
Proof.
  intros Hs. unfold maybeWriteRevAlias. case_match; [done|]. case_match; [|done]. case_match; [done|].
  destruct (KeyHexCache_Get _ _ _ _ _ _ _) as [ak kc']. destruct (beq ak key); [done|].
  by apply StoreAlias_ok.
Qed.

Lemma populated_current s key m start end_ :
  store_ok origin s → current s key m → Total m = Some (Z.of_nat (length (origin key))) → 0 ≤ start →
  (∀ a b, start ≤ a → b ≤ end_ → Covers (Spans m) a b = true) → populated s key start end_.
Proof.
  intros Hs Hc Ht Hst Hcov. exists m. pose proof (LoadMeta_current _ _ _ Hc) as Hl. split_and!; [done| |].
  { unfold warm_total. by rewrite Ht. }
  intros a b Ha Hab Hb. split; [by apply Hcov|]. apply (good_slice origin); [lia|]. intros x Hx.
  destruct (LoadMeta_ok origin s key Hs) as [_ Hm]. destruct (Hm m Hl) as [Hwf Hg]. apply Hg.
  pose proof (Hcov a b Ha Hb) as Hc'. rewrite Covers_spec in Hc' by done. by apply Hc'.
Qed.

(** A segment fetched without failures is delivered and published. *)
Lemma stream_segment_publishes x kc s key p resp cl cr :
  origin_small origin → store_ok origin s → sized key p → fetch_succeeds x (u_Body resp) →
  (reserveQuota s (p_Total p)).1 = None → concat (u_Body resp) ≠ [] →
  concat (u_Body resp) `prefix_of` drop (Z.to_nat (p_Start p)) (origin key) →
  let '(r, _, s') := stream_segment x kc s key p resp cl cr in
  r = Cold (p_Status p) cl cr (concat (u_Body resp)) ∧ store_ok origin s' ∧
  ∃ m, current s' key m ∧ Total m = Some (Z.of_nat (length (origin key))) ∧
    (∀ a b, p_Start p ≤ a → b ≤ p_Start p + Z.of_nat (length (concat (u_Body resp))) →
       Covers (Spans m) a b = true) ∧
    (plain p (readMetaLocked s key) → plain p (Some m)).
Proof.
  intros Hsm Hs Hp (Hopen & Hcopy & Hpub) Hq Hne Hpre. unfold stream_segment.
  pose proof Hp as (_ & Hst & _ & Htot & Hlen & _).
  assert (is_int64 (p_Start p)) as Hi.
  { destruct Hpre as [rest Hr]. apply (f_equal length) in Hr. rewrite length_drop, length_app in Hr.
    specialize (Hsm key). destruct (concat (u_Body resp)); [done|]. cbn in Hr.
    unfold is_int64, int64_min, int64_max in *. lia. }
  pose proof (BeginSegment_ok origin (c_begin x) s key p Hs Hi (or_intror Hlen)) as Hb.
  destruct (BeginSegment_sized (c_begin x) s key p Hp Hopen Hq) as (w & s1 & E & Hk & Hpar & Hw0 & Hcl & Hdq).
  rewrite E in Hb |- *. destruct Hb as (Hs1 & _ & _ & Hw).
  assert (concat (u_Body resp) `prefix_of`
    drop (Z.to_nat (p_Start (w_params w) + w_written w)) (origin (w_key w))) as Hpre1.
  { by rewrite Hk, Hpar, Hw0, Z.add_0_r. }
  pose proof (tee_copy_full _ _ s1 w Hcopy Hsm Hs1 Hw Hcl Hdq Hpre1) as Ht.
  pose proof (BeginSegment_metas (c_begin x) s key p) as Hms. rewrite E in Hms. cbn [snd] in Hms.
  destruct (tee_copy s1 w (u_Body resp) (c_tee x)) as [[out s2] w2].
  destruct Ht as (-> & Hs2 & Hw2 & Hcl2 & Hk2 & Hp2 & Hwr2 & Hpl).
  pose proof (Close_ok origin (c_close x) s2 w2 Hs2 Hw2 Hcl2) as Hco.
  pose proof (Close_current (c_close x) s2 w2 Hpub (so_cache _ _ Hs2) Hcl2) as Hcur.
  destruct (Close (c_close x) s2 w2) as [[ce s3] w3]. destruct Hco as [[Hs3 _] _]. cbn [fst snd] in Hcur.
  set (al := maybeWriteRevAlias _ _ _ _ _ _ _ _ _).
  assert (store_ok origin al.2) as Hs4 by (by apply maybeWriteRevAlias_ok).
  rewrite Hk2, Hk in Hcur. set (m := commit_meta _ _) in Hcur.
  assert (current al.2 key m) as Hcur4 by (by apply maybeWriteRevAlias_current).
  destruct al as [kc' s4]. cbn [snd] in *. split_and!; [done|done|].
  exists m. split_and!; [done| | |].
  - unfold m, commit_meta. cbn [Total w_params with_closed]. rewrite Hp2, Hpar.
    destruct (Z.gtb_spec (p_Total p) 0); [by rewrite Hlen|lia].
  - intros a b Ha Hb'. unfold m. rewrite <-Hk, <-Hk2. change (w_key w2) with (w_key (with_closed w2)).
    assert (0 < length (concat (u_Body resp)))%nat by (destruct (concat (u_Body resp)); [done|cbn; lia]).
    apply commit_meta_covers; cbn; rewrite ?Hp2, ?Hpar, ?Hwr2, ?Hw0; try done; lia.
  - intros Hold. rewrite (readMetaLocked_same s s1), Hk, Hpar in Hpl by done.
    assert (w_params (with_closed w2) = p) as Hp3 by (cbn; congruence). rewrite <-Hp3.
    apply commit_meta_plain; rewrite Hp3; [by destruct Hp as (_ & _ & _ & _ & _ & [-> | ->])|auto].
Qed.

(** ** Properties *)

Lemma reachable_store_ok maxBytes dir file c os :
  origin_small origin → mc_ok c → mc_view c = ∅ →
  all_ops (faithful origin) (mkSys (empty_store maxBytes dir file c) ∅) os →
  store_ok origin (sys_store (srun (mkSys (empty_store maxBytes dir file c) ∅) os)).
Proof.
  intros Hsm Hok Hv Hall. apply (srun_inv (sys_ok origin) (faithful origin)); [|by apply empty_sys_ok|done].
  intros y o Hy Ho. by apply sstep_ok.
Qed.


(** a cold range fetch fills exactly its range.  When upstream answers 206
    with the Content-Range of [start, end) and its bytes, the client receives
    that range with the same Content-Range, and afterwards every part of it is
    a hit on the object's bytes. *)
Theorem range_fetch_then_hit maxBytes dir file c os x kc resp key host path rawQuery originPath start end_ :
  origin_small origin → mc_ok c → mc_view c = ∅ →
  all_ops (faithful origin) (mkSys (empty_store maxBytes dir file c) ∅) os →
  let s := sys_store (srun (mkSys (empty_store maxBytes dir file c) ∅) os) in
  let n := Z.of_nat (length (origin key)) in
  let slice := take (Z.to_nat (end_ - start)) (drop (Z.to_nat start) (origin key)) in
  key ≠ [] → 0 ≤ start → start < end_ → end_ ≤ n →
  entry_Get (u_Header resp) (bs "Content-Range") = formatContentRange start end_ n →
  concat (u_Body resp) = slice → fetch_succeeds x (u_Body resp) → (reserveQuota s n).1 = None →
  let '(r, _, s') := streamCacheable206 x kc s resp key host path rawQuery originPath in
  r = Cold 206 (Some (FormatInt (end_ - start))) (Some (formatContentRange start end_ n)) slice
  ∧ populated s' key start end_.
Proof.
  intros Hsm Hok Hv Hall s n slice Hk Hst Hse Hen Hcr Hbody Hx Hq.
  pose proof (reachable_store_ok _ _ _ _ _ Hsm Hok Hv Hall) as Hs. fold s in Hs. clearbody s.
  pose proof (Hsm key) as Hmax. fold n in Hmax. assert (n < 2 ^ 63) by (unfold int64_max in *; lia).
  assert (Z.of_nat (length slice) = end_ - start) as Hlen.
  { unfold slice. rewrite length_take, length_drop. lia. }
  unfold streamCacheable206. rewrite Hcr, parse_format_content_range by lia.
  rewrite wrap64_id by (unfold is_int64, int64_min, int64_max; lia).
  set (p := segment_params _ _ _ _ _ _ _ _ _).
  assert (setArtifactHeaders (end_ - start) = Some (FormatInt (end_ - start))) as ->.
  { unfold setArtifactHeaders. destruct (Z.geb_spec (end_ - start) 0); [done|lia]. }
  pose proof (stream_segment_publishes x kc s key p resp (Some (FormatInt (end_ - start)))
    (Some (formatContentRange start end_ n)) Hsm Hs) as Hpop.
  destruct (stream_segment _ _ _ _ _ _ _ _) as [[r kc'] s']. rewrite Hbody, Hlen in Hpop.
  destruct Hpop as (-> & Hs' & m & Hcur & Ht & Hcov & _); try done.
  - unfold sized, p. cbn. split_and!; try done; [lia|lia|by right].
  - intros E. rewrite E in Hlen. cbn in Hlen. lia.
  - unfold slice, p. cbn. exists (drop (Z.to_nat (end_ - start)) (drop (Z.to_nat start) (origin key))).
    by rewrite take_drop.
  - split; [done|]. apply (populated_current _ _ m); try done.
    intros a b Ha Hb. apply Hcov; [done|]. unfold p. cbn. lia.
Qed.
End cold.

(** ** Concrete fetches *)

#[local] Existing Instance ascii_unicode.

Definition no_victim (c : KeyHexCache) : bytes := [].

Definition tee_ok (b : bytes) : tee_env := mkTee no_faults (length b) false None.

Definition hello_blocks : list bytes := [bs "hello"; bs " "; bs "world"].

Definition hello_env (body : list bytes) : cold_env :=
  mkCold no_faults (tee_ok <$> body) no_faults no_faults.

Definition hello_response (body : list bytes) (hs : list (bytes * list bytes)) : upstream_response :=
  mkUp 200 11 hs body.

Lemma hello_env_succeeds body : fetch_succeeds (hello_env body) body.
Proof. split_and!; try done. unfold copies. cbn. induction body; cbn; by constructor. Qed.


Definition range_response : upstream_response :=
  hello_response [bs "lo w"; bs "or"] [(bs "Content-Range", [bs "bytes 3-8/11"])].

Lemma range_fetch_then_hit_witness :
  let '(r, _, s') := streamCacheable206 no_victim (hello_env (u_Body range_response)) ∅ (sys_store sys0)
    range_response (bs "k") hub file_path [] [] in
  r = Cold 206 (Some (FormatInt 6)) (Some (bs "bytes 3-8/11")) (bs "lo wor")
  ∧ populated (fun _ => hello) s' (bs "k") 3 9.
Proof.
  apply (range_fetch_then_hit no_victim (fun _ => hello) 1000 true false newMetaCache []
           (hello_env (u_Body range_response)) ∅ range_response (bs "k") hub file_path [] [] 3 9).
  - exact hello_small.
  - exact (proj1 newMetaCache_ok).
  - exact (proj2 newMetaCache_ok).
  - exact I.
  - done.
  - lia.
  - lia.
  - vm_decide.
  - vm_decide.
  - done.
  - apply hello_env_succeeds.
  - done.
Defined.

(** a block the disk refuses still reaches the client: with the second block's
    write failing, the client has received both blocks while the store covers
    only the first. *)
Theorem tee_delivers_unpersisted :
  let env := [tee_ok (bs "hello"); mkTee no_faults 0 true None] in
  let '(r, _, s') := streamCacheable200 no_victim (mkCold no_faults env no_faults no_faults) ∅ (sys_store sys0)
    (hello_response hello_blocks []) (bs "k") hub file_path [] [] in
  r = Cold 200 (Some (bs "11")) None (bs "hello ") ∧
  match (LoadMeta s' (bs "k")).1 with
  | Ok (Some m) => Spans m = [mkSpan 0 5]
  | _ => False
  end.
Proof. vm_compute. split; reflexivity. Qed.
