(* ===== verification/StoreStream.v ===== *)
(** * Whole-stream operations of the store (src/internal/cache/store.go)

    [WriteFullFromStream] and [WriteRangeFromStream] open a segment, copy a
    stream into it and load the metadata back; [PurgeKeys] removes the entries
    of a predicate. *)

From stdpp Require Import base strings numbers gmap list.
From S2P Require Import Prelude GoStd Spans Lru Store StoreTrace MetaLru StoreBytes RespWriter Warm ColdPath.

Local Open Scope Z_scope.
Local Open Scope go_scope.

(** What happens to one block of the stream: the faults of a checkpoint, the
    bytes the file accepts, and whether it fails. *)
Record copy_env := mkCopy {
  cp_faults : faults;
  cp_accepted : nat;
  cp_werr : bool;
}.

(** The system calls of one such operation; [st_read] is whether the stream
    ends with an error instead of EOF. *)
Record stream_env := mkStream {
  st_begin : faults;
  st_copy : list copy_env;
  st_read : bool;
  st_close : faults;
}.

Section stream.
Context {C : Type} `{MetaCache C}.
Implicit Types (s : Store C) (w : SegmentWriter).

(** [io.Copy(w, body)]: the first write that fails or is short ends the copy. *)
Fixpoint io_copy s w (body : list bytes) (env : list copy_env) (rerr : bool)
    : option error * Store C * SegmentWriter :=
  match body, env with
  | b :: body, e :: env =>
      let '(r, s, w) := Write (cp_faults e) s w b (cp_accepted e) (cp_werr e) in
      match r with
      | Err e => (Some e, s, w)
      | Ok n => if n =? Z.of_nat (length b) then io_copy s w body env rerr else (Some EIO, s, w)
      end
  | _, _ => (if rerr then Some EIO else None, s, w)
  end.

(** The common part of both writers, from [BeginSegment] to [LoadMeta]. *)
Definition stream_into (x : stream_env) s (key : bytes) (p : SegmentParams) (body : list bytes)
    : result error (option Meta) * Store C :=
  match BeginSegment (st_begin x) s key p with
  | (Err e, s) => (Err e, s)
  | (Ok w, s) =>
      let '(cerr, s, w) := io_copy s w body (st_copy x) (st_read x) in
      let '(clerr, s, w) := Close (st_close x) s w in
      match cerr, clerr with
      | Some e, _ => (Err e, s)
      | None, Some e => (Err e, s)
      | None, None => LoadMeta s key
      end
  end.

Definition WriteFullFromStream (x : stream_env) s (key : bytes) (status : Z)
    (host path rawQuery etag ct : bytes) (body : list bytes) (totalHint : Z)
    : result error (option Meta) * Store C :=
  let totalHint := if totalHint <? 0 then -1 else totalHint in
  stream_into x s key (mkParams status host path rawQuery etag ct 0 totalHint totalHint ∅ []) body.

Definition WriteRangeFromStream (x : stream_env) s (key : bytes) (start end_ : Z) (total : option Z)
    (host path rawQuery etag ct : bytes) (body : list bytes)
    : result error (option Meta) * Store C :=
  if (start <? 0) || (end_ <=? start) then (Err EInvalid, s)
  else
    let t := match total with Some t => t | None => -1 end in
    stream_into x s key (mkParams 206 host path rawQuery etag ct start (end_ -64 start) t ∅ []) body.

(** A nil predicate is [None]. *)
Definition PurgeKeys (x : faults) (rmerr : bool) (pred : option (bytes → Meta → bool))
    (order : list bytes) s : option error * Store C * (Z * Z) :=
  match pred with
  | None => (Some EInvalid, s, (0, 0))
  | Some pred =>
      let '(e, s, res) :=
        PurgeOrTrim x rmerr (fun key m => if pred key m then (DecisionRemove, None) else (DecisionKeep, None)) order s in
      (e, s, (Purged res, BytesFreed res))
  end.

(** ** Copying *)

Context (origin : bytes → bytes).

(** The file takes every block whole, and the stream ends in EOF. *)
Definition all_copied (body : list bytes) (x : stream_env) : Prop :=
  Forall2 (fun b e => cp_accepted e = length b ∧ cp_werr e = false) body (st_copy x) ∧ st_read x = false.

Definition as_tee (e : copy_env) : tee_env := mkTee (cp_faults e) (cp_accepted e) (cp_werr e) None.

(** Such a copy does to the store what the copy of a cold fetch does. *)
Lemma io_copy_tee s w body env :
  Forall2 (fun b e => cp_accepted e = length b ∧ cp_werr e = false) body env →
  origin_small origin → store_ok origin s → writer_ok origin s w →
  w_closed w = false → w_dynamicQuota w = false →
  concat body `prefix_of` drop (Z.to_nat (p_Start (w_params w) + w_written w)) (origin (w_key w)) →
  let '(_, s', w') := tee_copy s w body (as_tee <$> env) in
  io_copy s w body env false = (None, s', w').
Proof.
  intros Hcp Hsm. revert s w. induction Hcp as [|b e body env [Ha Hw] Hcp IH]; intros s w Hs Hwo Hc Hd Hpre; [done|].
  cbn [concat] in Hpre. cbn [tee_copy io_copy fmap list_fmap as_tee t_faults t_accepted t_werr t_client]. rewrite Ha, Hw.
  pose proof (tee_copy_full origin [b] [as_tee e] s w) as Hone.
  pose proof Hwo as (_ & Hst & Hwr & Hmx & _). destruct Hpre as [rest Hrest].
  assert (p_Start (w_params w) + w_written w + Z.of_nat (length b) ≤ int64_max) as Hmax.
  { specialize (Hsm (w_key w)). apply (f_equal length) in Hrest. rewrite length_drop, !length_app in Hrest. lia. }
  pose proof (Write_full (cp_faults e) s w b Hc Hd Hwr ltac:(lia)) as Hf.
  cbn [tee_copy as_tee t_faults t_accepted t_werr t_client] in Hone. rewrite Ha, Hw in Hone.
  destruct (Write (cp_faults e) s w b (length b) false) as [[r s1] w1].
  destruct Hf as (-> & Hk & Hp & Hc1 & Hd1 & Hwr1). rewrite Z.eqb_refl.
  destruct Hone as (_ & Hs1 & Hw1 & _); try done.
  { constructor; [done|constructor]. }
  { cbn [concat]. rewrite app_nil_r, Hrest, <-app_assoc. by apply prefix_app_r. }
  specialize (IH s1 w1 Hs1 Hw1 Hc1 Hd1). rewrite Hk, Hp, Hwr1 in IH.
  destruct (tee_copy s1 w1 body (as_tee <$> env)) as [[out s2] w2]. apply IH.
  replace (Z.to_nat _) with (Z.to_nat (p_Start (w_params w) + w_written w) + length b)%nat by lia.
  rewrite <-drop_drop, Hrest, <-app_assoc, drop_app_length. by exists rest.
Qed.

(** No system call of [Close] fails. *)
Definition closes (x : faults) : Prop := publishes x ∧ x_sync x = false ∧ x_close x = false.

Lemma Close_no_error x s w : closes x → w_closed w = false → (Close x s w).1.1 = None.
Proof.
  intros ((H1 & H2 & H3) & H4 & H5) Hc. unfold Close, commit, writeMetaLocked, maybeFsyncDir.
  rewrite Hc, H1, H2, H4, H5. cbn [orb w_key with_closed]. rewrite H3, !andb_false_r.
  destruct (accountMetaTransition _ _ _ _) as [acc s2]. destruct (releaseReserved s2 _ acc) as [s3 w3].
  by destruct (releaseReserved s3 w3 (w_reserved (with_closed w))).
Qed.

(** Loading an entry keeps what the next load returns. *)
Lemma current_load s key m : current s key m → current (LoadMeta s key).2 key m.
Proof.
  intros (Hm & Hok & Hv). unfold LoadMeta. destruct (mc_get_spec key _ Hok) as (Hg & Hok' & Hview).
  destruct (mc_get key (metaCache s)) as [[m'|] c]; cbn [fst snd] in *.
  - split_and!; [done|done|]. cbn. by rewrite Hview.
  - cbn [metas with_cache]. rewrite Hm. by apply (current_publish (with_cache s c)).
Qed.

(** Nothing fails while the stream is stored. *)
Definition stream_succeeds (x : stream_env) (body : list bytes) : Prop :=
  opens (st_begin x) ∧ all_copied body x ∧ closes (st_close x).

Lemma stream_into_publishes x s key p body :
  origin_small origin → store_ok origin s → sized origin key p → stream_succeeds x body →
  (reserveQuota s (p_Total p)).1 = None → concat body ≠ [] →
  concat body `prefix_of` drop (Z.to_nat (p_Start p)) (origin key) →
  let '(r, s') := stream_into x s key p body in
  (∃ m, r = Ok (Some m)) ∧ populated origin s' key (p_Start p) (p_Start p + Z.of_nat (length (concat body))).
Proof.
  intros Hsm Hs Hp (Hopen & (Hcopy & Hread) & Hclose) Hq Hne Hpre. unfold stream_into.
  pose proof Hp as (_ & Hst & _ & Htot & Hlen & _).
  assert (is_int64 (p_Start p)) as Hi.
  { destruct Hpre as [rest Hr]. apply (f_equal length) in Hr. rewrite length_drop, length_app in Hr.
    specialize (Hsm key). destruct (concat body); [done|]. cbn in Hr. unfold is_int64, int64_min, int64_max in *. lia. }
  pose proof (BeginSegment_ok origin (st_begin x) s key p Hs Hi (or_intror Hlen)) as Hb.
  destruct (BeginSegment_sized origin (st_begin x) s key p Hp Hopen Hq) as (w & s1 & E & Hk & Hpar & Hw0 & Hcl & Hdq).
  rewrite E in Hb |- *. destruct Hb as (Hs1 & _ & _ & Hw).
  assert (concat body `prefix_of` drop (Z.to_nat (p_Start (w_params w) + w_written w)) (origin (w_key w))) as Hpre1.
  { by rewrite Hk, Hpar, Hw0, Z.add_0_r. }
  pose proof (io_copy_tee s1 w body (st_copy x) Hcopy Hsm Hs1 Hw Hcl Hdq Hpre1) as Hio.
  assert (copies body (as_tee <$> st_copy x)) as Hcp.
  { apply Forall2_fmap_r. eapply Forall2_impl; [exact Hcopy|]. by intros b e [? ?]. }
  pose proof (tee_copy_full origin _ _ s1 w Hcp Hsm Hs1 Hw Hcl Hdq Hpre1) as Ht.
  destruct (tee_copy s1 w body (as_tee <$> st_copy x)) as [[out s2] w2]. rewrite Hread, Hio.
  destruct Ht as (_ & Hs2 & Hw2 & Hcl2 & Hk2 & Hp2 & Hwr2 & _).
  pose proof (Close_ok origin (st_close x) s2 w2 Hs2 Hw2 Hcl2) as Hco.
  pose proof (Close_no_error (st_close x) s2 w2 Hclose Hcl2) as Hce.
  pose proof (Close_current (st_close x) s2 w2 (proj1 Hclose) (so_cache _ _ Hs2) Hcl2) as Hcur.
  destruct (Close (st_close x) s2 w2) as [[ce s3] w3]. destruct Hco as [[Hs3 _] _]. cbn [fst snd] in *. subst ce.
  rewrite Hk2, Hk in Hcur. set (m := commit_meta _ _) in Hcur.
  pose proof (LoadMeta_current s3 key m Hcur) as Hload.
  pose proof (current_load s3 key m Hcur) as Hcur4. destruct (LoadMeta_ok origin s3 key Hs3) as [[Hs4 _] _].
  destruct (LoadMeta s3 key) as [r s4]. cbn [fst snd] in *. subst r. split; [by eexists|].
  apply (populated_current origin s4 key m); try done.
  - unfold m, commit_meta. cbn [Total w_params with_closed]. rewrite Hp2, Hpar.
    destruct (Z.gtb_spec (p_Total p) 0); [by rewrite Hlen|lia].
  - intros a b Ha Hb'. unfold m. rewrite <-Hk, <-Hk2. change (w_key w2) with (w_key (with_closed w2)).
    assert (0 < length (concat body))%nat by (destruct (concat body); [done|cbn; lia]).
    apply (commit_meta_covers origin); cbn; rewrite ?Hp2, ?Hpar, ?Hwr2, ?Hw0; try done; lia.
Qed.

(** a stored stream reads back.  In any reachable store with room for the
    object, writing [start, end) of it from a stream that delivers those bytes
    returns the entry's metadata, and afterwards every part of the range is a
    hit on the object's bytes. *)
Theorem written_range_readable maxBytes dir file c os x key start end_ host path rawQuery etag ct body :
  origin_small origin → mc_ok c → mc_view c = ∅ →
  all_ops (faithful origin) (mkSys (empty_store maxBytes dir file c) ∅) os →
  let s := sys_store (srun (mkSys (empty_store maxBytes dir file c) ∅) os) in
  let n := Z.of_nat (length (origin key)) in
  key ≠ [] → 0 ≤ start → start < end_ → end_ ≤ n →
  concat body = take (Z.to_nat (end_ - start)) (drop (Z.to_nat start) (origin key)) →
  stream_succeeds x body → (reserveQuota s n).1 = None →
  let '(r, s') := WriteRangeFromStream x s key start end_ (Some n) host path rawQuery etag ct body in
  (∃ m, r = Ok (Some m)) ∧ populated origin s' key start end_.
Proof.
  intros Hsm Hok Hv Hall s n Hk Hst Hse Hen Hbody Hx Hq.
  pose proof (reachable_store_ok origin _ _ _ _ _ Hsm Hok Hv Hall) as Hs. fold s in Hs. clearbody s.
  assert (Z.of_nat (length (concat body)) = end_ - start) as Hlen.
  { rewrite Hbody, length_take, length_drop. lia. }
  unfold WriteRangeFromStream. destruct (Z.ltb_spec start 0); [lia|]. destruct (Z.leb_spec end_ start); [lia|].
  cbn [orb]. pose proof (Hsm key) as Hmax. fold n in Hmax.
  rewrite wrap64_id by (unfold is_int64, int64_min, int64_max in *; lia).
  set (p := mkParams _ _ _ _ _ _ _ _ _ _ _).
  pose proof (stream_into_publishes x s key p body Hsm Hs) as Hp.
  destruct (stream_into x s key p body) as [r s']. rewrite Hlen in Hp.
  replace end_ with (start + (end_ - start)) by lia. apply Hp; try done.
  - unfold sized, p. cbn. split_and!; try done; lia.
  - intros E. rewrite E in Hlen. cbn in Hlen. lia.
  - rewrite Hbody. cbn. exists (drop (Z.to_nat (end_ - start)) (drop (Z.to_nat start) (origin key))). by rewrite take_drop.
Qed.

(** The same for a whole object whose length the caller knows. *)
Theorem written_object_readable maxBytes dir file c os x key status host path rawQuery etag ct body :
  origin_small origin → mc_ok c → mc_view c = ∅ →
  all_ops (faithful origin) (mkSys (empty_store maxBytes dir file c) ∅) os →
  let s := sys_store (srun (mkSys (empty_store maxBytes dir file c) ∅) os) in
  let n := Z.of_nat (length (origin key)) in
  key ≠ [] → 0 < n → (status = 200 ∨ status = 206) → concat body = origin key →
  stream_succeeds x body → (reserveQuota s n).1 = None →
  let '(r, s') := WriteFullFromStream x s key status host path rawQuery etag ct body n in
  (∃ m, r = Ok (Some m)) ∧ populated origin s' key 0 n.
Proof.
  intros Hsm Hok Hv Hall s n Hk Hn Hst Hbody Hx Hq.
  pose proof (reachable_store_ok origin _ _ _ _ _ Hsm Hok Hv Hall) as Hs. fold s in Hs. clearbody s.
  unfold WriteFullFromStream. destruct (Z.ltb_spec n 0); [lia|]. set (p := mkParams _ _ _ _ _ _ _ _ _ _ _).
  pose proof (stream_into_publishes x s key p body Hsm Hs) as Hp.
  destruct (stream_into x s key p body) as [r s']. rewrite Hbody in Hp. apply Hp; try done.
  - unfold sized, p. cbn. split_and!; try done; lia.
  - intros E. unfold n in Hn. rewrite E in Hn. cbn in Hn. lia.
Qed.

(** ** Purging by a predicate *)

(** What is left of the entry [k]. *)
Definition kept (pred : bytes → Meta → bool) (mf : option (option Meta)) (k : bytes) : option (option Meta) :=
  match mf with
  | Some (Some m) => if pred k m then None else mf
  | _ => mf
  end.

Lemma kept_idem pred mf k : kept pred (kept pred mf k) k = kept pred mf k.
Proof. destruct mf as [[m|]|]; [|done..]. cbn. destruct (pred k m) eqn:E; [done|]. cbn. by rewrite E. Qed.

Lemma purge_account_metas s f : metas (purge_account s f) = metas s.
Proof. unfold purge_account. by repeat case_match. Qed.

Lemma purge_walk_keys x (pred : bytes → Meta → bool) s res keys :
  let d := fun key m => if (pred key m : bool) then (DecisionRemove, @None Meta) else (DecisionKeep, None) in
  let '(e, s', _) := purge_walk x false d s res keys in
  e = None ∧ ∀ k, metas s' !! k = if bool_decide (k ∈ keys) then kept pred (metas s !! k) k else metas s !! k.
Proof.
  cbv zeta. revert s res. induction keys as [|k keys IH]; intros s res; [done|]. cbn [purge_walk].
  destruct (readMetaLocked s k) as [m|] eqn:Er.
  - assert (metas s !! k = Some (Some m)) as Em.
    { unfold readMetaLocked in Er. destruct (metas s !! k) as [[?|]|]; by simplify_eq. }
    destruct (pred k m) eqn:Ep; cbn [purge_one].
    + set (s1 := with_cache _ _). set (res1 := mkPurge _ _ _). specialize (IH s1 res1).
      destruct (purge_walk _ _ _ s1 res1 keys) as [[e s'] r']. destruct IH as [He IH]. split; [done|].
      assert (metas s1 = delete k (metas s)) as Hd by (unfold s1; cbn; by rewrite purge_account_metas).
      intros k'. rewrite IH, Hd. destruct (decide (k' = k)) as [->|Hne].
      * rewrite lookup_delete_eq, (bool_decide_eq_true_2 (k ∈ k :: keys)) by left. rewrite Em. cbn. rewrite Ep.
        by destruct (bool_decide _).
      * rewrite lookup_delete_ne by done. rewrite (bool_decide_ext (k' ∈ k :: keys) (k' ∈ keys)) by set_solver. done.
    + specialize (IH s res). destruct (purge_walk _ _ _ s res keys) as [[e s'] r']. destruct IH as [He IH].
      split; [done|]. intros k'. rewrite IH. destruct (decide (k' = k)) as [->|Hne].
      * rewrite (bool_decide_eq_true_2 (k ∈ k :: keys)) by left. rewrite Em. cbn. rewrite Ep. by destruct (bool_decide _).
      * by rewrite (bool_decide_ext (k' ∈ k :: keys) (k' ∈ keys)) by set_solver.
  - specialize (IH s res). destruct (purge_walk _ _ _ s res keys) as [[e s'] r']. destruct IH as [He IH].
    split; [done|]. intros k'. rewrite IH. destruct (decide (k' = k)) as [->|Hne].
    + rewrite (bool_decide_eq_true_2 (k ∈ k :: keys)) by left. unfold readMetaLocked in Er.
      destruct (metas s !! k) as [[m|]|]; [done|..]; by destruct (bool_decide _).
    + by rewrite (bool_decide_ext (k' ∈ k :: keys) (k' ∈ keys)) by set_solver.
Qed.

(** When no removal fails, [PurgeKeys] removes exactly the readable entries
    that satisfy the predicate and leaves every other file alone. *)
Theorem PurgeKeys_exact x pred order s :
  (∀ k, is_Some (metas s !! k) → k ∈ order) →
  let '(e, s', _) := PurgeKeys x false (Some pred) order s in
  e = None ∧ ∀ k, metas s' !! k = kept pred (metas s !! k) k.
Proof.
  intros Hall. unfold PurgeKeys, PurgeOrTrim. pose proof (purge_walk_keys x pred s (mkPurge 0 0 0) order) as Hw. cbv zeta in Hw.
  destruct (purge_walk _ _ _ s _ order) as [[e s'] r]. destruct Hw as [-> Hw]. split; [done|]. intros k. rewrite Hw.
  destruct (metas s !! k) as [mf|] eqn:E; [|by case_bool_decide]. by rewrite bool_decide_eq_true_2 by (apply Hall; rewrite E; eauto).
Qed.

End stream.

(** ** A concrete stream *)

Definition copy_all (body : list bytes) : stream_env :=
  mkStream no_faults ((fun b => mkCopy no_faults (length b) false) <$> body) false no_faults.

Lemma copy_all_succeeds body : stream_succeeds (copy_all body) body.
Proof. split_and!; try done. split; [|done]. cbn. induction body; cbn; by constructor. Qed.

Lemma written_range_readable_witness :
  let '(r, s') := WriteRangeFromStream (copy_all [bs "lo w"; bs "or"]) (sys_store sys0) (bs "k") 3 9 (Some 11)
    (bs "hub") (bs "/f") [] [] [] [bs "lo w"; bs "or"] in
  (∃ m, r = Ok (Some m)) ∧ populated (fun _ => hello) s' (bs "k") 3 9.
Proof.
  apply (written_range_readable (fun _ => hello) 1000 true false newMetaCache [] (copy_all [bs "lo w"; bs "or"])
           (bs "k") 3 9 (bs "hub") (bs "/f") [] [] [] [bs "lo w"; bs "or"]).
  - exact hello_small.
  - exact (proj1 newMetaCache_ok).
  - exact (proj2 newMetaCache_ok).
  - exact I.
  - done.
  - lia.
  - lia.
  - vm_decide.
  - done.
  - apply copy_all_succeeds.
  - done.
Defined.
