(* ===== verification/Handler.v ===== *)
(** * The proxy handler (src/internal/proxy/handler.go)

    [ServeHTTP] routes a request, looks it up in the cache (one alias hop,
    cached redirects, HEAD from GET metadata, ranges) and otherwise forwards it
    upstream and fills the cache.  The upstream service is the function [up],
    the URL rewriting of redirects [rewrite_loc]; the outcome of claiming the
    in-flight range (Inflight.v) is an argument.  A call returns, besides the
    response and the new state, the requests it sent upstream. *)

From stdpp Require Import base strings numbers gmap list.
From S2P Require Import Prelude GoStd Sha256 Spans CacheKey Lru Store StoreTrace MetaLru StoreBytes RespWriter Classify Rewrite HostAllow LinkHeader ProxyHeaders Warm ColdPath.

Local Open Scope Z_scope.
Local Open Scope go_scope.

Record config := mkConfig {
  cfg_DefaultHost : bytes;
  cfg_Offline : bool;
  cfg_StrictOffline : bool;
  cfg_UpstreamHFToken : bytes;
}.

Record hrequest := mkHReq {
  r_Method : bytes;
  r_Path : bytes;
  r_RawQuery : bytes;
  r_Header : list (bytes * list bytes);
  r_Body : bytes;
}.

Record hresponse := mkHResp { rs_Status : Z; rs_Header : header; rs_Body : bytes }.

(** The arguments of [upstream.Client.Do]. *)
Record outreq := mkOut {
  o_Method : bytes;
  o_Host : bytes;
  o_Path : bytes;
  o_RawQuery : bytes;
  o_Header : header;
  o_Body : bytes;
}.

(** ** Responses *)

(** [http.Error] *)
Definition http_Error (h : header) (msg : bytes) (code : Z) : hresponse :=
  let h := hdr_Del h (bs "Content-Length") in
  let h := hdr_Set h (bs "Content-Type") (bs "text/plain; charset=utf-8") in
  mkHResp code (hdr_Set h (bs "X-Content-Type-Options") (bs "nosniff")) (msg ++ [10]).

Definition setDataPlaneSecurityHeaders (h : header) : header :=
  hdr_Set h (bs "X-Content-Type-Options") (bs "nosniff").

Definition set_if (h : header) (k v : bytes) : header := if beq v [] then h else hdr_Set h k v.

(** Content-Type, ETag and the preserved headers of an entry. *)
Definition entry_headers (h : header) (m : Meta) : header :=
  applyExtraHeaders (set_if (set_if h (bs "Content-Type") (ContentType m)) (bs "Etag") (ETag m)) (ExtraHeaders m).

Definition serveCachedHead (h : header) (m : Meta) : hresponse :=
  let h := entry_headers h m in
  let h := match Total m with
           | Some t => if t >=? 0 then hdr_Set h (bs "Content-Length") (FormatInt t) else h
           | None => h
           end in
  mkHResp 200 h [].

Definition respondOffline (h : header) (host path rangeHdr keyHex : bytes) (artifact : bool) (method : bytes)
    : hresponse :=
  let h := hdr_Set h (bs "Content-Type") (bs "text/plain; charset=utf-8") in
  let h := hdr_Set h (bs "X-Pulsys-Offline") (bs "1") in
  let h := hdr_Set h (bs "X-Pulsys-Keyhex") keyHex in
  mkHResp 504 h
    (bs "offline=1" ++ [10] ++ bs "reason=cache-miss-in-offline-mode" ++ [10] ++
     bs "method=" ++ method ++ [10] ++ bs "upstream_host=" ++ host ++ [10] ++
     bs "path=" ++ path ++ [10] ++ bs "range=" ++ rangeHdr ++ [10] ++
     bs "key_hex=" ++ keyHex ++ [10] ++
     bs "artifact=" ++ (if artifact then bs "true" else bs "false") ++ [10]).

(** What the streaming functions put on the writer. *)
Definition cold_response (h : header) (r : cold_result) : hresponse :=
  match r with
  | ColdError 507 => http_Error h (bs "cache storage quota exceeded") 507
  | ColdError code => http_Error h (bs "cache write failed") code
  | Cold status cl cr body =>
      let h := match cr with Some v => hdr_Set h (bs "Content-Range") v | None => h end in
      let h := match cl with
               | Some v => hdr_Set h (bs "Content-Length") v
               | None => hdr_Del h (bs "Content-Length")
               end in
      mkHResp status h body
  end.

Definition forwardRedirect (h : header) (resp : upstream_response) : hresponse :=
  mkHResp (u_Status resp) (hdr_Set h (bs "Content-Length") (bs "0")) [].

(** The body materialised for methods other than GET and HEAD, at most
    256 MiB of it. *)
Definition request_body (method body : bytes) : bytes :=
  if beq method (bs "GET") || beq method (bs "HEAD") then []
  else if Z.of_nat (length body) <=? 268435456 then body
  else take (Z.to_nat 268435456) body.

Section handler.
Context {C : Type} `{MetaCache C} `{GoUnicode}.
Context (victim : KeyHexCache → bytes).
Context (cfg : config) (allow : bytes → bool).
Context (rewrite_loc : bytes → bytes → option bytes).   (* location, origin *)
Context (up : outreq → option upstream_response).
Implicit Types (s : Store C) (kc : KeyHexCache) (h : header).

(** ** Serving from the cache *)

Definition serveCachedRedirect h (m : Meta) : hresponse :=
  let loc := match rewrite_loc (Location m) (Path m) with Some nl => nl | None => Location m end in
  let h := hdr_Set h (bs "Location") loc in
  mkHResp (StatusCode m) (hdr_Set (entry_headers h m) (bs "Content-Length") (bs "0")) [].

(** [wantStart], [wantEnd] of a body request. *)
Definition body_range (rangeHdr : bytes) (total : Z) : option (Z * Z) :=
  if beq rangeHdr [] then if total <? 0 then None else Some (0, total)
  else match ParseSingleRange rangeHdr total with
       | Some (a, b) => if b <? 0 then None else Some (a, b)
       | None => None
       end.

(** The entry a key leads to: itself, or the canonical one of an alias. *)
Definition load_entry s (key : bytes) : option (bytes * Meta) * Store C :=
  match LoadMeta s key with
  | (Ok (Some m), s) =>
      if beq (AliasOf m) [] then (Some (key, m), s)
      else match LoadMeta s (AliasOf m) with
           | (Ok (Some canonical), s) => (Some (AliasOf m, canonical), s)
           | (_, s) => (None, s)
           end
  | (_, s) => (None, s)
  end.

Definition serve_body h s (rangeHdr key : bytes) (m : Meta) : option hresponse :=
  if (length (Spans m) =? 0)%nat then None
  else
    match body_range rangeHdr (warm_total m) with
    | None => None
    | Some (a, b) =>
        if negb (Covers (Spans m) a b) then None
        else match read_body s key a b with
             | None => None
             | Some body =>
                 let h := hdr_Set (entry_headers h m) (bs "Content-Length") (FormatInt (b -64 a)) in
                 Some (if beq rangeHdr [] then mkHResp 200 h body
                       else mkHResp 206 (hdr_Set h (bs "Content-Range")
                                           (formatContentRange a b (warm_total m))) body)
             end
    end.

Definition tryServeFromCache h s (rangeHdr keyHex : bytes) (headOnly : bool) : option hresponse * Store C :=
  match load_entry s keyHex with
  | (None, s) => (None, s)
  | (Some (key, m), s) =>
      if IsCacheableRedirectStatus (StatusCode m) && negb (beq (Location m) [])
      then (Some (serveCachedRedirect h m), s)
      else if headOnly then (Some (serveCachedHead h m), s)
      else (serve_body h s rangeHdr key m, s)
  end.

(** ** Redirects from upstream *)

(** A Location valid for every Range with the headers it came with, and the
    extra request made to get it. *)
Definition cacheableLocation (resp : upstream_response) (o : outreq)
    : option (bytes * list (bytes * list bytes)) * list outreq :=
  if beq (hdr_Get (o_Header o) (bs "Range")) []
  then (Some (entry_Get (u_Header resp) (bs "Location"), u_Header resp), [])
  else
    let o := mkOut (bs "GET") (o_Host o) (o_Path o) (o_RawQuery o) (hdr_Del (o_Header o) (bs "Range")) [] in
    match up o with
    | None => (None, [o])
    | Some fresh =>
        let loc := entry_Get (u_Header fresh) (bs "Location") in
        if negb (IsCacheableRedirectStatus (u_Status fresh)) || beq loc [] then (None, [o])
        else (Some (loc, u_Header fresh), [o])
    end.

Definition cacheRedirect (x : cold_env) kc s h (resp : upstream_response) (o : outreq) (keyHex : bytes)
    : list outreq * hresponse * KeyHexCache * Store C :=
  if beq (entry_Get (u_Header resp) (bs "Location")) []
  then ([], cold_response h (streamMetadata resp), kc, s)
  else
    match cacheableLocation resp o with
    | (None, sent) => (sent, forwardRedirect h resp, kc, s)
    | (Some (loc, hs), sent) =>
        let s := (StoreRedirect (c_close x) s keyHex (u_Status resp) (o_Host o) (o_Path o) (o_RawQuery o) loc
                    (entry_Get hs (bs "Content-Type")) (entry_Get hs (bs "Etag"))
                    (pickPreservedHeaders hs)).2 in
        let '(kc, s) := maybeWriteRevAlias victim (c_alias x) kc s (bs "GET") (o_Host o) (o_Path o)
                          (o_RawQuery o) keyHex hs in
        (sent, forwardRedirect h resp, kc, s)
    end.

(** ** Forwarding *)

(** [claimed]: the in-flight range was acquired within the budget. *)
Definition forward (x : cold_env) (claimed : bool) kc s h (req : hrequest)
    (host path rawQuery keyHex : bytes) (artifact : bool) (originPath : bytes)
    : list outreq * hresponse * KeyHexCache * Store C :=
  let method := r_Method req in
  let isGet := beq method (bs "GET") in
  let o := mkOut method host path rawQuery
             (forward_headers host (cfg_UpstreamHFToken cfg) (r_Header req))
             (request_body method (r_Body req)) in
  let rangeHdr := entry_Get (r_Header req) (bs "Range") in
  let claims := artifact && isGet in
  let '(hit, s) := if claims then tryServeFromCache h s rangeHdr keyHex false else (None, s) in
  match hit with
  | Some r => ([], r, kc, s)
  | None =>
      match up o with
      | None => ([o], http_Error h (bs "upstream error") 502, kc, s)
      | Some resp =>
          let outboundOrigin :=
            if beq originPath [] && negb (HasPrefix (r_Path req) (bs "/_p/")) then r_Path req
            else originPath in
          let h := copyAndRewriteHeaders (fun loc => rewrite_loc loc outboundOrigin) h (u_Header resp) in
          if claims && negb claimed then ([o], cold_response h (streamMetadata resp), kc, s)
          else if isGet && ((u_Status resp =? 200) || (u_Status resp =? 206)) then
            let '(r, kc, s) := streamCacheable victim x kc s resp keyHex host path rawQuery originPath in
            ([o], cold_response h r, kc, s)
          else if isGet && IsCacheableRedirectStatus (u_Status resp) then
            let '(sent, r, kc, s) := cacheRedirect x kc s h resp o keyHex in
            (o :: sent, r, kc, s)
          else ([o], cold_response h (streamMetadata resp), kc, s)
      end
  end.

(** ** Dispatch *)

(** The query without the origin marker, where it carried an origin. *)
Definition request_query (rawQuery : bytes) : bytes * bytes :=
  let '(originPath, cleaned) := ExtractAndStripOrigin rawQuery in
  (originPath, if beq originPath [] then rawQuery else cleaned).

Definition key_query (host rawQuery : bytes) : bytes :=
  if IsContentAddressedHost host then [] else rawQuery.

Definition is_artifact (host method path : bytes) : bool :=
  ArtifactGET (cfg_DefaultHost cfg) host method path
  || (beq method (bs "HEAD") && ArtifactGET (cfg_DefaultHost cfg) host (bs "GET") path).

Definition ServeHTTP (x : cold_env) (claimed : bool) kc s (req : hrequest)
    : list outreq * hresponse * KeyHexCache * Store C :=
  let h := setDataPlaneSecurityHeaders ∅ in
  if beq (r_Path req) (bs "/healthz") then ([], mkHResp 200 h (bs "ok"), kc, s)
  else
    match routeUpstream allow (cfg_DefaultHost cfg) (r_Path req) with
    | RouteError 400 => ([], http_Error h (bs "bad /_p/ path") 400, kc, s)
    | RouteError code => ([], http_Error h (bs "host not allowed") code, kc, s)
    | Route host path =>
        let '(originPath, rawQuery) := request_query (r_RawQuery req) in
        let method := r_Method req in
        let keyQuery := key_query host rawQuery in
        let '(keyHex, kc) := KeyHexCache_Get victim kc method host path keyQuery [] in
        let isHead := beq method (bs "HEAD") in
        let artifact := is_artifact host method path in
        let rangeHdr := entry_Get (r_Header req) (bs "Range") in
        let '(hit, kc, s) :=
          if (beq method (bs "GET") || isHead) && (artifact || cfg_Offline cfg) then
            let '(lookupKey, kc) := if isHead then KeyHexCache_Get victim kc (bs "GET") host path keyQuery []
                                    else (keyHex, kc) in
            let '(hit, s) := tryServeFromCache h s rangeHdr lookupKey isHead in (hit, kc, s)
          else (None, kc, s) in
        match hit with
        | Some r => ([], r, kc, s)
        | None =>
            if cfg_StrictOffline cfg
            then ([], respondOffline h host path rangeHdr keyHex artifact method, kc, s)
            else forward x claimed kc s h req host path rawQuery keyHex artifact originPath
        end
    end.

(** ** What is sent upstream *)

Lemma hdr_all_Del (P : bytes → bytes → Prop) h k : hdr_all P h → hdr_all P (hdr_Del h k).
Proof. unfold hdr_Del. intros Hh k' vv v [_ Hk]%lookup_delete_Some. by apply (Hh k' vv). Qed.

(** A header that may leave for [host]: nothing hop-by-hop, and no credential
    but the proxy's own on a host that is not content-addressed. *)
Definition may_leave (host : bytes) (k v : bytes) : Prop :=
  ToLower k ∉ hopRequestHeaders ∧
  (ToLower k = bs "authorization" →
     v = bs "Bearer " ++ cfg_UpstreamHFToken cfg ∧ IsContentAddressedHost host = false).

(** The host is the configured one or on the allow-list. *)
Definition routed (host : bytes) : Prop :=
  host = ToLower (TrimSpace (cfg_DefaultHost cfg)) ∨ allow host = true.

Definition out_safe (o : outreq) : Prop :=
  cfg_StrictOffline cfg = false ∧ routed (o_Host o) ∧ hdr_all (may_leave (o_Host o)) (o_Header o).

Lemma cacheableLocation_sent resp o : out_safe o → Forall out_safe (cacheableLocation resp o).2.
Proof.
  intros (Hs & Hr & Hh). unfold cacheableLocation. destruct (beq _ _); [constructor|]. cbv zeta.
  set (o' := mkOut _ _ _ _ _ _). assert (out_safe o') as Ho.
  { split_and!; [done|done|]. by apply hdr_all_Del. }
  destruct (up o') as [fresh|]; [destruct (_ || _)|]; by apply Forall_singleton.
Qed.

Lemma cacheRedirect_sent x kc s h resp o key :
  out_safe o → Forall out_safe (cacheRedirect x kc s h resp o key).1.1.1.
Proof.
  intros Ho. unfold cacheRedirect. destruct (beq _ _); [constructor|].
  pose proof (cacheableLocation_sent resp o Ho) as Hsent.
  destruct (cacheableLocation resp o) as [[[loc hs]|] sent]; [|done]. cbv zeta.
  by destruct (maybeWriteRevAlias _ _ _ _ _ _ _ _ _ _).
Qed.

Lemma forward_sent x claimed kc s h req host path q key art origin :
  cfg_StrictOffline cfg = false → routed host →
  let sent := (forward x claimed kc s h req host path q key art origin).1.1.1 in
  Forall out_safe sent ∧ (length sent ≤ 2)%nat.
Proof.
  intros Hs Hr. unfold forward. cbv zeta. set (o := mkOut _ _ _ _ _ _).
  assert (out_safe o) as Ho.
  { split_and!; [done|done|]. apply forward_headers_safe. }
  assert (Forall out_safe [o] ∧ (length [o] ≤ 2)%nat) as Hone.
  { cbn. split; [by apply Forall_singleton|lia]. }
  destruct (if art && _ then _ else _) as [[r|] s1]; [cbn; split; [constructor|lia]|].
  destruct (up o) as [resp|]; [|exact Hone].
  destruct (_ && negb claimed); [exact Hone|].
  destruct (_ && (_ || _)).
  { destruct (streamCacheable _ _ _ _ _ _ _ _ _ _) as [[r kc'] s']. exact Hone. }
  destruct (_ && _); [|exact Hone].
  set (h' := copyAndRewriteHeaders _ _ _).
  pose proof (cacheRedirect_sent x kc s1 h' resp o key Ho) as Hc.
  assert (length (cacheRedirect x kc s1 h' resp o key).1.1.1 ≤ 1)%nat as Hl.
  { unfold cacheRedirect, cacheableLocation. repeat case_match; simplify_eq/=; lia. }
  destruct (cacheRedirect x kc s1 h' resp o key) as [[[sent r] kc'] s']. cbn in *.
  split; [by constructor|lia].
Qed.

Lemma routeUpstream_routed path host out :
  routeUpstream allow (cfg_DefaultHost cfg) path = Route host out → routed host.
Proof.
  intros [(_ & -> & _)|(raw & rest & _ & _ & _ & _ & _ & Ha & _)]%routeUpstream_exact; [by left|by right].
Qed.


(** ** Hits *)

Context (origin : bytes → bytes).

Lemma tryServeFromCache_store h s range key head :
  (tryServeFromCache h s range key head).2 = (load_entry s key).2.
Proof. unfold tryServeFromCache. destruct (load_entry s key) as [[[k m]|] s']; [|done]. repeat case_match; done. Qed.

Lemma load_entry_current s key m :
  current s key m → AliasOf m = [] → load_entry s key = (Some (key, m), (LoadMeta s key).2).
Proof.
  intros Hc Ha. pose proof (LoadMeta_current s key m Hc) as Hl. unfold load_entry.
  destruct (LoadMeta s key) as [r s1]. cbn in *. by rewrite Hl, Ha, beq_refl.
Qed.

Lemma serve_body_inv h s range key m r :
  serve_body h s range key m = Some r →
  ∃ a b body, body_range range (warm_total m) = Some (a, b) ∧ Covers (Spans m) a b = true ∧
    read_body s key a b = Some body ∧ rs_Body r = body ∧
    hdr_Get (rs_Header r) (bs "Content-Length") = FormatInt (b -64 a) ∧
    (if beq range [] then rs_Status r = 200
     else rs_Status r = 206 ∧ hdr_Get (rs_Header r) (bs "Content-Range") = formatContentRange a b (warm_total m)).
Proof.
  unfold serve_body. destruct (_ =? 0)%nat; [done|].
  destruct (body_range range (warm_total m)) as [[a b]|]; [|done].
  destruct (negb (Covers (Spans m) a b)) eqn:Ec; [done|]. apply negb_false_iff in Ec.
  destruct (read_body s key a b) as [body|] eqn:Eb; [|done]. intros [= <-]. exists a, b, body.
  unfold hdr_Get, hdr_Set. destruct (beq range []); cbn; split_and!; try done.
  - by rewrite lookup_insert_eq.
  - rewrite lookup_insert_ne by vm_decide. by rewrite lookup_insert_eq.
  - by rewrite lookup_insert_eq.
Qed.

(** A load leaves the files alone, whatever it returns. *)
Lemma load_entry_body s key k a b : read_body (load_entry s key).2 k a b = read_body s k a b.
Proof.
  unfold load_entry. pose proof (LoadMeta_body s key k a b) as H1.
  destruct (LoadMeta s key) as [[[m|]|] s1]; cbn in H1; try done. destruct (beq (AliasOf m) []); [done|].
  pose proof (LoadMeta_body s1 (AliasOf m) k a b) as H2. cbn in H2.
  destruct (LoadMeta s1 (AliasOf m)) as [[[m2|]|] s2]; cbn in *; congruence.
Qed.

(** The metadata an entry is served with is good. *)
Lemma load_entry_ok s key k m :
  store_ok origin s → (load_entry s key).1 = Some (k, m) → meta_ok origin s k m.
Proof.
  intros Hs. unfold load_entry. destruct (LoadMeta_ok origin s key Hs) as [[Hs1 Hb1] Hm1].
  destruct (LoadMeta s key) as [[[m1|]|] s1]; cbn in *; try done. destruct (beq (AliasOf m1) []).
  { intros [= <- <-]. by apply Hm1. }
  destruct (LoadMeta_ok origin s1 (AliasOf m1) Hs1) as [_ Hm2].
  destruct (LoadMeta s1 (AliasOf m1)) as [[[m2|]|] s2]; cbn in *; try done. intros [= <- <-].
  destruct (Hm2 m2 eq_refl) as [Hwf Hg]. split; [done|]. intros z Hz.
  apply (good_same origin s s1); auto.
Qed.

(** a hit of the handler is the upstream's bytes.  After any history of the
    store in which the upstream's bytes were written, when the handler answers a
    GET from the cache with a body rather than a redirect, possibly through an
    alias, the body is exactly the requested non-empty range of the object under
    the entry's key, and Content-Length and Content-Range describe it. *)
Theorem handler_hit_is_upstream maxBytes dir file c os h range key k m a b r :
  origin_small origin → mc_ok c → mc_view c = ∅ →
  all_ops (faithful origin) (mkSys (empty_store maxBytes dir file c) ∅) os →
  let s := sys_store (srun (mkSys (empty_store maxBytes dir file c) ∅) os) in
  (load_entry s key).1 = Some (k, m) →
  IsCacheableRedirectStatus (StatusCode m) && negb (beq (Location m) []) = false →
  body_range range (warm_total m) = Some (a, b) → a < b →
  (tryServeFromCache h s range key false).1 = Some r →
  rs_Body r = take (Z.to_nat (b - a)) (drop (Z.to_nat a) (origin k)) ∧
  Z.of_nat (length (rs_Body r)) = b - a ∧
  hdr_Get (rs_Header r) (bs "Content-Length") = FormatInt (b - a) ∧
  (if beq range [] then rs_Status r = 200
   else rs_Status r = 206 ∧ hdr_Get (rs_Header r) (bs "Content-Range") = formatContentRange a b (warm_total m)).
Proof.
  intros Hsm Hok Hv Hall s Hle Hred Hrange Hab Hr.
  assert (store_ok origin s) as Hs by (by apply reachable_store_ok). clearbody s.
  destruct (load_entry_ok s key k m Hs Hle) as [Hwf Hgood].
  unfold tryServeFromCache in Hr. pose proof (load_entry_body s key k a b) as Hbody.
  destruct (load_entry s key) as [e s1]. cbn in Hle, Hbody. subst e. rewrite Hred in Hr. cbn in Hr.
  apply serve_body_inv in Hr as (a' & b' & body & Hr' & Hc & Hrb & Hb & Hcl & Hst).
  rewrite Hrange in Hr'. injection Hr' as <- <-. rewrite Covers_spec in Hc by done.
  assert (∀ x, a ≤ x < b → good origin s k x) as Hg by auto.
  assert (0 ≤ a) as Ha by (destruct (Hg a); [lia|done]).
  destruct (good_slice_length origin s k a b (conj Ha Hab) Hg) as [Hlen Hle].
  rewrite Hbody, (good_slice origin) in Hrb by (done || lia). injection Hrb as <-.
  pose proof (Hsm k) as Hmax. rewrite wrap64_id in Hcl by (unfold is_int64, int64_min, int64_max in *; lia).
  rewrite Hb. split_and!; done.
Qed.

(** ** Two requests for one object *)

(** A first GET of a whole artifact: routed upstream, nothing cached yet, room
    for the object, and upstream answers 200 with the object and its length. *)
Record first_get s kc (req : hrequest) (host path : bytes) (resp : upstream_response) (x : cold_env) : Prop := {
  fg_method : r_Method req = bs "GET";
  fg_health : r_Path req ≠ bs "/healthz";
  fg_route : routeUpstream allow (cfg_DefaultHost cfg) (r_Path req) = Route host path;
  fg_artifact : ArtifactGET (cfg_DefaultHost cfg) host (bs "GET") path = true;
  fg_range : entry_Get (r_Header req) (bs "Range") = [];
  fg_online : cfg_StrictOffline cfg = false;
  fg_pipes : pipe ∉ host ∧ pipe ∉ path ∧ pipe ∉ entry_Get (u_Header resp) (bs "X-Repo-Commit");
  fg_memo : memo_ok kc;
  fg_up : up (mkOut (bs "GET") host path (request_query (r_RawQuery req)).2
                (forward_headers host (cfg_UpstreamHFToken cfg) (r_Header req)) []) = Some resp;
  fg_status : u_Status resp = 200;
  fg_env : fetch_succeeds x (u_Body resp);
}.

Definition object_key (req : hrequest) (host path : bytes) : bytes :=
  KeyHex (bs "GET") host path (key_query host (request_query (r_RawQuery req)).2) [].

Lemma KeyHex_nonempty m ho pa q a : KeyHex m ho pa q a ≠ [].
Proof.
  unfold KeyHex. intros E. apply (f_equal length) in E. rewrite hex_encode_length, Sum256_length in E. done.
Qed.

Lemma Get_key kc host path q :
  memo_ok kc → pipe ∉ host → pipe ∉ path →
  ∃ kc', KeyHexCache_Get victim kc (bs "GET") host path q [] = (KeyHex (bs "GET") host path q [], kc') ∧ memo_ok kc'.
Proof.
  intros Hm Hh Hp. assert (raw_pipe_free (mkIdent (bs "GET") host path q [])) as Hx.
  { unfold raw_pipe_free. cbn. split_and!; [vm_decide|done|done|apply not_elem_of_nil]. }
  destruct (Get_i_spec victim kc _ Hm Hx) as [Hk Hm']. unfold Get_i in *. cbn in *.
  destruct (KeyHexCache_Get _ _ _ _ _ _ _) as [k kc']. exists kc'. cbn in *. by subst k.
Qed.

Lemma alias_path_pipe path sha alias :
  pipe ∉ path → pipe ∉ sha → resolveRevAliasPath path sha = Some alias → pipe ∉ alias.
Proof.
  intros Hp Hs. unfold resolveRevAliasPath. repeat case_match; try done; intros [= <-]; [done|].
  rewrite !elem_of_app. intros [Hin|[Hin|Hin]]; [|done|].
  - apply Hp. by apply (subseteq_take _ _ _ Hin).
  - apply Hp. by apply subseteq_drop, subseteq_drop in Hin.
Qed.

Lemma maybeWriteRevAlias_memo x kc s host path q key hs :
  memo_ok kc → pipe ∉ host → pipe ∉ path → pipe ∉ entry_Get hs (bs "X-Repo-Commit") →
  memo_ok (maybeWriteRevAlias victim x kc s (bs "GET") host path q key hs).1.
Proof.
  intros Hm Hh Hp Hs. unfold maybeWriteRevAlias. destruct (beq _ []); [done|].
  destruct (resolveRevAliasPath _ _) as [ap|] eqn:Ea; [|done]. destruct (beq ap path); [done|].
  pose proof (alias_path_pipe _ _ _ Hp Hs Ea) as Hap. cbv zeta.
  destruct (Get_key kc host ap (if IsContentAddressedHost host then [] else q) Hm Hh Hap) as (kc' & -> & Hm').
  by destruct (beq _ _).
Qed.

(** A missing entry stays missing when it is looked up, and looking costs
    neither space nor data. *)
Lemma LoadMeta_missing s key :
  store_ok origin s → (LoadMeta s key).1 = Ok None →
  let s' := (LoadMeta s key).2 in
  store_ok origin s' ∧ (LoadMeta s' key).1 = Ok None ∧ readMetaLocked s' key = None ∧
  ∀ n, (reserveQuota s' n).1 = (reserveQuota s n).1.
Proof.
  intros Hs Hl s'. split; [by apply (LoadMeta_ok origin s key Hs)|]. unfold s', LoadMeta in *.
  destruct (mc_get_spec key (metaCache s) (so_cache _ _ Hs)) as (Hv & Hok & Hview).
  destruct (mc_get key (metaCache s)) as [[m|] c]; cbn in *; [done|].
  destruct (metas s !! key) as [[m|]|] eqn:Em; cbn in *; try done.
  destruct (mc_get_spec key c Hok) as (Hv2 & _ & _).
  destruct (mc_get key c) as [r c2]. cbn in *. rewrite Hview, <-Hv in Hv2. subst r. cbn. rewrite Em.
  split_and!; [done| |].
  - unfold readMetaLocked. cbn. by rewrite Em.
  - intros n. unfold reserveQuota. cbn. by repeat case_match.
Qed.

Lemma tryServe_missing h s range key :
  (LoadMeta s key).1 = Ok None → tryServeFromCache h s range key false = (None, (LoadMeta s key).2).
Proof.
  intros Hl. unfold tryServeFromCache, load_entry. destruct (LoadMeta s key) as [r s']. cbn in *. by subst r.
Qed.

Lemma ServeHTTP_first s kc req host path resp x :
  first_get s kc req host path resp x → store_ok origin s →
  (LoadMeta s (object_key req host path)).1 = Ok None →
  ∃ kc1 s2 o h, memo_ok kc1 ∧ store_ok origin s2 ∧ readMetaLocked s2 (object_key req host path) = None ∧
    (∀ n, (reserveQuota s2 n).1 = (reserveQuota s n).1) ∧
    ServeHTTP x true kc s req =
      let '(r, kc', s') := streamCacheable victim x kc1 s2 resp (object_key req host path) host path
                             (request_query (r_RawQuery req)).2 (request_query (r_RawQuery req)).1 in
      ([o], cold_response h r, kc', s').
Proof.
  intros [Hm Hh Hr Ha Hrg Hon (Hp1 & Hp2 & Hp3) Hmemo Hup Hst Hx] Hs Hl.
  unfold ServeHTTP. cbv zeta. rewrite (proj2 (beq_false _ _) Hh), Hr, Hm.
  unfold object_key in *. destruct (request_query (r_RawQuery req)) as [op q]. cbn [fst snd] in *.
  destruct (Get_key kc host path (key_query host q) Hmemo Hp1 Hp2) as (kc1 & -> & Hm1).
  set (key := KeyHex _ _ _ _ _) in *. clearbody key.
  change (beq (bs "GET") (bs "GET")) with true. change (beq (bs "GET") (bs "HEAD")) with false.
  unfold is_artifact. rewrite Ha. cbn [orb andb].
  destruct (LoadMeta_missing s key Hs Hl) as (Hs1 & Hl1 & _ & Hq1).
  rewrite (tryServe_missing _ _ _ _ Hl). set (s1 := (LoadMeta s key).2) in *. clearbody s1.
  rewrite Hon. unfold forward. rewrite Hm. change (beq (bs "GET") (bs "GET")) with true. cbn [andb].
  destruct (LoadMeta_missing s1 key Hs1 Hl1) as (Hs2 & _ & Hr2 & Hq2).
  rewrite (tryServe_missing _ _ _ _ Hl1). set (s2 := (LoadMeta s1 key).2) in *. clearbody s2.
  change (request_body (bs "GET") (r_Body req)) with (@nil Z). rewrite Hup, Hst. cbn [negb andb orb Z.eqb Pos.eqb].
  do 4 eexists. split_and!; [exact Hm1|exact Hs2|done|intros n; by rewrite Hq2|].
  destruct (streamCacheable _ _ _ _ _ _ _ _ _ _) as [[r kc'] s']. reflexivity.
Qed.

Lemma stream_segment_memo x kc s key p resp cl cr :
  memo_ok kc → pipe ∉ p_UpstreamHost p → pipe ∉ p_Path p → pipe ∉ entry_Get (u_Header resp) (bs "X-Repo-Commit") →
  memo_ok (stream_segment victim x kc s key p resp cl cr).1.2.
Proof.
  intros Hm Hh Hp Hs. unfold stream_segment. destruct (BeginSegment _ _ _ _) as [[w|e] s1]; [|done].
  destruct (tee_copy _ _ _ _) as [[out s2] w2]. destruct (Close _ _ _) as [[e s3] w3].
  pose proof (maybeWriteRevAlias_memo (c_alias x) kc s3 _ _ (p_RawQuery p) key _ Hm Hh Hp Hs) as Hm'.
  by destruct (maybeWriteRevAlias _ _ _ _ _ _ _ _ _ _).
Qed.

(** The object is in the cache as a plain body. *)
Definition cached s (key : bytes) : Prop :=
  ∃ m, current s key m ∧ AliasOf m = [] ∧ Location m = [] ∧
    Total m = Some (Z.of_nat (length (origin key))) ∧
    ∀ a b, 0 ≤ a → b ≤ Z.of_nat (length (origin key)) → Covers (Spans m) a b = true.

Lemma streamCacheable_first s kc host path resp x key q op :
  let n := Z.of_nat (length (origin key)) in
  origin_small origin → store_ok origin s → memo_ok kc → readMetaLocked s key = None →
  pipe ∉ host ∧ pipe ∉ path ∧ pipe ∉ entry_Get (u_Header resp) (bs "X-Repo-Commit") →
  u_Status resp = 200 → u_ContentLength resp = n → 0 < n → concat (u_Body resp) = origin key →
  fetch_succeeds x (u_Body resp) → (reserveQuota s n).1 = None → key ≠ [] →
  let '(r, kc', s') := streamCacheable victim x kc s resp key host path q op in
  r = Cold 200 (Some (FormatInt n)) None (origin key) ∧ memo_ok kc' ∧ store_ok origin s' ∧ cached s' key.
Proof.
  intros n Hsm Hs Hm Hr (Hp1 & Hp2 & Hp3) Hst Hcl Hn Hbody Hx Hq Hk.
  unfold streamCacheable, streamCacheable200. rewrite Hst, Hcl. cbn [Z.eqb Pos.eqb].
  set (p := segment_params _ _ _ _ _ _ _ _ _).
  assert (setArtifactHeaders n = Some (FormatInt n)) as ->.
  { unfold setArtifactHeaders. destruct (Z.geb_spec n 0); [done|lia]. }
  pose proof (stream_segment_publishes victim origin x kc s key p resp (Some (FormatInt n)) None Hsm Hs) as Hpub.
  pose proof (stream_segment_memo x kc s key p resp (Some (FormatInt n)) None Hm Hp1 Hp2 Hp3) as Hmemo.
  destruct (stream_segment _ _ _ _ _ _ _ _ _) as [[r kc'] s']. rewrite Hbody in Hpub.
  destruct Hpub as (-> & Hs' & m & Hcur & Ht & Hcov & Hpl); try done.
  - unfold sized, p. cbn. split_and!; try done; [lia|by left].
  - intros E. unfold n in Hn. rewrite E in Hn. cbn in Hn. lia.
  - split_and!; [done|done|done|]. rewrite Hr in Hpl. destruct (Hpl I) as (Ha & Hloc & _). exists m.
    split_and!; done.
Qed.

Lemma ServeHTTP_cached s kc req host path x claimed :
  r_Method req = bs "GET" → r_Path req ≠ bs "/healthz" →
  routeUpstream allow (cfg_DefaultHost cfg) (r_Path req) = Route host path →
  ArtifactGET (cfg_DefaultHost cfg) host (bs "GET") path = true →
  entry_Get (r_Header req) (bs "Range") = [] → pipe ∉ host → pipe ∉ path → memo_ok kc →
  store_ok origin s → 0 < Z.of_nat (length (origin (object_key req host path))) →
  cached s (object_key req host path) →
  let '(sent, r, _, _) := ServeHTTP x claimed kc s req in
  sent = [] ∧ rs_Status r = 200 ∧ rs_Body r = origin (object_key req host path).
Proof.
  intros Hm Hh Hr Ha Hrg Hp1 Hp2 Hmemo Hs Hn. unfold object_key.
  unfold ServeHTTP. cbv zeta. rewrite (proj2 (beq_false _ _) Hh), Hr, Hm.
  destruct (request_query (r_RawQuery req)) as [op q] eqn:Eq. unfold object_key in Hn. rewrite Eq in Hn. cbn [snd] in *.
  destruct (Get_key kc host path (key_query host q) Hmemo Hp1 Hp2) as (kc1 & -> & _).
  set (key := KeyHex _ _ _ _ _) in *. clearbody key. intros (m & Hcur & Hal & Hloc & Ht & Hcov).
  change (beq (bs "GET") (bs "GET")) with true. change (beq (bs "GET") (bs "HEAD")) with false.
  unfold is_artifact. rewrite Ha, Hrg. cbn [orb andb].
  assert (∃ r, serve_body (setDataPlaneSecurityHeaders ∅) (LoadMeta s key).2 [] key m = Some r ∧
    rs_Status r = 200 ∧ rs_Body r = origin key) as (r & Hserve & Hst & Hbody).
  { unfold serve_body. pose proof (Hcov 0 (Z.of_nat (length (origin key)))) as Hc.
    destruct (populated_current origin s key m 0 (Z.of_nat (length (origin key))) Hs Hcur Ht ltac:(lia)) as (m' & Hl' & _ & Hb).
    { intros a b Ha' Hb'. by apply Hcov. }
    assert (m' = m) as -> by (rewrite (LoadMeta_current s key m Hcur) in Hl'; congruence).
    destruct (Hb 0 (Z.of_nat (length (origin key)))) as [_ Hrd]; [lia..|].
    destruct (Spans m) as [|sp sps] eqn:Esp.
    { exfalso. specialize (Hc ltac:(lia) ltac:(lia)). unfold Covers in Hc.
      destruct (Z.leb_spec (Z.of_nat (length (origin key))) 0); [lia|done]. }
    cbn [length Nat.eqb]. unfold body_range, warm_total. rewrite Ht. cbn [beq].
    change (beq [] []) with true. cbv iota.
    destruct (Z.ltb_spec (Z.of_nat (length (origin key))) 0); [lia|].
    rewrite Hc by lia. cbn [negb]. rewrite LoadMeta_body, Hrd. eexists. split; [reflexivity|].
    split; [done|]. cbn. rewrite drop_0. apply take_ge. lia. }
  unfold tryServeFromCache. rewrite (load_entry_current s key m Hcur Hal), Hloc. cbn [beq andb].
  change (beq [] []) with true. cbn [negb andb]. rewrite andb_false_r, Hserve. done.
Qed.

(** C24: the second request needs no upstream.  Take any reachable store and a
    first GET of an artifact that is not cached yet, answered by upstream with
    the object and its length, with room for it and no system call failing: the
    client receives exactly the object, with one request upstream.  The same
    request again is answered with exactly the object and no request upstream,
    whatever the state of the network and of the in-flight ranges. *)
Theorem second_get_needs_no_upstream maxBytes dir file c os x x2 claimed2 kc req host path resp :
  origin_small origin → mc_ok c → mc_view c = ∅ →
  all_ops (faithful origin) (mkSys (empty_store maxBytes dir file c) ∅) os →
  let s := sys_store (srun (mkSys (empty_store maxBytes dir file c) ∅) os) in
  let key := object_key req host path in
  let n := Z.of_nat (length (origin key)) in
  first_get s kc req host path resp x → (LoadMeta s key).1 = Ok None → (reserveQuota s n).1 = None →
  0 < n → u_ContentLength resp = n → concat (u_Body resp) = origin key →
  let '(sent, r, kc', s') := ServeHTTP x true kc s req in
  let '(sent2, r2, _, _) := ServeHTTP x2 claimed2 kc' s' req in
  length sent = 1%nat ∧ rs_Status r = 200 ∧ rs_Body r = origin key ∧
  sent2 = [] ∧ rs_Status r2 = 200 ∧ rs_Body r2 = origin key.
Proof.
  intros Hsm Hok Hv Hall s key n Hf Hl Hq Hn Hcl Hbody.
  assert (store_ok origin s) as Hs by (by apply reachable_store_ok). clearbody s.
  destruct (ServeHTTP_first s kc req host path resp x Hf Hs Hl) as (kc1 & s2 & o & h & Hm1 & Hs2 & Hr2 & Hq2 & ->).
  fold key in Hr2 |- *. destruct Hf as [Hm Hh Hr Ha Hrg Hon Hp Hmemo Hup Hst Hx].
  pose proof (streamCacheable_first s2 kc1 host path resp x key (request_query (r_RawQuery req)).2
    (request_query (r_RawQuery req)).1 Hsm Hs2 Hm1 Hr2 Hp Hst Hcl Hn Hbody Hx ltac:(by rewrite Hq2)
    (KeyHex_nonempty _ _ _ _ _)) as Hfirst.
  destruct (streamCacheable _ _ _ _ _ _ _ _ _ _) as [[r kc'] s']. destruct Hfirst as (-> & Hm' & Hs' & Hc').
  destruct Hp as (Hp1 & Hp2 & _).
  pose proof (ServeHTTP_cached s' kc' req host path x2 claimed2 Hm Hh Hr Ha Hrg Hp1 Hp2 Hm' Hs' Hn Hc') as H2.
  destruct (ServeHTTP x2 claimed2 kc' s' req) as [[[sent2 r2] kc2] s3]. by destruct H2 as (-> & -> & ->).
Qed.

(** ** Cached redirects *)

Ltac destruct_fsync :=
  cbv beta iota; match goal with |- context [maybeFsyncDir ?x ?s] => destruct (maybeFsyncDir x s) end.

Lemma maybeWriteRevAlias_meta x kc s method host path q key hs :
  readMetaLocked (maybeWriteRevAlias victim x kc s method host path q key hs).2 key = readMetaLocked s key.
Proof.
  unfold maybeWriteRevAlias. case_match; [done|]. case_match; [|done]. case_match; [done|].
  destruct (KeyHexCache_Get _ _ _ _ _ _ _) as [ak kc']. destruct (beq ak key) eqn:E; [done|].
  apply beq_false in E. cbn. unfold StoreAlias. do 3 (case_match; [done|]). cbv zeta. case_match; [done|].
  set (m := mkMeta _ _ _ _ _ _ _ _ _ _ _ _ _ _). unfold writeMetaLocked. destruct (x_mkdir x || x_writeMeta x); [done|].
  assert (∀ s', metas s' = <[ak := Some m]> (metas s) → readMetaLocked s' key = readMetaLocked s key) as Hk.
  { intros s' Hs'. unfold readMetaLocked. by rewrite Hs', lookup_insert_ne. }
  destruct_fsync; [by apply Hk|]. apply Hk. etransitivity; [apply account_same|done].
Qed.

(** Upstream answered [o] with this Location. *)
Definition location_of (o : outreq) (loc : bytes) : Prop :=
  ∃ resp, up o = Some resp ∧ loc = entry_Get (u_Header resp) (bs "Location").

(** a cached redirect is never pinned to one range.  Whatever request the
    redirect answered and whatever fails, the Location recorded under the key
    is either the one that was there or one that upstream gave to a request for
    the same host, path and query without a Range header. *)
Theorem cached_redirect_unranged x kc s h resp o key m :
  up o = Some resp → readMetaLocked (cacheRedirect x kc s h resp o key).2 key = Some m →
  readMetaLocked s key = Some m ∨
  ∃ o', hdr_Get (o_Header o') (bs "Range") = [] ∧ location_of o' (Location m) ∧
    o_Host o' = o_Host o ∧ o_Path o' = o_Path o ∧ o_RawQuery o' = o_RawQuery o.
Proof.
  intros Hup. unfold cacheRedirect. destruct (beq _ []); [by left|].
  assert (∀ loc hs sent, cacheableLocation resp o = (Some (loc, hs), sent) →
    ∃ o', hdr_Get (o_Header o') (bs "Range") = [] ∧ location_of o' loc ∧
      o_Host o' = o_Host o ∧ o_Path o' = o_Path o ∧ o_RawQuery o' = o_RawQuery o) as Hloc.
  { intros loc hs sent. unfold cacheableLocation. destruct (beq _ []) eqn:Er.
    - apply beq_true in Er. intros [= <- _ _]. exists o. split_and!; try done. by exists resp.
    - cbv zeta. set (o' := mkOut _ _ _ _ _ _). destruct (up o') as [fresh|] eqn:Eu; [|done].
      destruct (_ || _); [done|]. intros [= <- _ _]. exists o'. split_and!; try done.
      + unfold hdr_Get, hdr_Del. cbn. by rewrite lookup_delete_eq.
      + by exists fresh. }
  destruct (cacheableLocation resp o) as [[[loc hs]|] sent]; [|by left]. cbv zeta.
  set (sr := StoreRedirect _ _ _ _ _ _ _ _ _ _ _).
  assert (∀ m', readMetaLocked sr.2 key = Some m' → readMetaLocked s key = Some m' ∨ Location m' = loc) as Hsr.
  { subst sr. unfold StoreRedirect. do 3 (case_match; [by left|]). cbv zeta. unfold writeMetaLocked.
    destruct (_ || _); [by left|]. intros m' Hm'. right. revert Hm'.
    set (rm := redirect_meta _ _ _ _ _ _ _ _ _).
    assert (∀ s', metas s' = <[key := Some rm]> (metas s) → readMetaLocked s' key = Some m' → Location m' = loc) as Hk.
    { intros s' Hs'. unfold readMetaLocked. rewrite Hs', lookup_insert_eq. by intros [= <-]. }
    destruct_fsync; [by apply Hk|]. apply Hk. etransitivity; [apply account_same|done]. }
  pose proof (maybeWriteRevAlias_meta (c_alias x) kc sr.2 (bs "GET") (o_Host o) (o_Path o) (o_RawQuery o) key hs) as Hal.
  destruct (maybeWriteRevAlias _ _ _ _ _ _ _ _ _ _) as [kc' s']. cbn in *. rewrite Hal. intros Hm.
  destruct (Hsr m Hm) as [|<-]; [by left|]. right. by eapply Hloc.
Qed.
End handler.

(** ** Concrete requests *)

#[local] Existing Instance ascii_unicode.

Definition demo_cfg : config := mkConfig hub true false (bs "hf_token").
Definition demo_allow : bytes → bool := fun _ => false.
Definition demo_rewrite : bytes → bytes → option bytes := fun _ _ => None.

Definition demo_get (range : bytes) : hrequest :=
  mkHReq (bs "GET") file_path [] [(bs "Authorization", [bs "Bearer pulsys_secret"]); (bs "Range", [range])] [].

(** An upstream that redirects ranged requests to a pinned URL. *)
Definition demo_up (o : outreq) : option upstream_response :=
  Some (if beq (hdr_Get (o_Header o) (bs "Range")) []
        then hello_response hello_blocks [(bs "X-Repo-Commit", [bs "abc"])]
        else mkUp 302 0 [(bs "Location", [bs "https://cdn/pinned"])] []).

Lemma demo_missing : (LoadMeta (sys_store sys0) file_key).1 = Ok None.
Proof. vm_compute. reflexivity. Qed.

Lemma demo_key : object_key (demo_get []) hub file_path = file_key.
Proof. vm_compute. reflexivity. Qed.

Lemma second_get_needs_no_upstream_witness :
  let '(sent, r, kc', s') := ServeHTTP no_victim demo_cfg demo_allow demo_rewrite demo_up
                               (hello_env hello_blocks) true ∅ (sys_store sys0) (demo_get []) in
  let '(sent2, r2, _, _) := ServeHTTP no_victim demo_cfg demo_allow demo_rewrite demo_up
                              (hello_env []) false kc' s' (demo_get []) in
  length sent = 1%nat ∧ rs_Status r = 200 ∧ rs_Body r = hello ∧
  sent2 = [] ∧ rs_Status r2 = 200 ∧ rs_Body r2 = hello.
Proof.
  apply (second_get_needs_no_upstream no_victim demo_cfg demo_allow demo_rewrite demo_up (fun _ => hello)
           1000 true false newMetaCache [] (hello_env hello_blocks) (hello_env []) false ∅ (demo_get []) hub file_path
           (hello_response hello_blocks [(bs "X-Repo-Commit", [bs "abc"])])).
  - exact hello_small.
  - exact (proj1 newMetaCache_ok).
  - exact (proj2 newMetaCache_ok).
  - exact I.
  - split; try done; try vm_decide; try apply hello_env_succeeds.
  - rewrite demo_key. exact demo_missing.
  - done.
  - done.
  - done.
  - done.
Defined.

Lemma handler_hit_is_upstream_witness :
  let s := sys_store (srun sys0 history) in
  match (load_entry s (bs "k")).1, (tryServeFromCache demo_rewrite ∅ s (bs "bytes=6-10") (bs "k") false).1 with
  | Some (k, m), Some r =>
      rs_Body r = bs "world" ∧ hdr_Get (rs_Header r) (bs "Content-Range") = formatContentRange 6 11 (warm_total m)
  | _, _ => False
  end.
Proof.
  cbv zeta. destruct (load_entry (sys_store (srun sys0 history)) (bs "k")).1 as [[k m]|] eqn:El;
    [|vm_compute in El; discriminate].
  destruct (tryServeFromCache demo_rewrite ∅ (sys_store (srun sys0 history)) (bs "bytes=6-10") (bs "k") false).1
    as [r|] eqn:Er; [|vm_compute in Er; discriminate].
  destruct (handler_hit_is_upstream demo_rewrite (fun _ => hello) 1000 true false newMetaCache history
              ∅ (bs "bytes=6-10") (bs "k") k m 6 11 r) as (Hb & _ & _ & _ & Hcr).
  - exact hello_small.
  - exact (proj1 newMetaCache_ok).
  - exact (proj2 newMetaCache_ok).
  - exact history_faithful.
  - exact El.
  - vm_compute in El. injection El as <- <-. vm_compute. reflexivity.
  - vm_compute in El. injection El as <- <-. vm_compute. reflexivity.
  - lia.
  - exact Er.
  - split; [rewrite Hb; vm_compute; reflexivity|exact Hcr].
Defined.

Lemma cached_redirect_unranged_witness :
  let o := mkOut (bs "GET") hub file_path [] (hdr_Set ∅ (bs "Range") (bs "bytes=0-4")) [] in
  let up := fun o => Some (mkUp 302 0 [(bs "Location", [if beq (hdr_Get (o_Header o) (bs "Range")) []
                                                        then bs "https://cdn/any" else bs "https://cdn/pinned"])] []) in
  let resp := mkUp 302 0 [(bs "Location", [bs "https://cdn/pinned"])] [] in
  let s' := (cacheRedirect no_victim up (hello_env []) ∅ (sys_store sys0) ∅ resp o (bs "k")).2 in
  match readMetaLocked s' (bs "k") with
  | Some m =>
      Location m = bs "https://cdn/any" ∧
      (readMetaLocked (sys_store sys0) (bs "k") = Some m ∨
       ∃ o', hdr_Get (o_Header o') (bs "Range") = [] ∧ location_of up o' (Location m) ∧
         o_Host o' = hub ∧ o_Path o' = file_path ∧ o_RawQuery o' = [])
  | None => False
  end.
Proof.
  intros o up resp s'. destruct (readMetaLocked s' (bs "k")) as [m|] eqn:Em; [|vm_compute in Em; discriminate].
  split; [vm_compute in Em; by injection Em as <-|].
  exact (cached_redirect_unranged no_victim up (hello_env []) ∅ (sys_store sys0) ∅ resp o (bs "k") m eq_refl Em).
Defined.

(** an origin marker without a value stays in the query that goes upstream. *)
Theorem empty_origin_marker_kept :
  request_query (bs "a=1&__pulsys_origin=") = ([], bs "a=1&__pulsys_origin=") ∧
  (ExtractAndStripOrigin (bs "a=1&__pulsys_origin=")).2 = bs "a=1".
Proof. vm_compute. split; reflexivity. Qed.
