(* ===== verification/BlobStore.v ===== *)
(** * The content-addressed blob store (src/internal/blobstore/local.go)

    [Put] streams a body to a temporary file while hashing it, checks size and
    digest, and renames it to the name its digest gives.  The model is the
    directory (blobs by name, temporary files) and any number of concurrent
    [Put] calls, each system call being one step; calls can fail, blobs can be
    deleted and the process can die between any two steps. *)

From stdpp Require Import base strings numbers gmap list.
From S2P Require Import Prelude GoStd Sha256.

Local Open Scope Z_scope.

Definition hex_lower (c : Z) : bool := is_digit c || ((97 <=? c) && (c <=? 102)).

Definition validOID (s : bytes) : bool := (length s =? 64)%nat && forallb hex_lower s.

Inductive blob_error := ErrNotFound | ErrOIDMismatch | ErrSizeMismatch | ErrBlobIO.

Record BlobStat := mkBStat { st_OID : bytes; st_Size : Z; st_StorageURL : bytes }.

Record PutOptions := mkPutOpts { ExpectedOID : bytes; ExpectedSize : Z }.

(** Where a [Put] call is; [data] is what was streamed to the file and to the
    hash so far. *)
Inductive put_pc :=
| PCopy (opts : PutOptions) (tmp : nat) (data : bytes)
| PStat (oid : bytes) (written : Z) (tmp : nat)
| PMkdir (oid : bytes) (written : Z) (tmp : nat)
| PRename (oid : bytes) (written : Z) (tmp : nat)
| PRestat (oid : bytes) (written : Z) (tmp : nat)
| PCleanup (r : result blob_error BlobStat) (tmp : nat)
| PDone (r : result blob_error BlobStat).

(** The directory, blobs by path and temporary files by name, and the calls. *)
Record blobdir := mkBlobs {
  blobs : gmap bytes bytes;
  tmps : gmap nat bytes;
  puts : gmap nat put_pc;
}.

Definition oid_of (data : bytes) : bytes := hex_encode (Sum256 data).

Definition size_of (f : bytes) : Z := Z.of_nat (length f).

(** One system call of call [t], or an event of the directory.  [fail] is the
    outcome of the call; [AStart] carries the name [CreateTemp] found. *)
Inductive baction :=
| AStart (t : nat) (opts : PutOptions) (tmp : option nat)
| AChunk (t : nat) (data : bytes)
| AFinish (t : nat) (fail : bool)
| AStatDest (t : nat) (fail : bool)
| AMkdir (t : nat) (fail : bool)
| ARename (t : nat) (fail : bool)
| ARestat (t : nat) (fail : bool)
| ACleanup (t : nat) (fail : bool)
| ADelete (oid : bytes) (fail : bool)
| ACrash.

Definition set_put (d : blobdir) (t : nat) (p : put_pc) : blobdir :=
  mkBlobs (blobs d) (tmps d) (<[t := p]> (puts d)).

(** The checks between [Close] and the first [os.Stat]. *)
Definition put_check (opts : PutOptions) (data : bytes) : result blob_error bytes :=
  if (ExpectedSize opts >? 0) && negb (size_of data =? ExpectedSize opts) then Err ErrSizeMismatch
  else
    let oid := oid_of data in
    if negb (beq (ExpectedOID opts) []) && negb (beq oid (ExpectedOID opts)) then Err ErrOIDMismatch
    else Ok oid.

Section Local.
(** [s.blobDir], a cleaned path as [filepath.Join] returns it. *)
Context (blobDir : bytes).

Definition path (oid : bytes) : bytes := blobDir ++ bs "/" ++ take 2 oid ++ bs "/" ++ oid.

Definition storageURL (oid : bytes) : bytes := bs "file://" ++ path oid.

Definition blob_stat (oid : bytes) (n : Z) : BlobStat := mkBStat oid n (storageURL oid).

(** [os.Stat(finalPath)] returned no error. *)
Definition stat_ok (d : blobdir) (oid : bytes) (fail : bool) : bool :=
  negb fail && bool_decide (is_Some (blobs d !! path oid)).

(** [None]: the action is not enabled. *)
Definition put_step (d : blobdir) (a : baction) : option blobdir :=
  match a with
  | AStart t opts tmp =>
      match puts d !! t with
      | Some _ => None
      | None =>
          if negb (beq (ExpectedOID opts) []) && negb (validOID (ExpectedOID opts))
          then Some (set_put d t (PDone (Err ErrOIDMismatch)))
          else match tmp with
               | None => Some (set_put d t (PDone (Err ErrBlobIO)))
               | Some n =>
                   match tmps d !! n with
                   | Some _ => None
                   | None => Some (mkBlobs (blobs d) (<[n := []]> (tmps d))
                                     (<[t := PCopy opts n []]> (puts d)))
                   end
               end
      end
  | AChunk t c =>
      match puts d !! t with
      | Some (PCopy opts n data) =>
          Some (mkBlobs (blobs d) (alter (fun f => f ++ c) n (tmps d))
                  (<[t := PCopy opts n (data ++ c)]> (puts d)))
      | _ => None
      end
  | AFinish t fail =>
      match puts d !! t with
      | Some (PCopy opts n data) =>
          if fail then Some (set_put d t (PCleanup (Err ErrBlobIO) n))
          else match put_check opts data with
               | Err e => Some (set_put d t (PCleanup (Err e) n))
               | Ok oid => Some (set_put d t (PStat oid (size_of data) n))
               end
      | _ => None
      end
  | AStatDest t fail =>
      match puts d !! t with
      | Some (PStat oid w n) =>
          Some (set_put d t (if stat_ok d oid fail then PCleanup (Ok (blob_stat oid w)) n
                             else PMkdir oid w n))
      | _ => None
      end
  | AMkdir t fail =>
      match puts d !! t with
      | Some (PMkdir oid w n) =>
          Some (set_put d t (if fail then PCleanup (Err ErrBlobIO) n else PRename oid w n))
      | _ => None
      end
  | ARename t fail =>
      match puts d !! t with
      | Some (PRename oid w n) =>
          if fail then Some (set_put d t (PRestat oid w n))
          else match tmps d !! n with
               | None => None
               | Some f =>
                   Some (mkBlobs (<[path oid := f]> (blobs d)) (delete n (tmps d))
                           (<[t := PDone (Ok (blob_stat oid w))]> (puts d)))
               end
      | _ => None
      end
  | ARestat t fail =>
      match puts d !! t with
      | Some (PRestat oid w n) =>
          Some (set_put d t (PCleanup (if stat_ok d oid fail then Ok (blob_stat oid w)
                                       else Err ErrBlobIO) n))
      | _ => None
      end
  | ACleanup t fail =>
      match puts d !! t with
      | Some (PCleanup r n) =>
          Some (mkBlobs (blobs d) (if fail then tmps d else delete n (tmps d))
                  (<[t := PDone r]> (puts d)))
      | _ => None
      end
  | ADelete oid fail =>
      Some (mkBlobs (if validOID oid && negb fail then delete (path oid) (blobs d) else blobs d)
              (tmps d) (puts d))
  | ACrash => Some (mkBlobs (blobs d) (tmps d) ∅)
  end.

Fixpoint prun (d : blobdir) (acts : list baction) : option blobdir :=
  match acts with
  | [] => Some d
  | a :: acts => match put_step d a with Some d => prun d acts | None => None end
  end.

(** [Open]: the bytes behind the handle with the descriptor; the flags are the
    outcomes of [os.Open] (other than not-exist) and of [f.Stat]. *)
Definition Open (d : blobdir) (oid : bytes) (open_fails stat_fails : bool) : result blob_error (bytes * BlobStat) :=
  if negb (validOID oid) then Err ErrNotFound
  else if open_fails then Err ErrBlobIO
  else match blobs d !! path oid with
       | None => Err ErrNotFound
       | Some f => if stat_fails then Err ErrBlobIO else Ok (f, blob_stat oid (size_of f))
       end.

Definition Stat (d : blobdir) (oid : bytes) (stat_fails : bool) : result blob_error BlobStat :=
  if negb (validOID oid) then Err ErrNotFound
  else if stat_fails then Err ErrBlobIO
  else match blobs d !! path oid with
       | None => Err ErrNotFound
       | Some f => Ok (blob_stat oid (size_of f))
       end.
End Local.

(** The empty directory [NewLocal] lays out. *)
Definition empty_blobs : blobdir := mkBlobs ∅ ∅ ∅.

(** ** Names *)

Lemma hex_digit_lower n : 0 ≤ n < 16 → hex_lower (hex_digit n) = true.
Proof. unfold hex_lower, hex_digit, is_digit. case_match; lia. Qed.

Lemma hex_encode_lower s : Forall is_byte s → forallb hex_lower (hex_encode s) = true.
Proof.
  induction 1 as [|c s Hc _ IH]; [done|]. unfold is_byte in Hc. cbn. rewrite IH, !hex_digit_lower; [done|..].
  - apply Z.mod_pos_bound. lia.
  - split; [apply Z.div_pos; lia|apply Z.div_lt_upper_bound; lia].
Qed.

Lemma oid_of_valid f : validOID (oid_of f) = true.
Proof.
  unfold validOID, oid_of. rewrite hex_encode_length, Sum256_length. cbn. apply hex_encode_lower, Sum256_byte.
Qed.

Lemma validOID_length s : validOID s = true → length s = 64%nat.
Proof. unfold validOID. intros H. apply andb_prop in H as [H _]. by apply Nat.eqb_eq. Qed.

(** ** The invariant of the directory *)

Section Invariant.
Context (blobDir : bytes).

(** Distinct digests have distinct files. *)
Lemma path_inj o1 o2 :
  validOID o1 = true → validOID o2 = true → path blobDir o1 = path blobDir o2 → o1 = o2.
Proof.
  intros H1%validOID_length H2%validOID_length H. unfold path in H.
  apply app_inv_head in H. rewrite !app_assoc in H. apply app_inj_2 in H as [_ H]; [done|lia].
Qed.

(** The temporary file a call still has to remove or rename. *)
Definition pc_tmp (p : put_pc) : option nat :=
  match p with
  | PCopy _ n _ | PStat _ _ n | PMkdir _ _ n | PRename _ _ n | PRestat _ _ n | PCleanup _ n => Some n
  | PDone _ => None
  end.

(** The temporary file holds what the descriptor [oid], [w] was computed from. *)
Definition verified (tm : gmap nat bytes) (oid : bytes) (w : Z) (n : nat) : Prop :=
  ∃ f, tm !! n = Some f ∧ oid = oid_of f ∧ w = size_of f.

Definition pc_ok (tm : gmap nat bytes) (p : put_pc) : Prop :=
  match p with
  | PCopy _ n data => tm !! n = Some data
  | PStat oid w n | PMkdir oid w n | PRename oid w n | PRestat oid w n => verified tm oid w n
  | PCleanup _ n => is_Some (tm !! n)
  | PDone _ => True
  end.

Definition blobs_ok (b : gmap bytes bytes) : Prop :=
  ∀ p f, b !! p = Some f → p = path blobDir (oid_of f).

Record dir_inv (d : blobdir) : Prop := mkDirInv {
  di_blobs : blobs_ok (blobs d);
  di_pc : ∀ t p, puts d !! t = Some p → pc_ok (tmps d) p;
  di_own : ∀ t t' p p' n, puts d !! t = Some p → puts d !! t' = Some p' →
             pc_tmp p = Some n → pc_tmp p' = Some n → t = t';
}.

Lemma pc_ok_frame tm tm' p :
  (∀ n, pc_tmp p = Some n → tm' !! n = tm !! n) → pc_ok tm p → pc_ok tm' p.
Proof.
  destruct p; cbn; intros H; try done; try (intros (f & Hf & ?); exists f);
    try (rewrite (H _ eq_refl); done).
Qed.

(** A call that owns [n] moves on, touching no other temporary file. *)
Lemma dir_inv_move d t p n b' tm' p' :
  dir_inv d → puts d !! t = Some p → pc_tmp p = Some n →
  (pc_tmp p' = Some n ∨ pc_tmp p' = None) →
  (∀ m, m ≠ n → tm' !! m = tmps d !! m) → pc_ok tm' p' → blobs_ok b' →
  dir_inv (mkBlobs b' tm' (<[t := p']> (puts d))).
Proof.
  intros [Hb Hpc Hown] Ht Hn Hp' Hfr Hok Hb'. split; cbn; [done|..].
  - intros u q Hu. destruct (decide (u = t)) as [->|Hne].
    + rewrite lookup_insert_eq in Hu. by injection Hu as <-.
    + rewrite lookup_insert_ne in Hu by done.
      apply (pc_ok_frame (tmps d)); [|by eapply Hpc].
      intros m Hm. apply Hfr. intros ->. by apply Hne, (Hown u t q p n).
  - intros u u' q q' m Hu Hu' Hm Hm'.
    apply lookup_insert_Some in Hu as [[<- <-]|[Hne Hu]], Hu' as [[<- <-]|[Hne' Hu']]; [done|..|by eauto].
    + assert (m = n) as -> by (destruct Hp'; congruence). by apply (Hown t u' p q' n).
    + assert (m = n) as -> by (destruct Hp'; congruence). by apply (Hown u t q p n).
Qed.

(** A call without a temporary file appears, or one that takes a fresh name. *)
Lemma dir_inv_start d t tm' p' :
  dir_inv d → puts d !! t = None →
  (∀ n, is_Some (tmps d !! n) → tm' !! n = tmps d !! n) →
  (∀ n, pc_tmp p' = Some n → tmps d !! n = None) → pc_ok tm' p' →
  dir_inv (mkBlobs (blobs d) tm' (<[t := p']> (puts d))).
Proof.
  intros [Hb Hpc Hown] Ht Hfr Hnew Hok.
  assert (Hlive : ∀ u q n, puts d !! u = Some q → pc_tmp q = Some n → is_Some (tmps d !! n)).
  { intros u q n Hu Hn. specialize (Hpc u q Hu). destruct q; simplify_eq/=; try done;
      try (destruct Hpc as (f & -> & _)); eauto. }
  split; cbn; [done|..].
  - intros u q Hu. destruct (decide (u = t)) as [->|Hne].
    + rewrite lookup_insert_eq in Hu. by injection Hu as <-.
    + rewrite lookup_insert_ne in Hu by done. apply (pc_ok_frame (tmps d)); eauto.
  - intros u u' q q' m Hu Hu' Hm Hm'.
    apply lookup_insert_Some in Hu as [[<- <-]|[Hne Hu]], Hu' as [[<- <-]|[Hne' Hu']]; [done|..|by eauto].
    + destruct (Hlive u' q' m Hu' Hm') as [x Hx]. by rewrite (Hnew m Hm) in Hx.
    + destruct (Hlive u q m Hu Hm) as [x Hx]. by rewrite (Hnew m Hm') in Hx.
Qed.

Lemma put_check_Ok opts data oid : put_check opts data = Ok oid → oid = oid_of data.
Proof. unfold put_check. repeat case_match; congruence. Qed.

Lemma blobs_ok_insert b f : blobs_ok b → blobs_ok (<[path blobDir (oid_of f) := f]> b).
Proof. intros Hb p g [[<- <-]|[_ H]]%lookup_insert_Some; [done|by apply Hb]. Qed.

Lemma pstep_inv d a d' : dir_inv d → put_step blobDir d a = Some d' → dir_inv d'.
Proof.
  intros Hd Hs. pose proof (di_pc d Hd) as Hpc. pose proof (di_blobs d Hd) as Hb.
  destruct a as [t opts tmp|t c|t fl|t fl|t fl|t fl|t fl|t fl|oid fl|]; cbn in Hs.
  1: { repeat case_match; simplify_eq; apply dir_inv_start; cbn; try done.
       - intros m [x Hx]. rewrite lookup_insert_ne; congruence.
       - intros m [= <-]. done.
       - apply lookup_insert_eq. }
  8: { simplify_eq. destruct Hd as [_ ? ?]. split; cbn; try done.
       case_match; [|done]. intros p f [_ Hf]%lookup_delete_Some. by apply Hb. }
  8: { simplify_eq. by split. }
  all: destruct (puts d !! t) as [[]|] eqn:Ht; try discriminate; specialize (Hpc _ _ Ht); cbn in Hpc.
  - simplify_eq. eapply dir_inv_move; eauto; cbn; eauto.
    + intros m Hm. by rewrite lookup_alter_ne.
    + by rewrite lookup_alter_eq, Hpc.
  - destruct fl; [|destruct (put_check opts data) as [oid|e] eqn:Hc]; simplify_eq;
      (eapply dir_inv_move; [done|exact Ht|done|by left|done|cbn|done]); eauto.
    exists data. by rewrite (put_check_Ok _ _ _ Hc).
  - simplify_eq. destruct Hpc as (f & Hf & ->  & ->). case_match;
      (eapply dir_inv_move; [done|exact Ht|done|by left|done|cbn|done]); [eauto|by exists f].
  - simplify_eq. destruct Hpc as (f & Hf & -> & ->). case_match;
      (eapply dir_inv_move; [done|exact Ht|done|by left|done|cbn|done]); [eauto|by exists f].
  - destruct Hpc as (f & Hf & -> & ->). destruct fl; [|rewrite Hf in Hs]; simplify_eq.
    + eapply dir_inv_move; [done|exact Ht|done|by left|done|by exists f|done].
    + eapply dir_inv_move; [done|exact Ht|done|by right|..|done|by apply blobs_ok_insert].
      intros m Hm. by rewrite lookup_delete_ne.
  - simplify_eq. destruct Hpc as (f & Hf & -> & ->).
    eapply dir_inv_move; [done|exact Ht|done|by left|done|cbn; eauto|done].
  - simplify_eq. eapply dir_inv_move; [done|exact Ht|done|by right|..|done|done].
    intros m Hm. destruct fl; [done|by rewrite lookup_delete_ne].
Qed.

Lemma prun_inv acts d d' : dir_inv d → prun blobDir d acts = Some d' → dir_inv d'.
Proof.
  revert d. induction acts as [|a acts IH]; intros d Hd H; cbn in H; [by simplify_eq|].
  destruct (put_step blobDir d a) as [d1|] eqn:E; [|done]. eapply IH; [|done]. by eapply pstep_inv.
Qed.

Lemma empty_inv : dir_inv empty_blobs.
Proof. split; cbn; intros *; rewrite ?lookup_empty; done. Qed.
End Invariant.

(** ** What a call leaves behind *)

Section Calls.
Context (blobDir : bytes).

(** Events that remove no blob; events after which temporary files are still
    owned by a running call. *)
Definition keeps_blobs (a : baction) : bool :=
  match a with ADelete _ false => false | _ => true end.

Definition keeps_owner (a : baction) : bool :=
  match a with ACrash => false | ACleanup _ true => false | _ => true end.

(** The result a call has, or is about to return. *)
Definition pc_result (p : put_pc) : option (result blob_error BlobStat) :=
  match p with PCleanup r _ | PDone r => Some r | _ => None end.

Definition ok_present (d : blobdir) : Prop :=
  ∀ t p st, puts d !! t = Some p → pc_result p = Some (Ok st) →
    validOID (st_OID st) = true ∧ is_Some (blobs d !! path blobDir (st_OID st)).

Definition temps_owned (d : blobdir) : Prop :=
  ∀ n, is_Some (tmps d !! n) → ∃ t p, puts d !! t = Some p ∧ pc_tmp p = Some n.

Lemma ok_present_move d t p' b' tm' :
  ok_present d → (∀ q, is_Some (blobs d !! q) → is_Some (b' !! q)) →
  (∀ st, pc_result p' = Some (Ok st) →
     validOID (st_OID st) = true ∧ is_Some (b' !! path blobDir (st_OID st))) →
  ok_present (mkBlobs b' tm' (<[t := p']> (puts d))).
Proof.
  intros Hd Hb Hp u q st Hu Hr. cbn in *.
  apply lookup_insert_Some in Hu as [[<- <-]|[_ Hu]]; [by apply Hp|].
  destruct (Hd u q st Hu Hr). eauto.
Qed.

Lemma stat_ok_present d oid fl : stat_ok blobDir d oid fl = true → is_Some (blobs d !! path blobDir oid).
Proof. unfold stat_ok. intros [_ H]%andb_prop. by apply bool_decide_eq_true in H. Qed.

Lemma pstep_present d a d' :
  dir_inv blobDir d → ok_present d → keeps_blobs a = true → put_step blobDir d a = Some d' → ok_present d'.
Proof.
  intros Hi Hd Hk Hs. pose proof (di_pc _ _ Hi) as Hpc.
  destruct a as [t opts tmp|t c|t fl|t fl|t fl|t fl|t fl|t fl|oid fl|]; cbn in Hs, Hk.
  1: { repeat case_match; simplify_eq; by apply ok_present_move. }
  8: { destruct fl; [|done]. rewrite andb_false_r in Hs. simplify_eq. by destruct d. }
  8: { simplify_eq. intros t p st H. cbn in H. by rewrite lookup_empty in H. }
  all: destruct (puts d !! t) as [[]|] eqn:Ht; try discriminate; specialize (Hpc _ _ Ht); cbn in Hpc.
  - simplify_eq. by apply ok_present_move.
  - repeat case_match; simplify_eq; by apply ok_present_move.
  - simplify_eq. destruct Hpc as (f & _ & -> & ->). apply ok_present_move; [done..|].
    case_match eqn:Hst; [|done]. intros st [= <-]. split; [apply oid_of_valid|by eapply stat_ok_present].
  - simplify_eq. apply ok_present_move; [done..|]. by destruct fl.
  - destruct Hpc as (f & Hf & -> & ->). destruct fl; [|rewrite Hf in Hs]; simplify_eq; apply ok_present_move; try done.
    + intros q Hq. destruct (decide (q = path blobDir (oid_of f))) as [->|];
        rewrite ?lookup_insert_eq, ?lookup_insert_ne by done; eauto.
    + intros st [= <-]. split; [apply oid_of_valid|]. cbn. rewrite lookup_insert_eq. eauto.
  - simplify_eq. destruct Hpc as (f & _ & -> & ->). apply ok_present_move; [done..|].
    cbn. case_match eqn:Hst; [|done]. intros st [= <-]. split; [apply oid_of_valid|by eapply stat_ok_present].
  - simplify_eq. apply ok_present_move; [done..|]. intros st Hr. by apply (Hd t _ st Ht).
Qed.

(** The descriptor of a successful call is that of bytes that were uploaded. *)
Definition ok_sized (d : blobdir) : Prop :=
  ∀ t p st, puts d !! t = Some p → pc_result p = Some (Ok st) →
    ∃ g, st = blob_stat blobDir (oid_of g) (size_of g).

Lemma ok_sized_move d t p' b' tm' :
  ok_sized d → (∀ st, pc_result p' = Some (Ok st) → ∃ g, st = blob_stat blobDir (oid_of g) (size_of g)) →
  ok_sized (mkBlobs b' tm' (<[t := p']> (puts d))).
Proof.
  intros Hd Hp u q st Hu Hr. cbn in *.
  apply lookup_insert_Some in Hu as [[<- <-]|[_ Hu]]; [by apply Hp|by apply (Hd u q st)].
Qed.

Lemma pstep_sized d a d' : dir_inv blobDir d → ok_sized d → put_step blobDir d a = Some d' → ok_sized d'.
Proof.
  intros Hi Hd Hs. pose proof (di_pc _ _ Hi) as Hpc.
  destruct a as [t opts tmp|t c|t fl|t fl|t fl|t fl|t fl|t fl|oid fl|]; cbn in Hs.
  1: { repeat case_match; simplify_eq; by apply ok_sized_move. }
  8: { simplify_eq. exact Hd. }
  8: { simplify_eq. intros t p st H. cbn in H. by rewrite lookup_empty in H. }
  all: destruct (puts d !! t) as [[]|] eqn:Ht; try discriminate; specialize (Hpc _ _ Ht); cbn in Hpc.
  - simplify_eq. by apply ok_sized_move.
  - repeat case_match; simplify_eq; by apply ok_sized_move.
  - simplify_eq. destruct Hpc as (f & _ & -> & ->). apply ok_sized_move; [done|].
    case_match; [|done]. intros st [= <-]. by exists f.
  - simplify_eq. apply ok_sized_move; [done|]. by destruct fl.
  - destruct Hpc as (f & Hf & -> & ->). destruct fl; [|rewrite Hf in Hs]; simplify_eq; (apply ok_sized_move; [done|]); [done|].
    intros st [= <-]. by exists f.
  - simplify_eq. destruct Hpc as (f & _ & -> & ->). apply ok_sized_move; [done|].
    cbn. case_match; [|done]. intros st [= <-]. by exists f.
  - simplify_eq. apply ok_sized_move; [done|]. intros st Hr. by apply (Hd t _ st Ht).
Qed.

(** A blob that is there stays, unless it is deleted. *)
Lemma pstep_keeps d a d' :
  dir_inv blobDir d → put_step blobDir d a = Some d' → keeps_blobs a = true →
  ∀ q, is_Some (blobs d !! q) → is_Some (blobs d' !! q).
Proof.
  intros Hi Hs Hk q Hq. destruct a as [t opts tmp|t c|t fl|t fl|t fl|t fl|t fl|t fl|oid fl|]; cbn in Hs, Hk;
    try (repeat case_match; simplify_eq; cbn; done).
  - repeat case_match; simplify_eq; cbn; try done. destruct (decide (q = path blobDir oid)) as [->|];
      rewrite ?lookup_insert_eq, ?lookup_insert_ne by done; eauto.
  - destruct fl; [|done]. rewrite andb_false_r in Hs. by simplify_eq.
Qed.

Lemma prun_present acts d d' :
  dir_inv blobDir d → ok_present d → forallb keeps_blobs acts = true →
  prun blobDir d acts = Some d' → ok_present d'.
Proof.
  revert d. induction acts as [|a acts IH]; intros d Hi Hd Hk H; cbn in H, Hk; [by simplify_eq|].
  apply andb_prop in Hk as [Hk Hks]. destruct (put_step blobDir d a) as [d1|] eqn:E; [|done].
  eapply IH; [by eapply pstep_inv|by eapply pstep_present|done|done].
Qed.

(** A call that keeps its file moves on. *)
Lemma temps_owned_move d t p p' tm' b' n :
  temps_owned d → puts d !! t = Some p → pc_tmp p = Some n →
  (∀ m, is_Some (tm' !! m) → is_Some (tmps d !! m) ∧ (m = n → pc_tmp p' = Some n)) →
  temps_owned (mkBlobs b' tm' (<[t := p']> (puts d))).
Proof.
  intros Hd Ht Hn Htm m Hm. cbn in *. destruct (Htm m Hm) as [Hm' Hp'].
  destruct (decide (m = n)) as [->|Hne]; [exists t, p'; by rewrite lookup_insert_eq, Hp'|].
  destruct (Hd m Hm') as (u & q & Hu & Hq). exists u, q.
  rewrite lookup_insert_ne; [done|]. intros ->. congruence.
Qed.

Lemma temps_owned_start d t p' tm' :
  temps_owned d → puts d !! t = None →
  (∀ m, is_Some (tm' !! m) → is_Some (tmps d !! m) ∨ pc_tmp p' = Some m) →
  temps_owned (mkBlobs (blobs d) tm' (<[t := p']> (puts d))).
Proof.
  intros Hd Ht Htm m Hm. cbn in *. destruct (Htm m Hm) as [Hm'|Hp'].
  - destruct (Hd m Hm') as (u & q & Hu & Hq). exists u, q. rewrite lookup_insert_ne; [done|congruence].
  - exists t, p'. by rewrite lookup_insert_eq.
Qed.

Lemma delete_owned (tm : gmap nat bytes) n m (P : Prop) :
  is_Some (delete n tm !! m) → is_Some (tm !! m) ∧ (m = n → P).
Proof. intros [x [Hne Hx]%lookup_delete_Some]. split; [eauto|congruence]. Qed.

Lemma pstep_owned d a d' :
  temps_owned d → keeps_owner a = true → put_step blobDir d a = Some d' → temps_owned d'.
Proof.
  intros Hd Hk Hs.
  destruct a as [t opts tmp|t c|t fl|t fl|t fl|t fl|t fl|t fl|oid fl|]; cbn in Hs, Hk; try done.
  1: { repeat case_match; simplify_eq; apply temps_owned_start; cbn; try done; try by left.
       intros m Hm. destruct (decide (n = m)) as [->|]; [by right|left].
       by rewrite lookup_insert_ne in Hm. }
  8: { by simplify_eq. }
  all: destruct (puts d !! t) as [[]|] eqn:Ht; try discriminate.
  2-4,6: repeat case_match; simplify_eq; (eapply temps_owned_move; [done|exact Ht|done|by intros ?]).
  - simplify_eq. eapply temps_owned_move; [done|exact Ht|done|].
    intros m Hm. split; [|by intros ->]. by rewrite lookup_alter_is_Some in Hm.
  - repeat case_match; simplify_eq; (eapply temps_owned_move; [done|exact Ht|done|]); [done|].
    intros m. apply delete_owned.
  - destruct fl; simplify_eq. eapply temps_owned_move; [done|exact Ht|done|]. intros m. apply delete_owned.
Qed.

Lemma prun_owned acts d d' :
  temps_owned d → forallb keeps_owner acts = true → prun blobDir d acts = Some d' → temps_owned d'.
Proof.
  revert d. induction acts as [|a acts IH]; intros d Hd Hk H; cbn in H, Hk; [by simplify_eq|].
  apply andb_prop in Hk as [Hk Hks]. destruct (put_step blobDir d a) as [d1|] eqn:E; [|done].
  eapply IH; [by eapply pstep_owned|done|done].
Qed.
End Calls.

(** ** One call on its own *)

Section Sequential.
Context (blobDir : bytes).

(** The calls up to the checks, the body arriving in [chunks]. *)
Definition upload (t n : nat) (opts : PutOptions) (chunks : list bytes) : list baction :=
  AStart t opts (Some n) :: (AChunk t <$> chunks) ++ [AFinish t false].

Lemma prun_app d l1 l2 :
  prun blobDir d (l1 ++ l2) = match prun blobDir d l1 with Some d1 => prun blobDir d1 l2 | None => None end.
Proof. revert d. induction l1 as [|a l1 IH]; intros d; cbn; [done|]. by destruct (put_step blobDir d a). Qed.

Lemma copy_run t n opts chunks d data :
  puts d !! t = Some (PCopy opts n data) →
  ∃ d', prun blobDir d (AChunk t <$> chunks) = Some d' ∧ blobs d' = blobs d ∧
        puts d' !! t = Some (PCopy opts n (data ++ concat chunks)) ∧
        delete n (tmps d') = delete n (tmps d).
Proof.
  revert d data. induction chunks as [|c chunks IH]; intros d data Ht; cbn.
  { exists d. by rewrite app_nil_r. }
  rewrite Ht. edestruct (IH (mkBlobs (blobs d) (alter (fun f => f ++ c) n (tmps d))
      (<[t := PCopy opts n (data ++ c)]> (puts d)))) as (d' & Hr & Hb & Hp & Htm);
    [cbn; apply lookup_insert_eq|].
  exists d'. rewrite <-app_assoc in Hp. split_and!; [done..|]. rewrite Htm. cbn.
  apply map_eq. intros m. destruct (decide (m = n)) as [->|];
    rewrite ?lookup_delete_eq, ?lookup_delete_ne, ?lookup_alter_ne by done; done.
Qed.

(** After the checks: the call is about to look for the blob, or to clean up. *)
Lemma upload_run t n opts chunks d :
  dir_inv blobDir d → puts d !! t = None → tmps d !! n = None →
  (ExpectedOID opts = [] ∨ validOID (ExpectedOID opts) = true) →
  ∃ d', prun blobDir d (upload t n opts chunks) = Some d' ∧ dir_inv blobDir d' ∧
        blobs d' = blobs d ∧ delete n (tmps d') = tmps d ∧ tmps d' !! n = Some (concat chunks) ∧
        puts d' !! t = Some (match put_check opts (concat chunks) with
                             | Err e => PCleanup (Err e) n
                             | Ok oid => PStat oid (size_of (concat chunks)) n
                             end).
Proof.
  intros Hi Ht Hn Ho.
  set (d1 := mkBlobs (blobs d) (<[n := []]> (tmps d)) (<[t := PCopy opts n []]> (puts d))).
  assert (H1 : put_step blobDir d (AStart t opts (Some n)) = Some d1).
  { cbn. rewrite Ht, Hn. destruct Ho as [-> | ->]; [done|]. by rewrite andb_false_r. }
  destruct (copy_run t n opts chunks d1 []) as (d2 & Hr & Hb & Hp & Htm); [cbn; apply lookup_insert_eq|].
  assert (H2 : ∃ d3, put_step blobDir d2 (AFinish t false) = Some d3 ∧ blobs d3 = blobs d2 ∧ tmps d3 = tmps d2 ∧
     puts d3 !! t = Some (match put_check opts (concat chunks) with
        | Err e => PCleanup (Err e) n | Ok oid => PStat oid (size_of (concat chunks)) n end)).
  { cbn [put_step]. rewrite Hp. cbn [app].
    destruct (put_check opts (concat chunks)); eexists; (split_and!; [done..|]); apply lookup_insert_eq. }
  destruct H2 as (d3 & H3 & Hb3 & Ht3 & Hp3).
  assert (Hrun : prun blobDir d (upload t n opts chunks) = Some d3).
  { unfold upload. cbn [prun]. rewrite H1, prun_app, Hr. cbn [prun]. by rewrite H3. }
  exists d3. split_and!; [done|by eapply prun_inv|by rewrite Hb3, Hb|..|done].
  - rewrite Ht3, Htm. cbn. by rewrite delete_insert_id.
  - rewrite Ht3. refine (di_pc _ _ _ _ _ Hp). eapply prun_inv, Hr. by eapply pstep_inv.
Qed.

(** What an undisturbed call does after the checks. *)
Definition publish (d : blobdir) (t : nat) (oid : bytes) : list baction :=
  if stat_ok blobDir d oid false then [AStatDest t false; ACleanup t false]
  else [AStatDest t false; AMkdir t false; ARename t false].
End Sequential.

Lemma put_publishes blobDir d t n opts chunks :
  dir_inv blobDir d → puts d !! t = None → tmps d !! n = None →
  (ExpectedOID opts = [] ∨ ExpectedOID opts = oid_of (concat chunks)) →
  (ExpectedSize opts ≤ 0 ∨ ExpectedSize opts = size_of (concat chunks)) →
  let oid := oid_of (concat chunks) in
  ∃ d' f, prun blobDir d (upload t n opts chunks ++ publish blobDir d t oid) = Some d' ∧
    puts d' !! t = Some (PDone (Ok (blob_stat blobDir oid (size_of (concat chunks))))) ∧
    tmps d' = tmps d ∧
    Open blobDir d' oid false false = Ok (f, blob_stat blobDir oid (size_of f)) ∧
    oid_of f = oid ∧ (blobs d !! path blobDir oid = None → f = concat chunks).
Proof.
  intros Hi Ht Hn Ho Hz oid.
  assert (Hc : put_check opts (concat chunks) = Ok oid).
  { unfold put_check. replace ((ExpectedSize opts >? 0) && _) with false by (destruct Hz; lia).
    fold oid. destruct Ho as [-> | ->]; [done|]. fold oid. by rewrite beq_refl, andb_false_r. }
  destruct (upload_run blobDir t n opts chunks d Hi Ht Hn) as (d1 & H1 & _ & Hb & Htm & Hg & Hp).
  { destruct Ho as [-> | ->]; [by left|right; apply oid_of_valid]. }
  rewrite Hc in Hp. rewrite prun_app, H1.
  pose proof (oid_of_valid (concat chunks)) as Hv. fold oid in Hv.
  unfold publish, stat_ok. cbn [negb andb]. case_bool_decide as Hex.
  - destruct Hex as [f Hf]. cbn. rewrite Hp. unfold stat_ok. cbn [negb andb].
    rewrite Hb, bool_decide_true by eauto. cbn. rewrite lookup_insert_eq. cbn.
    eexists _, f. split; [done|]. cbn. rewrite lookup_insert_eq. unfold Open. cbn. rewrite Hv, Hb, Hf.
    split_and!; [done..| |congruence].
    symmetry. apply (path_inj blobDir); [done|apply oid_of_valid|by apply (di_blobs _ _ Hi)].
  - cbn. rewrite Hp. unfold stat_ok. cbn [negb andb].
    rewrite Hb, bool_decide_false by done. cbn. rewrite lookup_insert_eq. cbn.
    rewrite lookup_insert_eq, Hg.
    eexists _, (concat chunks). split; [done|]. cbn. rewrite lookup_insert_eq. unfold Open. cbn.
    rewrite Hv, lookup_insert_eq. by split_and!.
Qed.

(** ** Theorems *)

(** C26: in every interleaving of uploads, deletions, failed system calls and
    process deaths, the bytes behind a name that [Open] accepts hash to that
    name: no partial or foreign content is ever visible under a digest. *)
Theorem blob_integrity blobDir acts d oid f st :
  prun blobDir empty_blobs acts = Some d →
  Open blobDir d oid false false = Ok (f, st) →
  oid_of f = oid ∧ st = blob_stat blobDir oid (size_of f).
Proof.
  intros Hr Ho. pose proof (di_blobs _ _ (prun_inv _ _ _ _ (empty_inv _) Hr)) as Hb.
  unfold Open in Ho. destruct (validOID oid) eqn:Hv; [|done]. cbn [negb] in Ho.
  destruct (blobs d !! path blobDir oid) as [g|] eqn:Hg; simplify_eq. split; [|done].
  symmetry. apply (path_inj blobDir); [done|apply oid_of_valid|by apply Hb].
Qed.

(** as long as nothing deletes blobs, a call that reported success has its
    blob in the store, whatever other calls, faults and crashes there were. *)
Theorem put_success_present blobDir acts d t st :
  prun blobDir empty_blobs acts = Some d → forallb keeps_blobs acts = true →
  puts d !! t = Some (PDone (Ok st)) →
  ∃ f, Open blobDir d (st_OID st) false false = Ok (f, blob_stat blobDir (st_OID st) (size_of f)).
Proof.
  intros Hr Hk Ht.
  assert (Hp : ok_present blobDir d).
  { eapply prun_present; [apply empty_inv| |done|done]. intros u p x Hu. cbn in Hu. by rewrite lookup_empty in Hu. }
  destruct (Hp t _ st Ht eq_refl) as [Hv [f Hf]]. exists f. unfold Open. by rewrite Hv, Hf.
Qed.


(** without crashes and failed removals, a store in which every call has
    returned holds no temporary file. *)
Theorem no_temp_left blobDir acts d :
  prun blobDir empty_blobs acts = Some d → forallb keeps_owner acts = true →
  (∀ t p, puts d !! t = Some p → ∃ r, p = PDone r) → tmps d = ∅.
Proof.
  intros Hr Hk Hdone. apply map_empty. intros n. apply eq_None_not_Some. intros Hn.
  assert (Ho : temps_owned d).
  { eapply prun_owned; [|done|done]. intros m Hm. cbn in Hm. rewrite lookup_empty in Hm. by destruct Hm. }
  destruct (Ho n Hn) as (t & p & Ht & Hp). by destruct (Hdone t p Ht) as [r ->].
Qed.

(** an upload whose declared size and digest (if any) match its body
    succeeds, leaves no temporary file, and [Open] then returns bytes with the
    body's digest, which are the body itself when the digest was new. *)
Theorem put_open_roundtrip blobDir acts d t n opts chunks :
  prun blobDir empty_blobs acts = Some d → puts d !! t = None → tmps d !! n = None →
  (ExpectedOID opts = [] ∨ ExpectedOID opts = oid_of (concat chunks)) →
  (ExpectedSize opts ≤ 0 ∨ ExpectedSize opts = size_of (concat chunks)) →
  let oid := oid_of (concat chunks) in
  ∃ d' f, prun blobDir d (upload t n opts chunks ++ publish blobDir d t oid) = Some d' ∧
    puts d' !! t = Some (PDone (Ok (blob_stat blobDir oid (size_of (concat chunks))))) ∧
    tmps d' = tmps d ∧
    Open blobDir d' oid false false = Ok (f, blob_stat blobDir oid (size_of f)) ∧
    oid_of f = oid ∧ (blobs d !! path blobDir oid = None → f = concat chunks).
Proof.
  intros Hr. apply put_publishes. by eapply prun_inv, Hr; apply empty_inv.
Qed.

(** ** Witnesses: one upload of the body "a", then a second call *)

Definition demo_acts : list baction :=
  upload 0 0 (mkPutOpts [] 1) [bs "a"] ++ [AStatDest 0 false; AMkdir 0 false; ARename 0 false].

Definition demo_oid : bytes := Eval vm_compute in oid_of (bs "a").

Definition demo_dir : blobdir := Eval vm_compute in default empty_blobs (prun (bs "b") empty_blobs demo_acts).

Lemma demo_run : prun (bs "b") empty_blobs demo_acts = Some demo_dir.
Proof. vm_compute. reflexivity. Qed.

Lemma blob_integrity_witness : oid_of (bs "a") = demo_oid.
Proof.
  refine (proj1 (blob_integrity (bs "b") demo_acts demo_dir demo_oid (bs "a")
                   (blob_stat (bs "b") demo_oid 1) demo_run _)).
  vm_compute. reflexivity.
Defined.

Lemma put_success_present_witness :
  ∃ f, Open (bs "b") demo_dir demo_oid false false = Ok (f, blob_stat (bs "b") demo_oid (size_of f)).
Proof.
  refine (put_success_present (bs "b") demo_acts demo_dir 0 (blob_stat (bs "b") demo_oid 1) demo_run _ _);
    vm_compute; reflexivity.
Defined.


Lemma no_temp_left_witness : tmps demo_dir = ∅.
Proof.
  apply (no_temp_left (bs "b") demo_acts demo_dir demo_run); [vm_compute; reflexivity|].
  intros t p Ht. change (puts demo_dir) with ({[0%nat := PDone (Ok (blob_stat (bs "b") demo_oid 1))]} : gmap nat put_pc) in Ht.
  apply lookup_singleton_Some in Ht as [_ <-]. eauto.
Defined.

Lemma put_open_roundtrip_witness :
  ∃ d' f, prun (bs "b") demo_dir (upload 1 7 (mkPutOpts [] 2) [bs "x"; bs "y"] ++
             publish (bs "b") demo_dir 1 (oid_of (bs "xy"))) = Some d' ∧
    Open (bs "b") d' (oid_of (bs "xy")) false false = Ok (f, blob_stat (bs "b") (oid_of (bs "xy")) (size_of f)).
Proof.
  destruct (put_open_roundtrip (bs "b") demo_acts demo_dir 1 7 (mkPutOpts [] 2) [bs "x"; bs "y"] demo_run)
    as (d' & f & H1 & _ & _ & H2 & _); [vm_compute; reflexivity..|by left|by right|].
  exists d', f. by split.
Defined.
