(* ===== verification/Registry.v ===== *)
(** * The model registry (src/internal/registry/store.go, types.go)

    Repositories, commits, branches and blobs are tables of a SQL database;
    here they are finite maps.  A row of [file_revisions] belongs to one commit,
    so the files of a commit are a map in its row.  Every method is one
    transaction: a statement that fails ([fault]) makes it return an error with
    the tables as they were.  The constraints of the schema
    (src/internal/db/migrations/0004_registry.up.sql) the methods can run into
    are checked where the statement is; text is compared byte for byte. *)

From stdpp Require Import base strings numbers gmap list.
From S2P Require Import Prelude GoStd Sha256.

Local Open Scope Z_scope.

Inductive reg_error :=
| RNotFound | RAlreadyExists | RInvalidInput | RBlobMissing | RLFSSizeMismatch | RCommitPathInvalid
| RDatabase (serialization : bool).   (* [true] is SQLSTATE 40001 *)

(** ** Validation *)

Definition MaxCommitFilePathBytes : Z := 1024.

(** [seg] is the segment begun. *)
Fixpoint split_segments (p seg : bytes) : list bytes :=
  match p with
  | [] => match seg with [] => [] | _ => [seg] end
  | c :: p =>
      if c =? 47 then match seg with [] => split_segments p [] | _ => seg :: split_segments p [] end
      else split_segments p (seg ++ [c])
  end.

Definition splitPathSegments (p : bytes) : list bytes := split_segments p [].

Definition bad_path_byte (c : Z) : bool := (c =? 0) || (c =? 92) || (c =? 13) || (c =? 10).

Definition ValidateCommitFilePath (p : bytes) : bool :=
  if beq p [] || (Z.of_nat (length p) >? MaxCommitFilePathBytes) then false
  else match p with
       | 47 :: _ => false
       | _ => negb (existsb bad_path_byte p) && negb (existsb (beq (bs "..")) (splitPathSegments p))
       end.

Definition hex_char (c : Z) : bool := is_digit c || ((97 <=? c) && (c <=? 102)).

Definition isHex (s : bytes) : bool := forallb hex_char s.

Definition isHexN (s : bytes) (n : nat) : bool := (length s =? n)%nat && isHex s.

Definition slug_alnum (c : Z) : bool :=
  ((97 <=? c) && (c <=? 122)) || ((65 <=? c) && (c <=? 90)) || is_digit c.

Definition slug_punct (c : Z) : bool := (c =? 46) || (c =? 95) || (c =? 45).

(** The loop ranges over runes; a rune outside ASCII is refused, and so is its
    first byte. *)
Definition isRepoSlug (s : bytes) : bool :=
  if (length s =? 0)%nat || (Z.of_nat (length s) >? 96) then false
  else match s with
       | [] => false
       | c :: s => slug_alnum c && forallb (fun c => slug_alnum c || slug_punct c) s
       end.

Definition validateRepoTriple (repoType ns name : bytes) : bool :=
  bool_decide (repoType ∈ [bs "models"; bs "datasets"; bs "spaces"]) && isRepoSlug ns && isRepoSlug name.

(** The CHECK on branch names: ^[a-zA-Z0-9][a-zA-Z0-9._/-]{0,95}$ *)
Definition branch_name_ok (s : bytes) : bool :=
  match s with
  | [] => false
  | c :: s => slug_alnum c && forallb (fun c => slug_alnum c || slug_punct c || (c =? 47)) s
              && (Z.of_nat (length s) <=? 95)
  end.

(** ** Tables *)

Record Blob := mkBlob { b_Size : Z; b_StorageURL : bytes; b_RefCount : Z }.

Record FileRev := mkFile { fr_BlobOID : bytes; fr_IsLFS : bool }.

Record Commit := mkCommit {
  c_ParentSHA : bytes;
  c_Summary : bytes;
  c_Description : bytes;
  c_Files : gmap bytes FileRev;
}.

Record Repo := mkRepo { rp_ID : bytes; rp_Private : bool }.

Record reg := mkReg {
  repos : gmap (bytes * bytes * bytes * bytes) Repo;    (* tenant, type, namespace, name *)
  blob_rows : gmap bytes Blob;
  commits : gmap (bytes * bytes) Commit;                (* repository, sha *)
  branches : gmap (bytes * bytes) bytes;                (* repository, name *)
}.

Definition empty_reg : reg := mkReg ∅ ∅ ∅ ∅.

Definition has_repo_id (d : reg) (id : bytes) : bool :=
  existsb (fun r => beq (rp_ID r) id) (map_to_list (repos d)).*2.

(** ** Repositories and blobs *)

(** [id] is the uuid the database generates. *)
Definition CreateRepo (fault : option bool) (id : bytes) (d : reg) (tenant repoType ns name : bytes) (private : bool)
    : result reg_error Repo * reg :=
  if negb (validateRepoTriple repoType ns name) then (Err RInvalidInput, d)
  else match fault with
       | Some e => (Err (RDatabase e), d)
       | None =>
           match repos d !! (tenant, repoType, ns, name), has_repo_id d id with
           | Some _, _ | None, true => (Err RAlreadyExists, d)
           | None, false =>
               let r := mkRepo id private in
               (Ok r, mkReg (<[(tenant, repoType, ns, name) := r]> (repos d)) (blob_rows d) (commits d) (branches d))
           end
       end.

Definition GetRepo (fault : option bool) (d : reg) (tenant repoType ns name : bytes) : result reg_error Repo :=
  match fault with
  | Some e => Err (RDatabase e)
  | None => match repos d !! (tenant, repoType, ns, name) with Some r => Ok r | None => Err RNotFound end
  end.

Definition HasBlob (fault : option bool) (d : reg) (oid : bytes) : result reg_error (option Blob) :=
  match fault with Some e => Err (RDatabase e) | None => Ok (blob_rows d !! oid) end.

Definition UpsertBlob (fault : option bool) (d : reg) (oid : bytes) (size : Z) (url : bytes)
    : result reg_error unit * reg :=
  if negb (isHexN oid 64) then (Err RInvalidInput, d)
  else match fault with
       | Some e => (Err (RDatabase e), d)
       | None =>
           if size <? 0 then (Err (RDatabase false), d)
           else match blob_rows d !! oid with
                | Some _ => (Ok tt, d)
                | None => (Ok tt, mkReg (repos d) (<[oid := mkBlob size url 0]> (blob_rows d)) (commits d) (branches d))
                end
       end.

(** ** Commits *)

Record CommitFile := mkCF { cf_BlobOID : bytes; cf_Size : Z }.

Record CommitInput := mkInput {
  in_RepoID : bytes;
  in_Branch : bytes;
  in_Summary : bytes;
  in_Description : bytes;
  in_Inline : gmap bytes CommitFile;
  in_LFSPointers : gmap bytes CommitFile;
  in_Deletes : list bytes;
}.

Record CommitResult := mkResult { cr_SHA : bytes; cr_Branch : bytes }.

(** A file of the tree being built. *)
Record tree_file := mkTF { tf_BlobOID : bytes; tf_IsLFS : bool; tf_Size : Z }.

(** The digest of summary, parent, time and 16 random bytes. *)
Definition deriveCommitSHA (summary : bytes) (now : Z) (parent nonce : bytes) : bytes :=
  take 40 (hex_encode (Sum256 (summary ++ bs "|" ++ parent ++ bs "|" ++ FormatInt now ++ bs "|" ++ hex_encode nonce))).

Definition branch_of (i : CommitInput) : bytes := if beq (in_Branch i) [] then bs "main" else in_Branch i.

(** The parent's files, joined with their blobs. *)
Definition parent_files (d : reg) (repo sha : bytes) : gmap bytes tree_file :=
  match commits d !! (repo, sha) with
  | None => ∅
  | Some c =>
      omap (fun f => match blob_rows d !! fr_BlobOID f with
                     | Some b => Some (mkTF (fr_BlobOID f) (fr_IsLFS f) (b_Size b))
                     | None => None
                     end) (c_Files c)
  end.

Definition delete_paths (t : gmap bytes tree_file) (l : list bytes) : gmap bytes tree_file :=
  foldl (fun t p => delete p t) t l.

Definition as_tree (lfs : bool) (m : gmap bytes CommitFile) : gmap bytes tree_file :=
  (fun f => mkTF (cf_BlobOID f) lfs (cf_Size f)) <$> m.

(** Deletions, then inline files, then LFS pointers. *)
Definition new_files (parent : gmap bytes tree_file) (i : CommitInput) : gmap bytes tree_file :=
  as_tree true (in_LFSPointers i) ∪ (as_tree false (in_Inline i) ∪ delete_paths parent (in_Deletes i)).

Definition paths_valid (i : CommitInput) : bool :=
  forallb ValidateCommitFilePath (in_Deletes i)
  && forallb ValidateCommitFilePath (map_to_list (in_Inline i)).*1
  && forallb ValidateCommitFilePath (map_to_list (in_LFSPointers i)).*1.

Definition size_mismatch (d : reg) (f : tree_file) : bool :=
  match blob_rows d !! tf_BlobOID f with
  | Some b => tf_IsLFS f && (tf_Size f >? 0) && negb (tf_Size f =? b_Size b)
  | None => false
  end.

Definition blob_missing (d : reg) (f : tree_file) : bool := negb (bool_decide (is_Some (blob_rows d !! tf_BlobOID f))).

(** The loop over the new files; a mismatch returns at once, missing blobs are
    reported after it. *)
Definition check_files (d : reg) (t : gmap bytes tree_file) : option reg_error :=
  let l := (map_to_list t).*2 in
  if existsb (size_mismatch d) l then Some RLFSSizeMismatch
  else if existsb (blob_missing d) l then Some RBlobMissing
  else None.

(** The path has the blob it had in the parent. *)
Definition carried (parent : gmap bytes tree_file) (p : bytes) (f : tree_file) : bool :=
  match parent !! p with Some g => beq (tf_BlobOID g) (tf_BlobOID f) | None => false end.

(** The blobs whose count goes up. *)
Definition added_oids (parent t : gmap bytes tree_file) : list bytes :=
  (fun e => tf_BlobOID e.2) <$> filter (fun e => carried parent e.1 e.2 = false) (map_to_list t).

Definition bump (b : Blob) : Blob := mkBlob (b_Size b) (b_StorageURL b) (b_RefCount b + 1).

Definition bump_all (rows : gmap bytes Blob) (oids : list bytes) : gmap bytes Blob :=
  map_imap (fun o b => Some (if bool_decide (o ∈ oids) then bump b else b)) rows.

Definition CommitTx (fault : option bool) (now : Z) (nonce : bytes) (d : reg) (i : CommitInput)
    : result reg_error CommitResult * reg :=
  if beq (in_RepoID i) [] then (Err RInvalidInput, d)
  else match fault with
  | Some e => (Err (RDatabase e), d)
  | None =>
      let branch := branch_of i in
      let parentSHA := default [] (branches d !! (in_RepoID i, branch)) in
      let parent := if beq parentSHA [] then ∅ else parent_files d (in_RepoID i) parentSHA in
      if negb (paths_valid i) then (Err RCommitPathInvalid, d)
      else
        let t := new_files parent i in
        match check_files d t with
        | Some e => (Err e, d)
        | None =>
            let sha := deriveCommitSHA (in_Summary i) now parentSHA nonce in
            if negb (has_repo_id d (in_RepoID i)) || bool_decide (is_Some (commits d !! (in_RepoID i, sha)))
               || negb (branch_name_ok branch)
            then (Err (RDatabase false), d)
            else
              let c := mkCommit parentSHA (in_Summary i) (in_Description i)
                         ((fun f => mkFile (tf_BlobOID f) (tf_IsLFS f)) <$> t) in
              (Ok (mkResult sha branch),
               mkReg (repos d) (bump_all (blob_rows d) (added_oids parent t))
                 (<[(in_RepoID i, sha) := c]> (commits d)) (<[(in_RepoID i, branch) := sha]> (branches d)))
        end
  end.

(** ** Reading *)

(** [pick]: which row a query without ORDER BY returns first. *)
Definition ResolveBranch (fault : option bool) (pick : list bytes → option bytes) (d : reg) (repo ref : bytes)
    : result reg_error bytes :=
  match fault with
  | Some e => Err (RDatabase e)
  | None =>
      let ref := if beq ref [] then bs "main" else ref in
      match branches d !! (repo, ref) with
      | Some sha => Ok sha
      | None =>
          if isHexN ref 40 && bool_decide (is_Some (commits d !! (repo, ref))) then Ok ref
          else if (7 <=? length ref)%nat && isHex ref then
            match pick (filter (fun s => HasPrefix s ref = true)
                          ((fun k => k.2) <$> filter (fun k => k.1 = repo) (map_to_list (commits d)).*1)) with
            | Some sha => Ok sha
            | None => Err RNotFound
            end
          else Err RNotFound
      end
  end.

Definition ListFiles (fault : option bool) (d : reg) (repo sha : bytes)
    : result reg_error (gmap bytes tree_file * Commit) :=
  match fault with
  | Some e => Err (RDatabase e)
  | None => match commits d !! (repo, sha) with
            | None => Err RNotFound
            | Some c => Ok (parent_files d repo sha, c)
            end
  end.

Definition LookupFile (fault : option bool) (pick : list bytes → option bytes) (d : reg) (repo ref path : bytes)
    : result reg_error (tree_file * bytes) :=
  match ResolveBranch fault pick d repo ref with
  | Err e => Err e
  | Ok sha =>
      match ListFiles fault d repo sha with
      | Err e => Err e
      | Ok (files, _) => match files !! path with Some f => Ok (f, sha) | None => Err RNotFound end
      end
  end.

(** ** Mirrors *)

Record Mirror := mkMirror { mi_UpstreamHost : bytes; mi_PinnedSHA : bytes }.

Abbreviation mirror_table := (gmap (bytes * bytes * bytes * bytes) Mirror).

Definition CreateMirror (fault : option bool) (t : mirror_table) (tenant repoType ns name upstream pinnedSHA : bytes)
    : result reg_error Mirror * mirror_table :=
  if negb (validateRepoTriple repoType ns name) then (Err RInvalidInput, t)
  else
    let upstream := if beq upstream [] then bs "huggingface.co" else upstream in
    if negb (beq pinnedSHA []) && negb (isHexN pinnedSHA 40) then (Err RInvalidInput, t)
    else match fault with
         | Some e => (Err (RDatabase e), t)
         | None =>
             match t !! (tenant, repoType, ns, name) with
             | Some _ => (Err RAlreadyExists, t)
             | None => let m := mkMirror upstream pinnedSHA in (Ok m, <[(tenant, repoType, ns, name) := m]> t)
             end
         end.

Definition GetMirror (fault : option bool) (t : mirror_table) (tenant repoType ns name : bytes) : result reg_error Mirror :=
  match fault with
  | Some e => Err (RDatabase e)
  | None => match t !! (tenant, repoType, ns, name) with Some m => Ok m | None => Err RNotFound end
  end.

(** ** Paths *)

Lemma split_segments_spec p seg :
  47 ∉ seg → split_segments p seg = filter (fun w => w ≠ []) (Split (seg ++ p) 47).
Proof.
  revert seg. induction p as [|c p IH]; intros seg Hs; cbn [split_segments].
  - rewrite app_nil_r, Split_no_sep by done. by destruct seg.
  - destruct (c =? 47) eqn:Hc.
    + apply Z.eqb_eq in Hc as ->. rewrite Split_app_sep by done.
      rewrite (IH []) by apply not_elem_of_nil. by destruct seg.
    + rewrite IH; [by rewrite <-app_assoc|]. apply Z.eqb_neq in Hc.
      intros [H|H%list_elem_of_singleton]%elem_of_app; [done|lia].
Qed.

Lemma splitPathSegments_spec p : splitPathSegments p = filter (fun w => w ≠ []) (Split p 47).
Proof. apply (split_segments_spec p []). apply not_elem_of_nil. Qed.

(** ** The well-formedness of the tables *)

Definition referenced (d : reg) (f : FileRev) : Prop :=
  ∃ b, blob_rows d !! fr_BlobOID f = Some b ∧ 1 ≤ b_RefCount b.

Record reg_ok (d : reg) : Prop := mkRegOk {
  ro_branch : ∀ k sha, branches d !! k = Some sha → is_Some (commits d !! (k.1, sha));
  ro_files : ∀ k c p f, commits d !! k = Some c → c_Files c !! p = Some f →
               referenced d f ∧ ValidateCommitFilePath p = true;
  ro_count : ∀ o b, blob_rows d !! o = Some b → 0 ≤ b_RefCount b;
}.

(** The methods that change the tables. *)
Inductive reg_op :=
| OCreateRepo (fault : option bool) (id tenant repoType ns name : bytes) (private : bool)
| OUpsertBlob (fault : option bool) (oid : bytes) (size : Z) (url : bytes)
| OCommit (fault : option bool) (now : Z) (nonce : bytes) (i : CommitInput).

Definition reg_step (d : reg) (o : reg_op) : reg :=
  match o with
  | OCreateRepo fault id tenant repoType ns name private => (CreateRepo fault id d tenant repoType ns name private).2
  | OUpsertBlob fault oid size url => (UpsertBlob fault d oid size url).2
  | OCommit fault now nonce i => (CommitTx fault now nonce d i).2
  end.

Definition reg_run (ops : list reg_op) : reg := foldl reg_step empty_reg ops.

Lemma empty_reg_ok : reg_ok empty_reg.
Proof. split; cbn; intros *; by rewrite lookup_empty. Qed.

Lemma bump_all_lookup rows oids o b :
  rows !! o = Some b → bump_all rows oids !! o = Some (if bool_decide (o ∈ oids) then bump b else b).
Proof. intros H. unfold bump_all. by rewrite map_lookup_imap, H. Qed.

Lemma bump_all_Some rows oids o b :
  bump_all rows oids !! o = Some b → ∃ b0, rows !! o = Some b0 ∧ b_Size b = b_Size b0 ∧ b_RefCount b0 ≤ b_RefCount b.
Proof.
  unfold bump_all. rewrite map_lookup_imap. destruct (rows !! o) as [b0|]; [|done]. cbn. intros [= <-].
  exists b0. case_bool_decide; cbn; split_and!; (done || lia).
Qed.

Lemma parent_files_lookup d repo sha p g :
  parent_files d repo sha !! p = Some g ↔
  ∃ c f b, commits d !! (repo, sha) = Some c ∧ c_Files c !! p = Some f ∧
           blob_rows d !! fr_BlobOID f = Some b ∧ g = mkTF (fr_BlobOID f) (fr_IsLFS f) (b_Size b).
Proof.
  unfold parent_files. destruct (commits d !! (repo, sha)) as [c|].
  - rewrite lookup_omap. split.
    + destruct (c_Files c !! p) as [f|] eqn:Hf; [|done]. cbn.
      destruct (blob_rows d !! fr_BlobOID f) as [b|] eqn:Hb; [|done]. intros [= <-]. eauto 9.
    + intros (c' & f & b & [= <-] & Hf & Hb & ->). rewrite Hf. cbn. by rewrite Hb.
  - rewrite lookup_empty. split; [done|]. by intros (? & ? & ? & ? & _).
Qed.

Lemma delete_paths_lookup l t p :
  delete_paths t l !! p = if bool_decide (p ∈ l) then None else t !! p.
Proof.
  unfold delete_paths. revert t. induction l as [|q l IH]; intros t; cbn.
  { by rewrite bool_decide_false by apply not_elem_of_nil. }
  rewrite IH. destruct (decide (p = q)) as [->|Hne].
  - rewrite lookup_delete_eq, (bool_decide_true (q ∈ q :: l)) by apply list_elem_of_here.
    by destruct (bool_decide _).
  - rewrite lookup_delete_ne by done. apply reflexive_eq.
    rewrite (bool_decide_ext (p ∈ q :: l) (p ∈ l)); [done|]. rewrite elem_of_cons. naive_solver.
Qed.

(** What a commit of [i] on top of [old] has at [p]. *)
Definition expected_file (i : CommitInput) (old : option (bytes * bool)) (p : bytes) : option (bytes * bool) :=
  match in_LFSPointers i !! p with
  | Some f => Some (cf_BlobOID f, true)
  | None =>
      match in_Inline i !! p with
      | Some f => Some (cf_BlobOID f, false)
      | None => if bool_decide (p ∈ in_Deletes i) then None else old
      end
  end.

Definition tf_ref (f : tree_file) : bytes * bool := (tf_BlobOID f, tf_IsLFS f).

Lemma new_files_lookup parent i p :
  tf_ref <$> new_files parent i !! p = expected_file i (tf_ref <$> parent !! p) p.
Proof.
  unfold new_files, expected_file, as_tree. rewrite !lookup_union, !lookup_fmap, delete_paths_lookup.
  destruct (in_LFSPointers i !! p), (in_Inline i !! p); cbn;
    destruct (bool_decide _); cbn; try done; by destruct (parent !! p).
Qed.

(** ** A successful commit *)

(** The parent tree a commit of [i] starts from. *)
Definition base_tree (d : reg) (i : CommitInput) : gmap bytes tree_file :=
  let sha := default [] (branches d !! (in_RepoID i, branch_of i)) in
  if beq sha [] then ∅ else parent_files d (in_RepoID i) sha.

Record committed (d : reg) (i : CommitInput) (r : CommitResult) (d' : reg) : Prop := mkCommitted {
  cm_branch : cr_Branch r = branch_of i;
  cm_paths : paths_valid i = true;
  cm_check : check_files d (new_files (base_tree d i) i) = None;
  cm_fresh : commits d !! (in_RepoID i, cr_SHA r) = None;
  cm_rows : blob_rows d' = bump_all (blob_rows d) (added_oids (base_tree d i) (new_files (base_tree d i) i));
  cm_commits : ∃ parent, commits d' = <[(in_RepoID i, cr_SHA r) :=
      mkCommit parent (in_Summary i) (in_Description i)
        ((fun f => mkFile (tf_BlobOID f) (tf_IsLFS f)) <$> new_files (base_tree d i) i)]> (commits d);
  cm_branches : branches d' = <[(in_RepoID i, branch_of i) := cr_SHA r]> (branches d);
}.

Lemma CommitTx_ok fault now nonce d i r d' :
  CommitTx fault now nonce d i = (Ok r, d') → committed d i r d'.
Proof.
  unfold CommitTx. fold (base_tree d i). intros H.
  destruct (beq (in_RepoID i) []); [done|]. destruct fault; [done|]. cbv zeta in H. fold (base_tree d i) in H.
  destruct (paths_valid i) eqn:Hp; [|done]. cbn [negb] in H.
  destruct (check_files d _) eqn:Hc; [done|].
  destruct (_ || _ || _) eqn:Hdb; [done|]. injection H as <- <-.
  apply orb_false_iff in Hdb as [[_ Hf]%orb_false_iff _].
  split; cbn; try done; [|by eexists].
  apply bool_decide_eq_false in Hf. by apply eq_None_not_Some.
Qed.

Lemma CommitTx_err fault now nonce d i e d' : CommitTx fault now nonce d i = (Err e, d') → d' = d.
Proof. unfold CommitTx. intros H. repeat case_match; by simplify_eq. Qed.

Lemma existsb_values {A} (P : A → bool) (t : gmap bytes A) p f :
  existsb P (map_to_list t).*2 = false → t !! p = Some f → P f = false.
Proof.
  intros H Hp. destruct (P f) eqn:E; [|done]. rewrite <-H. symmetry. apply existsb_exists. exists f.
  split; [|done]. apply list_elem_of_In, list_elem_of_fmap. exists (p, f). split; [done|]. by apply elem_of_map_to_list.
Qed.

Lemma forallb_keys {A} (P : bytes → bool) (t : gmap bytes A) p f :
  forallb P (map_to_list t).*1 = true → t !! p = Some f → P p = true.
Proof.
  intros H Hp. rewrite forallb_forall in H. apply H, list_elem_of_In, list_elem_of_fmap.
  exists (p, f). split; [done|]. by apply elem_of_map_to_list.
Qed.

Lemma check_files_None d t p f :
  check_files d t = None → t !! p = Some f →
  ∃ b, blob_rows d !! tf_BlobOID f = Some b ∧ (tf_IsLFS f = true → tf_Size f > 0 → tf_Size f = b_Size b).
Proof.
  unfold check_files. intros H Hp.
  destruct (existsb (size_mismatch d) _) eqn:Hs; [done|]. destruct (existsb (blob_missing d) _) eqn:Hm; [done|].
  pose proof (existsb_values _ _ _ _ Hs Hp) as H1. pose proof (existsb_values _ _ _ _ Hm Hp) as H2.
  unfold blob_missing in H2. apply negb_false_iff, bool_decide_eq_true in H2 as [b Hb].
  exists b. split; [done|]. intros Hl Hz. unfold size_mismatch in H1. rewrite Hb, Hl in H1. lia.
Qed.

(** Where a file of the new tree comes from. *)
Lemma new_files_source d i p f :
  new_files (base_tree d i) i !! p = Some f → paths_valid i = true →
  ValidateCommitFilePath p = true ∨ base_tree d i !! p = Some f.
Proof.
  intros Hf Hv. unfold paths_valid in Hv. apply andb_prop in Hv as [[_ Hi]%andb_prop Hl].
  unfold new_files, as_tree in Hf. apply lookup_union_Some_raw in Hf as [Hf|[_ Hf]].
  { rewrite lookup_fmap in Hf. left. apply fmap_Some in Hf as (x & Hx & _). exact (forallb_keys _ _ _ _ Hl Hx). }
  apply lookup_union_Some_raw in Hf as [Hf|[_ Hf]].
  { rewrite lookup_fmap in Hf. left. apply fmap_Some in Hf as (x & Hx & _). exact (forallb_keys _ _ _ _ Hi Hx). }
  right. rewrite delete_paths_lookup in Hf. by destruct (bool_decide _).
Qed.

Lemma base_tree_file d i p g :
  base_tree d i !! p = Some g →
  ∃ k c f, commits d !! k = Some c ∧ c_Files c !! p = Some f ∧ fr_BlobOID f = tf_BlobOID g.
Proof.
  unfold base_tree. destruct (beq _ _); [by rewrite lookup_empty|].
  intros (c & f & b & Hc & Hf & _ & ->)%parent_files_lookup. eauto 9.
Qed.

Lemma added_oids_elem parent t p f :
  t !! p = Some f → carried parent p f = false → tf_BlobOID f ∈ added_oids parent t.
Proof.
  intros Hp Hc. unfold added_oids. apply list_elem_of_fmap. exists (p, f). split; [done|].
  apply list_elem_of_filter. split; [done|]. by apply elem_of_map_to_list.
Qed.

(** A file of the new commit has a counted blob and a valid path. *)
Lemma committed_file d i r d' p f :
  reg_ok d → committed d i r d' → new_files (base_tree d i) i !! p = Some f →
  referenced d' (mkFile (tf_BlobOID f) (tf_IsLFS f)) ∧ ValidateCommitFilePath p = true.
Proof.
  intros Hd [_ Hv Hc _ Hrows _ _] Hf.
  destruct (check_files_None _ _ _ _ Hc Hf) as (b & Hb & _). pose proof (ro_count _ Hd _ _ Hb) as Hn.
  split.
  - exists (if bool_decide (tf_BlobOID f ∈ added_oids (base_tree d i) (new_files (base_tree d i) i)) then bump b else b).
    cbn. rewrite Hrows, (bump_all_lookup _ _ _ b) by done. split; [done|].
    destruct (carried (base_tree d i) p f) eqn:Hcar.
    + unfold carried in Hcar. destruct (base_tree d i !! p) as [g|] eqn:Hg; [|done]. apply beq_true in Hcar.
      destruct (base_tree_file _ _ _ _ Hg) as (k & c & fr & Hk & Hfr & Ho).
      destruct (ro_files _ Hd _ _ _ _ Hk Hfr) as [(b' & Hb' & H1) _].
      rewrite Ho, Hcar, Hb in Hb'. injection Hb' as <-. destruct (bool_decide _); cbn; lia.
    + rewrite bool_decide_true by (by eapply added_oids_elem). cbn. lia.
  - destruct (new_files_source _ _ _ _ Hf Hv) as [|Hg]; [done|].
    destruct (base_tree_file _ _ _ _ Hg) as (k & c & fr & Hk & Hfr & _). by eapply (ro_files _ Hd).
Qed.

Lemma referenced_bump d d' oids f : blob_rows d' = bump_all (blob_rows d) oids → referenced d f → referenced d' f.
Proof.
  intros H (b & Hb & Hn). eexists. rewrite H, (bump_all_lookup _ _ _ b) by done. split; [done|].
  destruct (bool_decide _); cbn; lia.
Qed.

Lemma CommitTx_preserves fault now nonce d i : reg_ok d → reg_ok (CommitTx fault now nonce d i).2.
Proof.
  intros Hd. destruct (CommitTx fault now nonce d i) as [[r|e] d'] eqn:E; cbn; [|by apply CommitTx_err in E as ->].
  apply CommitTx_ok in E. pose proof E as [_ _ _ Hfresh Hrows [par Hcs] Hbr]. split.
  - intros k sha. rewrite Hbr, Hcs. intros [[<- <-]|[_ Hk]]%lookup_insert_Some; [cbn; rewrite lookup_insert_eq; eauto|].
    destruct (ro_branch _ Hd _ _ Hk) as [c Hc]. exists c. rewrite lookup_insert_ne; [done|]. intros Heq.
    rewrite Heq in Hfresh. congruence.
  - intros k c p f. rewrite Hcs. intros [[<- <-]|[_ Hk]]%lookup_insert_Some Hf.
    + cbn in Hf. rewrite lookup_fmap in Hf. apply fmap_Some in Hf as (g & Hg & ->). by eapply committed_file.
    + destruct (ro_files _ Hd _ _ _ _ Hk Hf) as [Hr Hp]. split; [by eapply referenced_bump|done].
  - intros o b. rewrite Hrows. intros (b0 & Hb0 & _ & Hle)%bump_all_Some. pose proof (ro_count _ Hd _ _ Hb0). lia.
Qed.

Lemma UpsertBlob_preserves fault d oid size url : reg_ok d → reg_ok (UpsertBlob fault d oid size url).2.
Proof.
  intros [H1 H2 H3]. unfold UpsertBlob. repeat case_match; cbn; try by split.
  split; cbn; [done|..].
  - intros k c p f Hk Hf. destruct (H2 k c p f Hk Hf) as [(b & Hb & Hn) Hp]. split; [|done].
    exists b. cbn. rewrite lookup_insert_ne; [done|congruence].
  - intros o b [[<- <-]|[_ Hb]]%lookup_insert_Some; [done|by eapply H3].
Qed.

Lemma reg_run_ok ops : reg_ok (reg_run ops).
Proof.
  unfold reg_run. cut (∀ d, reg_ok d → reg_ok (foldl reg_step d ops)); [intros H; apply H, empty_reg_ok|].
  induction ops as [|o ops IH]; intros d Hd; cbn; [done|]. apply IH. destruct o; cbn.
  - destruct Hd as [H1 H2 H3]. unfold CreateRepo. repeat case_match; by split.
  - by apply UpsertBlob_preserves.
  - by apply CommitTx_preserves.
Qed.

(** ** Theorems *)

Lemma list_commit d repo sha c :
  reg_ok d → commits d !! (repo, sha) = Some c →
  ∀ p, tf_ref <$> parent_files d repo sha !! p = (fun f => (fr_BlobOID f, fr_IsLFS f)) <$> c_Files c !! p.
Proof.
  intros Hd Hc p. unfold parent_files. rewrite Hc, lookup_omap.
  destruct (c_Files c !! p) as [f|] eqn:Hf; [|done]. cbn.
  destruct (ro_files _ Hd _ _ _ _ Hc Hf) as [(b & Hb & _) _]. by rewrite Hb.
Qed.

(** C27: after any sequence of repository creations, blob registrations and
    commits, failed ones included, every branch names a commit whose listing
    has all its files; every path passes the validation, and every blob is
    registered with a positive reference count. *)
Theorem registry_well_formed ops repo branch sha :
  branches (reg_run ops) !! (repo, branch) = Some sha →
  ∃ files c, ListFiles None (reg_run ops) repo sha = Ok (files, c) ∧
    (∀ p, tf_ref <$> files !! p = (fun f => (fr_BlobOID f, fr_IsLFS f)) <$> c_Files c !! p) ∧
    (∀ p f, files !! p = Some f → ValidateCommitFilePath p = true ∧
       ∃ b, blob_rows (reg_run ops) !! tf_BlobOID f = Some b ∧ tf_Size f = b_Size b ∧ 1 ≤ b_RefCount b).
Proof.
  intros Hbr. pose proof (reg_run_ok ops) as Hd. destruct (ro_branch _ Hd _ _ Hbr) as [c Hc]. cbn in Hc.
  exists (parent_files (reg_run ops) repo sha), c. unfold ListFiles. rewrite Hc.
  split_and!; [done|by apply list_commit|].
  intros p f (c' & g & b & Hc' & Hg & Hb & ->)%parent_files_lookup. rewrite Hc in Hc'. injection Hc' as <-.
  destruct (ro_files _ Hd _ _ _ _ Hc Hg) as [(b' & Hb' & Hn) Hp]. rewrite Hb in Hb'. injection Hb' as <-.
  split; [done|]. by exists b.
Qed.

(** The tree of a new commit. *)
Lemma commit_tree d fault now nonce pick i r d' :
  reg_ok d → CommitTx fault now nonce d i = (Ok r, d') →
  ResolveBranch None pick d' (in_RepoID i) (branch_of i) = Ok (cr_SHA r) ∧
  (∃ files c, ListFiles None d' (in_RepoID i) (cr_SHA r) = Ok (files, c) ∧
     (∀ p, tf_ref <$> files !! p = expected_file i (tf_ref <$> base_tree d i !! p) p) ∧
     (∀ p f g, in_LFSPointers i !! p = Some f → cf_Size f > 0 → files !! p = Some g → tf_Size g = cf_Size f)) ∧
  (∀ k, k ≠ (in_RepoID i, cr_SHA r) → commits d' !! k = commits d !! k) ∧
  (∀ k, k ≠ (in_RepoID i, branch_of i) → branches d' !! k = branches d !! k).
Proof.
  intros Hd H.
  pose proof (CommitTx_preserves fault now nonce d i Hd) as Hd'. rewrite H in Hd'. cbn in Hd'.
  apply CommitTx_ok in H. pose proof H as [_ _ Hchk _ Hrows [par Hcs] Hbr].
  set (c := mkCommit par _ _ _) in Hcs.
  assert (Hc : commits d' !! (in_RepoID i, cr_SHA r) = Some c) by (rewrite Hcs; apply lookup_insert_eq).
  split_and!.
  - unfold ResolveBranch. cbv zeta. rewrite (proj2 (beq_false (branch_of i) [])).
    + by rewrite Hbr, lookup_insert_eq.
    + unfold branch_of. destruct (beq (in_Branch i) []) eqn:E; [done|]. by apply beq_false.
  - exists (parent_files d' (in_RepoID i) (cr_SHA r)), c. unfold ListFiles. rewrite Hc. split_and!; [done|..].
    + intros p. rewrite (list_commit _ _ _ _ Hd' Hc), <-new_files_lookup. cbn. rewrite lookup_fmap.
      by destruct (new_files (base_tree d i) i !! p).
    + intros p f g Hf Hz (c' & fr & b & Hc' & Hfr & Hb & ->)%parent_files_lookup.
      rewrite Hc in Hc'. injection Hc' as <-. cbn in Hfr. rewrite lookup_fmap in Hfr.
      assert (Hn : new_files (base_tree d i) i !! p = Some (mkTF (cf_BlobOID f) true (cf_Size f))).
      { unfold new_files, as_tree. apply lookup_union_Some_l. by rewrite lookup_fmap, Hf. }
      rewrite Hn in Hfr. cbn in Hfr. injection Hfr as <-. cbn in *.
      destruct (check_files_None _ _ _ _ Hchk Hn) as (b0 & Hb0 & Hsz). cbn in Hb0, Hsz.
      rewrite Hrows in Hb. apply bump_all_Some in Hb as (b1 & Hb1 & Hs & _).
      rewrite Hb0 in Hb1. injection Hb1 as <-. rewrite Hs. symmetry. by apply Hsz.
  - intros k Hk. by rewrite Hcs, lookup_insert_ne.
  - intros k Hk. by rewrite Hbr, lookup_insert_ne.
Qed.

(** a successful commit makes its branch resolve to it, and its listing is
    exactly the branch's previous listing without the deleted paths, overridden
    by the inline files and then by the LFS pointers, whose declared sizes are
    the stored ones; other commits and branches are untouched. *)
Theorem commit_tree_exact ops fault now nonce pick i r d' :
  let d := reg_run ops in
  CommitTx fault now nonce d i = (Ok r, d') →
  ResolveBranch None pick d' (in_RepoID i) (branch_of i) = Ok (cr_SHA r) ∧
  (∃ files c, ListFiles None d' (in_RepoID i) (cr_SHA r) = Ok (files, c) ∧
     (∀ p, tf_ref <$> files !! p = expected_file i (tf_ref <$> base_tree d i !! p) p) ∧
     (∀ p f g, in_LFSPointers i !! p = Some f → cf_Size f > 0 → files !! p = Some g → tf_Size g = cf_Size f)) ∧
  (∀ k, k ≠ (in_RepoID i, cr_SHA r) → commits d' !! k = commits d !! k) ∧
  (∀ k, k ≠ (in_RepoID i, branch_of i) → branches d' !! k = branches d !! k).
Proof. intros d H. exact (commit_tree d fault now nonce pick i r d' (reg_run_ok ops) H). Qed.

(** a commit path is accepted exactly when it is non-empty, at most 1024
    bytes, relative, free of NUL, backslash, CR and LF, and has no component
    that is "..". *)
Theorem ValidateCommitFilePath_exact p :
  ValidateCommitFilePath p = true ↔
  p ≠ [] ∧ Z.of_nat (length p) ≤ 1024 ∧ head p ≠ Some 47 ∧
  (∀ c, c ∈ p → c ∉ [0; 92; 13; 10]) ∧ bs ".." ∉ Split p 47.
Proof.
  assert (Hbad : existsb bad_path_byte p = false ↔ ∀ c, c ∈ p → c ∉ [0; 92; 13; 10]).
  { rewrite <-not_true_iff_false, existsb_exists. unfold bad_path_byte. split.
    - intros H c Hc Hin. apply H. exists c. split; [by apply list_elem_of_In|]. set_unfold in Hin. lia.
    - intros H (c & Hc%list_elem_of_In & Hb). apply (H c Hc). set_unfold. lia. }
  assert (Hdot : existsb (beq (bs "..")) (splitPathSegments p) = false ↔ bs ".." ∉ Split p 47).
  { rewrite <-not_true_iff_false, existsb_exists, splitPathSegments_spec. apply not_iff_compat. split.
    - intros (w & Hw%list_elem_of_In & <-%beq_true). by apply list_elem_of_filter in Hw as [_ ?].
    - intros H. exists (bs ".."). rewrite beq_refl, <-list_elem_of_In, list_elem_of_filter. done. }
  unfold ValidateCommitFilePath, MaxCommitFilePathBytes. rewrite <-Hbad, <-Hdot. clear Hbad Hdot.
  destruct p as [|c p]; [cbn; naive_solver|]. cbn [beq head].
  destruct (_ || (_ >? 1024)) eqn:Hlen.
  { split; [done|]. intros (_ & Hl & _). apply orb_prop in Hlen as [Hlen|Hlen]; [by apply beq_true in Hlen|lia]. }
  apply orb_false_iff in Hlen as [_ Hlen].
  destruct (decide (c = 47)) as [->|Hne]; [split; [done|]; by intros (_ & _ & [] & _)|].
  transitivity (negb (existsb bad_path_byte (c :: p)) && negb (existsb (beq (bs "..")) (splitPathSegments (c :: p))) = true).
  { repeat case_match; try done. }
  rewrite andb_true_iff, !negb_true_iff. split; [|naive_solver].
  intros [H1 H2]. split_and!; [done|lia|congruence|done|done].
Qed.

(** ** Witnesses: one repository, one blob, a commit that adds it *)

Definition demo_blob : bytes := replicate 64 97.

Definition demo_input (deletes : list bytes) (files : gmap bytes CommitFile) : CommitInput :=
  mkInput (bs "r1") [] (bs "update") [] ∅ files deletes.

Definition demo_add : CommitInput := demo_input [] {[bs "w.bin" := mkCF demo_blob 5]}.

Definition demo_setup : list reg_op :=
  [OCreateRepo None (bs "r1") (bs "t") (bs "models") (bs "acme") (bs "m") false;
   OUpsertBlob None demo_blob 5 (bs "file://x")].

Definition demo_ops : list reg_op := demo_setup ++ [OCommit None 1 [1] demo_add].

Definition demo_sha : bytes := Eval vm_compute in deriveCommitSHA (bs "update") 1 [] [1].

Lemma registry_well_formed_witness :
  ∃ files c, ListFiles None (reg_run demo_ops) (bs "r1") demo_sha = Ok (files, c).
Proof.
  destruct (registry_well_formed demo_ops (bs "r1") (bs "main") demo_sha) as (files & c & H & _);
    [vm_compute; reflexivity|]. by exists files, c.
Defined.

Lemma commit_tree_exact_witness :
  ∃ r d', CommitTx None 1 [1] (reg_run demo_setup) demo_add = (Ok r, d') ∧
          ResolveBranch None head d' (bs "r1") (bs "main") = Ok (cr_SHA r).
Proof.
  destruct (CommitTx None 1 [1] (reg_run demo_setup) demo_add) as [[r|e] d'] eqn:E.
  - exists r, d'. split; [done|].
    exact (proj1 (commit_tree_exact demo_setup None 1 [1] head demo_add r d' E)).
  - exfalso. apply (f_equal (fun x => match x.1 with Ok _ => true | Err _ => false end)) in E.
    vm_compute in E. discriminate.
Defined.

(** Deleting a file and committing it again counts its blob twice. *)
Theorem revert_counts_twice :
  b_RefCount <$> blob_rows (reg_run (demo_ops ++
     [OCommit None 2 [2] (demo_input [bs "w.bin"] ∅); OCommit None 3 [3] demo_add])) !! demo_blob = Some 2.
Proof. vm_compute. reflexivity. Qed.

(** Deleting a folder's path leaves the files below it. *)
Theorem folder_delete_keeps_files :
  let d := reg_run (demo_setup ++ [OCommit None 1 [1] (demo_input [] {[bs "dir/w.bin" := mkCF demo_blob 5]});
                                   OCommit None 2 [2] (demo_input [bs "dir"] ∅)]) in
  match LookupFile None head d (bs "r1") (bs "main") (bs "dir/w.bin") with Ok _ => true | Err _ => false end = true.
Proof. vm_compute. reflexivity. Qed.
