(* ===== verification/Upload.v ===== *)
(** * Uploads (src/internal/proxy/upload_handler.go)

    The commit retry loop, the size cap on uploaded objects, and the endpoint
    that stores one: body through the capped reader into the blob store
    (BlobStore.v), then a row in the registry (Registry.v).  JSON decoding and
    the bodies of error responses are not modelled; a response is its status. *)

From stdpp Require Import base strings numbers gmap list.
From S2P Require Import Prelude GoStd Sha256 BlobStore Registry.

Local Open Scope Z_scope.
Local Open Scope go_scope.

(** ** Commit retries *)

Definition maxAttempts : nat := 12.
Definition baseBackoff : Z := 5 * 1000000.
Definition capBackoff : Z := 250 * 1000000.

Inductive retry_error := RetryCtx | RetryErr (e : reg_error).

Definition isSerializationFailure (e : reg_error) : bool :=
  match e with RDatabase b => b | _ => false end.

(** The bound on the wait after an attempt, in nanoseconds. *)
Definition backoff (attempt : nat) : Z := Z.min (Z.shiftl baseBackoff (Z.of_nat attempt)) capBackoff.

(** The surroundings of one attempt: is the context already done, does it end
    during the wait, and the number [rand.Int64N] draws below its argument. *)
Record attempt_env := mkAttempt { ae_done : bool; ae_cancel : bool; ae_rand : Z → Z }.

(** What the loop did. *)
Record retry_trace := mkTrace { tr_calls : nat; tr_waited : Z }.

Section retry.
Context {St : Type} (commitTx : St → result reg_error CommitResult * St).

(** [todo] attempts remain, [attempt] were made, [last] is the error so far. *)
Fixpoint retry_loop (todo attempt : nat) (env : nat → attempt_env) (last : reg_error) (tr : retry_trace) (st : St)
    : result retry_error CommitResult * retry_trace * St :=
  match todo with
  | O => (Err (RetryErr last), tr, st)
  | S todo =>
      let e := env attempt in
      if ae_done e then (Err RetryCtx, tr, st)
      else
        let '(r, st) := commitTx st in
        let tr := mkTrace (S (tr_calls tr)) (tr_waited tr) in
        match r with
        | Ok x => (Ok x, tr, st)
        | Err err =>
            if negb (isSerializationFailure err) then (Err (RetryErr err), tr, st)
            else
              let wait := ae_rand e (backoff attempt) in
              let tr := mkTrace (tr_calls tr) (tr_waited tr + wait) in
              if ae_cancel e then (Err RetryCtx, tr, st)
              else retry_loop todo (S attempt) env err tr st
        end
  end.

Definition commitWithRetry (env : nat → attempt_env) (st : St) : result retry_error CommitResult * retry_trace * St :=
  retry_loop maxAttempts 0 env (RDatabase true) (mkTrace 0 0) st.
End retry.

(** ** The capped reader *)

(** A body as the blocks its reader returns; [src_eof]: the last block comes
    together with io.EOF. *)
Record source := mkSource { src_blocks : list bytes; src_eof : bool }.

(** [R.Read(p)] with [len(p) = k]: the bytes, whether the error is io.EOF. *)
Definition src_read (k : nat) (s : source) : bytes * bool * source :=
  match src_blocks s with
  | [] => ([], true, s)
  | b :: rest =>
      if (k <? length b)%nat then (take k b, false, mkSource (drop k b :: rest) (src_eof s))
      else (b, match rest with [] => src_eof s | _ => false end, mkSource rest (src_eof s))
  end.

Record lfsLimitReader := mkLimit { lr_R : source; lr_N : Z; lr_Tripped : bool }.

Definition limit_Read (plen : nat) (l : lfsLimitReader) : bytes * bool * lfsLimitReader :=
  if lr_N l <=? 0 then ([], true, mkLimit (lr_R l) (lr_N l) true)
  else
    let plen := if Z.of_nat plen >? lr_N l then Z.to_nat (lr_N l) else plen in
    let '(data, eof, r) := src_read plen (lr_R l) in
    let n := lr_N l -64 Z.of_nat (length data) in
    (data, eof, mkLimit r n (if (n <=? 0) && negb eof then true else lr_Tripped l)).

(** io.Copy's loop with its buffer of [plen] bytes; [None]: out of fuel. *)
Fixpoint copy_loop (fuel plen : nat) (l : lfsLimitReader) : option (list bytes * lfsLimitReader) :=
  match fuel with
  | O => None
  | S fuel =>
      let '(data, eof, l) := limit_Read plen l in
      if eof then Some ([data], l)
      else match copy_loop fuel plen l with
           | Some (chunks, l) => Some (data :: chunks, l)
           | None => None
           end
  end.

Definition defaultLFSMaxBytes : Z := 200 * 1024 * 1024 * 1024.

Definition lfsMaxBytes (configured : Z) : Z := if configured >? 0 then configured else defaultLFSMaxBytes.

Definition copyBuffer : nat := 32 * 1024.

(** Enough for every read to return a byte or finish a block. *)
Definition copy_fuel (s : source) : nat := S (S (length (concat (src_blocks s)) + length (src_blocks s))).

(** The body as the blob store receives it, and the flag afterwards. *)
Definition capped_body (maxBytes : Z) (plen : nat) (s : source) : option (list bytes * bool) :=
  match copy_loop (copy_fuel s) plen (mkLimit s (maxBytes +64 1) false) with
  | Some (chunks, l) => Some (chunks, lr_Tripped l)
  | None => None
  end.

(** ** Storing an object *)

Definition put_options (oid : bytes) (contentLength : Z) : PutOptions :=
  mkPutOpts oid (if contentLength >? 0 then contentLength else 0).

(** The status for the outcome of [Put]; [None]: go on to the registry.
    [cancelled]: the error is the context's. *)
Definition put_status (tripped cancelled : bool) (r : result blob_error BlobStat) : option Z :=
  match r with
  | Err e =>
      Some (if tripped then 413
            else match e with
                 | ErrOIDMismatch | ErrSizeMismatch => 422
                 | _ => if cancelled then 504 else 500
                 end)
  | Ok _ => if tripped then Some 413 else None
  end.

(** The checks before [Put]: the object's name, or the status. *)
Definition lfs_request (configured : Z) (method path : bytes) (contentLength : Z) : result Z bytes :=
  if negb (beq method (bs "PUT")) then Err 405
  else
    let oid := TrimPrefix path (bs "/lfs-storage/") in
    if beq oid [] || bool_decide (47 ∈ oid) then Err 400
    else if contentLength >? lfsMaxBytes configured then Err 413
    else Ok oid.

(** After [Put]. *)
Definition lfs_finish (fault : option bool) (d : reg) (tripped cancelled : bool) (r : result blob_error BlobStat) : Z * reg :=
  match put_status tripped cancelled r, r with
  | Some code, _ => (code, d)
  | None, Ok st =>
      match UpsertBlob fault d (st_OID st) (st_Size st) (st_StorageURL st) with
      | (Ok _, d) => (200, d)
      | (Err _, d) => (500, d)
      end
  | None, Err _ => (500, d)
  end.

(** ** Small helpers *)

Definition lfsThreshold : Z := 10 * 1024 * 1024.

Definition lfs_extensions : list bytes :=
  [bs ".safetensors"; bs ".gguf"; bs ".onnx"; bs ".pth"; bs ".pt"; bs ".bin";
   bs ".ckpt"; bs ".tar"; bs ".zip"; bs ".7z"; bs ".msgpack"; bs ".npz"].

Section names.
Context `{GoUnicode}.

Definition hasLFSExtension (path : bytes) : bool := existsb (HasSuffix (ToLower path)) lfs_extensions.

(** Upload mode, and whether the client is told to skip the file. *)
Definition preupload_file (current : gmap bytes tree_file) (path : bytes) (size : Z) : bool * bool :=
  ((size >? lfsThreshold) || hasLFSExtension path,
   match current !! path with Some f => tf_Size f =? size | None => false end).

Definition repoTypePlural (t : bytes) : option bytes :=
  let t := ToLower t in
  if bool_decide (t ∈ [bs "model"; bs "models"]) then Some (bs "models")
  else if bool_decide (t ∈ [bs "dataset"; bs "datasets"]) then Some (bs "datasets")
  else if bool_decide (t ∈ [bs "space"; bs "spaces"]) then Some (bs "spaces")
  else None.
End names.

Definition splitRepoName (name org : bytes) : bytes * bytes :=
  match IndexByte name 47 with
  | Some (S i) => (take (S i) name, drop (S (S i)) name)
  | _ => if beq org [] then ([], []) else (org, name)
  end.

(** ** The retry loop *)

Definition rand_ok (env : nat → attempt_env) : Prop := ∀ k n, 0 < n → 0 ≤ ae_rand (env k) n < n.

Fixpoint wait_bound (todo attempt : nat) : Z :=
  match todo with O => 0 | S todo => backoff attempt + wait_bound todo (S attempt) end.

Lemma backoff_pos k : 0 < backoff k.
Proof.
  unfold backoff, baseBackoff, capBackoff. rewrite Z.shiftl_mul_pow2 by lia.
  pose proof (Z.pow_pos_nonneg 2 (Z.of_nat k)). lia.
Qed.

Lemma wait_bound_nonneg todo attempt : 0 ≤ wait_bound todo attempt.
Proof. revert attempt. induction todo as [|todo IH]; intros k; cbn; [lia|]. pose proof (backoff_pos k). pose proof (IH (S k)). lia. Qed.

Lemma total_wait : wait_bound maxAttempts 0 = 1815000000.
Proof. vm_compute. reflexivity. Qed.

Lemma retry_loop_bound {St} (commitTx : St → result reg_error CommitResult * St) todo attempt env last tr st r tr' st' :
  rand_ok env → retry_loop commitTx todo attempt env last tr st = (r, tr', st') →
  (tr_calls tr' ≤ tr_calls tr + todo)%nat ∧ tr_waited tr ≤ tr_waited tr' ≤ tr_waited tr + wait_bound todo attempt.
Proof.
  intros Hr. revert attempt last tr st. induction todo as [|todo IH]; intros k last tr st H; cbn in H.
  { simplify_eq. cbn. lia. }
  pose proof (backoff_pos k) as Hb. pose proof (Hr k _ Hb) as Hw. pose proof (wait_bound_nonneg todo (S k)) as Hn.
  cbn [wait_bound]. destruct (ae_done (env k)); [simplify_eq; lia|].
  destruct (commitTx st) as [[x|e] st1]; [simplify_eq; cbn; lia|].
  destruct (isSerializationFailure e); cbn [negb] in H; [|simplify_eq; cbn; lia].
  destruct (ae_cancel (env k)); [simplify_eq; cbn; lia|]. apply IH in H. cbn in H. lia.
Qed.

(** Commits against the registry; the k-th attempt meets [fault k]. *)
Definition attempt_commit (fault : nat → option bool) (now : nat → Z) (nonce : nat → bytes) (i : CommitInput)
    (st : reg * nat) : result reg_error CommitResult * (reg * nat) :=
  let '(r, d) := CommitTx (fault st.2) (now st.2) (nonce st.2) st.1 i in (r, (d, S st.2)).

Lemma retry_loop_once fault now nonce i todo attempt env last tr d k r tr' d' k' :
  retry_loop (attempt_commit fault now nonce i) todo attempt env last tr (d, k) = (r, tr', (d', k')) →
  match r with
  | Ok x => ∃ j, (k ≤ j < k + todo)%nat ∧ CommitTx (fault j) (now j) (nonce j) d i = (Ok x, d')
  | Err _ => d' = d
  end.
Proof.
  revert attempt last tr k. induction todo as [|todo IH]; intros a last tr k H; cbn in H; [by simplify_eq|].
  destruct (ae_done (env a)); [by simplify_eq|].
  unfold attempt_commit in H at 1. cbn [fst snd] in H.
  destruct (CommitTx (fault k) (now k) (nonce k) d i) as [[x|e] d1] eqn:E.
  { simplify_eq. exists k. split; [lia|done]. }
  apply CommitTx_err in E as ->.
  destruct (isSerializationFailure e); cbn [negb] in H; [|by simplify_eq].
  destruct (ae_cancel (env a)); [by simplify_eq|]. apply IH in H. destruct r; [|done].
  destruct H as (j & Hj & Hc). exists j. split; [lia|done].
Qed.

(** ** The capped reader *)

Definition src_all (s : source) : bytes := concat (src_blocks s).

Definition src_measure (s : source) : nat := length (src_all s) + length (src_blocks s).

Lemma src_read_spec k s data eof s' :
  (0 < k)%nat → src_read k s = (data, eof, s') →
  src_all s = data ++ src_all s' ∧ (length data ≤ k)%nat ∧ src_eof s' = src_eof s ∧
  (eof = false → (src_measure s' < src_measure s)%nat) ∧
  (eof = true → src_all s' = [] ∧ (src_eof s = false → data = [])).
Proof.
  unfold src_read, src_measure, src_all. intros Hk H. destruct s as [[|b rest] e]; cbn [src_blocks src_eof] in *.
  { simplify_eq. cbn. split_and!; (done || lia). }
  destruct (k <? length b)%nat eqn:Hlt.
  - apply Nat.ltb_lt in Hlt. simplify_eq. cbn [concat src_blocks src_eof].
    rewrite !length_app, length_drop, length_take. cbn [length].
    split_and!; [by rewrite app_assoc, take_drop|lia|done|lia|done].
  - apply Nat.ltb_ge in Hlt. simplify_eq. cbn [concat src_blocks src_eof]. rewrite length_app. cbn [length].
    split_and!; [done|lia|done|lia|]. intros Ht. destruct rest; [|done]. split; [done|]. cbn in Ht. congruence.
Qed.

Record copied (s : source) (N : Z) (tripped : bool) (chunks : list bytes) (tripped' : bool) : Prop := mkCopied {
  cp_data : concat chunks = take (Z.to_nat N) (src_all s);
  cp_over : N < Z.of_nat (length (src_all s)) → tripped' = true;
  cp_under : Z.of_nat (length (src_all s)) < N → tripped' = tripped;
  cp_equal : Z.of_nat (length (src_all s)) = N → src_eof s = false → tripped' = true;
}.

Lemma copy_loop_spec fuel plen l :
  (0 < plen)%nat → 0 ≤ lr_N l < 2 ^ 63 → (src_measure (lr_R l) < fuel)%nat →
  ∃ chunks l', copy_loop fuel plen l = Some (chunks, l') ∧
    copied (lr_R l) (lr_N l) (lr_Tripped l) chunks (lr_Tripped l').
Proof.
  intros Hp. revert l. induction fuel as [|fuel IH]; intros [s N tr] HN Hf; cbn in HN, Hf; [lia|].
  cbn [copy_loop]. unfold limit_Read. cbn [lr_N lr_R lr_Tripped]. destruct (N <=? 0) eqn:H0.
  { eexists _, _. split; [done|]. assert (N = 0) as -> by lia. cbn. split; (done || lia). }
  set (k := if Z.of_nat plen >? N then Z.to_nat N else plen).
  assert (Hk : (0 < k)%nat ∧ Z.of_nat k ≤ N) by (subst k; case_match; lia). clearbody k.
  destruct (src_read k s) as [[data eof] s'] eqn:Hr.
  destruct (src_read_spec k s data eof s' (proj1 Hk) Hr) as (Hall & Hlen & He & Hdec & Heof).
  rewrite wrap64_id by zlia.
  set (n := N - Z.of_nat (length data)). assert (Hn : 0 ≤ n) by lia.
  assert (Hl : length (src_all s) = (length data + length (src_all s'))%nat) by (rewrite Hall; apply length_app).
  destruct eof.
  - destruct (Heof eq_refl) as [Hnil Hd]. eexists _, _. split; [done|]. cbn [lr_R lr_N lr_Tripped negb]. rewrite andb_false_r.
    rewrite Hnil, app_nil_r in Hall. rewrite Hnil in Hl. cbn in Hl.
    split; [cbn; rewrite app_nil_r, take_ge; [done|lia]|lia|done|]. intros Heq Hne. rewrite (Hd Hne) in Hl. cbn in Hl. lia.
  - destruct (IH (mkLimit s' n (if (n <=? 0) && true then true else tr))) as (chunks & l' & Hc & [H1 H2 H3 H4]);
      [cbn; lia|cbn; specialize (Hdec eq_refl); lia|]. cbn [negb]. rewrite Hc.
    eexists _, _. split; [done|]. cbn [lr_R lr_N lr_Tripped concat] in *. split.
    + cbn [concat]. rewrite H1, Hall, take_app. f_equal; [by rewrite take_ge by lia|]. f_equal. lia.
    + intros H. apply H2. lia.
    + intros H. rewrite H3 by lia. destruct (n <=? 0) eqn:E; [lia|done].
    + intros H Hne. apply H4; [lia|by rewrite He].
Qed.

Lemma capped_body_spec maxBytes plen s :
  (0 < plen)%nat → 0 ≤ maxBytes < 2 ^ 63 - 1 →
  ∃ chunks tripped, capped_body maxBytes plen s = Some (chunks, tripped) ∧
    copied s (maxBytes + 1) false chunks tripped.
Proof.
  intros Hp Hm. unfold capped_body. rewrite wrap64_id by zlia.
  destruct (copy_loop_spec (copy_fuel s) plen (mkLimit s (maxBytes + 1) false)) as (chunks & l' & -> & H);
    [done|cbn; lia|unfold copy_fuel, src_measure, src_all; cbn; lia|]. by exists chunks, (lr_Tripped l').
Qed.

(** ** Theorems *)

(** a commit makes at most twelve attempts and its waits add up to less
    than 1.815 seconds, whatever the database answers. *)
Theorem commitWithRetry_bounded {St} (commitTx : St → result reg_error CommitResult * St) env st r tr st' :
  rand_ok env → commitWithRetry commitTx env st = (r, tr, st') →
  (tr_calls tr ≤ 12)%nat ∧ 0 ≤ tr_waited tr ≤ 1815000000.
Proof.
  unfold commitWithRetry. intros Hr H. apply retry_loop_bound in H as [H1 H2]; [|done].
  rewrite total_wait in H2. split; [exact H1|exact H2].
Qed.


(** the capped copy always ends; a body within the cap passes whole and
    unflagged, one beyond the cap is flagged, except that a body one byte over
    it passes whole when its reader returns the last bytes together with the
    end of the stream. *)
Theorem capped_body_exact maxBytes plen s :
  (0 < plen)%nat → 0 ≤ maxBytes < 2 ^ 63 - 1 →
  ∃ chunks tripped, capped_body maxBytes plen s = Some (chunks, tripped) ∧
    Z.of_nat (length (concat chunks)) ≤ maxBytes + 1 ∧
    (Z.of_nat (length (src_all s)) ≤ maxBytes → tripped = false) ∧
    (tripped = false → concat chunks = src_all s ∧
       (Z.of_nat (length (src_all s)) ≤ maxBytes ∨
        (Z.of_nat (length (src_all s)) = maxBytes + 1 ∧ src_eof s = true))).
Proof.
  intros Hp Hm. destruct (capped_body_spec maxBytes plen s Hp Hm) as (chunks & tr & -> & [H1 H2 H3 H4]).
  exists chunks, tr. split; [done|]. rewrite H1, length_take. split_and!; [lia|intros; apply H3; lia|].
  intros ->. assert (Hle : Z.of_nat (length (src_all s)) ≤ maxBytes + 1).
  { destruct (decide (maxBytes + 1 < Z.of_nat (length (src_all s)))) as [Hlt|]; [by specialize (H2 Hlt)|lia]. }
  split; [rewrite take_ge; [done|lia]|].
  destruct (decide (Z.of_nat (length (src_all s)) = maxBytes + 1)) as [Heq|]; [right|left; lia].
  split; [done|]. destruct (src_eof s) eqn:E; [done|]. by specialize (H4 Heq eq_refl).
Qed.

(** An object's digest is one path segment. *)
Lemma lfs_request_oid configured f cl :
  cl ≤ lfsMaxBytes configured →
  lfs_request configured (bs "PUT") (bs "/lfs-storage/" ++ oid_of f) cl = Ok (oid_of f).
Proof.
  intros Hcl. unfold lfs_request. rewrite beq_refl, TrimPrefix_app. cbn [negb].
  pose proof (oid_of_valid f) as Hv. unfold validOID in Hv. apply andb_prop in Hv as [Hl Hx].
  rewrite (proj2 (beq_false (oid_of f) [])); [|by destruct (oid_of f)].
  rewrite bool_decide_false.
  - cbn [orb]. destruct (cl >? lfsMaxBytes configured) eqn:E; [lia|done].
  - intros H%list_elem_of_In. rewrite forallb_forall in Hx. by specialize (Hx 47 H).
Qed.

Lemma UpsertBlob_row d o n url :
  isHexN o 64 = true → 0 ≤ n →
  ∃ d', UpsertBlob None d o n url = (Ok tt, d') ∧ is_Some (blob_rows d' !! o).
Proof.
  intros Hv Hn. unfold UpsertBlob. rewrite Hv. cbn [negb]. destruct (n <? 0) eqn:E; [lia|].
  destruct (blob_rows d !! o) eqn:Eo; eexists; (split; [done|]); cbn; rewrite ?Eo, ?lookup_insert_eq; eauto.
Qed.

(** a PUT of a body within the cap under its digest passes the checks and
    the capped copy whole, is stored, and is registered: the answer is 200, the
    digest opens to bytes with that digest, the body itself when it was new,
    and the registry has its row. *)
Theorem lfs_upload_stored blobDir acts bd t n d configured cl plen s cancelled :
  prun blobDir empty_blobs acts = Some bd → puts bd !! t = None → tmps bd !! n = None →
  (0 < plen)%nat → lfsMaxBytes configured < 2 ^ 63 - 1 →
  size_of (src_all s) ≤ lfsMaxBytes configured → (cl ≤ 0 ∨ cl = size_of (src_all s)) →
  let oid := oid_of (src_all s) in
  lfs_request configured (bs "PUT") (bs "/lfs-storage/" ++ oid) cl = Ok oid ∧
  ∃ chunks bd' st f d', capped_body (lfsMaxBytes configured) plen s = Some (chunks, false) ∧
    prun blobDir bd (upload t n (put_options oid cl) chunks ++ publish blobDir bd t oid) = Some bd' ∧
    puts bd' !! t = Some (PDone (Ok st)) ∧
    lfs_finish None d false cancelled (Ok st) = (200, d') ∧ is_Some (blob_rows d' !! oid) ∧
    Open blobDir bd' oid false false = Ok (f, blob_stat blobDir oid (size_of f)) ∧ oid_of f = oid ∧
    (blobs bd !! path blobDir oid = None → f = src_all s).
Proof.
  intros Hr Ht Hn Hp Hm Hsz Hcl oid. assert (0 ≤ size_of (src_all s)) as Hpos by (unfold size_of; lia).
  split; [apply lfs_request_oid; lia|].
  destruct (capped_body_spec (lfsMaxBytes configured) plen s Hp) as (chunks & tr & Hc & [H1 _ H3 _]); [lia|].
  unfold size_of in Hsz. rewrite H3 in Hc by lia. rewrite take_ge in H1 by lia.
  destruct (put_publishes blobDir bd t n (put_options oid cl) chunks) as (bd' & f & G1 & G2 & _ & G3 & G4 & G5);
    [by eapply prun_inv, Hr; apply empty_inv|done|done|right; by rewrite H1| |].
  { rewrite H1. cbn. destruct (cl >? 0) eqn:E; [right; lia|by left]. }
  rewrite H1 in *. fold oid in G1, G2, G3, G4, G5.
  destruct (UpsertBlob_row d oid (size_of (src_all s)) (storageURL blobDir oid)) as (d' & Hu & Hrow);
    [apply oid_of_valid|done|].
  exists chunks, bd', (blob_stat blobDir oid (size_of (src_all s))), f, d'. split_and!; try done.
  unfold lfs_finish, put_status. cbn [st_OID st_Size st_StorageURL blob_stat]. by rewrite Hu.
Qed.

(** ** Boundary behaviour *)

(** One byte over the cap is accepted from a reader that returns its last bytes
    with io.EOF, and flagged from one that does not. *)
Theorem cap_off_by_one :
  capped_body 3 8 (mkSource [bs "abcd"] true) = Some ([bs "abcd"], false) ∧
  capped_body 3 8 (mkSource [bs "abcd"] false) = Some ([bs "abcd"; []], true).
Proof. vm_compute. split; reflexivity. Qed.

(** With the largest cap the limit wraps around and every body is flagged. *)
Theorem cap_overflow : capped_body (2 ^ 63 - 1) 8 (mkSource [bs "a"] false) = Some ([[]], true).
Proof. vm_compute. reflexivity. Qed.

(** ** Witnesses *)

Definition demo_env (k : nat) : attempt_env := mkAttempt false false (fun n => n - 1).

Definition demo_fault (k : nat) : option bool := if (k <? 2)%nat then Some true else None.

Lemma demo_rand : rand_ok demo_env.
Proof. intros k n Hn. cbn. lia. Qed.

Lemma commitWithRetry_bounded_witness :
  ∃ r tr st, commitWithRetry (attempt_commit demo_fault Z.of_nat (fun _ => [1]) demo_add) demo_env
               (reg_run demo_setup, 0%nat) = (r, tr, st) ∧
             (tr_calls tr ≤ 12)%nat ∧ 0 ≤ tr_waited tr ≤ 1815000000.
Proof.
  destruct (commitWithRetry _ _ _) as [[r tr] st] eqn:E. exists r, tr, st. split; [reflexivity|].
  exact (commitWithRetry_bounded _ _ _ _ _ _ demo_rand E).
Defined.


Lemma capped_body_exact_witness :
  ∃ chunks tripped, capped_body 3 2 (mkSource [bs "ab"; bs "c"] false) = Some (chunks, tripped) ∧ tripped = false.
Proof.
  destruct (capped_body_exact 3 2 (mkSource [bs "ab"; bs "c"] false)) as (chunks & tr & H & _ & Hle & _); [lia|lia|].
  exists chunks, tr. split; [exact H|]. apply Hle. vm_compute. discriminate.
Defined.

Lemma lfs_upload_stored_witness :
  lfs_request 100 (bs "PUT") (bs "/lfs-storage/" ++ oid_of (bs "abc")) 3 = Ok (oid_of (bs "abc")).
Proof.
  refine (proj1 (lfs_upload_stored (bs "b") [] empty_blobs 0 0 empty_reg 100 3 8
                   (mkSource [bs "ab"; bs "c"] false) false _ _ _ _ _ _ _));
    [reflexivity|apply lookup_empty|apply lookup_empty|lia|vm_compute; reflexivity|vm_compute; discriminate|
     right; vm_compute; reflexivity].
Defined.
