(* ===== verification/CommitBody.v ===== *)
(** * Commit bodies (src/internal/proxy/upload_handler.go, parseCommitNDJSON)

    A commit arrives as one JSON object per line.  Line splitting
    (bufio.Scanner), the size cap (http.MaxBytesReader) and base64
    (encoding/base64) are modelled; the decoding of one line is an argument. *)

From stdpp Require Import base strings numbers gmap list.
From S2P Require Import Prelude GoStd Registry.

Local Open Scope Z_scope.

(** ** base64.StdEncoding *)

Definition b64_value (c : Z) : option Z :=
  if (65 <=? c) && (c <=? 90) then Some (c - 65)
  else if (97 <=? c) && (c <=? 122) then Some (c - 71)
  else if (48 <=? c) && (c <=? 57) then Some (c + 4)
  else if c =? 43 then Some 62
  else if c =? 47 then Some 63
  else None.

Definition b64_pad : Z := 61.

(** Groups of four characters; padding ends the input. *)
Fixpoint b64_groups (s : bytes) : option bytes :=
  match s with
  | [] => Some []
  | a :: b :: c :: d :: s' =>
      match b64_value a, b64_value b with
      | Some va, Some vb =>
          let b0 := (va * 4 + vb / 16) mod 256 in
          match b64_value c with
          | Some vc =>
              let b1 := (vb * 16 + vc / 4) mod 256 in
              match b64_value d with
              | Some vd =>
                  match b64_groups s' with
                  | Some r => Some (b0 :: b1 :: (vc * 64 + vd) mod 256 :: r)
                  | None => None
                  end
              | None => if (d =? b64_pad) && beq s' [] then Some [b0; b1] else None
              end
          | None => if (c =? b64_pad) && (d =? b64_pad) && beq s' [] then Some [b0] else None
          end
      | _, _ => None
      end
  | _ => None
  end.

(** Line breaks are skipped anywhere in the input. *)
Definition DecodeString (s : bytes) : option bytes :=
  b64_groups (filter (fun c => c ≠ 10 ∧ c ≠ 13) s).

(** ** Lines *)

(** bufio.ScanLines: lines without their end, a final carriage return dropped;
    bytes after the last newline are a line if there are any. *)
Definition drop_cr (l : bytes) : bytes := match reverse l with 13 :: r => reverse r | _ => l end.

Definition scan_lines (body : bytes) : list bytes :=
  let ls := Split body 10 in
  drop_cr <$> (match reverse ls with [] :: r => reverse r | _ => ls end).

(** ** Entries *)

Record commit_file := mkCommitFile { v_Path : bytes; v_Encoding : bytes; v_Content : bytes }.

(** A decoded line; [EBad]: the value does not decode for its key. *)
Inductive envelope :=
| EHeader (summary description : bytes)
| EFile (f : commit_file)
| ELfsFile (path oid : bytes) (size : Z)
| EDeleted (path : bytes)                (* deletedFile and deletedFolder *)
| EBad
| EOther.

Record commit_body := mkBody {
  cb_summary : bytes; cb_description : bytes; cb_inline : gmap bytes bytes;
  cb_lfs : gmap bytes CommitFile; cb_deletes : list bytes;
}.

Definition empty_body : commit_body := mkBody [] [] ∅ ∅ [].

Inductive body_error := BodyTooLarge | BadCommit.

Definition decode_content (f : commit_file) : option bytes :=
  if beq (v_Encoding f) [] || beq (v_Encoding f) (bs "utf-8") then Some (v_Content f)
  else if beq (v_Encoding f) (bs "base64") then DecodeString (v_Content f)
  else None.

Definition apply_entry (e : envelope) (b : commit_body) : option commit_body :=
  let '(mkBody s d files lfs del) := b in
  match e with
  | EHeader s d => Some (mkBody s d files lfs del)
  | EFile f =>
      match decode_content f with
      | Some c => Some (mkBody s d (<[v_Path f := c]> files) lfs del)
      | None => None
      end
  | ELfsFile p oid size => Some (mkBody s d files (<[p := mkCF oid size]> lfs) del)
  | EDeleted p => Some (mkBody s d files lfs (del ++ [p]))
  | EBad => None
  | EOther => Some b
  end.

Section Parse.
(** The JSON decoder for one line; [None]: not an envelope. *)
Context (decode : bytes → option envelope).

(** [ok] lines are read before the reader's error, if it has one, is seen. *)
Fixpoint parse_lines (lines : list bytes) (ok : option nat) (b : commit_body) : result body_error commit_body :=
  match lines with
  | [] => match ok with Some _ => Err BodyTooLarge | None => Ok b end
  | l :: lines =>
      match ok with
      | Some O => Err BodyTooLarge
      | _ =>
          let ok := pred <$> ok in
          let line := TrimSpace l in
          if beq line [] then parse_lines lines ok b
          else
            match decode line with
            | None => Err BadCommit
            | Some e =>
                match apply_entry e b with
                | None => Err BadCommit
                | Some b => parse_lines lines ok b
                end
            end
      end
  end.

Definition parseCommitNDJSON (body : bytes) (ok : option nat) : result body_error commit_body :=
  match parse_lines (scan_lines body) ok empty_body with
  | Err e => Err e
  | Ok b => if beq (cb_summary b) [] then Err BadCommit else Ok b
  end.

Definition defaultCommitMaxBytes : Z := 64 * 2 ^ 20.

Definition commit_cap (configured : Z) : Z := if configured =? 0 then defaultCommitMaxBytes else configured.

(** The body under its cap: at most [cap] bytes are read, then the reader's
    error; [seen] lines are handed out before the scanner reports it. *)
Definition read_commit (configured : Z) (seen : nat) (body : bytes) : result body_error commit_body :=
  let cap := commit_cap configured in
  if (cap >? 0) && (Z.of_nat (length body) >? cap)
  then parseCommitNDJSON (take (Z.to_nat cap) body) (Some seen)
  else parseCommitNDJSON body None.

End Parse.

(** ** Base64 *)

(** The encoding of RFC 4648. *)
Definition b64_char (v : Z) : Z :=
  if v <? 26 then v + 65 else if v <? 52 then v + 71 else if v <? 62 then v - 4 else if v =? 62 then 43 else 47.

Fixpoint b64_encode (s : bytes) : bytes :=
  match s with
  | [] => []
  | [a] => [b64_char (a / 4); b64_char (a mod 4 * 16); b64_pad; b64_pad]
  | [a; b] => [b64_char (a / 4); b64_char (a mod 4 * 16 + b / 16); b64_char (b mod 16 * 4); b64_pad]
  | a :: b :: c :: s =>
      b64_char (a / 4) :: b64_char (a mod 4 * 16 + b / 16) :: b64_char (b mod 16 * 4 + c / 64) :: b64_char (c mod 64)
      :: b64_encode s
  end.

Lemma b64_value_char v : 0 ≤ v < 64 → b64_value (b64_char v) = Some v.
Proof.
  intros Hv. unfold b64_char, b64_value.
  destruct (v <? 26) eqn:E1; [rewrite (proj2 (andb_true_iff _ _)) by lia; f_equal; lia|].
  destruct (v <? 52) eqn:E2; [replace ((65 <=? v + 71) && (v + 71 <=? 90)) with false by lia;
    rewrite (proj2 (andb_true_iff _ _)) by lia; f_equal; lia|].
  destruct (v <? 62) eqn:E3; [replace ((65 <=? v - 4) && (v - 4 <=? 90)) with false by lia;
    replace ((97 <=? v - 4) && (v - 4 <=? 122)) with false by lia; rewrite (proj2 (andb_true_iff _ _)) by lia; f_equal; lia|].
  destruct (v =? 62) eqn:E4; cbn; f_equal; lia.
Qed.

Lemma b64_char_visible v : 0 ≤ v < 64 → b64_char v ≠ 10 ∧ b64_char v ≠ 13.
Proof. intros. unfold b64_char. repeat case_match; lia. Qed.

Lemma list_ind3 {A} (P : list A → Prop) :
  P [] → (∀ a, P [a]) → (∀ a b, P [a; b]) → (∀ a b c l, P l → P (a :: b :: c :: l)) → ∀ l, P l.
Proof.
  intros H0 H1 H2 H3 l. induction l as [l IH] using (induction_ltof1 _ length). unfold ltof in IH.
  destruct l as [|a [|b [|c l]]]; auto. apply H3, IH. cbn. lia.
Qed.

Lemma b64_parts a b :
  0 ≤ a < 256 → 0 ≤ b < 256 →
  0 ≤ a / 4 < 64 ∧ 0 ≤ a mod 4 * 16 + b / 16 < 64 ∧ 0 ≤ b mod 16 * 4 + 0 < 64 ∧ 0 ≤ a mod 4 * 16 < 64 ∧
  (a / 4 * 4 + (a mod 4 * 16 + b / 16) / 16) mod 256 = a.
Proof. intros. split_and!; Z.to_euclidean_division_equations; lia. Qed.

Lemma b64_parts' a b c :
  0 ≤ a < 256 → 0 ≤ b < 256 → 0 ≤ c < 256 →
  0 ≤ b mod 16 * 4 + c / 64 < 64 ∧ 0 ≤ c mod 64 < 64 ∧
  ((a mod 4 * 16 + b / 16) * 16 + (b mod 16 * 4 + c / 64) / 4) mod 256 = b ∧
  ((b mod 16 * 4 + c / 64) * 64 + c mod 64) mod 256 = c.
Proof. intros. split_and!; Z.to_euclidean_division_equations; lia. Qed.

Lemma b64_groups_encode s : Forall is_byte s → b64_groups (b64_encode s) = Some s.
Proof.
  unfold is_byte. induction s as [|a|a b|a b c s IH] using list_ind3; intros Hs; [done|..];
    apply Forall_cons in Hs as [Ha Hs].
  - destruct (b64_parts a 0) as (H1 & _ & _ & H2 & H3); [lia|lia|].
    change (0 / 16) with 0 in H3. rewrite Z.add_0_r in H3. cbn [b64_encode b64_groups].
    rewrite (b64_value_char (a / 4)), (b64_value_char (a mod 4 * 16)), H3 by lia. done.
  - apply Forall_cons in Hs as [Hb _]. destruct (b64_parts a b) as (H1 & H2 & _ & _ & H3); [lia|lia|].
    destruct (b64_parts' a b 0) as (H4 & _ & H5 & _); [lia|lia|lia|].
    change (0 / 64) with 0 in H4, H5. rewrite Z.add_0_r in H4, H5. cbn [b64_encode b64_groups].
    rewrite !b64_value_char, H3, H5 by lia. done.
  - apply Forall_cons in Hs as [Hb Hs]. apply Forall_cons in Hs as [Hc Hs].
    destruct (b64_parts a b) as (H1 & H2 & _ & _ & H3); [lia|lia|].
    destruct (b64_parts' a b c) as (H4 & H5 & H6 & H7); [lia|lia|lia|]. cbn [b64_encode b64_groups].
    rewrite !b64_value_char, IH, H3, H6, H7 by (lia || done). done.
Qed.

Lemma b64_encode_plain s : Forall is_byte s → Forall (fun c => c ≠ 10 ∧ c ≠ 13) (b64_encode s).
Proof.
  unfold is_byte. induction s as [|a|a b|a b c s IH] using list_ind3; intros Hs; [done|..];
    apply Forall_cons in Hs as [Ha Hs].
  - destruct (b64_parts a 0) as (H1 & _ & _ & H2 & _); [lia|lia|].
    repeat (apply Forall_cons; split); try done; try (apply b64_char_visible; lia).
  - apply Forall_cons in Hs as [Hb _]. destruct (b64_parts a b) as (H1 & H2 & _ & _ & _); [lia|lia|].
    destruct (b64_parts' a b 0) as (H4 & _); [lia|lia|lia|]. change (0 / 64) with 0 in H4. rewrite Z.add_0_r in H4.
    repeat (apply Forall_cons; split); try done; try (apply b64_char_visible; lia).
  - apply Forall_cons in Hs as [Hb Hs]. apply Forall_cons in Hs as [Hc Hs].
    destruct (b64_parts a b) as (H1 & H2 & _); [lia|lia|]. destruct (b64_parts' a b c) as (H4 & H5 & _); [lia|lia|lia|].
    cbn [b64_encode]. do 4 (apply Forall_cons; split; [apply b64_char_visible; lia|]). by apply IH.
Qed.

Lemma filter_all {A} (P : A → Prop) `{∀ x, Decision (P x)} l : Forall P l → filter P l = l.
Proof. induction 1 as [|x l Hx _ IH]; [done|]. by rewrite filter_cons, decide_True, IH. Qed.

(** Content sent in base64 is decoded to what was encoded. *)
Lemma DecodeString_encode s : Forall is_byte s → DecodeString (b64_encode s) = Some s.
Proof.
  intros Hs. unfold DecodeString. rewrite filter_all by (by apply b64_encode_plain). by apply b64_groups_encode.
Qed.

(** Line breaks do not matter, wrong padding and stray characters do. *)
Lemma DecodeString_samples :
  DecodeString (bs "aGVs" ++ [13; 10] ++ bs "bG8=" ++ [10]) = Some (bs "hello") ∧
  DecodeString (bs "aGVsbG8") = None ∧ DecodeString (bs "aGVsbG8=x") = None ∧ DecodeString (bs "a===") = None ∧
  DecodeString (bs "aG=s") = None ∧ DecodeString [] = Some [].
Proof. vm_compute. by split_and!. Qed.

(** ** Bodies *)

Fixpoint apply_entries (es : list envelope) (b : commit_body) : option commit_body :=
  match es with
  | [] => Some b
  | e :: es => match apply_entry e b with Some b => apply_entries es b | None => None end
  end.

Definition line_ok (l : bytes) : Prop := l ≠ [] ∧ 10 ∉ l ∧ 13 ∉ l ∧ TrimSpace l = l.

Lemma drop_cr_id l : 13 ∉ l → drop_cr l = l.
Proof.
  intros Hl. unfold drop_cr. destruct (reverse l) as [|c r] eqn:Hr; [done|].
  destruct (decide (c = 13)) as [->|Hne]; [|by repeat case_match].
  destruct Hl. rewrite <-(reverse_involutive l), Hr, reverse_cons. apply elem_of_app. right. by apply list_elem_of_singleton.
Qed.

Lemma scan_lines_join ls : ls ≠ [] → Forall line_ok ls → scan_lines (Join ls [10]) = ls.
Proof.
  intros Hne Hall. unfold scan_lines. rewrite Split_Join; [|done|eapply Forall_impl; [exact Hall|by intros ? (_ & ? & _)]].
  assert (match reverse ls with [] :: r => reverse r | _ => ls end = ls) as ->.
  { destruct (reverse ls) as [|[|c l] r] eqn:Hr; try done. exfalso.
    assert ([] ∈ ls) as Hin. { apply elem_of_reverse. rewrite Hr. apply list_elem_of_here. }
    rewrite Forall_forall in Hall. by destruct (Hall _ Hin). }
  clear Hne. induction Hall as [|l ls (_ & _ & Hl & _) _ IH]; [done|]. cbn [fmap list_fmap].
  rewrite (drop_cr_id l Hl). f_equal. exact IH.
Qed.

Lemma parse_lines_exact decode enc es b :
  Forall (fun e => line_ok (enc e) ∧ decode (enc e) = Some e) es →
  parse_lines decode (enc <$> es) None b =
  match apply_entries es b with Some b' => Ok b' | None => Err BadCommit end.
Proof.
  intros Hall. revert b. induction Hall as [|e es ((Hne & _ & _ & Ht) & Hd) _ IH]; intros b; [done|].
  cbn [fmap list_fmap parse_lines apply_entries option_map]. rewrite Ht, (proj2 (beq_false _ _) Hne), Hd.
  destruct (apply_entry e b); [apply IH|done].
Qed.

Lemma parse_lines_capped decode ls k b : ∃ e, parse_lines decode ls (Some k) b = Err e.
Proof.
  revert k b. induction ls as [|l ls IH]; intros k b; cbn [parse_lines]; [eauto|].
  destruct k as [|k]; [eauto|]. cbn [fmap option_fmap option_map pred].
  destruct (beq _ _); [apply IH|]. destruct (decode _) as [e|]; [|eauto]. destruct (apply_entry e b); [apply IH|eauto].
Qed.

(** a commit body is read exactly: a body of one line per entry, within the
    cap, is the entries applied in order (a repeated path keeps its last
    content, deletions accumulate), and is refused exactly when an entry does
    not decode or there is no summary.  A body over the cap is never accepted. *)
Theorem commit_body_exact decode enc es configured seen :
  es ≠ [] → Forall (fun e => line_ok (enc e) ∧ decode (enc e) = Some e) es →
  let body := Join (enc <$> es) [10] in
  (commit_cap configured ≤ 0 ∨ Z.of_nat (length body) ≤ commit_cap configured →
   read_commit decode configured seen body =
   match apply_entries es empty_body with
   | Some b => if beq (cb_summary b) [] then Err BadCommit else Ok b
   | None => Err BadCommit
   end) ∧
  (∀ body', 0 < commit_cap configured < Z.of_nat (length body') →
   ∃ e, read_commit decode configured seen body' = Err e).
Proof.
  intros Hne Hall body. split.
  - intros Hcap. unfold read_commit. cbv zeta. fold body. replace ((_ >? 0) && _) with false by (destruct Hcap; lia).
    unfold parseCommitNDJSON, body. rewrite scan_lines_join; [|by destruct es|].
    + rewrite (parse_lines_exact decode enc es) by done. by destruct (apply_entries es empty_body).
    + apply Forall_fmap. eapply Forall_impl; [exact Hall|]. by intros ? [? _].
  - intros body' Hcap. unfold read_commit. cbv zeta. replace ((_ >? 0) && _) with true by lia.
    unfold parseCommitNDJSON. destruct (parse_lines_capped decode (scan_lines (take (Z.to_nat (commit_cap configured)) body')) seen empty_body) as [e ->].
    eauto.
Qed.

(** Two entries, told apart by their first byte. *)
Definition demo_decode (l : bytes) : option envelope :=
  match l with
  | 104 :: s => Some (EHeader s [])
  | 102 :: s => Some (EFile (mkCommitFile (bs "f") (bs "base64") s))
  | _ => None
  end.

Definition demo_encode (e : envelope) : bytes :=
  match e with EHeader s _ => bs "h" ++ s | EFile f => bs "f" ++ v_Content f | _ => [] end.

Definition demo_entries : list envelope :=
  [EHeader (bs "sum") []; EFile (mkCommitFile (bs "f") (bs "base64") (bs "aGVsbG8="))].

Lemma commit_body_exact_witness :
  read_commit demo_decode 0 0 (bs "hsum" ++ [10] ++ bs "faGVsbG8=") =
    Ok (mkBody (bs "sum") [] {[bs "f" := bs "hello"]} ∅ []) ∧
  ∃ e, read_commit demo_decode 5 1 (bs "hsum" ++ [10] ++ bs "faGVsbG8=") = Err e.
Proof.
  assert (Forall (fun e => line_ok (demo_encode e) ∧ demo_decode (demo_encode e) = Some e) demo_entries) as Hall.
  { unfold line_ok. repeat (apply Forall_cons; split); [split; [split_and!|]..|by apply Forall_nil];
      (reflexivity || discriminate || (apply (bool_decide_unpack _); vm_compute; exact I)). }
  split.
  - apply (commit_body_exact demo_decode demo_encode demo_entries 0 0); [done|exact Hall|right; vm_compute; discriminate].
  - apply (commit_body_exact demo_decode demo_encode demo_entries 5 1); [done|exact Hall|vm_compute; done].
Defined.
