(* ===== verification/RegistryHandler.v ===== *)
(** * The registry's endpoints (src/internal/proxy/registry_handler.go,
    upload_handler.go)

    Routing of the Hub's wire protocol, the reading endpoints (model
    information, tree, paths-info, resolve), repository creation, preupload,
    commit, and the LFS batch and verify endpoints, over the registry's tables
    (Registry.v) and the blob store (BlobStore.v).  JSON bodies appear decoded:
    [None] is a body that does not decode; replies are the values that are
    encoded.  A failing query is a [fault], as in Registry.v. *)

From stdpp Require Import base strings numbers gmap sorting list.
From S2P Require Import Prelude GoStd Sha256 BlobStore Registry Upload CommitBody.

Local Open Scope Z_scope.

(** [strings.TrimRight] with a one-byte cutset. *)
Fixpoint trim_left_byte (s : bytes) (c : Z) : bytes :=
  match s with x :: s' => if x =? c then trim_left_byte s' c else s | [] => [] end.

Definition TrimRightByte (s : bytes) (c : Z) : bytes := reverse (trim_left_byte (reverse s) c).

(** ** Routing *)

Inductive route :=
| ToNext                                             (* the inner handler *)
| CreateRepoR
| ModelInfoR (repoType ns name : bytes)
| TreeR (repoType ns name rev : bytes)
| PathsInfoR (repoType ns name rev : bytes)
| PreuploadR (repoType ns name : bytes)
| CommitR (repoType ns name rev : bytes)
| LFSStorageR | LFSGitR | ResolveR.

Definition is_repo_type (t : bytes) : bool := bool_decide (t ∈ [bs "models"; bs "datasets"; bs "spaces"]).

Definition serveAPI (method path : bytes) : route :=
  if beq path (bs "/api/repos/create") && beq method (bs "POST") then CreateRepoR
  else
    match Split (TrimPrefix path (bs "/api/")) 47 with
    | repoType :: ns :: name :: rest =>
        if negb (is_repo_type repoType) then ToNext
        else
          match rest with
          | [] => if beq method (bs "GET") then ModelInfoR repoType ns name else ToNext
          | verb :: rev :: _ =>
              if beq verb (bs "tree") && beq method (bs "GET") then TreeR repoType ns name rev
              else if beq verb (bs "paths-info") && beq method (bs "POST") then PathsInfoR repoType ns name rev
              else if beq verb (bs "preupload") && beq method (bs "POST") then PreuploadR repoType ns name
              else if beq verb (bs "commit") && beq method (bs "POST") then CommitR repoType ns name rev
              else ToNext
          | _ => ToNext
          end
    | _ => ToNext
    end.

Definition lfs_marker : bytes := bs ".git/info/lfs/".

Definition ServeHTTP (method path : bytes) : route :=
  if beq path (bs "/healthz") || HasPrefix path (bs "/admin/") || HasPrefix path (bs "/auth/") || beq path (bs "/metrics")
  then ToNext
  else if HasPrefix path (bs "/api/") then serveAPI method path
  else if HasPrefix path (bs "/lfs-storage/") then LFSStorageR
  else if Contains path lfs_marker then LFSGitR
  else ResolveR.

(** Repository type, namespace, name, revision, path. *)
Definition parseResolvePath (p : bytes) : option (bytes * bytes * bytes * bytes * bytes) :=
  let parts := Split (TrimPrefix p (bs "/")) 47 in
  let '(repoType, parts) :=
    match parts with
    | t :: rest => if beq t (bs "datasets") || beq t (bs "spaces") then (t, rest) else (bs "models", parts)
    | [] => (bs "models", parts)
    end in
  match parts with
  | ns :: name :: verb :: rev :: p0 :: ps =>
      if beq verb (bs "resolve") then Some (repoType, ns, name, rev, Join (p0 :: ps) (bs "/")) else None
  | _ => None
  end.

(** First and last byte, inclusive. *)
Definition parseSimpleRange (h : bytes) (size : Z) : option (Z * Z) :=
  if negb (HasPrefix h (bs "bytes=")) then None
  else
    let r := TrimPrefix h (bs "bytes=") in
    if Contains r (bs ",") then None
    else
      match IndexByte r 45 with
      | None => None
      | Some dash =>
          let a := take dash r in
          let b := drop (S dash) r in
          if beq a [] then
            match ParseInt b with
            | None => None
            | Some n => if (n <=? 0) || (n >? size) then None else Some (size - n, size - 1)
            end
          else
            match ParseInt a with
            | None => None
            | Some start =>
                if (start <? 0) || (start >=? size) then None
                else if beq b [] then Some (start, size - 1)
                else match ParseInt b with
                     | None => None
                     | Some fin => if (fin <? start) || (fin >=? size) then None else Some (start, fin)
                     end
            end
      end.

(** ** Replies *)

(** A file of a listing; its [lfs] member is there for LFS files. *)
Record entry := mkEntry { en_Path : bytes; en_OID : bytes; en_Size : Z; en_LFS : bool }.

Record file_head := mkHead {
  fh_ETag : bytes; fh_Commit : bytes; fh_LinkedSize : Z;
  fh_ContentLength : option Z; fh_ContentRange : option bytes;
}.

Inductive reply :=
| Next
| JSONError (status : Z)
| ModelInfo (id sha : bytes) (siblings : list entry) (private : bool)
| Tree (entries : list entry)
| PathsInfo (commit : bytes) (entries : list entry)
| File (status : Z) (head : file_head) (body : bytes)
| Status (code : Z).

(** Byte-wise order of Go strings. *)
Fixpoint bytes_leb (a b : bytes) : bool :=
  match a, b with
  | [], _ => true
  | _ :: _, [] => false
  | x :: a, y :: b => (x <? y) || ((x =? y) && bytes_leb a b)
  end.

Definition bytes_le (a b : bytes) : Prop := bytes_leb a b = true.

#[global] Instance bytes_le_dec a b : Decision (bytes_le a b) := decide (bytes_leb a b = true).

Definition sortedKeys (m : gmap bytes tree_file) : list bytes := merge_sort bytes_le (map_to_list m).*1.

Definition file_entry (p : bytes) (f : tree_file) : entry := mkEntry p (tf_BlobOID f) (tf_Size f) (tf_IsLFS f).

Definition listing (files : gmap bytes tree_file) : list entry :=
  omap (fun p => file_entry p <$> files !! p) (sortedKeys files).

(** The failures a request runs into. *)
Record hfaults := mkHF {
  hf_repo : option bool; hf_branch : option bool; hf_list : option bool; hf_mirror : option bool;
  hf_open : bool; hf_stat : bool;
}.

Definition no_hfaults : hfaults := mkHF None None None None false false.

Record hub := mkHub { h_reg : reg; h_mirrors : mirror_table; h_blobs : blobdir }.

Section Endpoints.
Context (tenant blobDir : bytes) (pick : list bytes → option bytes).

Definition fallbackOrNotFound (fl : hfaults) (h : hub) (repoType ns name : bytes) : reply :=
  match GetMirror (hf_mirror fl) (h_mirrors h) tenant repoType ns name with
  | Ok _ => Next
  | Err _ => JSONError 404
  end.

Definition no_commits : bytes := replicate 40 48.

Definition lookupHead (fl : hfaults) (h : hub) (repoType ns name : bytes)
    : option (Repo * bytes * gmap bytes tree_file) :=
  match GetRepo (hf_repo fl) (h_reg h) tenant repoType ns name with
  | Err _ => None
  | Ok repo =>
      match ResolveBranch (hf_branch fl) pick (h_reg h) (rp_ID repo) (bs "main") with
      | Err _ => Some (repo, no_commits, ∅)
      | Ok sha =>
          match ListFiles (hf_list fl) (h_reg h) (rp_ID repo) sha with
          | Err _ => None
          | Ok (files, _) => Some (repo, sha, files)
          end
      end
  end.

Definition FullName (ns name : bytes) : bytes := ns ++ bs "/" ++ name.

Definition modelInfo (fl : hfaults) (h : hub) (repoType ns name : bytes) : reply :=
  match lookupHead fl h repoType ns name with
  | None => fallbackOrNotFound fl h repoType ns name
  | Some (repo, sha, files) => ModelInfo (FullName ns name) sha (listing files) (rp_Private repo)
  end.

Definition tree (fl : hfaults) (h : hub) (repoType ns name rev : bytes) : reply :=
  match GetRepo (hf_repo fl) (h_reg h) tenant repoType ns name with
  | Err RNotFound => fallbackOrNotFound fl h repoType ns name
  | Err _ => JSONError 500
  | Ok repo =>
      match ResolveBranch (hf_branch fl) pick (h_reg h) (rp_ID repo) rev with
      | Err RNotFound => JSONError 404
      | Err _ => JSONError 500
      | Ok sha =>
          match ListFiles (hf_list fl) (h_reg h) (rp_ID repo) sha with
          | Err _ => JSONError 500
          | Ok (files, _) => Tree (listing files)
          end
      end
  end.

(** [paths]: the decoded request, empty when it does not decode. *)
Definition pathsInfo (fl : hfaults) (h : hub) (repoType ns name rev : bytes) (paths : list bytes) : reply :=
  match GetRepo (hf_repo fl) (h_reg h) tenant repoType ns name with
  | Err RNotFound => fallbackOrNotFound fl h repoType ns name
  | Err _ => JSONError 500
  | Ok repo =>
      match ResolveBranch (hf_branch fl) pick (h_reg h) (rp_ID repo) rev with
      | Err _ => JSONError 404
      | Ok sha =>
          match ListFiles (hf_list fl) (h_reg h) (rp_ID repo) sha with
          | Err _ => JSONError 500
          | Ok (files, _) => PathsInfo sha (omap (fun p => file_entry p <$> files !! p) paths)
          end
      end
  end.

Definition quoted (s : bytes) : bytes := [34] ++ s ++ [34].

Definition content_range (start fin size : Z) : bytes :=
  bs "bytes " ++ FormatInt start ++ bs "-" ++ FormatInt fin ++ bs "/" ++ FormatInt size.

(** The response for an opened blob of [body]. *)
Definition send_file (fr : tree_file) (sha method range body : bytes) : reply :=
  let size := tf_Size fr in
  let head := mkHead (quoted (tf_BlobOID fr)) sha size in
  let isHead := beq method (bs "HEAD") in
  if beq range [] then File 200 (head (Some size) None) (if isHead then [] else body)
  else
    match parseSimpleRange range size with
    | None => File 416 (head None (Some (bs "bytes */" ++ FormatInt size))) []
    | Some (start, fin) =>
        File 206 (head (Some (fin - start + 1)) (Some (content_range start fin size)))
          (if isHead then [] else take (Z.to_nat (fin - start + 1)) (drop (Z.to_nat start) body))
    end.

Definition serveResolve (fl : hfaults) (h : hub) (method path range : bytes) : reply :=
  match parseResolvePath path with
  | None => Next
  | Some (repoType, ns, name, rev, p) =>
      match GetRepo (hf_repo fl) (h_reg h) tenant repoType ns name with
      | Err RNotFound => fallbackOrNotFound fl h repoType ns name
      | Err _ => JSONError 500
      | Ok repo =>
          match LookupFile (hf_branch fl) pick (h_reg h) (rp_ID repo) rev p with
          | Err RNotFound => JSONError 404
          | Err _ => JSONError 500
          | Ok (fr, sha) =>
              match Open blobDir (h_blobs h) (tf_BlobOID fr) (hf_open fl) (hf_stat fl) with
              | Err _ => JSONError 500
              | Ok (body, _) => send_file fr sha method range body
              end
          end
      end
  end.

(** ** Creating repositories *)

Record createRepoRequest := mkCreate { cq_Name : bytes; cq_Organization : bytes; cq_Type : bytes; cq_Private : bool }.

Definition with_reg (h : hub) (d : reg) : hub := mkHub d (h_mirrors h) (h_blobs h).

Definition createRepo `{GoUnicode} (fault : option bool) (fl : hfaults) (id : bytes) (h : hub)
    (req : option createRepoRequest) : reply * hub :=
  match req with
  | None => (JSONError 400, h)
  | Some req =>
      match repoTypePlural (cq_Type req) with
      | None => (JSONError 400, h)
      | Some repoType =>
          let '(ns, name) := splitRepoName (cq_Name req) (cq_Organization req) in
          if beq ns [] || beq name [] then (JSONError 400, h)
          else
            match CreateRepo fault id (h_reg h) tenant repoType ns name (cq_Private req) with
            | (Ok _, d) => (Status 201, with_reg h d)
            | (Err RAlreadyExists, d) =>
                match GetRepo (hf_repo fl) d tenant repoType ns name with
                | Ok _ => (Status 200, with_reg h d)
                | Err _ => (JSONError 500, with_reg h d)
                end
            | (Err RInvalidInput, d) => (JSONError 400, with_reg h d)
            | (Err _, d) => (JSONError 500, with_reg h d)
            end
      end
  end.

(** ** Preupload *)

Record preuploadFile := mkPre { pr_Path : bytes; pr_LFS : bool; pr_ShouldIgnore : bool; pr_OID : bytes }.

Definition preupload_entry `{GoUnicode} (current : gmap bytes tree_file) (f : bytes * Z) : preuploadFile :=
  let '(lfs, skip) := preupload_file current f.1 f.2 in
  mkPre f.1 lfs skip (if skip then default [] (tf_BlobOID <$> current !! f.1) else []).

(** The current files: those of "main", none on any error. *)
Definition current_files (fl : hfaults) (h : hub) (repo : bytes) : gmap bytes tree_file :=
  match ResolveBranch (hf_branch fl) pick (h_reg h) repo (bs "main") with
  | Err _ => ∅
  | Ok sha => match ListFiles (hf_list fl) (h_reg h) repo sha with Ok (files, _) => files | Err _ => ∅ end
  end.

Definition preupload `{GoUnicode} (fl : hfaults) (h : hub) (repoType ns name : bytes)
    (files : option (list (bytes * Z))) : result Z (list preuploadFile) :=
  match GetRepo (hf_repo fl) (h_reg h) tenant repoType ns name with
  | Err RNotFound => Err 404
  | Err _ => Err 500
  | Ok repo =>
      match files with
      | None => Err 400
      | Some fs => Ok (preupload_entry (current_files fl h (rp_ID repo)) <$> fs)
      end
  end.

(** ** LFS endpoints *)

Record lfsBatchObj := mkObj { ob_OID : bytes; ob_Size : Z }.

Inductive lfs_entry :=
| LfsError (code : Z)
| LfsPresent                                  (* no actions *)
| LfsUpload (upload verify : bytes)
| LfsDownload (href : bytes).

Definition publicURL (configured : bytes) : bytes := TrimRightByte configured 47.

Definition lfs_href (url oid : bytes) : bytes := url ++ bs "/lfs-storage/" ++ oid.

Definition batch_entry (fault : option bool) (d : reg) (url ns name operation : bytes) (obj : lfsBatchObj) : lfs_entry :=
  if beq operation (bs "upload") then
    match HasBlob fault d (ob_OID obj) with
    | Err _ => LfsError 500
    | Ok (Some _) => LfsPresent
    | Ok None => LfsUpload (lfs_href url (ob_OID obj)) (url ++ bs "/" ++ ns ++ bs "/" ++ name ++ bs ".git/info/lfs/verify")
    end
  else if beq operation (bs "download") then
    match HasBlob fault d (ob_OID obj) with
    | Err _ => LfsError 500
    | Ok None => LfsError 404
    | Ok (Some _) => LfsDownload (lfs_href url (ob_OID obj))
    end
  else LfsError 400.

Definition lfsBatch (fl : hfaults) (fault : option bool) (configured : bytes) (h : hub) (repoType ns name : bytes)
    (req : option (bytes * list lfsBatchObj)) : result Z (list lfs_entry) :=
  match GetRepo (hf_repo fl) (h_reg h) tenant repoType ns name with
  | Err RNotFound => Err 404
  | Err _ => Err 500
  | Ok _ =>
      match req with
      | None => Err 400
      | Some (operation, objs) => Ok (batch_entry fault (h_reg h) (publicURL configured) ns name operation <$> objs)
      end
  end.

(** Returns the status. *)
Definition lfsVerify (fl : hfaults) (fault : option bool) (h : hub) (repoType ns name : bytes)
    (req : option lfsBatchObj) : Z :=
  match GetRepo (hf_repo fl) (h_reg h) tenant repoType ns name with
  | Err _ => 404
  | Ok _ =>
      match req with
      | None => 400
      | Some o =>
          match HasBlob fault (h_reg h) (ob_OID o) with
          | Err _ => 500
          | Ok None => 404
          | Ok (Some b) => if negb (ob_Size o =? 0) && negb (b_Size b =? ob_Size o) then 422 else 200
          end
      end
  end.

(** The repository and the operation of a path with the LFS marker. *)
Definition serveLFSGit (method path : bytes) : result Z (bytes * bytes * bool) :=
  match Index path lfs_marker with
  | None => Err 404
  | Some idx =>
      let head := TrimPrefix (take idx path) (bs "/") in
      let tail := drop (idx + length lfs_marker) path in
      match Split head 47 with
      | [ns; name] =>
          if negb (beq method (bs "POST")) then Err 405
          else if beq tail (bs "objects/batch") then Ok (ns, name, true)
          else if beq tail (bs "verify") then Ok (ns, name, false)
          else Err 404
      | _ => Err 404
      end
  end.

(** ** Commits *)

(** One inline file: [Put] of its bytes, then its row.  [ids] are the call's and
    the temporary file's names, [fault] is the row's statement. *)
Definition put_inline (ids : nat * nat) (fault : option bool) (h : hub) (body : bytes) : option (result unit CommitFile * hub) :=
  let '(t, n) := ids in
  let oid := oid_of body in
  match prun blobDir (h_blobs h) (upload t n (mkPutOpts [] 0) [body] ++ publish blobDir (h_blobs h) t oid) with
  | None => None
  | Some bd =>
      match puts bd !! t with
      | Some (PDone (Ok st)) =>
          match UpsertBlob fault (h_reg h) (st_OID st) (st_Size st) (st_StorageURL st) with
          | (Ok _, d) => Some (Ok (mkCF (st_OID st) (st_Size st)), mkHub d (h_mirrors h) bd)
          | (Err _, d) => Some (Err tt, mkHub d (h_mirrors h) bd)
          end
      | _ => None
      end
  end.

Fixpoint put_all (ids : nat → nat * nat) (faults : nat → option bool) (k : nat) (files : list (bytes * bytes))
    (acc : gmap bytes CommitFile) (h : hub) : option (result unit (gmap bytes CommitFile) * hub) :=
  match files with
  | [] => Some (Ok acc, h)
  | (p, body) :: files =>
      match put_inline (ids k) (faults k) h body with
      | None => None
      | Some (Err _, h) => Some (Err tt, h)
      | Some (Ok f, h) => put_all ids faults (S k) files (<[p := f]> acc) h
      end
  end.

Definition commit_status (e : retry_error) : Z :=
  match e with
  | RetryErr RBlobMissing => 400
  | RetryErr RLFSSizeMismatch => 422
  | RetryErr RCommitPathInvalid => 400
  | _ => 500
  end.

Definition body_status (e : body_error) : Z := match e with BodyTooLarge => 413 | BadCommit => 400 end.

Definition commit_input (repo rev : bytes) (b : commit_body) (files : gmap bytes CommitFile) : CommitInput :=
  mkInput repo rev (cb_summary b) (cb_description b) files (cb_lfs b) (cb_deletes b).

(** The attempts at the transaction: [env] surrounds them, the k-th meets
    [at_fault k]. *)
Record attempts := mkAttempts { at_env : nat → attempt_env; at_fault : nat → option bool; at_now : nat → Z; at_nonce : nat → bytes }.

Definition commit_attempts (a : attempts) (i : CommitInput) (d : reg) : result retry_error CommitResult * reg :=
  let '(r, _, (d', _)) := commitWithRetry (attempt_commit (at_fault a) (at_now a) (at_nonce a) i) (at_env a) (d, 0%nat) in (r, d').

(** [None]: the blob store refuses the names [ids]. *)
Definition commit (fl : hfaults) (ids : nat → nat * nat) (faults : nat → option bool) (a : attempts)
    (h : hub) (repoType ns name rev : bytes) (body : result body_error commit_body) : option (result Z CommitResult * hub) :=
  match GetRepo (hf_repo fl) (h_reg h) tenant repoType ns name with
  | Err RNotFound => Some (Err 404, h)
  | Err _ => Some (Err 500, h)
  | Ok repo =>
      match body with
      | Err e => Some (Err (body_status e), h)
      | Ok b =>
          match put_all ids faults 0 (map_to_list (cb_inline b)) ∅ h with
          | None => None
          | Some (Err _, h) => Some (Err 500, h)
          | Some (Ok files, h) =>
              match commit_attempts a (commit_input (rp_ID repo) rev b files) (h_reg h) with
              | (Ok r, d) => Some (Ok r, with_reg h d)
              | (Err e, d) => Some (Err (commit_status e), with_reg h d)
              end
          end
      end
  end.

End Endpoints.

(** ** The registry and the blob store together *)

(** Blob store events, rows for finished uploads (as [serveLFSStorage] and
    [commit] make them), repositories, commits and mirrors. *)
Inductive hub_op :=
| HBlob (a : baction)
| HRow (t : nat) (fault : option bool)
| HCreateRepo (fault : option bool) (id tenant repoType ns name : bytes) (private : bool)
| HCommit (fault : option bool) (now : Z) (nonce : bytes) (i : CommitInput)
| HMirror (fault : option bool) (tenant repoType ns name upstream pinned : bytes).

Section Hub.
Context (blobDir : bytes).

Definition hub_step (h : hub) (o : hub_op) : hub :=
  match o with
  | HBlob a =>
      if keeps_blobs a then
        match put_step blobDir (h_blobs h) a with Some bd => mkHub (h_reg h) (h_mirrors h) bd | None => h end
      else h
  | HRow t fault =>
      match puts (h_blobs h) !! t with
      | Some (PDone (Ok st)) => with_reg h (UpsertBlob fault (h_reg h) (st_OID st) (st_Size st) (st_StorageURL st)).2
      | _ => h
      end
  | HCreateRepo fault id tenant repoType ns name private =>
      with_reg h (CreateRepo fault id (h_reg h) tenant repoType ns name private).2
  | HCommit fault now nonce i => with_reg h (CommitTx fault now nonce (h_reg h) i).2
  | HMirror fault tenant repoType ns name upstream pinned =>
      mkHub (h_reg h) (CreateMirror fault (h_mirrors h) tenant repoType ns name upstream pinned).2 (h_blobs h)
  end.

Definition empty_hub : hub := mkHub empty_reg ∅ empty_blobs.

Definition hub_run (ops : list hub_op) : hub := foldl hub_step empty_hub ops.

(** Every row has its file, under its digest; the size is that of bytes with
    this digest. *)
Definition row_stored (bd : blobdir) (oid : bytes) (b : Blob) : Prop :=
  ∃ f g, validOID oid = true ∧ blobs bd !! path blobDir oid = Some f ∧ oid_of f = oid ∧ oid_of g = oid ∧ b_Size b = size_of g.

Record hub_ok (h : hub) : Prop := mkHubOk {
  ho_dir : dir_inv blobDir (h_blobs h);
  ho_present : ok_present blobDir (h_blobs h);
  ho_sized : ok_sized blobDir (h_blobs h);
  ho_reg : reg_ok (h_reg h);
  ho_rows : ∀ oid b, blob_rows (h_reg h) !! oid = Some b → row_stored (h_blobs h) oid b;
}.

Lemma stored_oid bd oid f :
  dir_inv blobDir bd → validOID oid = true → blobs bd !! path blobDir oid = Some f → oid_of f = oid.
Proof.
  intros Hi Hv Hf. symmetry. apply (path_inj blobDir); [done|apply oid_of_valid|by apply (di_blobs _ _ Hi)].
Qed.

Lemma hub_blob_ok h a bd :
  hub_ok h → keeps_blobs a = true → put_step blobDir (h_blobs h) a = Some bd → hub_ok (mkHub (h_reg h) (h_mirrors h) bd).
Proof.
  intros [Hd Hp Hs Hr Hrow] Hk Hst. assert (dir_inv blobDir bd) as Hd' by by eapply pstep_inv.
  split; cbn [h_blobs h_reg]; [done|exact (pstep_present blobDir _ _ _ Hd Hp Hk Hst)|exact (pstep_sized blobDir _ _ _ Hd Hs Hst)|done|].
  intros oid b Hb. destruct (Hrow oid b Hb) as (f & g & Hv & Hf & _ & Hg & Hsz).
  destruct (pstep_keeps blobDir _ _ _ Hd Hst Hk (path blobDir oid) ltac:(by eexists)) as [f' Hf'].
  exists f', g. split_and!; try done. by apply (stored_oid bd).
Qed.

Lemma hub_row_ok h t st fault :
  hub_ok h → puts (h_blobs h) !! t = Some (PDone (Ok st)) →
  hub_ok (with_reg h (UpsertBlob fault (h_reg h) (st_OID st) (st_Size st) (st_StorageURL st)).2).
Proof.
  intros [Hd Hp Hs Hr Hrow] Ht. split; cbn [h_blobs h_reg with_reg]; try done; [by apply UpsertBlob_preserves|].
  intros oid b. unfold UpsertBlob. repeat case_match; cbn [snd blob_rows]; try apply Hrow.
  intros [[<- <-]|[_ Hb]]%lookup_insert_Some; [|by apply Hrow].
  destruct (Hp t _ st Ht eq_refl) as [Hv [f Hf]]. destruct (Hs t _ st Ht eq_refl) as [g ->].
  exists f, g. split_and!; try done. by apply (stored_oid (h_blobs h)).
Qed.

Lemma rows_bumped bd rows oids :
  (∀ oid b, rows !! oid = Some b → row_stored bd oid b) → ∀ oid b, bump_all rows oids !! oid = Some b → row_stored bd oid b.
Proof.
  intros H oid b (b0 & Hb & Hs & _)%bump_all_Some. destruct (H oid b0 Hb) as (f & g & ? & ? & ? & ? & ?).
  exists f, g. split_and!; try done. congruence.
Qed.

Lemma hub_commit_ok h fault now nonce i : hub_ok h → hub_ok (with_reg h (CommitTx fault now nonce (h_reg h) i).2).
Proof.
  intros [Hd Hp Hs Hr Hrow]. split; cbn [h_blobs h_reg with_reg]; try done; [by apply CommitTx_preserves|].
  destruct (CommitTx fault now nonce (h_reg h) i) as [[r|e] d'] eqn:E; cbn [snd]; [|by apply CommitTx_err in E as ->].
  apply CommitTx_ok in E. rewrite (cm_rows _ _ _ _ E). by apply rows_bumped.
Qed.

Lemma hub_step_ok h o : hub_ok h → hub_ok (hub_step h o).
Proof.
  intros Hh. destruct o as [a|t fault|fault id tenant repoType ns name private|fault now nonce i|fault tenant repoType ns name up pin]; cbn [hub_step].
  - destruct (keeps_blobs a) eqn:Hk; [|done]. destruct (put_step blobDir (h_blobs h) a) eqn:Hs; [|done]. by eapply hub_blob_ok.
  - destruct (puts (h_blobs h) !! t) as [[| | | | | |[st|]]|] eqn:Ht; try done. by apply (hub_row_ok h t).
  - destruct Hh as [Hd Hp Hs Hr Hrow]. split; cbn [h_blobs h_reg with_reg]; try done;
      unfold CreateRepo; repeat case_match; cbn [snd]; try done. by destruct Hr; split.
  - by apply hub_commit_ok.
  - destruct Hh as [Hd Hp Hs Hr Hrow]. by split.
Qed.

Lemma hub_run_ok ops : hub_ok (hub_run ops).
Proof.
  unfold hub_run. cut (∀ h, hub_ok h → hub_ok (foldl hub_step h ops)).
  - intros H. apply H. split; [apply empty_inv|intros t p st Ht|intros t p st Ht|apply empty_reg_ok|intros oid b Ht]; cbn in Ht; by rewrite lookup_empty in Ht.
  - induction ops as [|o ops IH]; intros h Hh; cbn [foldl]; [done|]. by apply IH, hub_step_ok.
Qed.

End Hub.

(** ** Paths and ranges *)

(** The path a client asks for. *)
Definition resolve_path (repoType ns name rev p : bytes) : bytes :=
  bs "/" ++ (if beq repoType (bs "models") then [] else repoType ++ bs "/")
  ++ ns ++ bs "/" ++ name ++ bs "/" ++ bs "resolve" ++ bs "/" ++ rev ++ bs "/" ++ p.

(** Names that can be told apart in a path. *)
Definition plain_names (repoType ns name rev : bytes) : Prop :=
  is_repo_type repoType = true ∧ 47 ∉ ns ∧ 47 ∉ name ∧ 47 ∉ rev ∧
  (repoType = bs "models" → ns ≠ bs "datasets" ∧ ns ≠ bs "spaces").

Lemma Split_slash w s : 47 ∉ w → Split (w ++ bs "/" ++ s) 47 = w :: Split s 47.
Proof. apply Split_app_sep. Qed.

Lemma Split_parts p : ∃ q qs, Split p 47 = q :: qs ∧ Join (q :: qs) (bs "/") = p.
Proof.
  pose proof (Join_Split p 47) as Hj. destruct (Split p 47) as [|q qs] eqn:Hs; [by apply Split_nonempty in Hs|]. eauto.
Qed.

Lemma parse_resolve repoType ns name rev p :
  plain_names repoType ns name rev →
  parseResolvePath (resolve_path repoType ns name rev p) = Some (repoType, ns, name, rev, p).
Proof.
  intros (Ht & Hns & Hname & Hrev & Hm). unfold parseResolvePath, resolve_path. rewrite TrimPrefix_app.
  assert (Hparts : Split (ns ++ bs "/" ++ name ++ bs "/" ++ bs "resolve" ++ bs "/" ++ rev ++ bs "/" ++ p) 47 =
    ns :: name :: bs "resolve" :: rev :: Split p 47).
  { rewrite !Split_slash; [done|done| |done|done]. apply (bool_decide_unpack _). vm_compute. exact I. }
  destruct (Split_parts p) as (q & qs & Hq & Hj). rewrite Hq in Hparts.
  unfold is_repo_type in Ht. apply bool_decide_eq_true in Ht.
  destruct (beq repoType (bs "models")) eqn:Et.
  - apply beq_true in Et as ->. destruct (Hm eq_refl) as [H1 H2]. cbn [app]. rewrite Hparts.
    rewrite (proj2 (beq_false _ _) H1), (proj2 (beq_false _ _) H2). cbn [orb]. rewrite beq_refl. by rewrite Hj.
  - apply beq_false in Et. rewrite <-app_assoc, Split_slash.
    2: { set_unfold in Ht. destruct Ht as [->|[->|[->|[]]]]; apply (bool_decide_unpack _); vm_compute; exact I. }
    rewrite Hparts. assert (beq repoType (bs "datasets") || beq repoType (bs "spaces") = true) as ->.
    { set_unfold in Ht. destruct Ht as [->|[->|[->|[]]]]; [done|by rewrite beq_refl|by rewrite beq_refl, orb_true_r]. }
    rewrite beq_refl. by rewrite Hj.
Qed.

Lemma parseSimpleRange_bounds h size a b : parseSimpleRange h size = Some (a, b) → 0 ≤ a ≤ b ∧ b < size.
Proof.
  unfold parseSimpleRange. destruct (negb _); [done|]. destruct (Contains _ _); [done|].
  destruct (IndexByte _ _) as [dash|]; [|done]. cbv zeta. destruct (beq _ []).
  - destruct (ParseInt _) as [n|]; [|done]. destruct (_ || _) eqn:E; [done|]. intros [= <- <-]. lia.
  - destruct (ParseInt _) as [st|]; [|done]. destruct (_ || _) eqn:E; [done|]. destruct (beq _ []); [intros [= <- <-]; lia|].
    destruct (ParseInt _) as [fin|]; [|done]. destruct ((fin <? st) || _) eqn:E'; [done|]. intros [= <- <-]. lia.
Qed.

(** ** Listings *)

Lemma bytes_leb_total a b : bytes_leb a b = true ∨ bytes_leb b a = true.
Proof.
  revert b. induction a as [|x a IH]; intros [|y b]; cbn [bytes_leb]; auto.
  destruct (Z.lt_trichotomy x y) as [Hl|[->|Hl]].
  - left. rewrite (proj2 (Z.ltb_lt x y) Hl). done.
  - rewrite Z.ltb_irrefl, Z.eqb_refl. cbn. apply IH.
  - right. rewrite (proj2 (Z.ltb_lt y x) Hl). done.
Qed.

#[global] Instance bytes_le_total : Total bytes_le.
Proof. intros a b. apply bytes_leb_total. Qed.

Lemma sortedKeys_elem m p : p ∈ sortedKeys m ↔ is_Some (m !! p).
Proof.
  unfold sortedKeys. rewrite merge_sort_Permutation, list_elem_of_fmap. split.
  - intros ([q f] & -> & H%elem_of_map_to_list). by eexists.
  - intros [f Hf]. exists (p, f). split; [done|]. by apply elem_of_map_to_list.
Qed.

Lemma sortedKeys_NoDup m : NoDup (sortedKeys m).
Proof. unfold sortedKeys. rewrite merge_sort_Permutation. apply NoDup_fst_map_to_list. Qed.

Lemma listing_paths m : en_Path <$> listing m = sortedKeys m.
Proof.
  unfold listing. assert (Forall (fun p => is_Some (m !! p)) (sortedKeys m)) as Hall.
  { apply Forall_forall. intros p. apply sortedKeys_elem. }
  induction Hall as [|p l [f Hf] _ IH]; [done|]. cbn. rewrite Hf. cbn. f_equal. exact IH.
Qed.

Lemma listing_elem m e : e ∈ listing m ↔ ∃ p f, m !! p = Some f ∧ e = file_entry p f.
Proof.
  unfold listing. rewrite list_elem_of_omap. split.
  - intros (p & Hp & He). destruct (m !! p) as [f|] eqn:Hf; [|done]. cbn in He. injection He as <-. eauto.
  - intros (p & f & Hf & ->). exists p. rewrite Hf. split; [apply sortedKeys_elem; by eexists|done].
Qed.

(** ** Downloads *)

Section Downloads.
Context (tenant blobDir : bytes) (pick : list bytes → option bytes).

(** A body behind a digest, and the size on record for it: they agree unless
    different bytes with the same digest were uploaded. *)
Definition right_size (f : bytes) (n : Z) : Prop :=
  n = size_of f ∨ ∃ g, g ≠ f ∧ oid_of g = oid_of f ∧ n = size_of g.

(** What is listed can be fetched. *)
Lemma lookup_served h repo sha rev p fr :
  hub_ok blobDir h → LookupFile None pick (h_reg h) (rp_ID repo) rev p = Ok (fr, sha) →
  ∃ f, Open blobDir (h_blobs h) (tf_BlobOID fr) false false = Ok (f, blob_stat blobDir (tf_BlobOID fr) (size_of f)) ∧
       oid_of f = tf_BlobOID fr ∧ right_size f (tf_Size fr).
Proof.
  intros Hh. unfold LookupFile. destruct (ResolveBranch _ _ _ _ _) as [sha'|]; [|done].
  unfold ListFiles. destruct (commits (h_reg h) !! _) as [c|] eqn:Hc; [|done].
  destruct (parent_files (h_reg h) (rp_ID repo) sha' !! p) as [g|] eqn:Hg; [|done]. intros [= <- <-].
  apply parent_files_lookup in Hg as (c' & fr' & b & _ & _ & Hb & ->). cbn [tf_BlobOID tf_Size].
  destruct (ho_rows _ _ Hh _ _ Hb) as (f & g & Hv & Hf & Ho & Hog & Hsz). exists f. split_and!; [|done|].
  - unfold Open. by rewrite Hv, Hf.
  - destruct (decide (g = f)) as [->|Hne]; [by left|right; exists g; split_and!; congruence].
Qed.

Lemma resolve_served h repoType ns name repo sha rev p fr method range :
  hub_ok blobDir h → plain_names repoType ns name rev →
  repos (h_reg h) !! (tenant, repoType, ns, name) = Some repo →
  LookupFile None pick (h_reg h) (rp_ID repo) rev p = Ok (fr, sha) →
  ∃ f, serveResolve tenant blobDir pick no_hfaults h method (resolve_path repoType ns name rev p) range =
         send_file fr sha method range f ∧
       oid_of f = tf_BlobOID fr ∧ right_size f (tf_Size fr).
Proof.
  intros Hh Hn Hr Hl. destruct (lookup_served h repo sha rev p fr Hh Hl) as (f & Ho & Hf & Hsz). exists f.
  unfold serveResolve. rewrite parse_resolve by done. cbn [no_hfaults hf_repo hf_branch hf_open hf_stat].
  unfold GetRepo. rewrite Hr, Hl, Ho. done.
Qed.

End Downloads.

(** After a commit, a GET of a path of its tree on its branch. *)
Lemma commit_pulled tenant blobDir pick h fault now nonce i r d' repoType ns name repo p oid lfs :
  hub_ok blobDir h → CommitTx fault now nonce (h_reg h) i = (Ok r, d') →
  repos d' !! (tenant, repoType, ns, name) = Some repo → rp_ID repo = in_RepoID i →
  plain_names repoType ns name (branch_of i) →
  expected_file i (tf_ref <$> base_tree (h_reg h) i !! p) p = Some (oid, lfs) →
  ∃ f fr, tf_BlobOID fr = oid ∧ oid_of f = oid ∧ right_size f (tf_Size fr) ∧
    ∀ method range, serveResolve tenant blobDir pick no_hfaults (with_reg h d') method
      (resolve_path repoType ns name (branch_of i) p) range = send_file fr (cr_SHA r) method range f.
Proof.
  intros Hh Hc Hrepo Hid Hn Hp.
  pose proof (hub_commit_ok blobDir h fault now nonce i Hh) as Hh'. rewrite Hc in Hh'. cbn [snd] in Hh'.
  destruct (commit_tree _ _ _ _ pick _ _ _ (ho_reg _ _ Hh) Hc) as (Hb & (files & c & Hl & Hfiles & _) & _).
  specialize (Hfiles p). rewrite Hp in Hfiles. destruct (files !! p) as [fr|] eqn:Hfr; [|done].
  cbn in Hfiles. injection Hfiles as Ho Hlfs.
  assert (LookupFile None pick (h_reg (with_reg h d')) (rp_ID repo) (branch_of i) p = Ok (fr, cr_SHA r)) as Hlook.
  { unfold LookupFile. cbn [h_reg with_reg]. rewrite Hid, Hb, Hl, Hfr. done. }
  destruct (lookup_served blobDir pick (with_reg h d') repo (cr_SHA r) _ p fr Hh' Hlook) as (f & Hopen & Hoid & Hsz).
  exists f, fr. split_and!; [done|congruence|done|]. intros method rg.
  unfold serveResolve. rewrite parse_resolve by done. cbn [no_hfaults hf_repo hf_branch hf_open hf_stat].
  unfold GetRepo. cbn [h_reg with_reg h_blobs]. rewrite Hrepo. cbn [h_reg with_reg h_blobs] in Hlook, Hopen. by rewrite Hlook, Hopen.
Qed.

(** A listed file can be fetched, whole and in parts. *)
Lemma tree_entry tenant blobDir pick h repoType ns name rev es e :
  hub_ok blobDir h → plain_names repoType ns name rev →
  tree tenant pick no_hfaults h repoType ns name rev = Tree es → e ∈ es →
  ∃ f fr sha, (∀ method range, serveResolve tenant blobDir pick no_hfaults h method (resolve_path repoType ns name rev (en_Path e)) range =
                 send_file fr sha method range f) ∧
    tf_BlobOID fr = en_OID e ∧ tf_Size fr = en_Size e ∧ oid_of f = tf_BlobOID fr ∧ right_size f (tf_Size fr).
Proof.
  intros Hh Hn. unfold tree, GetRepo. cbn [no_hfaults hf_repo hf_branch hf_list].
  destruct (repos (h_reg h) !! (tenant, repoType, ns, name)) as [repo|] eqn:Hrepo.
  2: { unfold fallbackOrNotFound. by destruct (GetMirror _ _ _ _ _ _). }
  destruct (ResolveBranch None pick (h_reg h) (rp_ID repo) rev) as [sha|[]] eqn:Hb; try done.
  destruct (ListFiles None (h_reg h) (rp_ID repo) sha) as [[files c]|] eqn:Hl; [|done]. intros [= <-].
  intros (p & fr & Hfr & ->)%listing_elem. cbn [file_entry en_Path en_OID en_Size].
  assert (LookupFile None pick (h_reg h) (rp_ID repo) rev p = Ok (fr, sha)) as Hlook by (unfold LookupFile; by rewrite Hb, Hl, Hfr).
  destruct (lookup_served blobDir pick h repo sha rev p fr Hh Hlook) as (f & Hopen & Ho & Hs). exists f, fr, sha. split_and!; try done.
  intros method range. unfold serveResolve, GetRepo. rewrite parse_resolve by done. cbn [no_hfaults hf_repo hf_branch hf_open hf_stat].
  by rewrite Hrepo, Hlook, Hopen.
Qed.

Lemma commit_gone tenant blobDir pick h fault now nonce i r d' repoType ns name repo p rev :
  hub_ok blobDir h → CommitTx fault now nonce (h_reg h) i = (Ok r, d') →
  repos d' !! (tenant, repoType, ns, name) = Some repo → rp_ID repo = in_RepoID i →
  branch_of i = rev → plain_names repoType ns name rev →
  expected_file i (tf_ref <$> base_tree (h_reg h) i !! p) p = None →
  serveResolve tenant blobDir pick no_hfaults (with_reg h d') (bs "GET") (resolve_path repoType ns name rev p) [] = JSONError 404.
Proof.
  intros Hh Hc Hrepo Hid <- Hn Hp.
  destruct (commit_tree _ _ _ _ pick _ _ _ (ho_reg _ _ Hh) Hc) as (Hb & (files & c & Hl & Hfiles & _) & _).
  specialize (Hfiles p). rewrite Hp in Hfiles. destruct (files !! p) as [fr|] eqn:Hfr; [done|].
  unfold serveResolve. rewrite parse_resolve by done. cbn [no_hfaults hf_repo hf_branch hf_open hf_stat].
  unfold GetRepo, LookupFile. cbn [h_reg with_reg]. by rewrite Hrepo, Hid, Hb, Hl, Hfr.
Qed.

(** ** The commit endpoint *)

Lemma UpsertBlob_repos fault d oid n url : repos (UpsertBlob fault d oid n url).2 = repos d.
Proof. unfold UpsertBlob. repeat case_match; done. Qed.

Lemma CommitTx_repos fault now nonce d i : repos (CommitTx fault now nonce d i).2 = repos d.
Proof. unfold CommitTx. repeat case_match; done. Qed.

Lemma hub_blobs_ok blobDir acts h bd :
  hub_ok blobDir h → forallb keeps_blobs acts = true → prun blobDir (h_blobs h) acts = Some bd →
  hub_ok blobDir (mkHub (h_reg h) (h_mirrors h) bd).
Proof.
  revert h. induction acts as [|a acts IH]; intros h Hh Hk Hp; cbn [prun] in Hp.
  { injection Hp as <-. by destruct h. }
  cbn [forallb] in Hk. apply andb_prop in Hk as [Hk Hks].
  destruct (put_step blobDir (h_blobs h) a) as [bd1|] eqn:Hs; [|done].
  apply (IH (mkHub (h_reg h) (h_mirrors h) bd1)); [by eapply hub_blob_ok|done|done].
Qed.

Lemma upload_keeps blobDir bd t n opts chunks oid :
  forallb keeps_blobs (upload t n opts chunks ++ publish blobDir bd t oid) = true.
Proof.
  rewrite forallb_app. unfold upload, publish. apply andb_true_intro. split; [|by case_match].
  cbn [app forallb keeps_blobs andb]. rewrite forallb_app. cbn. rewrite andb_true_r.
  induction chunks as [|c cs IH]; [done|exact IH].
Qed.

(** One inline file is stored under its digest. *)
Lemma put_inline_ok blobDir ids fault h body f h' :
  hub_ok blobDir h → put_inline blobDir ids fault h body = Some (Ok f, h') →
  hub_ok blobDir h' ∧ cf_BlobOID f = oid_of body ∧ repos (h_reg h') = repos (h_reg h).
Proof.
  intros Hh. unfold put_inline. destruct ids as [t n].
  destruct (prun blobDir (h_blobs h) _) as [bd|] eqn:Hp; [|done].
  pose proof (hub_blobs_ok blobDir _ h bd Hh (upload_keeps blobDir (h_blobs h) t n _ _ _) Hp) as Hh1.
  assert (puts (h_blobs h) !! t = None ∧ tmps (h_blobs h) !! n = None) as [Ht Hn].
  { unfold upload in Hp. cbn [app prun put_step ExpectedOID] in Hp. destruct (puts (h_blobs h) !! t); [done|].
    cbn [beq negb andb] in Hp. by destruct (tmps (h_blobs h) !! n). }
  destruct (put_publishes blobDir (h_blobs h) t n (mkPutOpts [] 0) [body]) as (bd' & g & Hr & Hd & _);
    [apply Hh|done|done|by left|by left|]. cbn [concat] in Hr, Hd. rewrite app_nil_r in Hr, Hd.
  rewrite Hr in Hp. injection Hp as <-. rewrite Hd.
  pose proof (hub_row_ok blobDir _ t _ fault Hh1 Hd) as Hh2. cbn [h_reg with_reg] in Hh2.
  cbn [blob_stat st_OID st_Size st_StorageURL] in *.
  pose proof (UpsertBlob_repos fault (h_reg h) (oid_of body) (size_of body) (storageURL blobDir (oid_of body))) as Hrep.
  destruct (UpsertBlob fault (h_reg h) _ _ _) as [[u|e] d]; [|done]. intros [= <- <-]. by split_and!.
Qed.

Lemma put_all_ok blobDir ids faults k files acc h out h' :
  hub_ok blobDir h → NoDup files.*1 → put_all blobDir ids faults k files acc h = Some (Ok out, h') →
  hub_ok blobDir h' ∧ repos (h_reg h') = repos (h_reg h) ∧
  (∀ p body, (p, body) ∈ files → ∃ f, out !! p = Some f ∧ cf_BlobOID f = oid_of body) ∧
  (∀ p, p ∉ files.*1 → out !! p = acc !! p).
Proof.
  revert k acc h. induction files as [|[p body] files IH]; intros k acc h Hh Hnd Hp; cbn [put_all] in Hp.
  { injection Hp as <- <-. split_and!; try done. intros p body Hin. by apply not_elem_of_nil in Hin. }
  cbn [fmap list_fmap fst] in Hnd. apply NoDup_cons in Hnd as [Hnot Hnd].
  destruct (put_inline blobDir (ids k) (faults k) h body) as [[[f|] h1]|] eqn:Hi; try done.
  destruct (put_inline_ok blobDir _ _ _ _ _ _ Hh Hi) as (Hh1 & Hf & Hr1).
  destruct (IH _ _ _ Hh1 Hnd Hp) as (H1 & H2 & H3 & H4). split_and!; [done|congruence|..].
  - intros q b [[= -> ->]|Hin]%elem_of_cons; [|by apply H3]. exists f. split; [|done].
    rewrite H4 by done. apply lookup_insert_eq.
  - intros q Hq. cbn [fmap list_fmap fst] in Hq. apply not_elem_of_cons in Hq as [Hne Hq].
    rewrite H4 by done. by rewrite lookup_insert_ne.
Qed.

Lemma commit_attempts_once a i d r d' :
  commit_attempts a i d = (Ok r, d') → ∃ fault now nonce, CommitTx fault now nonce d i = (Ok r, d').
Proof.
  unfold commit_attempts, commitWithRetry. destruct (retry_loop _ _ _ _ _ _ _) as [[r0 tr] [d0 k0]] eqn:E. intros [= -> ->].
  apply retry_loop_once in E as (j & _ & Hc). eauto.
Qed.

(** The digest a body commits for a path. *)
Definition committed_oid (b : commit_body) (p : bytes) : option bytes :=
  match cb_lfs b !! p with Some f => Some (cf_BlobOID f) | None => oid_of <$> cb_inline b !! p end.

(** A successful commit request: the hub it committed to, and the transaction. *)
Lemma commit_inv tenant blobDir fl ids faults a h repoType ns name rev b r h' :
  hub_ok blobDir h → commit tenant blobDir fl ids faults a h repoType ns name rev (Ok b) = Some (Ok r, h') →
  ∃ repo h1 i fault now nonce,
    repos (h_reg h') !! (tenant, repoType, ns, name) = Some repo ∧ rp_ID repo = in_RepoID i ∧
    hub_ok blobDir h1 ∧ CommitTx fault now nonce (h_reg h1) i = (Ok r, h_reg h') ∧ h' = with_reg h1 (h_reg h') ∧
    in_Branch i = rev ∧
    ∀ p, (∃ lfs, (∀ old, expected_file i old p = (λ o, (o, lfs)) <$> committed_oid b p)) ∨
         committed_oid b p = None ∧ (∀ old, expected_file i old p = if bool_decide (p ∈ cb_deletes b) then None else old).
Proof.
  intros Hh. unfold commit, GetRepo. destruct (hf_repo fl); [done|].
  destruct (repos (h_reg h) !! (tenant, repoType, ns, name)) as [repo|] eqn:Hrepo; [|done].
  destruct (put_all _ _ _ _ _ _ _) as [[[files|] h1]|] eqn:Hput; try done.
  destruct (put_all_ok blobDir _ _ _ _ _ _ _ _ Hh (NoDup_fst_map_to_list _) Hput) as (Hh1 & Hr1 & Hin & Hout).
  set (i := commit_input (rp_ID repo) rev b files).
  destruct (commit_attempts a i (h_reg h1)) as [[r'|] d'] eqn:Hc; [|done]. intros [= -> <-].
  destruct (commit_attempts_once _ _ _ _ _ Hc) as (fault & now & nonce & Htx). cbn [h_reg with_reg].
  exists repo, h1, i, fault, now, nonce. split_and!; try done.
  - pose proof (CommitTx_repos fault now nonce (h_reg h1) i) as Hx. rewrite Htx in Hx. cbn [snd] in Hx. congruence.
  - intros p. unfold committed_oid, expected_file. cbn [i commit_input in_LFSPointers in_Inline in_Deletes].
    destruct (cb_lfs b !! p) as [f|] eqn:Hl; [left; by exists true|].
    destruct (cb_inline b !! p) as [body|] eqn:Hb.
    + left. exists false. destruct (Hin p body) as (f & Hf & Ho); [by apply elem_of_map_to_list|]. rewrite Hf, Ho. done.
    + right. split; [done|]. intros old. rewrite Hout, lookup_empty; [done|].
      intros ([q body] & -> & Hq%elem_of_map_to_list)%list_elem_of_fmap. cbn in Hb. congruence.
Qed.

(** ** The main results *)

(** C11: what is pushed can be pulled.  After any history of uploads (with
    failures and crashes), rows, repositories and commits, if a commit request
    succeeds, then a GET of every path it adds, inline or as an LFS pointer,
    answers 200 on its branch with bytes of the committed digest (the digest of
    the inline content), the digest as entity tag, the new commit's id and their
    length, unless the digest has a collision; every satisfiable range is
    answered with exactly that part; and a path it only deletes answers 404. *)
Theorem pushed_file_pulled tenant blobDir pick ops fl ids faults a repoType ns name rev b r h' p :
  commit tenant blobDir fl ids faults a (hub_run blobDir ops) repoType ns name rev (Ok b) = Some (Ok r, h') →
  plain_names repoType ns name rev → rev ≠ [] →
  let get := serveResolve tenant blobDir pick no_hfaults h' (bs "GET") (resolve_path repoType ns name rev p) in
  match committed_oid b p with
  | Some oid =>
      ∃ f n, oid_of f = oid ∧ right_size f n ∧
        get [] = File 200 (mkHead (quoted oid) (cr_SHA r) n (Some n) None) f ∧
        (∀ range x y, parseSimpleRange range n = Some (x, y) → range ≠ [] →
           0 ≤ x ≤ y ∧ y < n ∧
           get range = File 206 (mkHead (quoted oid) (cr_SHA r) n (Some (y - x + 1)) (Some (content_range x y n)))
                         (take (Z.to_nat (y - x + 1)) (drop (Z.to_nat x) f)))
  | None => p ∈ cb_deletes b → get [] = JSONError 404
  end.
Proof.
  intros Hc Hn Hrev get.
  destruct (commit_inv _ _ _ _ _ _ _ _ _ _ _ _ _ _ (hub_run_ok blobDir ops) Hc)
    as (repo & h1 & i & fault & now & nonce & Hrepo & Hid & Hh1 & Htx & Hh' & Hbr & Hexp).
  assert (branch_of i = rev) as Hb by (unfold branch_of; by rewrite Hbr, (proj2 (beq_false _ _) Hrev)).
  subst get. rewrite Hh'. destruct (Hexp p) as [[lfs He]|[Hno He]]; [destruct (committed_oid b p) as [oid|]|rewrite Hno].
  - destruct (commit_pulled tenant blobDir pick h1 fault now nonce i r (h_reg h') repoType ns name repo p oid lfs)
      as (f & fr & Ho & Hf & Hsz & Hget); [done|done|done|done|by rewrite Hb|by rewrite He|]. rewrite Hb in Hget.
    exists f, (tf_Size fr). split_and!; [done|done|rewrite Hget; unfold send_file; cbn; by rewrite Ho|].
    intros range x y Hr Hne. destruct (parseSimpleRange_bounds _ _ _ _ Hr) as [H1 H2]. split_and!; try lia.
    rewrite Hget. unfold send_file. rewrite (proj2 (beq_false _ _) Hne), Hr, Ho. done.
  - intros _. apply (commit_gone tenant blobDir pick h1 fault now nonce i r (h_reg h') repoType ns name repo p rev); done.
  - intros Hin. apply (commit_gone tenant blobDir pick h1 fault now nonce i r (h_reg h') repoType ns name repo p rev); try done.
    by rewrite He, bool_decide_true.
Qed.

(** listings are complete, sorted and downloadable.  The tree reply of a
    revision has each file of the revision exactly once, in byte order of the
    paths, and a GET of each answers 200 with bytes of the listed digest. *)
Theorem tree_entries_download tenant blobDir pick ops repoType ns name rev es :
  let h := hub_run blobDir ops in
  plain_names repoType ns name rev →
  tree tenant pick no_hfaults h repoType ns name rev = Tree es →
  Sorted bytes_le (en_Path <$> es) ∧ NoDup (en_Path <$> es) ∧
  (∃ repo sha files c, repos (h_reg h) !! (tenant, repoType, ns, name) = Some repo ∧
     ListFiles None (h_reg h) (rp_ID repo) sha = Ok (files, c) ∧
     ∀ e, e ∈ es ↔ ∃ p f, files !! p = Some f ∧ e = file_entry p f) ∧
  (∀ e, e ∈ es → ∃ f hd,
     serveResolve tenant blobDir pick no_hfaults h (bs "GET") (resolve_path repoType ns name rev (en_Path e)) [] = File 200 hd f ∧
     fh_ETag hd = quoted (en_OID e) ∧ oid_of f = en_OID e ∧ right_size f (en_Size e)).
Proof.
  intros h Hn. unfold tree. cbn [no_hfaults hf_repo hf_branch hf_list]. unfold GetRepo.
  destruct (repos (h_reg h) !! (tenant, repoType, ns, name)) as [repo|] eqn:Hrepo.
  2: { unfold fallbackOrNotFound. by destruct (GetMirror _ _ _ _ _ _). }
  destruct (ResolveBranch None pick (h_reg h) (rp_ID repo) rev) as [sha|[]] eqn:Hb; try done.
  destruct (ListFiles None (h_reg h) (rp_ID repo) sha) as [[files c]|] eqn:Hl; [|done]. intros [= <-].
  rewrite listing_paths. split_and!; [apply Sorted_merge_sort, _|apply sortedKeys_NoDup| |].
  - exists repo, sha, files, c. split_and!; [done|done|]. apply listing_elem.
  - intros e He. destruct (tree_entry tenant blobDir pick h repoType ns name rev (listing files) e) as (f & fr & sha' & Hg & Ho & Hz & Hf & Hs);
      [apply hub_run_ok|done| |done|].
    { unfold tree, GetRepo. cbn [no_hfaults hf_repo hf_branch hf_list]. by rewrite Hrepo, Hb, Hl. }
    exists f. rewrite Hg. eexists. rewrite <-Ho, <-Hz. split_and!; [reflexivity|done|congruence|congruence].
Qed.

(** nothing is fetched for an undeclared repository.  When a repository is
    neither in the registry nor mirrored, the reading endpoints never pass the
    request on, whatever queries fail, and answer 404 when none does. *)
Theorem no_implicit_passthrough tenant blobDir pick fl h repoType ns name rev paths p method range :
  repos (h_reg h) !! (tenant, repoType, ns, name) = None →
  h_mirrors h !! (tenant, repoType, ns, name) = None →
  plain_names repoType ns name rev →
  let replies fl := [modelInfo tenant pick fl h repoType ns name; tree tenant pick fl h repoType ns name rev;
                     pathsInfo tenant pick fl h repoType ns name rev paths;
                     serveResolve tenant blobDir pick fl h method (resolve_path repoType ns name rev p) range] in
  Forall (fun r => r ≠ Next ∧ ∃ code, r = JSONError code) (replies fl) ∧
  replies no_hfaults = replicate 4 (JSONError 404).
Proof.
  intros Hr Hm Hn replies.
  assert (∀ fl, fallbackOrNotFound tenant fl h repoType ns name = JSONError 404) as Hf.
  { intros fl'. unfold fallbackOrNotFound, GetMirror. destruct (hf_mirror fl'); [done|]. by rewrite Hm. }
  assert (∀ fl, GetRepo (hf_repo fl) (h_reg h) tenant repoType ns name = match hf_repo fl with Some e => Err (RDatabase e) | None => Err RNotFound end) as Hg.
  { intros fl'. unfold GetRepo. destruct (hf_repo fl'); [done|]. by rewrite Hr. }
  assert (∀ fl, replies fl = JSONError 404 :: replicate 3 (if hf_repo fl then JSONError 500 else JSONError 404)) as Hall.
  { intros fl'. unfold replies, modelInfo, lookupHead, tree, pathsInfo, serveResolve.
    rewrite parse_resolve, Hg by done. destruct (hf_repo fl'); by rewrite ?Hf. }
  split; [|by rewrite Hall]. rewrite Hall. destruct (hf_repo fl); repeat constructor; try done; by eexists.
Qed.

(** ** Concrete requests *)

Definition demo_hub_ops : list hub_op :=
  [HCreateRepo None (bs "r1") (bs "t") (bs "models") (bs "acme") (bs "m") false]
  ++ (HBlob <$> upload 0 0 (mkPutOpts [] 0) [bs "a"]) ++ (HBlob <$> [AStatDest 0 false; AMkdir 0 false; ARename 0 false])
  ++ [HRow 0 None].

Definition demo_hub : hub := hub_run (bs "b") demo_hub_ops.

Definition demo_push : CommitInput := mkInput (bs "r1") [] (bs "up") [] ∅ {[bs "w.bin" := mkCF demo_oid 1]} [].

Lemma demo_names : plain_names (bs "models") (bs "acme") (bs "m") (bs "main").
Proof.
  unfold plain_names. split_and!; try (apply (bool_decide_unpack _); vm_compute; exact I).
Qed.

Definition demo_body : commit_body :=
  mkBody (bs "up") [] {[bs "README.md" := bs "hi"]} {[bs "w.bin" := mkCF demo_oid 1]} [bs "old"].

Definition demo_attempts : attempts := mkAttempts demo_env demo_fault Z.of_nat (fun k => [Z.of_nat k]).

Local Notation demo_request :=
  (commit (bs "t") (bs "b") no_hfaults (fun k => (S k, S k)) (fun _ => None) demo_attempts (hub_run (bs "b") demo_hub_ops)
    (bs "models") (bs "acme") (bs "m") (bs "main") (Ok demo_body)).

Lemma demo_request_ok : ∃ r h', demo_request = Some (Ok r, h').
Proof.
  assert (match demo_request with Some (Ok _, _) => true | _ => false end = true) as Hok by (vm_compute; reflexivity).
  destruct demo_request as [[[r|e] h']|]; try discriminate Hok. by exists r, h'.
Qed.

Lemma demo_committed : committed_oid demo_body (bs "README.md") = Some (oid_of (bs "hi")).
Proof. vm_compute. reflexivity. Qed.

Lemma pushed_file_pulled_witness :
  ∃ r h', demo_request = Some (Ok r, h') ∧
  ∃ f n, oid_of f = oid_of (bs "hi") ∧ right_size f n ∧
    serveResolve (bs "t") (bs "b") head no_hfaults h' (bs "GET")
      (resolve_path (bs "models") (bs "acme") (bs "m") (bs "main") (bs "README.md")) [] =
    File 200 (mkHead (quoted (oid_of (bs "hi"))) (cr_SHA r) n (Some n) None) f.
Proof.
  destruct demo_request_ok as (r & h' & E). exists r, h'. split; [exact E|].
  pose proof (pushed_file_pulled (bs "t") (bs "b") head demo_hub_ops no_hfaults (fun k => (S k, S k)) (fun _ => None)
    demo_attempts (bs "models") (bs "acme") (bs "m") (bs "main") demo_body r h' (bs "README.md") E demo_names ltac:(discriminate)) as H.
  rewrite demo_committed in H. cbv zeta in H.
  destruct H as (f & n & H1 & H2 & H3 & _). exists f, n. split; [exact H1|]. split; [exact H2|exact H3].
Defined.

Definition demo_listed : list hub_op := demo_hub_ops ++ [HCommit None 1 [1] demo_push].

Local Notation demo_tree :=
  (tree (bs "t") head no_hfaults (hub_run (bs "b") demo_listed) (bs "models") (bs "acme") (bs "m") (bs "main")).

Lemma demo_tree_ok : ∃ es, demo_tree = Tree es.
Proof.
  assert (match demo_tree with Tree _ => true | _ => false end = true) as Hok by (vm_compute; reflexivity).
  destruct demo_tree; try discriminate Hok. by eexists.
Qed.

Lemma tree_entries_download_witness : ∃ es, demo_tree = Tree es ∧ NoDup (en_Path <$> es).
Proof.
  destruct demo_tree_ok as [es E]. exists es. split; [exact E|].
  exact (proj1 (proj2 (tree_entries_download (bs "t") (bs "b") head demo_listed _ _ _ _ es demo_names E))).
Defined.

Lemma no_implicit_passthrough_witness :
  [modelInfo (bs "t") head no_hfaults (hub_run (bs "b") []) (bs "models") (bs "acme") (bs "m");
   tree (bs "t") head no_hfaults (hub_run (bs "b") []) (bs "models") (bs "acme") (bs "m") (bs "main");
   pathsInfo (bs "t") head no_hfaults (hub_run (bs "b") []) (bs "models") (bs "acme") (bs "m") (bs "main") [];
   serveResolve (bs "t") (bs "b") head no_hfaults (hub_run (bs "b") []) (bs "GET")
     (resolve_path (bs "models") (bs "acme") (bs "m") (bs "main") (bs "w.bin")) []] = replicate 4 (JSONError 404).
Proof.
  apply (no_implicit_passthrough (bs "t") (bs "b") head no_hfaults (hub_run (bs "b") []) (bs "models") (bs "acme") (bs "m")
    (bs "main") [] (bs "w.bin") (bs "GET") []); [reflexivity|reflexivity|exact demo_names].
Defined.

(** ** Behaviours worth knowing *)

(** Model information at a revision is not an endpoint of the handler: the
    request goes to the inner handler, mirrored or not. *)
Theorem revision_passes_through :
  ServeHTTP (bs "GET") (bs "/api/models/acme/m/revision/main") = ToNext.
Proof. vm_compute. reflexivity. Qed.

(** A folder in a tree request is ignored. *)
Theorem tree_ignores_folder :
  ServeHTTP (bs "GET") (bs "/api/models/acme/m/tree/main/some/folder")
  = ServeHTTP (bs "GET") (bs "/api/models/acme/m/tree/main").
Proof. vm_compute. reflexivity. Qed.

(** A failing query for the branch is answered as an empty repository. *)
Theorem failing_query_is_empty_repo :
  modelInfo (bs "t") head (mkHF None (Some false) None None false false) (hub_run (bs "b") demo_listed)
    (bs "models") (bs "acme") (bs "m") = ModelInfo (bs "acme/m") no_commits [] false.
Proof. vm_compute. reflexivity. Qed.

(** The address the batch endpoint gives for downloads answers only PUT. *)
Theorem download_action_refused :
  lfsBatch (bs "t") no_hfaults None [] demo_hub (bs "models") (bs "acme") (bs "m")
    (Some (bs "download", [mkObj demo_oid 1])) = Ok [LfsDownload (bs "/lfs-storage/" ++ demo_oid)] ∧
  lfs_request 0 (bs "GET") (bs "/lfs-storage/" ++ demo_oid) 0 = Err 405.
Proof. vm_compute. split; reflexivity. Qed.

(** LFS uploads of datasets and spaces have no endpoint. *)
Theorem dataset_lfs_not_found :
  serveLFSGit (bs "POST") (bs "/datasets/acme/d.git/info/lfs/objects/batch") = Err 404.
Proof. vm_compute. reflexivity. Qed.

(** Preupload compares with "main" whatever the target branch: a file that the
    branch lacks is skipped because "main" has one of its size. *)
Theorem preupload_ignores_branch :
  ServeHTTP (bs "POST") (bs "/api/models/acme/m/preupload/dev") = ServeHTTP (bs "POST") (bs "/api/models/acme/m/preupload/main").
Proof. vm_compute. reflexivity. Qed.

(** A range that ends past the last byte is refused, not shortened. *)
Theorem range_past_end_refused :
  parseSimpleRange (bs "bytes=0-99") 10 = None ∧ parseSimpleRange (bs "bytes=-99") 10 = None ∧
  parseSimpleRange (bs "bytes=0-") 10 = Some (0, 9).
Proof. vm_compute. by split_and!. Qed.
