(* ===== verification/Ring.v ===== *)
(** * The io_uring ring (src/internal/coreserver/iouring_ring_linux.go)

    Submission and completion queues live in memory shared with the kernel:
    arrays whose size is a power of two, with free-running 32-bit head and tail
    counters.  The first part relates them to two queues, for every interleaving
    of the program with the kernel, wrap-around of the counters included; the
    second is the byte layout of submission entries; the third sends a response
    head through a ring.  The kernel's side of the protocol (it consumes entries
    from the head, posts completions at the tail while there is room) is the
    documented behaviour of io_uring. *)

From stdpp Require Import base strings numbers gmap list.
From S2P Require Import Prelude GoStd.

Local Open Scope Z_scope.

(** Wrap-around of Go's [uint32]. *)
Definition wrap32 (z : Z) : Z := z mod 2 ^ 32.

(** ** Submission entries *)

(** A 64-byte entry; fields are written little-endian at fixed offsets. *)
Abbreviation ioUringSqe := (list Z).

Definition clear : ioUringSqe := replicate 64 0.

Fixpoint le_bytes (n : nat) (v : Z) : bytes :=
  match n with O => [] | S n => v mod 256 :: le_bytes n (v / 256) end.

Fixpoint le_value (l : bytes) : Z :=
  match l with [] => 0 | b :: l => b + 256 * le_value l end.

Definition set_field (off n : nat) (v : Z) (sqe : ioUringSqe) : ioUringSqe :=
  take off sqe ++ le_bytes n v ++ drop (off + n) sqe.

Definition get_field (off n : nat) (sqe : ioUringSqe) : Z := le_value (take n (drop off sqe)).

Definition setOpcode := set_field 0 1.
Definition setFlags := set_field 1 1.
Definition setFd := set_field 4 4.
Definition setOff := set_field 8 8.
Definition setAddr := set_field 16 8.
Definition setLen := set_field 24 4.
Definition setRwFlags := set_field 28 4.
Definition setUserData := set_field 32 8.
Definition setSpliceFdIn := set_field 44 4.

Definition ioringOpAccept : Z := 13.
Definition ioringOpClose : Z := 19.
Definition ioringOpRead : Z := 22.
Definition ioringOpWrite : Z := 23.
Definition ioringOpSend : Z := 26.
Definition ioringOpRecv : Z := 27.

Definition SOCK_CLOEXEC : Z := 524288.

Definition accept_sqe (fd ud : Z) : ioUringSqe :=
  setUserData ud (setRwFlags SOCK_CLOEXEC (setLen 0 (setOff 0 (setAddr 0 (setFd fd (setOpcode ioringOpAccept clear)))))).

(** RECV, SEND and READ of a buffer at [addr]. *)
Definition buffer_sqe (op fd addr len ud : Z) : ioUringSqe :=
  setUserData ud (setRwFlags 0 (setOff 0 (setLen len (setAddr addr (setFd fd (setOpcode op clear)))))).

Definition close_sqe (fd ud : Z) : ioUringSqe := setUserData ud (setFd fd (setOpcode ioringOpClose clear)).

(** The WRITE of [sendHeaderOnly]. *)
Definition write_sqe (fd addr len ud : Z) : ioUringSqe :=
  setUserData ud (setLen len (setAddr addr (setFd fd (setOpcode ioringOpWrite clear)))).

(** What the kernel reads out of an entry. *)
Record sqe_view := mkView {
  v_op : Z; v_flags : Z; v_fd : Z; v_off : Z; v_addr : Z; v_len : Z; v_rw : Z; v_ud : Z; v_splice : Z;
}.

Definition view (s : ioUringSqe) : sqe_view :=
  mkView (get_field 0 1 s) (get_field 1 1 s) (get_field 4 4 s) (get_field 8 8 s) (get_field 16 8 s)
    (get_field 24 4 s) (get_field 28 4 s) (get_field 32 8 s) (get_field 44 4 s).

Record ioUringCqe := mkCqe { cq_UserData : Z; cq_Res : Z; cq_Flags : Z }.

(** ** The ring *)

Record ring := mkRing {
  sqMask : Z; cqMask : Z;
  sqKHead : Z; sqKTail : Z; cqKHead : Z; cqKTail : Z;
  sqArray : list Z;
  sqes : list ioUringSqe;
  cqes : list ioUringCqe;
}.

(** The ring [newIoUringRing] sets up; [cqEntries] is chosen by the kernel. *)
Definition newIoUringRing (entries cqEntries : Z) : option ring :=
  if (entries =? 0) || negb (Z.land entries (wrap32 (entries - 1)) =? 0) then None
  else Some (mkRing (entries - 1) (cqEntries - 1) 0 0 0 0
               (Z.of_nat <$> seq 0 (Z.to_nat entries)) (replicate (Z.to_nat entries) clear)
               (replicate (Z.to_nat cqEntries) (mkCqe 0 0 0))).

Definition sqSpace (r : ring) : Z := wrap32 (sqMask r + 1 - wrap32 (sqKTail r - sqKHead r)).

Definition sqPending (r : ring) : Z := wrap32 (sqKTail r - sqKHead r).

(** The slot [prepSqe] hands out. *)
Definition prepSqe (r : ring) : option nat :=
  if sqSpace r <? 1 then None else Some (Z.to_nat (Z.land (sqKTail r) (sqMask r))).

(** [prepSqe], the setters and [sqCommit]: the entry becomes visible with the
    store to the tail. *)
Definition push (sqe : ioUringSqe) (r : ring) : option ring :=
  match prepSqe r with
  | None => None
  | Some i => Some (mkRing (sqMask r) (cqMask r) (sqKHead r) (wrap32 (sqKTail r + 1)) (cqKHead r) (cqKTail r)
                      (sqArray r) (<[i := sqe]> (sqes r)) (cqes r))
  end.

Definition prepAccept (fd ud : Z) (r : ring) : option ring := push (accept_sqe fd ud) r.

Definition prep_buffer (op fd addr len ud : Z) (r : ring) : option ring :=
  if len =? 0 then None else push (buffer_sqe op fd addr (wrap32 len) ud) r.

Definition prepRecv := prep_buffer ioringOpRecv.
Definition prepSend := prep_buffer ioringOpSend.
Definition prepRead := prep_buffer ioringOpRead.

Definition prepClose (fd ud : Z) (r : ring) : option ring := push (close_sqe fd ud) r.

(** The kernel consumes the entry at the head. *)
Definition k_take (r : ring) : option (ioUringSqe * ring) :=
  if sqKHead r =? sqKTail r then None
  else
    match sqArray r !! Z.to_nat (Z.land (sqKHead r) (sqMask r)) with
    | None => None
    | Some i =>
        match sqes r !! Z.to_nat i with
        | None => None
        | Some s => Some (s, mkRing (sqMask r) (cqMask r) (wrap32 (sqKHead r + 1)) (sqKTail r) (cqKHead r) (cqKTail r)
                               (sqArray r) (sqes r) (cqes r))
        end
    end.

(** The kernel posts a completion, if there is room. *)
Definition k_post (c : ioUringCqe) (r : ring) : option ring :=
  if wrap32 (cqKTail r - cqKHead r) <? cqMask r + 1
  then Some (mkRing (sqMask r) (cqMask r) (sqKHead r) (sqKTail r) (cqKHead r) (wrap32 (cqKTail r + 1))
               (sqArray r) (sqes r) (<[Z.to_nat (Z.land (cqKTail r) (cqMask r)) := c]> (cqes r)))
  else None.

(** [drainCQ] reads both counters, walks from one to the other handing the
    entries to its callback, and stores the head after the walk; [head] and
    [tail] are its locals. *)
Record pass := mkPass { p_head : Z; p_tail : Z }.

Definition drain_load (r : ring) : pass := mkPass (cqKHead r) (cqKTail r).

Definition drain_next (r : ring) (p : pass) : option (ioUringCqe * pass) :=
  if p_head p =? p_tail p then None
  else match cqes r !! Z.to_nat (Z.land (p_head p) (cqMask r)) with
       | Some c => Some (c, mkPass (wrap32 (p_head p + 1)) (p_tail p))
       | None => None
       end.

Definition store_cq_head (h : Z) (r : ring) : ring :=
  mkRing (sqMask r) (cqMask r) (sqKHead r) (sqKTail r) h (cqKTail r) (sqArray r) (sqes r) (cqes r).

(** ** Interleavings with the kernel *)

Inductive ring_op :=
| OpPush (s : ioUringSqe) | OpTake
| OpPost (c : ioUringCqe) | OpLoad | OpNext | OpStore.

Inductive ring_obs :=
| Pushed (ok : bool) | Taken (s : option ioUringSqe)
| Posted (ok : bool) | Loaded (n : bool) | Reaped (c : option ioUringCqe) | Stored.

Definition ring_step (st : ring * pass) (op : ring_op) : (ring * pass) * ring_obs :=
  let '(r, p) := st in
  match op with
  | OpPush s => match push s r with Some r' => ((r', p), Pushed true) | None => (st, Pushed false) end
  | OpTake => match k_take r with Some (s, r') => ((r', p), Taken (Some s)) | None => (st, Taken None) end
  | OpPost c => match k_post c r with Some r' => ((r', p), Posted true) | None => (st, Posted false) end
  | OpLoad => let p' := drain_load r in ((r, p'), Loaded (negb (p_head p' =? p_tail p')))
  | OpNext => match drain_next r p with Some (c, p') => ((r, p'), Reaped (Some c)) | None => (st, Reaped None) end
  | OpStore => ((store_cq_head (p_head p) r, p), Stored)
  end.

(** The specification: two bounded queues.  Completions already read but not
    yet released ([q_held]) still occupy their slots; [q_left] is what remains
    of the pass. *)
Record queues := mkQueues {
  q_pend : list ioUringSqe; q_held : list ioUringCqe; q_comp : list ioUringCqe; q_left : nat;
}.

Definition queue_step (nsq ncq : Z) (q : queues) (op : ring_op) : queues * ring_obs :=
  let '(mkQueues pend held comp n) := q in
  match op with
  | OpPush s => if Z.of_nat (length pend) <? nsq
                then (mkQueues (pend ++ [s]) held comp n, Pushed true) else (q, Pushed false)
  | OpTake => match pend with
              | s :: pend' => (mkQueues pend' held comp n, Taken (Some s)) | [] => (q, Taken None)
              end
  | OpPost c => if Z.of_nat (length held + length comp) <? ncq
                then (mkQueues pend held (comp ++ [c]) n, Posted true) else (q, Posted false)
  | OpLoad => (mkQueues pend [] (held ++ comp) (length held + length comp),
               Loaded (match held ++ comp with [] => false | _ => true end))
  | OpNext => match n, comp with
              | S n', c :: comp' => (mkQueues pend (held ++ [c]) comp' n', Reaped (Some c))
              | _, _ => (q, Reaped None)
              end
  | OpStore => (mkQueues pend [] comp n, Stored)
  end.

Fixpoint observe {S : Type} (step : S → ring_op → S * ring_obs) (s : S) (ops : list ring_op) : list ring_obs :=
  match ops with
  | [] => []
  | op :: ops => let '(s', o) := step s op in o :: observe step s' ops
  end.

(** ** Entering the kernel *)

(** Outcomes of one [io_uring_enter]: interrupted, failed, or done, every
    consumed entry executed with the given result. *)
Inductive enter_outcome := EIntr | EFail (errno : Z) | EDone (exec : sqe_view → Z).

(** [n] entries consumed and completed; returns the entries executed. *)
Fixpoint k_run (n : nat) (exec : sqe_view → Z) (r : ring) : list sqe_view * ring :=
  match n with
  | O => ([], r)
  | S n =>
      match k_take r with
      | None => ([], r)
      | Some (s, r1) =>
          let v := view s in
          let r2 := match k_post (mkCqe (v_ud v) (exec v) 0) r1 with Some r2 => r2 | None => r1 end in
          let '(l, r3) := k_run n exec r2 in (v :: l, r3)
      end
  end.

(** [enter]: the system call is repeated while interrupted. *)
Fixpoint enter (toSubmit : nat) (ks : list enter_outcome) (r : ring)
  : option (result Z (list sqe_view) * ring * list enter_outcome) :=
  match ks with
  | [] => None
  | EIntr :: ks => enter toSubmit ks r
  | EFail e :: ks => Some (Err e, r, ks)
  | EDone exec :: ks => let '(l, r') := k_run toSubmit exec r in Some (Ok l, r', ks)
  end.

(** The inner loop of [waitCQE]. *)
Fixpoint wait_scan (fuel : nat) (want : Z) (r : ring) (p : pass) : option (result Z Z) * ring :=
  match fuel with
  | O => (None, r)
  | S fuel =>
      match drain_next r p with
      | None => (None, r)
      | Some (c, p') =>
          let r' := store_cq_head (p_head p') r in
          if negb (cq_UserData c =? want) then wait_scan fuel want r' p'
          else if cq_Res c <? 0 then (Some (Err (- cq_Res c)), r')
          else (Some (Ok (cq_Res c)), r')
      end
  end.

(** [waitCQE]; one round per [enter(0, 1)]. *)
Fixpoint waitCQE (rounds : nat) (want : Z) (ks : list enter_outcome) (r : ring) : option (result Z Z * ring) :=
  match wait_scan (Z.to_nat (cqMask r + 1)) want r (drain_load r) with
  | (Some res, r') => Some (res, r')
  | (None, r') =>
      match rounds with
      | O => None
      | S rounds =>
          match enter 0 ks r' with
          | Some (Ok _, r'', ks') => waitCQE rounds want ks' r''
          | Some (Err e, r'', _) => Some (Err e, r'')
          | None => None
          end
      end
  end.

Definition sqeUserDataHdr : Z := 1.

Inductive send_error := SqFull | SendErrno (e : Z).

(** [sendHeaderOnly] for a header of [len] bytes at [addr]; also returns the
    entries the kernel executed. *)
Definition sendHeaderOnly (ks : list enter_outcome) (sockFd addr len : Z) (r : ring)
  : option (result send_error Z * list sqe_view * ring) :=
  if len =? 0 then Some (Ok 0, [], r)
  else
    match push (write_sqe sockFd addr (wrap32 len) sqeUserDataHdr) r with
    | None => Some (Err SqFull, [], r)
    | Some r1 =>
        match enter 1 ks r1 with
        | None => None
        | Some (Err e, r2, _) => Some (Err (SendErrno e), [], r2)
        | Some (Ok l, r2, ks') =>
            match waitCQE (length ks') sqeUserDataHdr ks' r2 with
            | None => None
            | Some (Ok n, r3) => Some (Ok n, l, r3)
            | Some (Err e, r3) => Some (Err (SendErrno e), l, r3)
            end
        end
    end.

(** ** Circular arrays *)

Definition slot (h mask : Z) (i : nat) : nat := Z.to_nat (Z.land (wrap32 (h + Z.of_nat i)) mask).

(** [l] is stored in [arr] from counter [h] on. *)
Record circ {A} (k : Z) (arr : list A) (h : Z) (l : list A) : Prop := mkCirc {
  c_k : 0 ≤ k ≤ 31;
  c_len : length arr = Z.to_nat (2 ^ k);
  c_head : 0 ≤ h < 2 ^ 32;
  c_fits : Z.of_nat (length l) ≤ 2 ^ k;
  c_at : ∀ i x, l !! i = Some x → arr !! slot h (2 ^ k - 1) i = Some x;
}.

Lemma pow2_bound k : 0 ≤ k ≤ 31 → 1 ≤ 2 ^ k ≤ 2 ^ 31.
Proof. intros. split; [change 1 with (2 ^ 0)|]; apply Z.pow_le_mono_r; lia. Qed.

Lemma slot_mod h k i : 0 ≤ k ≤ 31 → slot h (2 ^ k - 1) i = Z.to_nat ((h + Z.of_nat i) mod 2 ^ k).
Proof.
  intros Hk. unfold slot, wrap32. f_equal.
  replace (2 ^ k - 1) with (Z.ones k) by (rewrite Z.ones_equiv; lia).
  rewrite Z.land_ones by lia. symmetry. apply Znumtheory.Zmod_div_mod; [apply Z.pow_pos_nonneg; lia|lia|].
  exists (2 ^ (32 - k)). rewrite <-Z.pow_add_r by lia. f_equal. lia.
Qed.

Lemma slot_lt h k i : 0 ≤ k ≤ 31 → (slot h (2 ^ k - 1) i < Z.to_nat (2 ^ k))%nat.
Proof.
  intros Hk. rewrite slot_mod by done. pose proof (pow2_bound k Hk).
  pose proof (Z.mod_pos_bound (h + Z.of_nat i) (2 ^ k)). lia.
Qed.

Lemma slot_inj h k i j :
  0 ≤ k ≤ 31 → Z.of_nat i < 2 ^ k → Z.of_nat j < 2 ^ k →
  slot h (2 ^ k - 1) i = slot h (2 ^ k - 1) j → i = j.
Proof.
  intros Hk Hi Hj. rewrite !slot_mod by done. pose proof (pow2_bound k Hk).
  pose proof (Z.mod_pos_bound (h + Z.of_nat i) (2 ^ k)).
  pose proof (Z.mod_pos_bound (h + Z.of_nat j) (2 ^ k)). intros E.
  apply Z2Nat.inj in E; [|lia..].
  pose proof (Z.div_mod (h + Z.of_nat i) (2 ^ k)). pose proof (Z.div_mod (h + Z.of_nat j) (2 ^ k)).
  assert ((h + Z.of_nat i) / 2 ^ k = (h + Z.of_nat j) / 2 ^ k) by nia. nia.
Qed.

Lemma slot_step h mask i : slot (wrap32 (h + 1)) mask i = slot h mask (S i).
Proof. unfold slot, wrap32. rewrite Z.add_mod_idemp_l by lia. do 3 f_equal. lia. Qed.

Lemma wrap32_range z : 0 ≤ wrap32 z < 2 ^ 32.
Proof. apply Z.mod_pos_bound. lia. Qed.

Lemma wrap32_small z : 0 ≤ z < 2 ^ 32 → wrap32 z = z.
Proof. apply Z.mod_small. Qed.

Lemma wrap32_add_l a b : wrap32 (wrap32 a + b) = wrap32 (a + b).
Proof. apply Z.add_mod_idemp_l. lia. Qed.

(** The unsigned difference of the counters is the number of entries. *)
Lemma wrap32_diff h n : 0 ≤ n < 2 ^ 32 → wrap32 (wrap32 (h + n) - h) = n.
Proof.
  intros. unfold wrap32. rewrite Zminus_mod_idemp_l. replace (h + n - h) with n by lia.
  by apply Z.mod_small.
Qed.

Section Circ.
  Context {A : Type} (k : Z) (arr : list A) (h : Z).

Lemma circ_size l : circ k arr h l → 0 ≤ Z.of_nat (length l) < 2 ^ 32.
Proof. intros [Hk _ _ Hf _]. pose proof (pow2_bound k Hk). lia. Qed.

Lemma circ_distance l : circ k arr h l → wrap32 (wrap32 (h + Z.of_nat (length l)) - h) = Z.of_nat (length l).
Proof. intros Hc. apply wrap32_diff, (circ_size l Hc). Qed.

Lemma circ_push l x :
  circ k arr h l → Z.of_nat (length l) < 2 ^ k →
  circ k (<[slot h (2 ^ k - 1) (length l) := x]> arr) h (l ++ [x]).
Proof.
  intros [Hk Hl Hh Hf Hat] Hlt. split; [done|by rewrite length_insert|done|rewrite length_app; simpl; lia|].
  intros i y Hi. apply lookup_app_Some in Hi as [Hi|[Hge Hi]].
  - rewrite list_lookup_insert_ne; [by apply Hat|]. intros E.
    apply lookup_lt_Some in Hi. apply slot_inj in E; lia.
  - apply list_lookup_singleton_Some in Hi as [Hi ->]. replace i with (length l) by lia.
    rewrite list_lookup_insert_eq; [done|]. rewrite Hl. by apply slot_lt.
Qed.

Lemma circ_pop l x :
  circ k arr h (x :: l) → arr !! slot h (2 ^ k - 1) 0 = Some x ∧ circ k arr (wrap32 (h + 1)) l.
Proof.
  intros [Hk Hl Hh Hf Hat]. split; [by apply Hat|].
  split; [done|done|apply wrap32_range|simpl in Hf; lia|].
  intros i y Hi. rewrite slot_step. by apply Hat.
Qed.

Lemma circ_drop l1 l2 :
  circ k arr h (l1 ++ l2) → circ k arr (wrap32 (h + Z.of_nat (length l1))) l2.
Proof.
  intros [Hk Hl Hh Hf Hat]. rewrite length_app in Hf.
  split; [done|done|apply wrap32_range|lia|].
  intros i y Hi. specialize (Hat (length l1 + i)%nat y).
  rewrite lookup_app_r in Hat by lia. replace (length l1 + i - length l1)%nat with i in Hat by lia.
  rewrite <-(Hat Hi). f_equal. unfold slot. rewrite wrap32_add_l. do 3 f_equal. lia.
Qed.

End Circ.

(** The queues a ring and a pass over its completions stand for. *)
Record ring_ok (k j : Z) (r : ring) (p : pass) (q : queues) : Prop := mkRingOk {
  ro_sqmask : sqMask r = 2 ^ k - 1;
  ro_cqmask : cqMask r = 2 ^ j - 1;
  ro_array : sqArray r = Z.of_nat <$> seq 0 (Z.to_nat (2 ^ k));
  ro_sq : circ k (sqes r) (sqKHead r) (q_pend q);
  ro_sqtail : sqKTail r = wrap32 (sqKHead r + Z.of_nat (length (q_pend q)));
  ro_cq : circ j (cqes r) (cqKHead r) (q_held q ++ q_comp q);
  ro_cqtail : cqKTail r = wrap32 (cqKHead r + Z.of_nat (length (q_held q ++ q_comp q)));
  ro_phead : p_head p = wrap32 (cqKHead r + Z.of_nat (length (q_held q)));
  ro_left : (q_left q ≤ length (q_comp q))%nat;
  ro_ptail : p_tail p = wrap32 (p_head p + Z.of_nat (q_left q));
}.

Ltac ring_case H := destruct H as [Hsm Hcm Harr Hsq Hst Hcq Hct Hph Hleft Hpt].

Section RingRefinement.
  Context (k j : Z) (r : ring) (p : pass) (q : queues) (Hok : ring_ok k j r p q).

Lemma space_exact : sqSpace r = 2 ^ k - Z.of_nat (length (q_pend q)).
Proof.
  ring_case Hok. unfold sqSpace. rewrite Hst, (circ_distance k (sqes r)) by done.
  pose proof (c_fits _ _ _ _ Hsq). pose proof (pow2_bound k (c_k _ _ _ _ Hsq)).
  rewrite wrap32_small; lia.
Qed.

Lemma push_refines s :
  match push s r with
  | Some r' => Z.of_nat (length (q_pend q)) < 2 ^ k ∧
               ring_ok k j r' p (mkQueues (q_pend q ++ [s]) (q_held q) (q_comp q) (q_left q))
  | None => 2 ^ k ≤ Z.of_nat (length (q_pend q))
  end.
Proof.
  pose proof space_exact as Hsp. unfold push, prepSqe. rewrite Hsp. ring_case Hok.
  destruct (Z.ltb_spec (2 ^ k - Z.of_nat (length (q_pend q))) 1) as [?|?]; [lia|].
  split; [lia|]. split; cbn [sqMask cqMask sqArray sqes sqKHead sqKTail cqes cqKHead cqKTail q_pend q_held q_comp q_left]; try done.
  - replace (Z.to_nat (Z.land (sqKTail r) (sqMask r)))
      with (slot (sqKHead r) (2 ^ k - 1) (length (q_pend q))) by (unfold slot; by rewrite Hst, Hsm).
    apply circ_push; [done|lia].
  - rewrite Hst, wrap32_add_l, length_app. f_equal. simpl. lia.
Qed.

Lemma take_refines :
  match k_take r, q_pend q with
  | Some (s, r'), s' :: pend => s = s' ∧ ring_ok k j r' p (mkQueues pend (q_held q) (q_comp q) (q_left q))
  | None, [] => True
  | _, _ => False
  end.
Proof.
  ring_case Hok. unfold k_take. pose proof (circ_size _ _ _ _ Hsq) as Hsz.
  pose proof (circ_distance _ _ _ _ Hsq) as Hd. rewrite <-Hst in Hd.
  destruct (Z.eqb_spec (sqKHead r) (sqKTail r)) as [E|E]; destruct (q_pend q) as [|s pend]; try done.
  - rewrite E, Z.sub_diag in Hd. by cbn in Hd.
  - cbn [length] in Hst. rewrite Z.add_0_r, wrap32_small in Hst by apply Hsq. congruence.
  - destruct (circ_pop _ _ _ _ _ Hsq) as [Hx Hsq']. pose proof (c_k _ _ _ _ Hsq) as Hk.
    assert (Hslot : Z.to_nat (Z.land (sqKHead r) (sqMask r)) = slot (sqKHead r) (2 ^ k - 1) 0).
    { unfold slot. rewrite Z.add_0_r, wrap32_small, Hsm by apply Hsq. done. }
    rewrite Hslot, Harr, list_lookup_fmap, lookup_seq_lt by (by apply slot_lt). cbn [fmap option_fmap option_map].
    rewrite Nat.add_0_l, Nat2Z.id, Hx. split; [done|].
    split; cbn [sqMask cqMask sqArray sqes sqKHead sqKTail cqes cqKHead cqKTail q_pend q_held q_comp q_left]; try done.
    rewrite Hst, wrap32_add_l. f_equal. cbn [length]. lia.
Qed.

Lemma post_refines c :
  match k_post c r with
  | Some r' => Z.of_nat (length (q_held q) + length (q_comp q)) < 2 ^ j ∧
               ring_ok k j r' p (mkQueues (q_pend q) (q_held q) (q_comp q ++ [c]) (q_left q))
  | None => 2 ^ j ≤ Z.of_nat (length (q_held q) + length (q_comp q))
  end.
Proof.
  ring_case Hok. unfold k_post. rewrite Hct, (circ_distance j (cqes r)) by done.
  rewrite length_app, Hcm. destruct (Z.ltb_spec (Z.of_nat (length (q_held q) + length (q_comp q))) (2 ^ j - 1 + 1)) as [?|?]; [|lia].
  split; [lia|]. split; cbn [sqMask cqMask sqArray sqes sqKHead sqKTail cqes cqKHead cqKTail q_pend q_held q_comp q_left]; try done.
  - rewrite app_assoc. rewrite <-length_app.
    replace (Z.to_nat _) with (slot (cqKHead r) (2 ^ j - 1) (length (q_held q ++ q_comp q))) by done.
    apply circ_push; [done|]. rewrite length_app. lia.
  - rewrite wrap32_add_l, app_assoc, !length_app. f_equal. simpl. lia.
  - rewrite length_app. lia.
Qed.

Lemma load_refines :
  ring_ok k j r (drain_load r) (mkQueues (q_pend q) [] (q_held q ++ q_comp q) (length (q_held q) + length (q_comp q))) ∧
  (cqKHead r =? cqKTail r) = match q_held q ++ q_comp q with [] => true | _ => false end.
Proof.
  ring_case Hok. pose proof (c_head _ _ _ _ Hcq). split.
  - split; cbn [q_pend q_held q_comp q_left p_head p_tail drain_load app length]; try done.
    + by rewrite Z.add_0_r, wrap32_small.
    + rewrite length_app. lia.
    + by rewrite Hct, length_app.
  - pose proof (circ_distance _ _ _ _ Hcq) as Hd. rewrite <-Hct in Hd.
    destruct (q_held q ++ q_comp q) as [|c l]; destruct (Z.eqb_spec (cqKHead r) (cqKTail r)) as [E|E]; try done.
    + cbn [length] in Hct. rewrite Z.add_0_r, wrap32_small in Hct by done. congruence.
    + rewrite E, Z.sub_diag in Hd. by cbn in Hd.
Qed.

Lemma next_refines :
  match drain_next r p, q_left q, q_comp q with
  | Some (c, p'), S n, c' :: comp => c = c' ∧ ring_ok k j r p' (mkQueues (q_pend q) (q_held q ++ [c]) comp n)
  | None, O, _ => True
  | _, _, _ => False
  end.
Proof.
  ring_case Hok. unfold drain_next. pose proof (circ_drop _ _ _ _ _ Hcq) as Hd. rewrite <-Hph in Hd.
  pose proof (circ_size _ _ _ _ Hd) as Hsz.
  assert (Hdist : wrap32 (p_tail p - p_head p) = Z.of_nat (q_left q)) by (rewrite Hpt; apply wrap32_diff; lia).
  destruct (Z.eqb_spec (p_head p) (p_tail p)) as [E|E].
  - rewrite E, Z.sub_diag in Hdist. destruct (q_left q); [done|by cbn in Hdist].
  - destruct (q_left q) as [|n] eqn:Hn.
    { rewrite Z.add_0_r, wrap32_small in Hpt; [congruence|]. rewrite Hph. apply wrap32_range. }
    destruct (q_comp q) as [|c comp] eqn:Hc; [cbn in Hleft; lia|].
    destruct (circ_pop _ _ _ _ _ Hd) as [Hx _].
    replace (Z.to_nat (Z.land (p_head p) (cqMask r))) with (slot (p_head p) (2 ^ j - 1) 0).
    2: { unfold slot. rewrite Z.add_0_r, wrap32_small, Hcm by (rewrite Hph; apply wrap32_range). done. }
    rewrite Hx. split; [done|].
    split; cbn [q_pend q_held q_comp q_left p_head p_tail]; rewrite <-?app_assoc; try done.
    + rewrite Hph, wrap32_add_l, length_app. f_equal. simpl. lia.
    + cbn [length] in Hleft. lia.
    + rewrite Hpt, wrap32_add_l. f_equal. lia.
Qed.

Lemma store_refines :
  ring_ok k j (store_cq_head (p_head p) r) p (mkQueues (q_pend q) [] (q_comp q) (q_left q)).
Proof.
  ring_case Hok. pose proof (circ_drop _ _ _ _ _ Hcq) as Hd. rewrite <-Hph in Hd.
  split; cbn [store_cq_head sqMask cqMask sqArray sqes sqKHead sqKTail cqes cqKHead cqKTail q_pend q_held q_comp q_left app length]; try done.
  - rewrite Hct, Hph, length_app, wrap32_add_l. f_equal. lia.
  - rewrite Z.add_0_r, wrap32_small; [done|]. apply Hd.
Qed.

End RingRefinement.

Lemma ring_step_refines k j r p q op :
  ring_ok k j r p q →
  ring_ok k j (ring_step (r, p) op).1.1 (ring_step (r, p) op).1.2 (queue_step (2 ^ k) (2 ^ j) q op).1 ∧
  (ring_step (r, p) op).2 = (queue_step (2 ^ k) (2 ^ j) q op).2.
Proof.
  intros Hok. destruct op as [s| |c| | |]; unfold ring_step.
  - pose proof (push_refines k j r p q Hok s) as H. destruct q as [pend held comp n].
    cbn [q_pend q_held q_comp q_left queue_step] in *.
    destruct (Z.ltb_spec (Z.of_nat (length pend)) (2 ^ k)) as [?|?], (push s r); destruct_and?; (done || lia).
  - pose proof (take_refines k j r p q Hok) as H. destruct q as [pend held comp n].
    cbn [q_pend q_held q_comp q_left queue_step] in *.
    destruct (k_take r) as [[s r']|], pend as [|s' pend]; try done. by destruct H as [-> H].
  - pose proof (post_refines k j r p q Hok c) as H. destruct q as [pend held comp n].
    cbn [q_pend q_held q_comp q_left queue_step] in *.
    destruct (Z.ltb_spec (Z.of_nat (length held + length comp)) (2 ^ j)) as [?|?], (k_post c r); destruct_and?; (done || lia).
  - destruct (load_refines k j r p q Hok) as [H1 H2]. destruct q as [pend held comp n].
    cbn [q_pend q_held q_comp q_left queue_step drain_load p_head p_tail fst snd] in *. split; [done|].
    rewrite H2. by destruct (held ++ comp).
  - pose proof (next_refines k j r p q Hok) as H. destruct q as [pend held comp n].
    cbn [q_pend q_held q_comp q_left queue_step] in *.
    destruct (drain_next r p) as [[c p']|], n as [|n], comp as [|c' comp]; try done. by destruct H as [-> H].
  - pose proof (store_refines k j r p q Hok) as H. by destruct q.
Qed.

Lemma observe_refines k j ops r p q :
  ring_ok k j r p q → observe ring_step (r, p) ops = observe (queue_step (2 ^ k) (2 ^ j)) q ops.
Proof.
  revert r p q; induction ops as [|op ops IH]; intros r p q Hok; cbn [observe]; [done|].
  destruct (ring_step_refines k j r p q op Hok) as [H1 H2].
  destruct (ring_step (r, p) op) as [[r' p'] o], (queue_step (2 ^ k) (2 ^ j) q op) as [q' o'].
  cbn [fst snd] in *. rewrite H2. f_equal. by apply IH.
Qed.

(** The size check accepts exactly the powers of two. *)
Lemma newIoUringRing_pow2 n m r :
  0 ≤ n < 2 ^ 32 → newIoUringRing n m = Some r → ∃ k, 0 ≤ k ≤ 31 ∧ n = 2 ^ k.
Proof.
  unfold newIoUringRing. intros Hn. case_match eqn:Hb; [done|intros _].
  apply orb_false_iff in Hb as [H0 Hb]. apply Z.eqb_neq in H0. apply negb_false_iff, Z.eqb_eq in Hb.
  rewrite wrap32_small in Hb by lia. exists (Z.log2 n).
  destruct (Z.log2_spec n ltac:(lia)) as [Hlo Hhi].
  assert (0 ≤ Z.log2 n) by apply Z.log2_nonneg.
  assert (Z.log2 n < 32) by (apply Z.log2_lt_pow2; lia). split; [lia|].
  destruct (decide (n = 2 ^ Z.log2 n)) as [|Hne]; [done|exfalso].
  assert (Hl : Z.log2 (n - 1) = Z.log2 n) by (apply Z.log2_unique; lia).
  assert (Z.testbit (Z.land n (n - 1)) (Z.log2 n) = true) as Ht.
  { rewrite Z.land_spec, Z.bit_log2 by lia. rewrite <-Hl at 1. rewrite Z.bit_log2; [done|].
    assert (1 ≤ 2 ^ Z.log2 n) by (change 1 with (2 ^ 0); apply Z.pow_le_mono_r; lia). lia. }
  by rewrite Hb, Z.bits_0 in Ht.
Qed.

Definition empty_queues : queues := mkQueues [] [] [] 0.

Lemma circ_nil {A} k (x : A) : 0 ≤ k ≤ 31 → circ k (replicate (Z.to_nat (2 ^ k)) x) 0 [].
Proof. intros Hk. pose proof (pow2_bound k Hk). split; rewrite ?length_replicate; cbn [length]; try done; lia. Qed.

Lemma new_ring_ok n j r :
  0 ≤ n < 2 ^ 32 → 0 ≤ j ≤ 31 → newIoUringRing n (2 ^ j) = Some r →
  ∃ k, 0 ≤ k ≤ 31 ∧ n = 2 ^ k ∧ ring_ok k j r (mkPass 0 0) empty_queues.
Proof.
  intros Hn Hj Hr. destruct (newIoUringRing_pow2 n _ r Hn Hr) as (k & Hk & ->). exists k.
  split_and!; [lia..|done|]. unfold newIoUringRing in Hr. case_match; [done|]. injection Hr as <-.
  split; cbn [sqMask cqMask sqArray sqes sqKHead sqKTail cqes cqKHead cqKTail empty_queues q_pend q_held q_comp q_left p_head p_tail app length];
    try done; by apply circ_nil.
Qed.

(** *** Entries *)

Lemma le_round n v : le_value (le_bytes n v) = v mod 256 ^ Z.of_nat n.
Proof.
  revert v; induction n as [|n IH]; intros v; cbn [le_bytes le_value]; [by rewrite Z.mod_1_r|].
  rewrite IH, Nat2Z.inj_succ, Z.pow_succ_r by lia. rewrite Z.rem_mul_r by lia. done.
Qed.

Lemma le_round_1 v : le_value [v mod 256] = v mod 256.
Proof. cbn [le_value]. lia. Qed.

Lemma view_buffer op fd addr len ud :
  view (buffer_sqe op fd addr len ud) =
  mkView (op mod 256) 0 (fd mod 2 ^ 32) 0 (addr mod 2 ^ 64) (len mod 2 ^ 32) 0 (ud mod 2 ^ 64) 0.
Proof.
  change (2 ^ 32) with (256 ^ Z.of_nat 4). change (2 ^ 64) with (256 ^ Z.of_nat 8). rewrite <-!le_round, <-le_round_1.
  reflexivity.
Qed.

Lemma view_write fd addr len ud :
  view (write_sqe fd addr len ud) =
  mkView ioringOpWrite 0 (fd mod 2 ^ 32) 0 (addr mod 2 ^ 64) (len mod 2 ^ 32) 0 (ud mod 2 ^ 64) 0.
Proof.
  change (2 ^ 32) with (256 ^ Z.of_nat 4). change (2 ^ 64) with (256 ^ Z.of_nat 8). rewrite <-!le_round. reflexivity.
Qed.

Lemma view_accept fd ud :
  view (accept_sqe fd ud) = mkView ioringOpAccept 0 (fd mod 2 ^ 32) 0 0 0 SOCK_CLOEXEC (ud mod 2 ^ 64) 0.
Proof.
  change (2 ^ 32) with (256 ^ Z.of_nat 4). change (2 ^ 64) with (256 ^ Z.of_nat 8). rewrite <-!le_round. reflexivity.
Qed.

Lemma view_close fd ud :
  view (close_sqe fd ud) = mkView ioringOpClose 0 (fd mod 2 ^ 32) 0 0 0 0 (ud mod 2 ^ 64) 0.
Proof.
  change (2 ^ 32) with (256 ^ Z.of_nat 4). change (2 ^ 64) with (256 ^ Z.of_nat 8). rewrite <-!le_round. reflexivity.
Qed.

(** *** Sending a head *)

Definition head_write (h : Z * Z * Z) : ioUringSqe :=
  let '(fd, addr, len) := h in write_sqe fd addr (wrap32 len) sqeUserDataHdr.

Lemma head_write_ud h : v_ud (view (head_write h)) = sqeUserDataHdr.
Proof. destruct h as [[fd addr] len]. unfold head_write. by rewrite view_write. Qed.

Lemma enter_intr n m ks r : enter n (replicate m EIntr ++ ks) r = enter n ks r.
Proof. induction m as [|m IH]; [done|exact IH]. Qed.

(** One completion with the awaited tag is found at once. *)
Lemma waitCQE_ready k j rounds want ks r p P c n :
  ring_ok k j r p (mkQueues P [] [c] n) → cq_UserData c = want →
  ∃ r' p', waitCQE rounds want ks r = Some (if cq_Res c <? 0 then Err (- cq_Res c) else Ok (cq_Res c), r') ∧
           ring_ok k j r' p' (mkQueues P [] [] 0).
Proof.
  intros Hok Hw. destruct (load_refines k j r p _ Hok) as [Hl _]. cbn [q_pend q_held q_comp app length Nat.add] in Hl.
  pose proof (next_refines k j r _ _ Hl) as Hn. cbn [q_left q_comp q_pend q_held] in Hn.
  destruct (drain_next r (drain_load r)) as [[c' p']|] eqn:Hd; [|done]. destruct Hn as [-> Hn].
  pose proof (store_refines k j r p' _ Hn) as Hs. cbn [q_left q_comp q_pend q_held] in Hs.
  exists (store_cq_head (p_head p') r), p'. split; [|exact Hs].
  pose proof (pow2_bound j (c_k _ _ _ _ (ro_cq _ _ _ _ _ Hok))) as Hj.
  destruct (Z.to_nat (cqMask r + 1)) as [|f] eqn:Hf.
  { rewrite (ro_cqmask _ _ _ _ _ Hok) in Hf. lia. }
  destruct rounds; cbn [waitCQE]; rewrite Hf; cbn [wait_scan]; rewrite Hd, Hw, Z.eqb_refl; cbn [negb];
    by destruct (cq_Res c <? 0).
Qed.

(** The kernel executes the oldest queued entry. *)
Lemma k_run_one k j exec r p s P n :
  ring_ok k j r p (mkQueues (s :: P) [] [] n) →
  ∃ r', k_run 1 exec r = ([view s], r') ∧
        ring_ok k j r' p (mkQueues P [] [mkCqe (v_ud (view s)) (exec (view s)) 0] n).
Proof.
  intros Hok. pose proof (take_refines k j r p _ Hok) as Ht. cbn [q_pend q_held q_comp q_left] in Ht.
  cbn [k_run]. destruct (k_take r) as [[s' r1]|]; [|done]. destruct Ht as [-> H1].
  pose proof (post_refines k j r1 p _ H1 (mkCqe (v_ud (view s)) (exec (view s)) 0)) as Hp.
  cbn [q_pend q_held q_comp q_left app length Nat.add] in Hp.
  pose proof (pow2_bound j (c_k _ _ _ _ (ro_cq _ _ _ _ _ Hok))).
  destruct (k_post _ r1) as [r2|]; [|lia]. exists r2. by split; [|apply Hp].
Qed.

(** A call whose [enter] fails leaves its entry queued. *)
Lemma failed_send k j r p P n fd addr len m e ks :
  ring_ok k j r p (mkQueues P [] [] n) → len ≠ 0 → Z.of_nat (length P) < 2 ^ k →
  ∃ r', sendHeaderOnly (replicate m EIntr ++ EFail e :: ks) fd addr len r = Some (Err (SendErrno e), [], r') ∧
        ring_ok k j r' p (mkQueues (P ++ [head_write (fd, addr, len)]) [] [] n).
Proof.
  intros Hok Hlen HP. unfold sendHeaderOnly. rewrite (proj2 (Z.eqb_neq _ _) Hlen).
  pose proof (push_refines k j r p _ Hok (head_write (fd, addr, len))) as Hpush.
  cbn [q_pend q_held q_comp q_left] in Hpush. change (write_sqe _ _ _ _) with (head_write (fd, addr, len)).
  destruct (push _ r) as [r1|]; [|lia]. rewrite enter_intr. cbn [enter].
  exists r1. by split; [|apply Hpush].
Qed.

Lemma send_oldest k j r p P n fd addr len m exec ks :
  ring_ok k j r p (mkQueues P [] [] n) → len ≠ 0 → Z.of_nat (length P) < 2 ^ k →
  Forall (λ s, v_ud (view s) = sqeUserDataHdr) P →
  ∃ v r' p',
    view <$> head (P ++ [head_write (fd, addr, len)]) = Some v ∧
    sendHeaderOnly (replicate m EIntr ++ EDone exec :: ks) fd addr len r =
      Some (if exec v <? 0 then Err (SendErrno (- exec v)) else Ok (exec v), [v], r') ∧
    ring_ok k j r' p' (mkQueues (tail (P ++ [head_write (fd, addr, len)])) [] [] 0).
Proof.
  intros Hok Hlen HP Hud. unfold sendHeaderOnly. rewrite (proj2 (Z.eqb_neq _ _) Hlen).
  pose proof (push_refines k j r p _ Hok (head_write (fd, addr, len))) as Hpush.
  cbn [q_pend q_held q_comp q_left] in Hpush. change (write_sqe _ _ _ _) with (head_write (fd, addr, len)).
  destruct (push _ r) as [r1|]; [|lia]. destruct Hpush as [_ H1]. rewrite enter_intr. cbn [enter].
  assert (Hall : Forall (λ s, v_ud (view s) = sqeUserDataHdr) (P ++ [head_write (fd, addr, len)])).
  { apply Forall_app. split; [done|]. apply Forall_singleton, head_write_ud. }
  destruct (P ++ [head_write (fd, addr, len)]) as [|s Q] eqn:HQ; [by destruct P|]. clear HQ.
  apply Forall_cons in Hall as [Hs _].
  destruct (k_run_one k j exec r1 p s Q n H1) as (r2 & Hrun & H2). rewrite Hrun.
  destruct (waitCQE_ready k j (length ks) sqeUserDataHdr ks r2 p Q _ n H2 Hs) as (r3 & p3 & Hw & H3).
  rewrite Hw. cbn [cq_Res] in *. exists (view s), r3, p3. split_and!; [done| |exact H3].
  by destruct (exec (view s) <? 0).
Qed.

(** Calls made one after the other on a ring. *)
Fixpoint sends (calls : list (list enter_outcome * (Z * Z * Z))) (r : ring)
  : list (option (result send_error Z * list sqe_view)) * ring :=
  match calls with
  | [] => ([], r)
  | (ks, (fd, addr, len)) :: calls =>
      match sendHeaderOnly ks fd addr len r with
      | None => ([None], r)
      | Some (res, l, r') => let '(out, r'') := sends calls r' in (Some (res, l) :: out, r'')
      end
  end.

(** Calls whose [enter] fails with the given error numbers. *)
Definition failing (f : (Z * Z * Z) * Z) : list enter_outcome * (Z * Z * Z) := ([EFail f.2], f.1).

Lemma failing_sends k j fs calls r p P n :
  ring_ok k j r p (mkQueues P [] [] n) → Forall (λ f : (Z * Z * Z) * Z, f.1.2 ≠ 0) fs →
  Z.of_nat (length P + length fs) < 2 ^ k →
  ∃ r', sends ((failing <$> fs) ++ calls) r =
          (((λ f : (Z * Z * Z) * Z, Some (Err (SendErrno f.2), [])) <$> fs) ++ (sends calls r').1, (sends calls r').2) ∧
        ring_ok k j r' p (mkQueues (P ++ (head_write ∘ fst <$> fs)) [] [] n).
Proof.
  revert r P. induction fs as [|[[[fd addr] len] e] fs IH]; intros r P Hok Hall Hlt.
  - exists r. rewrite app_nil_r. split; [|exact Hok]. cbn [fmap list_fmap app]. by destruct (sends calls r).
  - apply Forall_cons in Hall as [Hlen Hall]. cbn [fst snd length] in *.
    destruct (failed_send k j r p P n fd addr len 0 e [] Hok Hlen ltac:(lia)) as (r1 & Hs & H1).
    cbn [replicate app] in Hs.
    destruct (IH r1 _ H1 Hall ltac:(rewrite length_app; cbn [length]; lia)) as (r2 & Hrun & H2).
    exists r2. split.
    + cbn [fmap list_fmap failing app sends fst snd]. rewrite Hs. by rewrite Hrun.
    + rewrite <-app_assoc in H2. exact H2.
Qed.

(** ** The main results *)

(** C23: a ring made by [newIoUringRing] behaves, under every interleaving of
    the program's pushes and completion passes with the kernel's consumption and
    posting, exactly as two bounded first-in first-out queues: nothing is lost,
    duplicated or reordered, a push is refused exactly when the queue is full,
    and a completion being read is never overwritten, also when the 32-bit
    counters wrap around. *)
Theorem ring_refines_queues n j r ops :
  0 ≤ n < 2 ^ 32 → 0 ≤ j ≤ 31 → newIoUringRing n (2 ^ j) = Some r →
  observe ring_step (r, mkPass 0 0) ops = observe (queue_step n (2 ^ j)) empty_queues ops.
Proof.
  intros Hn Hj Hr. destruct (new_ring_ok n j r Hn Hj Hr) as (k & Hk & -> & Hok). by apply observe_refines.
Qed.

Definition demo_ring : ring := default (mkRing 0 0 0 0 0 0 [] [] []) (newIoUringRing 2 4).

Definition demo_ring_ops : list ring_op :=
  [OpPush (close_sqe 5 1); OpPush (close_sqe 6 2); OpPush (close_sqe 7 3); OpTake; OpPush (close_sqe 7 3);
   OpTake; OpTake; OpTake; OpPost (mkCqe 1 0 0); OpLoad; OpPost (mkCqe 2 0 0); OpNext; OpNext; OpStore; OpLoad; OpNext].

Lemma ring_refines_queues_witness :
  observe ring_step (demo_ring, mkPass 0 0) demo_ring_ops = observe (queue_step 2 4) empty_queues demo_ring_ops.
Proof.
  apply (ring_refines_queues 2 2 demo_ring demo_ring_ops); [lia|lia|reflexivity].
Defined.

(** every prepared entry reaches the kernel with the operation, descriptor,
    buffer and tag that were asked for, whatever the slot held before; values
    are reduced to the width of their field. *)
Theorem prepared_entries_exact op fd addr len ud :
  view (buffer_sqe op fd addr len ud) =
    mkView (op mod 256) 0 (fd mod 2 ^ 32) 0 (addr mod 2 ^ 64) (len mod 2 ^ 32) 0 (ud mod 2 ^ 64) 0 ∧
  view (write_sqe fd addr len ud) =
    mkView ioringOpWrite 0 (fd mod 2 ^ 32) 0 (addr mod 2 ^ 64) (len mod 2 ^ 32) 0 (ud mod 2 ^ 64) 0 ∧
  view (accept_sqe fd ud) = mkView ioringOpAccept 0 (fd mod 2 ^ 32) 0 0 0 SOCK_CLOEXEC (ud mod 2 ^ 64) 0 ∧
  view (close_sqe fd ud) = mkView ioringOpClose 0 (fd mod 2 ^ 32) 0 0 0 0 (ud mod 2 ^ 64) 0.
Proof. auto using view_buffer, view_write, view_accept, view_close. Qed.

(** on a fresh ring, a header send whose [enter] succeeds executes exactly
    one write, that of the oldest call not yet submitted, and returns its
    result.  With no earlier failure this is the caller's own write.  After
    calls whose [enter] failed it is the write of the first of those, to that
    call's socket and from that call's memory, and the caller's own stays
    queued. *)
Theorem send_executes_oldest n j r fs fd addr len m exec :
  0 ≤ n < 2 ^ 32 → 0 ≤ j ≤ 31 → newIoUringRing n (2 ^ j) = Some r →
  Forall (λ f : (Z * Z * Z) * Z, f.1.2 ≠ 0) fs → Z.of_nat (length fs) < n → len ≠ 0 →
  ∃ v, view <$> head ((head_write ∘ fst <$> fs) ++ [head_write (fd, addr, len)]) = Some v ∧
    (sends ((failing <$> fs) ++ [(replicate m EIntr ++ [EDone exec], (fd, addr, len))]) r).1 =
    ((λ f : (Z * Z * Z) * Z, Some (Err (SendErrno f.2), [])) <$> fs) ++
    [Some (if exec v <? 0 then Err (SendErrno (- exec v)) else Ok (exec v), [v])].
Proof.
  intros Hn Hj Hr Hall Hlt Hlen. destruct (new_ring_ok n j r Hn Hj Hr) as (k & Hk & -> & Hok).
  destruct (failing_sends k j fs [(replicate m EIntr ++ [EDone exec], (fd, addr, len))] r _ [] 0 Hok Hall Hlt)
    as (r1 & Hrun & H1).
  destruct (send_oldest k j r1 _ _ 0 fd addr len m exec [] H1 Hlen) as (v & r2 & p2 & Hv & Hs & H2).
  - rewrite app_nil_l, length_fmap. exact Hlt.
  - apply Forall_forall. intros s (f & -> & _)%list_elem_of_fmap. apply head_write_ud.
  - exists v. split; [exact Hv|]. rewrite Hrun. cbn [sends]. by rewrite Hs.
Qed.

(** Two connections share a ring.  The head for socket 7 fails to be submitted;
    the call for socket 9 then writes socket 7's memory to socket 7 and reports
    200 bytes sent. *)
Lemma send_executes_oldest_witness :
  ∃ v, view <$> head [head_write (7, 4096, 200); head_write (9, 8192, 300)] = Some v ∧
    (sends [([EFail 17], (7, 4096, 200)); ([EDone v_len], (9, 8192, 300))] demo_ring).1 =
    [Some (Err (SendErrno 17), []);
     Some (if v_len v <? 0 then Err (SendErrno (- v_len v)) else Ok (v_len v), [v])].
Proof.
  apply (send_executes_oldest 2 2 demo_ring [(7, 4096, 200, 17)] 9 8192 300 0 v_len);
    [lia|lia|reflexivity|by repeat constructor|cbn; lia|lia].
Defined.
