(* ===== verification/SendFile.v ===== *)
(** * Sending a warm response (src/internal/coreserver/sendfile_unix.go,
    sendfile_with_header_other.go, iouring_linux.go, iouring_reactor_linux.go,
    write_deadline.go and the tail of tryServeWarm in server.go)

    The head and the wanted part of the body file go to the socket through
    write(2), sendfile(2), an io_uring or a copy loop.  Every system call is
    driven by a script of outcomes: bytes accepted, would block, interrupted,
    failed.  The results say which bytes reach the socket for every script. *)

From stdpp Require Import base strings numbers gmap list.
From S2P Require Import Prelude GoStd Spans Sha256 CacheKey Lru Store StoreTrace MetaLru StoreBytes HttpParser RespHead RespWriter Warm.

Local Open Scope Z_scope.

Inductive sys_event :=
| SysN (w : nat)             (* the call transfers up to [w + 1] bytes *)
| SysAgain (ready : bool)    (* EAGAIN; the poller then reports writability, or the deadline passes *)
| SysIntr
| SysErr (errno : Z).

Inductive io_error := Errno (e : Z) | DeadlineExceeded | UnexpectedEOF | ClientStalled | ShortWrite | IoUringUnavailable.

Definition window (file : bytes) (off n : Z) : bytes := take (Z.to_nat n) (drop (Z.to_nat off) file).

(** What a transfer did: bytes put on the wire, count returned, error, and the
    outcomes left for later calls. *)
Record sent := mkSent { s_wire : bytes; s_count : Z; s_err : option io_error; s_rest : list sys_event }.

Definition is_error (s : sent) : bool := match s_err s with Some _ => true | None => false end.

(** *** Slices *)

Definition midSendfileChunk : Z := 16 * 2 ^ 20.
Definition elephantSendfileChunk : Z := 32 * 2 ^ 20.
Definition elephantSendfileThresh : Z := 32 * 2 ^ 20.
Definition smallSendfileSingleshot : Z := 4 * 2 ^ 20.

Definition maxSendfileSlice (total remaining : Z) : Z :=
  let max := if total <=? smallSendfileSingleshot then total
             else if total >? elephantSendfileThresh then elephantSendfileChunk else midSendfileChunk in
  if remaining <? max then remaining else max.

(** *** Transfer loops *)

Section Loop.
  (** [slice]: bytes asked for in the next call; [eof]: the error for a call
      that transfers nothing; [stall]: the error after EAGAIN, [None] to go on. *)
  Context (slice : Z → Z) (eof : option io_error) (stall : bool → option io_error).
  Context (src : bytes).

Fixpoint transfer (evs : list sys_event) (off n transferred : Z) : option sent :=
  if n <=? transferred then Some (mkSent [] transferred None evs)
  else
    match evs with
    | [] => None
    | SysN w :: evs =>
        let offset := off + transferred in
        let wrote := Z.max 0 (Z.of_nat (S w) `min` slice (n - transferred) `min` (Z.of_nat (length src) - offset)) in
        if wrote =? 0 then Some (mkSent [] transferred eof evs)
        else match transfer evs off n (transferred + wrote) with
             | Some r => Some (mkSent (window src offset wrote ++ s_wire r) (s_count r) (s_err r) (s_rest r))
             | None => None
             end
    | SysAgain ready :: evs =>
        match stall ready with
        | None => transfer evs off n transferred
        | Some e => Some (mkSent [] transferred (Some e) evs)
        end
    | SysIntr :: evs => transfer evs off n transferred
    | SysErr e :: evs => Some (mkSent [] transferred (Some (Errno e)) evs)
    end.

End Loop.

(** EAGAIN under a [syscall.RawConn]: the callback returns false and is called
    again once the socket is writable; a passed deadline ends the operation. *)
Definition poll_wait (ready : bool) : option io_error := if ready then None else Some DeadlineExceeded.

Definition sendFileViaRaw (evs : list sys_event) (file : bytes) (off n : Z) : option sent :=
  transfer (maxSendfileSlice n) None poll_wait file evs off n 0.

(** The reactor's sockets block, with a send timeout. *)
Definition reactorSendfile (evs : list sys_event) (file : bytes) (off n : Z) : option sent :=
  transfer (maxSendfileSlice n) (Some UnexpectedEOF) (λ _, Some ClientStalled) file evs off n 0.

Definition writeHeader (evs : list sys_event) (header : bytes) : option sent :=
  transfer id None poll_wait header evs 0 (Z.of_nat (length header)) 0.

(** [net.Conn]'s Write. *)
Definition conn_Write (evs : list sys_event) (p : bytes) : option sent :=
  transfer id (Some UnexpectedEOF) poll_wait p evs 0 (Z.of_nat (length p)) 0.

Definition sendFileWithHeaderViaRaw (evs : list sys_event) (file : bytes) (off n : Z) (header : bytes) : option sent :=
  match writeHeader evs header with
  | None => None
  | Some h =>
      match s_err h with
      | Some e => Some (mkSent (s_wire h) 0 (Some e) (s_rest h))
      | None =>
          match sendFileViaRaw (s_rest h) file off n with
          | None => None
          | Some b => Some (mkSent (s_wire h ++ s_wire b) (s_count b) (s_err b) (s_rest b))
          end
      end
  end.

(** [hdr]: the ring's answer for the head, the bytes its WRITE put on the wire
    or an error; [None] when there is no pool. *)
Definition sendFileWithHeaderViaIoUring (hdr : option (result io_error nat)) (evs : list sys_event)
    (file : bytes) (off n : Z) (header : bytes) : option sent :=
  match hdr with
  | None => Some (mkSent [] 0 (Some IoUringUnavailable) evs)
  | Some r =>
      let head := if (length header =? 0)%nat then Ok O else r in
      match head with
      | Err e => Some (mkSent [] 0 (Some e) evs)
      | Ok w =>
          if negb (w =? length header)%nat then Some (mkSent (take w header) (Z.of_nat w) (Some ShortWrite) evs)
          else
            match sendFileViaRaw evs file off n with
            | None => None
            | Some b =>
                match s_err b with
                | Some e => Some (mkSent (header ++ s_wire b) (Z.of_nat w) (Some e) (s_rest b))
                | None =>
                    let total := Z.of_nat w + s_count b in
                    Some (mkSent (header ++ s_wire b) total
                            (if negb (total =? Z.of_nat (length header) + n) then Some ShortWrite else None) (s_rest b))
                end
            end
      end
  end.

(** *** The copy fallback *)

Record fileSection := mkSection { sec_off : Z; sec_end : Z }.

Definition section_reset (off n : Z) : fileSection := mkSection off (off + n).

(** [Read] with a buffer of [len] bytes; the flag is io.EOF. *)
Definition section_Read (file : bytes) (s : fileSection) (len : Z) : bytes * bool * fileSection :=
  if sec_end s <=? sec_off s then ([], true, s)
  else
    let max := sec_end s - sec_off s in
    let len := if len >? max then max else len in
    let data := window file (sec_off s) len in
    let n := Z.of_nat (length data) in
    let s' := mkSection (sec_off s + n) (sec_end s) in
    (data, (n <? len) || (sec_end s <=? sec_off s'), s').

(** [io.CopyBuffer] from the section to the connection. *)
Fixpoint copy_section (fuel : nat) (evs : list sys_event) (file : bytes) (buf : Z) (s : fileSection) : option sent :=
  match fuel with
  | O => None
  | S fuel =>
      let '(data, eof, s') := section_Read file s buf in
      match conn_Write evs data with
      | None => None
      | Some w =>
          if is_error w then Some w
          else if eof then Some w
          else match copy_section fuel (s_rest w) file buf s' with
               | None => None
               | Some r => Some (mkSent (s_wire w ++ s_wire r) (s_count w + s_count r) (s_err r) (s_rest r))
               end
      end
  end.

(** *** The tail of [tryServeWarm] *)

(** What is at hand: a raw connection, a descriptor for the body, the rings. *)
Record transport := mkTransport {
  t_connRaw : bool; t_fd : bool; t_ioUringReady : bool; t_hdr : option (result io_error nat); t_buf : Z;
}.

(** Head and body of the range from [a] to [b].  The io_uring attempt comes
    first when the rings are up; without a raw connection or a descriptor the
    head is flushed and the copy fallback runs. *)
Definition send_warm (t : transport) (evs : list sys_event) (head file : bytes) (a b : Z) : option sent :=
  let n := b - a in
  if t_connRaw t && t_fd t then
    if t_ioUringReady t then
      match sendFileWithHeaderViaIoUring (t_hdr t) evs file a n head with
      | None => None
      | Some u =>
          if is_error u then
            match sendFileWithHeaderViaRaw (s_rest u) file a n head with
            | None => None
            | Some r => Some (mkSent (s_wire u ++ s_wire r) (s_count r) (s_err r) (s_rest r))
            end
          else Some u
      end
    else sendFileWithHeaderViaRaw evs file a n head
  else
    (* bw.Flush, then errNotTCP *)
    match conn_Write evs head with
    | None => None
    | Some h =>
        if is_error h then Some h
        else if n >? 0 then
          match copy_section (S (Z.to_nat n)) (s_rest h) file (t_buf t) (section_reset a n) with
          | None => None
          | Some r => Some (mkSent (s_wire h ++ s_wire r) (s_count r) (s_err r) (s_rest r))
          end
        else Some (mkSent (s_wire h) 0 None (s_rest h))
    end.

(** *** The write-deadline pump *)

Record pump := mkPump { pm_last : Z; pm_deadline : Z }.

(** One tick of the pump's timer: [cur] is the progress counter. *)
Definition pump_tick (writeTimeout : Z) (p : pump) (tick : Z * Z) : pump :=
  let '(now, cur) := tick in
  if negb (cur =? pm_last p) then mkPump cur (now + writeTimeout) else p.

Definition pump_run (writeTimeout : Z) (p : pump) (ticks : list (Z * Z)) : pump :=
  foldl (pump_tick writeTimeout) p ticks.

Definition warmDeadlinePumpThreshold : Z := 32 * 2 ^ 20.

(** ** Windows of a file *)

Lemma window_length file off n :
  0 ≤ off → 0 ≤ n → off + n ≤ Z.of_nat (length file) → Z.of_nat (length (window file off n)) = n.
Proof. intros. unfold window. rewrite length_take, length_drop. lia. Qed.

Lemma window_app file off n m :
  0 ≤ off → 0 ≤ n → 0 ≤ m → window file off n ++ window file (off + n) m = window file off (n + m).
Proof.
  intros. unfold window. rewrite !Z2Nat.inj_add by lia. rewrite <-drop_drop.
  by rewrite take_take_drop.
Qed.

Lemma window_all (l : bytes) : window l 0 (Z.of_nat (length l)) = l.
Proof. unfold window. rewrite Nat2Z.id, firstn_all. done. Qed.

Lemma window_prefix file off n m : n ≤ m → window file off n `prefix_of` window file off m.
Proof. intros. unfold window.
  replace (Z.to_nat m) with (Z.to_nat n + (Z.to_nat m - Z.to_nat n))%nat by lia.
  rewrite <-take_take_drop. by eexists. Qed.

(** ** Transfers *)

Definition data_events (evs : list sys_event) : Z :=
  Z.of_nat (length (filter (λ e, match e with SysN _ => true | _ => false end = true) evs)).

Lemma data_events_cons e evs :
  data_events (e :: evs) = (match e with SysN _ => 1 | _ => 0 end) + data_events evs.
Proof. unfold data_events. rewrite filter_cons. destruct e; [rewrite decide_True by done|rewrite decide_False by done..]; cbn [length]; lia. Qed.

Section LoopFacts.
  Context (slice : Z → Z) (eof : option io_error) (stall : bool → option io_error) (src : bytes).
  Context (n : Z) (Hslice : ∀ m, 0 < m ≤ n → 0 < slice m ≤ m).

(** Bytes leave in order and without gaps, and the count is exact. *)
Lemma transfer_exact evs off t r :
  0 ≤ off → 0 ≤ t ≤ n → transfer slice eof stall src evs off n t = Some r →
  t ≤ s_count r ≤ n ∧ s_wire r = window src (off + t) (s_count r - t) ∧
  Z.of_nat (length (s_wire r)) = s_count r - t ∧
  (s_err r = None → s_count r = n ∨ eof = None ∧ Z.of_nat (length src) ≤ off + s_count r).
Proof.
  intros Hoff. revert t r. induction evs as [|e evs IH]; intros t r Ht; cbn [transfer];
    destruct (Z.leb_spec n t) as [Hnt|Hnt]; try done;
    try (intros [= <-]; cbn [s_count s_wire s_err]; rewrite Z.sub_diag; split_and!; [lia..|done|done|intros; left; lia]).
  destruct e as [w|ready| |e].
  - set (wrote := Z.max 0 _). pose proof (Hslice (n - t) ltac:(lia)) as Hs.
    assert (Hw : wrote ≤ n - t ∧ (wrote = 0 → Z.of_nat (length src) ≤ off + t) ∧ (0 < wrote → off + t + wrote ≤ Z.of_nat (length src))) by lia.
    destruct (Z.eqb_spec wrote 0) as [E|E].
    + intros [= <-]. cbn [s_count s_wire s_err]. rewrite Z.sub_diag. split_and!; [lia..|done|done|].
      intros ->. right. split; [done|]. lia.
    + destruct (transfer slice eof stall src evs off n (t + wrote)) as [r'|] eqn:Hr; [|done].
      intros [= <-]. cbn [s_count s_wire s_err]. assert (0 ≤ t + wrote ≤ n) as Htw by lia.
      destruct (IH _ _ Htw Hr) as (H1 & H2 & H3 & H4).
      split_and!; [lia|lia| |rewrite length_app, Nat2Z.inj_add, H3, window_length; lia|done].
      rewrite H2. replace (off + (t + wrote)) with (off + t + wrote) by lia.
      rewrite window_app by lia. f_equal. lia.
  - destruct (stall ready); [|by apply IH]. intros [= <-]. cbn [s_count s_wire s_err].
    rewrite Z.sub_diag. by split_and!; [lia..| | |].
  - by apply IH.
  - intros [= <-]. cbn [s_count s_wire s_err]. rewrite Z.sub_diag. by split_and!; [lia..| | |].
Qed.

(** Nothing fails and no wait times out. *)
Definition calm (evs : list sys_event) : Prop :=
  Forall (λ e, match e with SysErr _ => False | SysAgain ready => stall ready = None | _ => True end) evs.

Lemma transfer_completes evs off t :
  0 ≤ off → 0 ≤ t ≤ n → off + n ≤ Z.of_nat (length src) → calm evs → n - t ≤ data_events evs →
  ∃ r, transfer slice eof stall src evs off n t = Some r ∧ s_count r = n ∧ s_err r = None ∧
       calm (s_rest r) ∧ data_events evs - (n - t) ≤ data_events (s_rest r).
Proof.
  intros Hoff. revert t. induction evs as [|e evs IH]; intros t Ht Hsrc Hc Hd; cbn [transfer];
    destruct (Z.leb_spec n t) as [Hnt|Hnt];
    try (eexists; split; [done|]; cbn [s_count s_err s_rest]; split_and!; [lia|done|done|lia]).
  { unfold data_events in Hd. cbn in Hd. lia. }
  rewrite data_events_cons in *. apply Forall_cons in Hc as [He Hc]. destruct e as [w|ready| |e].
  - set (wrote := Z.max 0 _). pose proof (Hslice (n - t) ltac:(lia)) as Hs.
    assert (0 < wrote ≤ n - t) by lia. destruct (Z.eqb_spec wrote 0) as [E|E]; [lia|].
    destruct (IH (t + wrote)) as (r & -> & H1 & H2 & H3 & H4); [lia|lia|done|lia|].
    eexists. split; [done|]. cbn [s_count s_err s_rest]. split_and!; [done|done|done|lia].
  - rewrite He. destruct (IH t) as (r & -> & H1 & H2 & H3 & H4); [lia|lia|done|lia|].
    eexists. split_and!; try done; lia.
  - destruct (IH t) as (r & -> & H1 & H2 & H3 & H4); [lia|lia|done|lia|].
    eexists. split_and!; try done; lia.
  - done.
Qed.

End LoopFacts.

Lemma maxSendfileSlice_bounds total remaining :
  0 < remaining ≤ total → 0 < maxSendfileSlice total remaining ≤ remaining.
Proof.
  unfold maxSendfileSlice, smallSendfileSingleshot, elephantSendfileThresh, elephantSendfileChunk, midSendfileChunk.
  intros. cbv zeta. repeat case_match; lia.
Qed.

(** ** Each way of sending *)

(** What a transfer of [full] may have done: a prefix is out, all of it when no
    error is reported. *)
Definition delivers (full : bytes) (r : sent) : Prop :=
  s_wire r `prefix_of` full ∧ (s_err r = None → s_wire r = full).

Lemma delivers_app head full h b :
  s_wire h = head → delivers full b →
  delivers (head ++ full) (mkSent (s_wire h ++ s_wire b) (s_count b) (s_err b) (s_rest b)).
Proof. intros <- [Hp Hn]. split; cbn [s_wire s_err]; [by apply prefix_app|]. intros E. by rewrite (Hn E). Qed.

Lemma delivers_prefix head full h c :
  delivers head h → s_err h ≠ None → delivers (head ++ full) (mkSent (s_wire h) c (s_err h) (s_rest h)).
Proof. intros [Hp _] He. split; cbn [s_wire s_err]; [by apply prefix_app_r|done]. Qed.

Lemma id_slice n m : 0 < m ≤ n → 0 < id m ≤ m.
Proof. unfold id. lia. Qed.

(** Writing a byte string whole. *)
Lemma transfer_buffer eof evs p r :
  transfer id eof poll_wait p evs 0 (Z.of_nat (length p)) 0 = Some r →
  delivers p r ∧ Z.of_nat (length (s_wire r)) = s_count r.
Proof.
  intros Hr. destruct (transfer_exact id eof poll_wait p (Z.of_nat (length p)) (id_slice _) evs 0 0 r) as ([H0 H1] & H2 & H3 & H4); [lia|lia|done|].
  rewrite Z.sub_0_r in *. rewrite Z.add_0_l in *. split; [|lia]. split.
  - rewrite H2. apply prefix_take.
  - intros E. rewrite H2. replace (s_count r) with (Z.of_nat (length p)); [apply window_all|]. destruct (H4 E) as [?|[_ ?]]; lia.
Qed.

Section Body.
  Context (file : bytes) (a n : Z) (Ha : 0 ≤ a) (Hn : 0 ≤ n) (Hfile : a + n ≤ Z.of_nat (length file)).

Lemma body_exact evs r :
  sendFileViaRaw evs file a n = Some r →
  delivers (window file a n) r ∧ Z.of_nat (length (s_wire r)) = s_count r ∧ (s_err r = None → s_count r = n).
Proof.
  intros Hr. destruct (transfer_exact (maxSendfileSlice n) None poll_wait file n
    (λ m Hm, maxSendfileSlice_bounds n m Hm) evs a 0 r) as ([H0 H1] & H2 & H3 & H4); [lia|lia|exact Hr|].
  rewrite Z.sub_0_r in *. rewrite Z.add_0_r in *.
  assert (s_err r = None → s_count r = n) as Hall by (intros E; destruct (H4 E) as [?|[_ ?]]; lia).
  split_and!; [split|lia|done].
  - rewrite H2. by apply window_prefix.
  - intros E. by rewrite H2, (Hall E).
Qed.

Lemma raw_exact evs head r :
  sendFileWithHeaderViaRaw evs file a n head = Some r → delivers (head ++ window file a n) r.
Proof.
  unfold sendFileWithHeaderViaRaw. destruct (writeHeader evs head) as [h|] eqn:Hh; [|done].
  destruct (transfer_buffer _ _ _ _ Hh) as [Hd _]. destruct (s_err h) as [e|] eqn:He.
  - intros [= <-]. rewrite <-He. apply delivers_prefix; [done|]. by rewrite He.
  - destruct (sendFileViaRaw (s_rest h) file a n) as [b|] eqn:Hb; [|done]. intros [= <-].
    apply delivers_app; [by apply Hd|]. by destruct (body_exact _ _ Hb).
Qed.

Lemma uring_exact hdr evs head r :
  sendFileWithHeaderViaIoUring hdr evs file a n head = Some r → delivers (head ++ window file a n) r.
Proof.
  unfold sendFileWithHeaderViaIoUring. destruct hdr as [hdr|].
  2: { intros [= <-]. split; [apply prefix_nil|done]. }
  destruct (if (length head =? 0)%nat then Ok O else hdr) as [w|e].
  2: { intros [= <-]. split; [apply prefix_nil|done]. }
  destruct (Nat.eqb_spec w (length head)) as [->|Hw]; cbn [negb].
  2: { intros [= <-]. split; [|done]. cbn [s_wire]. apply prefix_app_r, prefix_take. }
  destruct (sendFileViaRaw evs file a n) as [b|] eqn:Hb; [|done].
  destruct (body_exact _ _ Hb) as ([Hp Hf] & _ & Hc). destruct (s_err b) as [e|].
  - intros [= <-]. split; [by apply prefix_app|done].
  - intros [= <-]. split; cbn [s_wire]; [by apply prefix_app|]. intros _. by rewrite Hf.
Qed.

End Body.

(** The copy loop sends the rest of its section. *)
Lemma section_Read_spec file off fin buf data eof s' :
  0 ≤ off ≤ fin → fin ≤ Z.of_nat (length file) → 0 < buf →
  section_Read file (mkSection off fin) buf = (data, eof, s') →
  ∃ n, s' = mkSection (off + n) fin ∧ 0 ≤ n ∧ off + n ≤ fin ∧ data = window file off n ∧
       Z.of_nat (length data) = n ∧ eof = (fin <=? off + n) ∧ (off < fin → 0 < n).
Proof.
  intros Ho Hf Hb. unfold section_Read. cbn [sec_off sec_end]. destruct (Z.leb_spec fin off) as [Hle|Hlt].
  { intros [= <- <- <-]. exists 0. rewrite Z.add_0_r. split_and!; try done; lia. }
  cbv zeta. set (len := if buf >? fin - off then fin - off else buf).
  assert (0 < len ≤ fin - off) by (unfold len; destruct (Z.gtb_spec buf (fin - off)); lia).
  rewrite window_length by lia. intros [= <- <- <-]. exists len. rewrite window_length by lia.
  rewrite Z.ltb_irrefl, orb_false_l. split_and!; try done; lia.
Qed.

Lemma copy_exact fuel evs file buf off fin r :
  0 ≤ off ≤ fin → fin ≤ Z.of_nat (length file) → 0 < buf →
  copy_section fuel evs file buf (mkSection off fin) = Some r →
  delivers (window file off (fin - off)) r.
Proof.
  revert evs off r. induction fuel as [|fuel IH]; intros evs off r Ho Hf Hb; cbn [copy_section]; [done|].
  destruct (section_Read file (mkSection off fin) buf) as [[data eof] s'] eqn:Hr.
  destruct (section_Read_spec _ _ _ _ _ _ _ Ho Hf Hb Hr) as (n & -> & H0 & Hle & -> & Hlen & -> & _).
  destruct (conn_Write evs (window file off n)) as [w|] eqn:Hw; [|done].
  destruct (transfer_buffer _ _ _ _ Hw) as [[Hp Hall] _].
  replace (window file off (fin - off)) with (window file off n ++ window file (off + n) (fin - (off + n))).
  2: { rewrite window_app by lia. f_equal. lia. }
  unfold is_error. destruct (s_err w) as [e|] eqn:He.
  { intros [= <-]. split; [by apply prefix_app_r|]. by rewrite He. }
  destruct (Z.leb_spec fin (off + n)) as [Hd|Hd].
  - intros [= <-]. replace (fin - (off + n)) with 0 by lia. unfold window at 2. rewrite app_nil_r. split; [done|intros _; by apply Hall].
  - destruct (copy_section fuel (s_rest w) file buf (mkSection (off + n) fin)) as [r'|] eqn:Hc; [|done].
    intros [= <-]. apply IH in Hc; [|lia|done|done]. destruct Hc as [Hp' Hf']. split; cbn [s_wire s_err].
    + rewrite (Hall eq_refl). by apply prefix_app.
    + intros E. by rewrite (Hall eq_refl), (Hf' E).
Qed.

(** ** Completion *)

Lemma body_completes evs file a n :
  0 ≤ a → 0 ≤ n → a + n ≤ Z.of_nat (length file) → calm poll_wait evs → n ≤ data_events evs →
  ∃ r, sendFileViaRaw evs file a n = Some r ∧ s_count r = n ∧ s_err r = None.
Proof.
  intros Ha Hn Hf Hc Hd.
  destruct (transfer_completes (maxSendfileSlice n) None poll_wait file n
    (λ m Hm, maxSendfileSlice_bounds n m Hm) evs a 0) as (r & Hr & H1 & H2 & _); [lia|lia|done|done|lia|].
  by exists r.
Qed.

Lemma buffer_completes eof evs p :
  calm poll_wait evs → Z.of_nat (length p) ≤ data_events evs →
  ∃ r, transfer id eof poll_wait p evs 0 (Z.of_nat (length p)) 0 = Some r ∧ s_err r = None ∧
       calm poll_wait (s_rest r) ∧ data_events evs - Z.of_nat (length p) ≤ data_events (s_rest r).
Proof.
  intros Hc Hd. destruct (transfer_completes id eof poll_wait p (Z.of_nat (length p)) (id_slice _) evs 0 0)
    as (r & Hr & _ & H2 & H3 & H4); [lia|lia|lia|done|lia|]. exists r. split_and!; [done..|lia].
Qed.

Lemma raw_completes evs head file a n :
  0 ≤ a → 0 ≤ n → a + n ≤ Z.of_nat (length file) → calm poll_wait evs →
  Z.of_nat (length head) + n ≤ data_events evs →
  ∃ r, sendFileWithHeaderViaRaw evs file a n head = Some r ∧ s_err r = None.
Proof.
  intros Ha Hn Hf Hc Hd. destruct (buffer_completes None evs head Hc ltac:(lia)) as (h & Hh & He & Hc' & Hd').
  unfold sendFileWithHeaderViaRaw, writeHeader. rewrite Hh, He.
  destruct (body_completes (s_rest h) file a n Ha Hn Hf Hc' ltac:(lia)) as (b & -> & _ & Hb). eauto.
Qed.

Lemma uring_completes evs head file a n :
  0 ≤ a → 0 ≤ n → a + n ≤ Z.of_nat (length file) → calm poll_wait evs → n ≤ data_events evs →
  ∃ r, sendFileWithHeaderViaIoUring (Some (Ok (length head))) evs file a n head = Some r ∧ s_err r = None.
Proof.
  intros Ha Hn Hf Hc Hd. unfold sendFileWithHeaderViaIoUring.
  assert ((if (length head =? 0)%nat then Ok O else Ok (E := io_error) (length head)) = Ok (length head)) as ->.
  { by destruct head. }
  rewrite Nat.eqb_refl. cbn [negb].
  destruct (body_completes evs file a n Ha Hn Hf Hc Hd) as (b & -> & H1 & ->). eexists. split; [done|].
  cbn [s_err]. by rewrite H1, Z.eqb_refl.
Qed.

Lemma copy_completes fuel evs file buf off fin :
  0 ≤ off ≤ fin → fin ≤ Z.of_nat (length file) → 0 < buf → (Z.to_nat (fin - off) < fuel)%nat →
  calm poll_wait evs → fin - off ≤ data_events evs →
  ∃ r, copy_section fuel evs file buf (mkSection off fin) = Some r ∧ s_err r = None.
Proof.
  revert evs off. induction fuel as [|fuel IH]; intros evs off Ho Hf Hb Hfuel Hc Hd; cbn [copy_section]; [lia|].
  destruct (section_Read file (mkSection off fin) buf) as [[data eof] s'] eqn:Hr.
  destruct (section_Read_spec _ _ _ _ _ _ _ Ho Hf Hb Hr) as (n & -> & H0 & Hle & -> & Hlen & -> & Hpos).
  destruct (buffer_completes (Some UnexpectedEOF) evs (window file off n) Hc ltac:(lia)) as (w & Hw & He & Hc' & Hd').
  unfold conn_Write, is_error. rewrite Hw, He. destruct (Z.leb_spec fin (off + n)) as [Hx|Hx]; [eauto|].
  destruct (IH (s_rest w) (off + n)) as (r & -> & Hr'); [lia|done|done|lia|done|lia|]. eauto.
Qed.

(** The io_uring attempt cannot fail before the copy over raw descriptors
    starts: the rings are off, or the head goes out whole. *)
Definition head_goes_out (t : transport) (head : bytes) : Prop :=
  t_connRaw t && t_fd t && t_ioUringReady t = true → t_hdr t = Some (Ok (length head)).

(** The bytes of an io_uring attempt that failed. *)
Definition failed_attempt (t : transport) (evs : list sys_event) (head file : bytes) (a b : Z) : bytes :=
  if t_connRaw t && t_fd t && t_ioUringReady t then
    match sendFileWithHeaderViaIoUring (t_hdr t) evs file a (b - a) head with
    | Some u => if is_error u then s_wire u else []
    | None => []
    end
  else [].

Section Warm.
  Context (t : transport) (evs : list sys_event) (head file : bytes) (a b : Z).
  Context (Hab : 0 ≤ a ≤ b) (Hfile : b ≤ Z.of_nat (length file)) (Hbuf : 0 < t_buf t).

Lemma send_warm_delivers r :
  send_warm t evs head file a b = Some r →
  ∃ out, s_wire r = failed_attempt t evs head file a b ++ out ∧
         out `prefix_of` head ++ window file a (b - a) ∧
         (s_err r = None → out = head ++ window file a (b - a)).
Proof.
  unfold send_warm, failed_attempt, is_error. destruct (t_connRaw t && t_fd t); cbn [andb].
  - destruct (t_ioUringReady t).
    + destruct (sendFileWithHeaderViaIoUring (t_hdr t) evs file a (b - a) head) as [u|] eqn:Hu; [|done].
      pose proof (uring_exact file a (b - a) ltac:(lia) ltac:(lia) ltac:(lia) _ _ _ _ Hu) as Hd.
      destruct Hd as [Hdp Hdf]. destruct (s_err u) eqn:He; [|intros [= <-]; exists (s_wire u); rewrite He; auto].
      destruct (sendFileWithHeaderViaRaw (s_rest u) file a (b - a) head) as [r'|] eqn:Hr; [|done].
      pose proof (raw_exact file a (b - a) ltac:(lia) ltac:(lia) ltac:(lia) _ _ _ Hr) as [Hp Hf].
      intros [= <-]. by exists (s_wire r').
    + intros Hr. pose proof (raw_exact file a (b - a) ltac:(lia) ltac:(lia) ltac:(lia) _ _ _ Hr) as [Hp Hf]. by exists (s_wire r).
  - destruct (conn_Write evs head) as [h|] eqn:Hh; [|done].
    destruct (transfer_buffer _ _ _ _ Hh) as [[Hp Hf] _].
    destruct (s_err h) as [e|] eqn:He.
    { intros [= <-]. exists (s_wire h). split_and!; [done|by apply prefix_app_r|by rewrite He]. }
    specialize (Hf eq_refl). destruct (Z.gtb_spec (b - a) 0) as [Hpos|Hz].
    + destruct (copy_section _ (s_rest h) file (t_buf t) (section_reset a (b - a))) as [r'|] eqn:Hc; [|done].
      unfold section_reset in Hc. replace (a + (b - a)) with b in Hc by lia.
      destruct (copy_exact _ _ _ _ _ _ _ Hab Hfile Hbuf Hc) as [Hp' Hf'].
      intros [= <-]. exists (s_wire h ++ s_wire r'). cbn [s_wire s_err]. rewrite Hf.
      split_and!; [done|by apply prefix_app|intros E; by rewrite Hf'].
    + intros [= <-]. exists (s_wire h). cbn [s_wire s_err]. replace (b - a) with 0 by lia.
      split_and!; [done|by apply prefix_app_r|]. intros _. by rewrite Hf, app_nil_r.
Qed.

Lemma send_warm_completes :
  head_goes_out t head → calm poll_wait evs → Z.of_nat (length head) + (b - a) ≤ data_events evs →
  ∃ r, send_warm t evs head file a b = Some r ∧ s_wire r = head ++ window file a (b - a).
Proof.
  intros Hhd Hc Hd.
  assert (failed_attempt t evs head file a b = [] ∧ ∃ r, send_warm t evs head file a b = Some r ∧ s_err r = None) as [Hfa (r & Hr & He)].
  { unfold head_goes_out, send_warm, failed_attempt, is_error in *. destruct (t_connRaw t && t_fd t); cbn [andb] in *.
    - destruct (t_ioUringReady t); [|split; [done|by apply raw_completes; try lia]].
      rewrite Hhd by done. destruct (uring_completes evs head file a (b - a)) as (r & -> & He); [lia|lia|lia|done|lia|].
      rewrite He. eauto.
    - split; [done|]. destruct (buffer_completes (Some UnexpectedEOF) evs head Hc ltac:(lia)) as (h & Hh & He & Hc' & Hd').
      unfold conn_Write. rewrite Hh, He. destruct (Z.gtb_spec (b - a) 0) as [Hpos|Hz]; [|eauto].
      destruct (copy_completes (S (Z.to_nat (b - a))) (s_rest h) file (t_buf t) a (a + (b - a)))
        as (r & Hr & Her); [lia|lia|done|lia|done|lia|]. unfold section_reset. rewrite Hr. eauto. }
  exists r. split; [done|]. destruct (send_warm_delivers r Hr) as (out & -> & _ & Hout). by rewrite Hfa, Hout.
Qed.

End Warm.

(** ** The deadline pump *)

Lemma pump_snoc wt p ticks tick : pump_run wt p (ticks ++ [tick]) = pump_tick wt (pump_run wt p ticks) tick.
Proof. unfold pump_run. by rewrite foldl_app. Qed.

(** The deadline is one timeout after the last tick that saw progress; ticks
    without progress leave it, so a client that stalls is cut. *)
Theorem pump_idle_deadline wt p ticks :
  pm_deadline (pump_run wt p ticks) = pm_deadline p ∧ Forall (λ tk, tk.2 = pm_last p) ticks ∨
  ∃ before now cur after,
    ticks = before ++ (now, cur) :: after ∧ cur ≠ pm_last (pump_run wt p before) ∧
    Forall (λ tk, tk.2 = cur) after ∧ pm_last (pump_run wt p ticks) = cur ∧
    pm_deadline (pump_run wt p ticks) = now + wt.
Proof.
  assert (Hnone : ∀ l, Forall (λ tk, tk.2 = pm_last p) l → pump_run wt p l = p).
  { intros l Hl. induction l as [|[n c] l IH] using rev_ind; [done|]. apply Forall_app in Hl as [Hl Hc].
    pose proof (proj1 (Forall_singleton _ _) Hc) as Hc'. cbn in Hc'. rewrite pump_snoc, IH by done. unfold pump_tick. rewrite Hc'. by rewrite Z.eqb_refl. }
  induction ticks as [|[now cur] ticks IH] using rev_ind; [by left|]. rewrite pump_snoc. unfold pump_tick.
  destruct (Z.eqb_spec cur (pm_last (pump_run wt p ticks))) as [E|E]; cbn [negb].
  - destruct IH as [[Hd Hf]|(b & n & c & l & -> & Hc & Hf & Hl & Hd)].
    + left. split; [done|]. apply Forall_app. split; [done|]. apply Forall_singleton. cbn. rewrite E. by rewrite (Hnone ticks Hf).
    + right. exists b, n, c, (l ++ [(now, cur)]). rewrite <-app_assoc. split_and!; try done.
      apply Forall_app. split; [done|]. apply Forall_singleton. cbn. congruence.
  - right. exists ticks, now, cur, []. by split_and!.
Qed.

(** ** The main results *)

(** whatever way a warm response is sent and however the system calls
    behave, the bytes that reach the socket are those of an io_uring attempt
    that failed, if there was one, followed by a prefix of the head and the
    wanted range of the file, which is complete unless an error ended it. *)
Theorem warm_bytes_in_order t evs head file a b r :
  0 ≤ a ≤ b → b ≤ Z.of_nat (length file) → 0 < t_buf t →
  send_warm t evs head file a b = Some r →
  ∃ out, s_wire r = failed_attempt t evs head file a b ++ out ∧
         out `prefix_of` head ++ window file a (b - a) ∧
         (s_err r = None → out = head ++ window file a (b - a)).
Proof. intros Hab Hf Hb. exact (send_warm_delivers t evs head file a b Hab Hf Hb r). Qed.

Definition raw_transport : transport := mkTransport true true false None 65536.

(** A ring write of the head that stops after 3 bytes. *)
Definition short_ring : transport := mkTransport true true true (Some (Ok 3%nat)) 65536.

Lemma warm_bytes_in_order_witness :
  ∃ out, s_wire (mkSent (bs "HEAHEADcde") 3 None []) =
           failed_attempt short_ring [SysN 9; SysN 1; SysN 9] (bs "HEAD") (bs "abcdefgh") 2 5 ++ out ∧
         out `prefix_of` bs "HEAD" ++ window (bs "abcdefgh") 2 (5 - 2) ∧
         (s_err (mkSent (bs "HEAHEADcde") 3 None []) = None → out = bs "HEAD" ++ window (bs "abcdefgh") 2 (5 - 2)).
Proof.
  apply (warm_bytes_in_order short_ring [SysN 9; SysN 1; SysN 9] (bs "HEAD") (bs "abcdefgh") 2 5);
    [lia|vm_compute; discriminate|reflexivity|reflexivity].
Defined.

(** After a short ring write the whole head is sent again: the response on the
    wire is not the one that was rendered. *)
Theorem short_ring_write_duplicates :
  s_wire <$> send_warm short_ring [SysN 9; SysN 9] (bs "HEAD") (bs "abcdefgh") 2 5 = Some (bs "HEAHEADcde") ∧
  s_wire <$> send_warm raw_transport [SysN 9; SysN 9] (bs "HEAD") (bs "abcdefgh") 2 5 = Some (bs "HEADcde").
Proof. split; reflexivity. Qed.

Section Delivered.
Context {C : Type} `{MetaCache C} `{GoUnicode}.
Context (victim : CacheKey.KeyHexCache → bytes).


End Delivered.

#[local] Existing Instance ascii_unicode.

Definition busy_socket : list sys_event := [SysIntr; SysAgain true] ++ replicate 600 (SysN 6).

Lemma busy_socket_facts :
  match tryServeWarm first_key true hub ∅ warm_store (file_request (bs "bytes=6-")) with
  | (Some w, _, s') =>
      bool_decide (w_start w = 6 ∧ w_end w = 11
        ∧ (int64_min ≤ warm_total (w_meta w) ∧ warm_total (w_meta w) ≤ int64_max) ∧ meta_clean (w_meta w)
        ∧ (length (head_full (file_request (bs "bytes=6-")) (w_meta w) (w_start w) (w_end w)) ≤ headerBufSize)%nat
        ∧ (bodies s' !! w_cachekey w ≫= λ i, inodes s' !! i) = Some hello
        ∧ Z.of_nat (length (w_headbytes w)) + (w_end w - w_start w) ≤ data_events busy_socket)
  | _ => false
  end = true.
Proof. vm_compute. reflexivity. Qed.

