(* ===== verification/Platform.v ===== *)
(** * The Darwin sender and the shared listeners
    (src/internal/coreserver/sendfile_darwin.go, listener.go)

    On Darwin one sendfile(2) call ships the rest of the head and of the body;
    the call's in/out length counts both.  [sfHdtrState_write] is the callback
    of [connRaw.Write], run until it reports completion.  [NewReuseportListeners]
    opens several sockets on one address or none. *)

From stdpp Require Import base strings numbers gmap list.
From S2P Require Import Prelude GoStd SendFile.

Local Open Scope Z_scope.

(** ** One fused call *)

(** The kernel's answer: how many bytes it queued, at most, and the errno.  A
    call that succeeds moves at least one byte unless the file has ended. *)
Inductive fused_event :=
| FusedOk (w : nat)                    (* up to [w + 1] bytes *)
| FusedAgain (w : nat) (ready : bool)  (* EAGAIN; the poller then reports writability, or the deadline passes *)
| FusedIntr (w : nat)
| FusedErr (w : nat) (errno : Z).

Definition fused_max (e : fused_event) : Z :=
  match e with
  | FusedOk w => Z.of_nat (S w)
  | FusedAgain w _ | FusedIntr w | FusedErr w _ => Z.of_nat w
  end.

Record sfHdtrState := mkHdtr { st_headerSent : Z; st_bodySent : Z }.

Section darwin.
Context (file : bytes) (off bodyTotal : Z) (header : bytes).

Definition headerRemaining (st : sfHdtrState) : Z := Z.of_nat (length header) - st_headerSent st.
Definition bodyRemaining (st : sfHdtrState) : Z := bodyTotal - st_bodySent st.

(** The bytes the call may ship, head first: the file may end early. *)
Definition fused_bytes (st : sfHdtrState) : bytes :=
  drop (Z.to_nat (st_headerSent st)) header ++ window file (off + st_bodySent st) (bodyRemaining st).

(** [*len] on return. *)
Definition fused_shipped (st : sfHdtrState) (e : fused_event) : Z :=
  fused_max e `min` Z.of_nat (length (fused_bytes st)).

Definition fused_account (st : sfHdtrState) (totalShipped : Z) : sfHdtrState :=
  if totalShipped >? 0 then
    if totalShipped >=? headerRemaining st
    then mkHdtr (Z.of_nat (length header)) (st_bodySent st + (totalShipped - headerRemaining st))
    else mkHdtr (st_headerSent st + totalShipped) (st_bodySent st)
  else st.

(** The loop, over the kernel's answers; a callback that returned false is
    called again with the same state once the socket is writable. *)
Fixpoint sfHdtrState_write (evs : list fused_event) (st : sfHdtrState) : option (bytes * sfHdtrState * option io_error) :=
  if (st_bodySent st <? bodyTotal) || (st_headerSent st <? Z.of_nat (length header)) then
    if headerRemaining st + bodyRemaining st <=? 0 then Some ([], st, None)
    else
      match evs with
      | [] => None
      | e :: evs =>
          let shipped := fused_shipped st e in
          let out := take (Z.to_nat shipped) (fused_bytes st) in
          let st' := fused_account st shipped in
          let more := match sfHdtrState_write evs st' with
                      | Some (out', st'', err) => Some (out ++ out', st'', err)
                      | None => None
                      end in
          match e with
          | FusedOk _ => if shipped =? 0 then Some (out, st', None) else more
          | FusedAgain _ ready => if ready then more else Some (out, st', Some DeadlineExceeded)
          | FusedIntr _ => more
          | FusedErr _ errno => Some (out, st', Some (Errno errno))
          end
      end
  else Some ([], st, None).

(** The body bytes sent, and the callback's error before the poller's. *)
Definition sendFileWithHeader_darwin (evs : list fused_event) : option (bytes * Z * option io_error) :=
  match sfHdtrState_write evs (mkHdtr 0 0) with
  | Some (out, st, err) => Some (out, st_bodySent st, err)
  | None => None
  end.

(** ** What is sent *)

Hypothesis (Hoff : 0 ≤ off) (Hn : 0 ≤ bodyTotal).

Local Notation hlen := (Z.of_nat (length header)).

Definition st_ok (st : sfHdtrState) : Prop :=
  0 ≤ st_headerSent st ≤ hlen ∧ 0 ≤ st_bodySent st ≤ bodyTotal ∧ (0 < st_bodySent st → st_headerSent st = hlen).

(** Bytes acknowledged so far, of head and body together. *)
Definition position (st : sfHdtrState) : Z := st_headerSent st + st_bodySent st.

Lemma fused_bytes_rest st :
  st_ok st → fused_bytes st = drop (Z.to_nat (position st)) (header ++ window file off bodyTotal).
Proof.
  intros (Hh & Hb & Hc). unfold fused_bytes, bodyRemaining, position. rewrite drop_app.
  assert (window file (off + st_bodySent st) (bodyTotal - st_bodySent st)
          = drop (Z.to_nat (st_bodySent st)) (window file off bodyTotal)) as ->.
  { unfold window. rewrite skipn_firstn_comm, drop_drop. f_equal; [lia|]. f_equal. lia. }
  destruct (decide (st_bodySent st = 0)) as [E|E].
  - rewrite E, Z.add_0_r. f_equal. by replace (Z.to_nat (st_headerSent st) - length header)%nat with 0%nat by lia.
  - rewrite (Hc ltac:(lia)). rewrite (drop_ge header (Z.to_nat hlen)), (drop_ge header) by lia.
    by replace (Z.to_nat (hlen + st_bodySent st) - length header)%nat with (Z.to_nat (st_bodySent st)) by lia.
Qed.

Lemma fused_account_ok st k :
  st_ok st → 0 ≤ k ≤ Z.of_nat (length (fused_bytes st)) →
  st_ok (fused_account st k) ∧ position (fused_account st k) = position st + k.
Proof.
  intros (Hh & Hb & Hc) Hk. unfold fused_bytes, window in Hk.
  rewrite length_app, length_drop, length_take, length_drop in Hk.
  unfold fused_account, position, headerRemaining, bodyRemaining in *.
  destruct (Z.gtb_spec k 0); [|split; [done|lia]].
  destruct (Z.geb_spec k (hlen - st_headerSent st)); unfold st_ok; cbn; split_and!; lia.
Qed.

Lemma fused_shipped_bounds st e : 0 ≤ fused_shipped st e ≤ Z.of_nat (length (fused_bytes st)).
Proof. unfold fused_shipped. destruct e; cbn [fused_max]; lia. Qed.

(** Nothing is owed once the loop's condition fails. *)
Lemma loop_done st :
  st_ok st → (st_bodySent st <? bodyTotal) || (st_headerSent st <? hlen) = false → position st = hlen + bodyTotal.
Proof.
  intros (? & ? & ?) [Hb Hh]%orb_false_iff. apply Z.ltb_ge in Hb, Hh. unfold position. lia.
Qed.

Lemma owed_not_done st :
  st_ok st → off + bodyTotal ≤ Z.of_nat (length file) → length (fused_bytes st) = 0%nat → position st = hlen + bodyTotal.
Proof.
  intros Hst Hfile Hl. pose proof Hst as (? & ? & ?). rewrite fused_bytes_rest, length_drop, length_app in Hl by done.
  pose proof (window_length file off bodyTotal Hoff Hn Hfile). unfold position in *. lia.
Qed.

(** Between two states the wire gets exactly the bytes between their positions;
    with no error and a file that is long enough, that is all of them. *)
Lemma darwin_loop_exact evs st out st' err :
  st_ok st → sfHdtrState_write evs st = Some (out, st', err) →
  st_ok st' ∧ position st' = position st + Z.of_nat (length out) ∧
  out `prefix_of` drop (Z.to_nat (position st)) (header ++ window file off bodyTotal) ∧
  (err = None → off + bodyTotal ≤ Z.of_nat (length file) → position st' = hlen + bodyTotal).
Proof.
  revert st out st' err. induction evs as [|e evs IH]; intros st out st' err Hst; cbn [sfHdtrState_write];
    destruct (_ || _) eqn:Hcond;
    try (intros [= <- <- <-]; split_and!; [done|cbn; lia|apply prefix_nil|intros _ _; by apply loop_done]);
    (destruct (Z.leb_spec (headerRemaining st + bodyRemaining st) 0) as [Hz|_];
      [exfalso; apply orb_true_iff in Hcond; destruct Hst as (? & ? & ?); unfold headerRemaining, bodyRemaining in Hz; lia|]);
    [done|]. cbv zeta.
  set (k := fused_shipped st e). pose proof (fused_shipped_bounds st e) as Hk. fold k in Hk.
  destruct (fused_account_ok st k Hst Hk) as [Hst' Hpos]. set (st1 := fused_account st k) in *.
  set (part := take (Z.to_nat k) (fused_bytes st)).
  assert (Z.of_nat (length part) = k) as Hpart by (unfold part; rewrite length_take; lia).
  assert (part `prefix_of` drop (Z.to_nat (position st)) (header ++ window file off bodyTotal)) as Hpre.
  { unfold part. rewrite fused_bytes_rest by done. apply prefix_take. }
  assert (∀ r, match sfHdtrState_write evs st1 with Some (out', st'', err') => Some (part ++ out', st'', err') | None => None end
    = Some r → st_ok r.1.2 ∧ position r.1.2 = position st + Z.of_nat (length r.1.1) ∧
      r.1.1 `prefix_of` drop (Z.to_nat (position st)) (header ++ window file off bodyTotal) ∧
      (r.2 = None → off + bodyTotal ≤ Z.of_nat (length file) → position r.1.2 = hlen + bodyTotal)) as Hmore.
  { intros r. destruct (sfHdtrState_write evs st1) as [[[out' st''] err']|] eqn:E; [|done]. intros [= <-]. cbn [fst snd].
    destruct (IH st1 _ _ _ Hst' E) as (H1 & H2 & H3 & H4). split_and!; [done|rewrite length_app; lia| |done].
    unfold part. rewrite fused_bytes_rest by done. set (rest := drop (Z.to_nat (position st)) _).
    rewrite <-(take_drop (Z.to_nat k) rest) at 2. apply prefix_app. unfold rest. rewrite drop_drop.
    replace (Z.to_nat (position st) + Z.to_nat k)%nat with (Z.to_nat (position st1)); [done|].
    destruct Hst as (? & ? & ?). unfold position in *. lia. }
  destruct e as [w|w ready|w|w errno].
  - destruct (Z.eqb_spec k 0) as [Ek|Ek]; [|intros E; by apply (Hmore _ E)].
    intros [= <- <- <-]. split_and!; [done|lia|done|]. intros _ Hfile. rewrite Hpos, Ek, Z.add_0_r.
    apply owed_not_done; [done..|]. unfold k, fused_shipped in Ek. cbn [fused_max] in Ek. lia.
  - destruct ready; [intros E; by apply (Hmore _ E)|]. intros [= <- <- <-]. by split_and!; [|lia| |].
  - intros E; by apply (Hmore _ E).
  - intros [= <- <- <-]. by split_and!; [|lia| |].
Qed.

(** The fused sender puts head and body on the wire in order, without gaps
    or repetitions, whatever partial sends, interruptions and waits the kernel
    reports: the count it returns is that of the body bytes sent, and when it
    reports no error the whole response is out. *)
Theorem darwin_sends_exactly evs out n err :
  off + bodyTotal ≤ Z.of_nat (length file) →
  sendFileWithHeader_darwin evs = Some (out, n, err) →
  let full := header ++ window file off bodyTotal in
  out `prefix_of` full ∧ n = Z.max 0 (Z.of_nat (length out) - hlen) ∧ (err = None → out = full ∧ n = bodyTotal).
Proof.
  intros Hfile. unfold sendFileWithHeader_darwin.
  destruct (sfHdtrState_write evs (mkHdtr 0 0)) as [[[o st] er]|] eqn:E; [|done]. intros [= <- <- <-]. cbv zeta.
  assert (st_ok (mkHdtr 0 0)) as H0 by (unfold st_ok; cbn; lia).
  destruct (darwin_loop_exact evs (mkHdtr 0 0) o st er H0 E) as ((H1 & H2 & H3) & Hp & Hpre & Hdone).
  unfold position in *. cbn [st_headerSent st_bodySent] in *. rewrite drop_0 in Hpre.
  split_and!; [done|lia|]. intros He. specialize (Hdone He Hfile). split; [|lia].
  pose proof (window_length file off bodyTotal Hoff Hn Hfile) as Hw. destruct Hpre as [rest Hr].
  assert (rest = []) as ->; [|by rewrite app_nil_r in Hr].
  apply length_zero_iff_nil. apply (f_equal length) in Hr. rewrite !length_app in Hr. lia.
Qed.

(** ** Completion *)

(** No call fails and no wait times out. *)
Definition fused_calm (evs : list fused_event) : Prop :=
  Forall (λ e, match e with FusedErr _ _ => False | FusedAgain _ ready => ready = true | _ => True end) evs.

Definition fused_successes (evs : list fused_event) : Z :=
  Z.of_nat (length (filter (λ e, match e with FusedOk _ => true | _ => false end = true) evs)).

Lemma fused_successes_cons e evs :
  fused_successes (e :: evs) = (match e with FusedOk _ => 1 | _ => 0 end) + fused_successes evs.
Proof. unfold fused_successes. rewrite filter_cons. destruct e; [rewrite decide_True by done|rewrite decide_False by done..]; cbn [length]; lia. Qed.

Lemma darwin_loop_completes evs st :
  st_ok st → off + bodyTotal ≤ Z.of_nat (length file) → fused_calm evs →
  hlen + bodyTotal - position st ≤ fused_successes evs →
  ∃ out st', sfHdtrState_write evs st = Some (out, st', None).
Proof.
  revert st. induction evs as [|e evs IH]; intros st Hst Hfile Hc Hs; cbn [sfHdtrState_write];
    destruct (_ || _) eqn:Hcond; try (by eexists _, _);
    (destruct (Z.leb_spec (headerRemaining st + bodyRemaining st) 0) as [Hz|Hz]; [by eexists _, _|]).
  { unfold headerRemaining, bodyRemaining, position, fused_successes in *. cbn in Hs. lia. }
  rewrite fused_successes_cons in Hs. apply Forall_cons in Hc as [He Hc]. cbv zeta.
  set (k := fused_shipped st e). pose proof (fused_shipped_bounds st e) as Hk. fold k in Hk.
  destruct (fused_account_ok st k Hst Hk) as [Hst' Hpos].
  specialize (IH (fused_account st k) Hst' Hfile Hc).
  destruct e as [w|w ready|w|w errno]; [|subst ready| |done].
  - destruct (Z.eqb_spec k 0); [by eexists _, _|]. destruct IH as (o & s' & ->); [lia|by eexists _, _].
  - destruct IH as (o & s' & ->); [lia|by eexists _, _].
  - destruct IH as (o & s' & ->); [lia|by eexists _, _].
Qed.

(** The fused sender terminates: when no call fails and no wait times out, as
    many successful calls as there are bytes are enough for the whole response. *)
Theorem darwin_send_completes evs :
  off + bodyTotal ≤ Z.of_nat (length file) → fused_calm evs → hlen + bodyTotal ≤ fused_successes evs →
  sendFileWithHeader_darwin evs = Some (header ++ window file off bodyTotal, bodyTotal, None).
Proof.
  intros Hfile Hc Hs. assert (st_ok (mkHdtr 0 0)) as H0 by (unfold st_ok; cbn; lia).
  destruct (darwin_loop_completes evs (mkHdtr 0 0) H0 Hfile Hc) as (out & st & E); [unfold position; cbn; lia|].
  assert (sendFileWithHeader_darwin evs = Some (out, st_bodySent st, None)) as Hr.
  { unfold sendFileWithHeader_darwin. by rewrite E. }
  destruct (darwin_loop_exact evs (mkHdtr 0 0) out st None H0 E) as ((H1 & H2 & H3) & Hp & Hpre & Hdone).
  specialize (Hdone eq_refl Hfile). unfold position in *. cbn [st_headerSent st_bodySent] in *. rewrite drop_0 in Hpre.
  rewrite Hr. pose proof (window_length file off bodyTotal Hoff Hn Hfile) as Hw. destruct Hpre as [rest Hrest].
  assert (rest = []) as ->.
  { apply length_zero_iff_nil. apply (f_equal length) in Hrest. rewrite !length_app in Hrest. lia. }
  rewrite app_nil_r in Hrest. rewrite <-Hrest. repeat f_equal. lia.
Qed.

End darwin.

(** ** Listeners on one address *)

(** What happens in one [Listen]: the control callback of [setReusePort], its
    setsockopt, and the bind. *)
Record listen_env := mkListen { l_ctl : bool; l_sockopt : bool; l_bind : bool }.

(** Whether [setReusePort] reports an error. *)
Definition setReusePort (x : listen_env) : bool := if l_ctl x then true else l_sockopt x.

(** A socket number not in use, or an error; a failed call leaves no socket. *)
Definition net_Listen (reuse : bool) (x : listen_env) (opened : gset nat) : option nat * gset nat :=
  if (reuse && setReusePort x) || l_bind x then (None, opened)
  else let fd := fresh opened in (Some fd, {[fd]} ∪ opened).

(** The loop: [lns] are the sockets opened so far; the first failure closes
    them all. *)
Fixpoint listen_loop (envs : nat → listen_env) (todo : nat) (lns : list nat) (opened : gset nat)
    : option (list nat) * gset nat :=
  match todo with
  | O => (Some lns, opened)
  | S todo =>
      match net_Listen true (envs (length lns)) opened with
      | (Some fd, opened) => listen_loop envs todo (lns ++ [fd]) opened
      | (None, opened) => (None, opened ∖ list_to_set lns)
      end
  end.

Definition NewReuseportListeners (envs : nat → listen_env) (count : Z) (opened : gset nat)
    : option (list nat) * gset nat :=
  if count <=? 1 then
    match net_Listen false (envs O) opened with
    | (Some fd, opened) => (Some [fd], opened)
    | (None, opened) => (None, opened)
    end
  else listen_loop envs (Z.to_nat count) [] opened.

Lemma listen_loop_spec envs todo lns opened o :
  opened = list_to_set lns ∪ o → NoDup lns → list_to_set lns ## o →
  match listen_loop envs todo lns opened with
  | (Some r, opened') => length r = (length lns + todo)%nat ∧ NoDup r ∧ list_to_set r ## o ∧ opened' = list_to_set r ∪ o
  | (None, opened') => opened' = o
  end.
Proof.
  revert lns opened. induction todo as [|todo IH]; intros lns opened -> Hnd Hdis; cbn [listen_loop].
  { split_and!; [lia|done..]. }
  unfold net_Listen. destruct (_ || _); [set_solver|].
  set (opened := list_to_set lns ∪ o). pose proof (is_fresh opened) as Hf. set (fd := fresh opened) in *.
  specialize (IH (lns ++ [fd]) ({[fd]} ∪ opened)).
  destruct (listen_loop envs todo (lns ++ [fd]) _) as [[r|] op'].
  - rewrite length_app in IH. cbn [length] in IH. replace (length lns + S todo)%nat with (length lns + 1 + todo)%nat by lia.
    apply IH; [set_solver| |set_solver]. apply NoDup_app. split_and!; [done|set_solver|apply NoDup_singleton].
  - apply IH; [set_solver| |set_solver]. apply NoDup_app. split_and!; [done|set_solver|apply NoDup_singleton].
Qed.

Lemma NewReuseportListeners_spec envs count opened :
  match NewReuseportListeners envs count opened with
  | (Some lns, opened') =>
      Z.of_nat (length lns) = Z.max 1 count ∧ NoDup lns ∧ list_to_set lns ## opened ∧ opened' = list_to_set lns ∪ opened
  | (None, opened') => opened' = opened
  end.
Proof.
  unfold NewReuseportListeners. destruct (Z.leb_spec count 1).
  - unfold net_Listen. destruct (_ || _); [done|]. pose proof (is_fresh opened).
    split_and!; [cbn; lia|apply NoDup_singleton|set_solver|set_solver].
  - pose proof (listen_loop_spec envs (Z.to_nat count) [] opened opened) as Hl.
    destruct (listen_loop _ _ _ _) as [[r|] op']; [|apply Hl; [set_solver|constructor|set_solver]].
    destruct Hl as (H1 & H2 & H3 & H4); [set_solver|constructor|set_solver|]. split_and!; [cbn in H1; lia|done..].
Qed.

Lemma listeners_count envs count opened :
  match NewReuseportListeners envs count opened with
  | (Some lns, _) => Z.of_nat (length lns) = Z.max 1 count
  | (None, _) => True
  end.
Proof.
  pose proof (NewReuseportListeners_spec envs count opened) as Hl.
  destruct (NewReuseportListeners envs count opened) as [[lns|] o]; [by destruct Hl|done].
Qed.

(** The listeners come all or not at all: a success gives exactly as many new
    sockets as asked for (one for counts below two), a failure leaves no
    socket behind. *)
Theorem listeners_all_or_none envs count opened :
  match NewReuseportListeners envs count opened with
  | (Some lns, opened') =>
      Z.of_nat (length lns) = Z.max 1 count ∧ NoDup lns ∧ list_to_set lns ## opened ∧ opened' = list_to_set lns ∪ opened
  | (None, opened') => opened' = opened
  end.
Proof. apply NewReuseportListeners_spec. Qed.

(** ** A concrete transfer *)

(** A send interrupted within the head, then within the body. *)
Lemma darwin_sends_exactly_witness :
  let evs := [FusedAgain 3 true; FusedIntr 6; FusedOk 100] in
  sendFileWithHeader_darwin (bs "0123456789") 2 5 (bs "HEAD") evs = Some (bs "HEAD23456", 5, None) ∧
  bs "HEAD23456" `prefix_of` bs "HEAD" ++ window (bs "0123456789") 2 5.
Proof.
  cbv zeta. split; [vm_compute; reflexivity|].
  apply (darwin_sends_exactly (bs "0123456789") 2 5 (bs "HEAD") ltac:(lia) ltac:(lia)
           [FusedAgain 3 true; FusedIntr 6; FusedOk 100] (bs "HEAD23456") 5 None); [vm_decide|vm_compute; reflexivity].
Defined.
