(* ===== verification/Reactor.v ===== *)
(** * The io_uring reactor (src/internal/coreserver/iouring_reactor_linux.go)

    One goroutine owns a ring, a listener and a table of connections keyed by
    descriptor.  Every completion is routed by the operation and descriptor
    packed in its tag.  The kernel is a set of steps that may interleave with the
    handlers in any way: it consumes entries, completes the operations in any
    order and hands out any free descriptor.  The queues are those of [Ring];
    parsing is that of [UringParser]; the body goes through [SendFile]'s
    [reactorSendfile].  What the clients sent and received is recorded per client. *)

From stdpp Require Import base strings numbers gmap list.
From S2P Require Import Prelude GoStd HostAllow HttpParser UringParser PerIP SendFile.

Local Open Scope Z_scope.

(** ** Completion tags *)

Definition opTagAccept : Z := 1.
Definition opTagRecv : Z := 2.
Definition opTagWrite : Z := 3.
Definition opTagClose : Z := 4.
Definition opTagWakeup : Z := 5.

(** [int32] and [uint32] conversions. *)
Definition to_uint32 (z : Z) : Z := z mod 2 ^ 32.
Definition to_int32 (z : Z) : Z := (z + 2 ^ 31) mod 2 ^ 32 - 2 ^ 31.

Definition packUserData (op fd : Z) : Z := Z.lor op (Z.shiftl (to_uint32 fd) 8).

Definition unpackUserData (ud : Z) : Z * Z := (Z.land ud 255, to_int32 (to_uint32 (Z.shiftr ud 8))).

(** ** State *)

(** The head staged for writing and the coordinates of the body. *)
Record staged := mkStaged { st_head : bytes; st_file : bytes; st_off : Z; st_len : Z }.

Definition response (st : staged) : bytes := st_head st ++ window (st_file st) (st_off st) (st_len st).

(** A connection; [rc_id] names its client and [rc_heard] is what the handlers
    have been given of the client's stream. *)
Record rconn := mkRC {
  rc_id : nat; rc_io : ioConn; rc_hb : option staged; rc_keepAlive : bool; rc_slot : perIPSlot; rc_heard : bytes;
}.

Inductive rop :=
| OpAccept | OpWakeup
| OpRecv (fd : Z) (room : nat) | OpWrite (fd : Z) (header : bytes) | OpClose (fd : Z).

Inductive rcqe :=
| CAccept (fd : option Z) (peer : remote) | CWakeup
| CRecv (fd : Z) (data : option bytes) | CWrite (fd : Z) (res : option nat) | CClose (fd : Z).

Record reactor := mkReactor {
  r_conns : gmap Z rconn;
  r_sq : list rop;                       (* submitted, not yet consumed *)
  r_ops : list rop;                      (* in the kernel *)
  r_cq : list rcqe;                      (* completed, not yet handled *)
  r_fds : gmap Z nat;                    (* open sockets and their clients *)
  r_perIP : connsPerIP;
  r_held : gmap nat perIPSlot;           (* slots not yet released, by client *)
  r_detached : gmap nat Z;               (* clients handed to the fallback, their descriptor *)
  r_said : gmap nat bytes;               (* bytes received from a client *)
  r_wire : gmap nat bytes;               (* bytes sent to a client *)
  r_owed : gmap nat bytes;               (* responses produced for a client *)
  r_next : nat;
}.

Definition with_conns r x := mkReactor x (r_sq r) (r_ops r) (r_cq r) (r_fds r) (r_perIP r) (r_held r) (r_detached r) (r_said r) (r_wire r) (r_owed r) (r_next r).
Definition with_sq r x := mkReactor (r_conns r) x (r_ops r) (r_cq r) (r_fds r) (r_perIP r) (r_held r) (r_detached r) (r_said r) (r_wire r) (r_owed r) (r_next r).
Definition with_ops r x := mkReactor (r_conns r) (r_sq r) x (r_cq r) (r_fds r) (r_perIP r) (r_held r) (r_detached r) (r_said r) (r_wire r) (r_owed r) (r_next r).
Definition with_cq r x := mkReactor (r_conns r) (r_sq r) (r_ops r) x (r_fds r) (r_perIP r) (r_held r) (r_detached r) (r_said r) (r_wire r) (r_owed r) (r_next r).
Definition with_fds r x := mkReactor (r_conns r) (r_sq r) (r_ops r) (r_cq r) x (r_perIP r) (r_held r) (r_detached r) (r_said r) (r_wire r) (r_owed r) (r_next r).
Definition with_slots r x y := mkReactor (r_conns r) (r_sq r) (r_ops r) (r_cq r) (r_fds r) x y (r_detached r) (r_said r) (r_wire r) (r_owed r) (r_next r).
Definition with_detached r x := mkReactor (r_conns r) (r_sq r) (r_ops r) (r_cq r) (r_fds r) (r_perIP r) (r_held r) x (r_said r) (r_wire r) (r_owed r) (r_next r).
Definition with_said r x := mkReactor (r_conns r) (r_sq r) (r_ops r) (r_cq r) (r_fds r) (r_perIP r) (r_held r) (r_detached r) x (r_wire r) (r_owed r) (r_next r).
Definition with_wire r x := mkReactor (r_conns r) (r_sq r) (r_ops r) (r_cq r) (r_fds r) (r_perIP r) (r_held r) (r_detached r) (r_said r) x (r_owed r) (r_next r).
Definition with_owed r x := mkReactor (r_conns r) (r_sq r) (r_ops r) (r_cq r) (r_fds r) (r_perIP r) (r_held r) (r_detached r) (r_said r) (r_wire r) x (r_next r).
Definition with_next r x := mkReactor (r_conns r) (r_sq r) (r_ops r) (r_cq r) (r_fds r) (r_perIP r) (r_held r) (r_detached r) (r_said r) (r_wire r) (r_owed r) x.

Definition stream (m : gmap nat bytes) (id : nat) : bytes := default [] (m !! id).

Definition extend (id : nat) (b : bytes) (m : gmap nat bytes) : gmap nat bytes := <[id := stream m id ++ b]> m.

(** Bytes written to a descriptor reach the client behind it. *)
Definition send_to (fd : Z) (b : bytes) (r : reactor) : reactor :=
  match r_fds r !! fd with Some id => with_wire r (extend id b (r_wire r)) | None => r end.

(** ** Handlers *)

(** What a handler meets: the gate's answer (a rendered rejection), how much of a
    rejection the socket takes, the warm lookup, the body transfer's system
    calls, the pooled receive buffer, and the descriptor [net.FileConn] returns. *)
Record env := mkEnv {
  e_gate : ioConn → option bytes; e_rejected : nat; e_warm : ioConn → option (staged * bool);
  e_calls : list sys_event; e_pooled : bytes; e_dup : option Z;
}.

Section Handlers.
  Context (cap : nat) (maxConnsPerIP : Z).

(** Queue an operation; refused when the submission queue is full. *)
Definition prep (op : rop) (r : reactor) : option reactor :=
  if (length (r_sq r) <? cap)%nat then Some (with_sq r (r_sq r ++ [op])) else None.

(** [prepRecv] on the free part of the buffer; an empty one is an error. *)
Definition rearm (fd : Z) (c : ioConn) (r : reactor) : option reactor :=
  let room := (length (recvBuf c) - recvLen c)%nat in
  if (room =? 0)%nat then None else prep (OpRecv fd room) r.

Definition release (id : nat) (slot : perIPSlot) (r : reactor) : reactor :=
  with_slots r (PerIP.releaseSlot (r_perIP r) slot) (delete id (r_held r)).

(** [closeConn] with [releaseIoConn]. *)
Definition closeConn (fd : Z) (c : rconn) (r : reactor) : reactor :=
  let r := with_conns r (delete fd (r_conns r)) in
  let r := match prep (OpClose fd) r with Some r => r | None => r end in
  release (rc_id c) (rc_slot c) r.

Definition onAccept (e : env) (res : option Z) (peer : remote) (r : reactor) : reactor :=
  let r := match prep OpAccept r with Some r => r | None => r end in
  match res with
  | None => r
  | Some connFd =>
      match acquirePerIPSlot maxConnsPerIP (r_perIP r) peer with
      | (None, _) => with_fds r (delete connFd (r_fds r))
      | (Some slot, m) =>
          match r_fds r !! connFd with
          | None => r
          | Some id =>
              let c := mkRC id (UringParser.acquireIoConn (e_pooled e)) None false slot [] in
              let r := with_slots r m (<[id := slot]> (r_held r)) in
              let r := with_conns r (<[connFd := c]> (r_conns r)) in
              match rearm connFd (rc_io c) r with
              | Some r => r
              | None => closeConn connFd c r
              end
          end
      end
  end.

(** [detachToFallback]: the slot goes with the connection. *)
Definition detachToFallback (e : env) (fd : Z) (c : rconn) (r : reactor) : reactor :=
  let r := with_conns r (delete fd (r_conns r)) in
  let r := with_fds r (delete fd (r_fds r)) in
  match e_dup e with
  | None => release (rc_id c) (rc_slot c) r
  | Some fd' => with_detached (with_fds r (<[fd' := rc_id c]> (r_fds r))) (<[rc_id c := fd']> (r_detached r))
  end.

(** [gateAdmit], [tryServeWarmReactor], [detachToFallback]. *)
Definition serve_request (e : env) (fd : Z) (c : rconn) (r : reactor) : reactor :=
  match e_gate e (rc_io c) with
  | Some buf =>
      let r := with_owed r (extend (rc_id c) buf (r_owed r)) in
      closeConn fd c (send_to fd (take (e_rejected e) buf) r)
  | None =>
      match e_warm e (rc_io c) with
      | Some (st, keep) =>
          let c := mkRC (rc_id c) (rc_io c) (Some st) keep (rc_slot c) (rc_heard c) in
          let r := with_owed r (extend (rc_id c) (response st) (r_owed r)) in
          let r := with_conns r (<[fd := c]> (r_conns r)) in
          if (length (st_head st) =? 0)%nat then closeConn fd c r
          else match prep (OpWrite fd (st_head st)) r with
               | Some r => r
               | None => closeConn fd c r
               end
      | None => detachToFallback e fd c r
      end
  end.

Definition set_io (c : rconn) (io : ioConn) : rconn :=
  mkRC (rc_id c) io (rc_hb c) (rc_keepAlive c) (rc_slot c) (rc_heard c).

(** The part common to [onRecv] and [onWrite] once bytes are buffered. *)
Definition after_parse (e : env) (fd : Z) (c : rconn) (o : recv_outcome) (r : reactor) : reactor :=
  match o with
  | RecvClose => closeConn fd c r
  | RecvMore io =>
      let c := set_io c io in
      let r := with_conns r (<[fd := c]> (r_conns r)) in
      match rearm fd io r with Some r => r | None => closeConn fd c r end
  | RecvRequest io =>
      let c := set_io c io in
      serve_request e fd c (with_conns r (<[fd := c]> (r_conns r)))
  end.

Definition onRecv (e : env) (fd : Z) (res : option bytes) (r : reactor) : reactor :=
  match r_conns r !! fd with
  | None => r
  | Some c =>
      match res with
      | None => closeConn fd c r
      | Some data =>
          let c := mkRC (rc_id c) (rc_io c) (rc_hb c) (rc_keepAlive c) (rc_slot c) (rc_heard c ++ data) in
          after_parse e fd c (UringParser.onRecv (rc_io c) data) r
      end
  end.

(** [onWrite]; [None] while the body transfer has not returned. *)
Definition onWrite (e : env) (fd : Z) (res : option nat) (r : reactor) : option reactor :=
  match r_conns r !! fd with
  | None => Some r
  | Some c =>
      match res, rc_hb c with
      | None, _ | _, None => Some (closeConn fd c r)
      | Some n, Some st =>
          if negb (n =? length (st_head st))%nat then Some (closeConn fd c r)
          else
            match reactorSendfile (e_calls e) (st_file st) (st_off st) (st_len st) with
            | None => None
            | Some s =>
                let c := mkRC (rc_id c) (rc_io c) None (rc_keepAlive c) (rc_slot c) (rc_heard c) in
                let r := with_conns (send_to fd (s_wire s) r) (<[fd := c]> (r_conns r)) in
                if is_error s || negb (s_count s =? st_len st) then Some (closeConn fd c r)
                else if negb (rc_keepAlive c) then Some (closeConn fd c r)
                else if (0 <? recvLen (rc_io c))%nat then Some (after_parse e fd c (take_request (rc_io c)) r)
                else Some (match rearm fd (rc_io c) r with Some r => r | None => closeConn fd c r end)
            end
      end
  end.

Definition handleCQE (e : env) (cqe : rcqe) (r : reactor) : option reactor :=
  match cqe with
  | CAccept res peer => Some (onAccept e res peer r)
  | CRecv fd res => Some (onRecv e fd res r)
  | CWrite fd res => onWrite e fd res r
  | CWakeup | CClose _ => Some r
  end.

(** ** Steps *)

Inductive rstep :=
| KSubmit (n : nat)                              (* [enter]: entries consumed *)
| KAccept (i : nat) (fd : Z) (peer : remote)     (* completion of the [i]-th operation *)
| KAcceptFail (i : nat)
| KRecv (i : nat) (data : bytes)
| KWrite (i : nat) (n : nat)
| KFail (i : nat)                                (* a receive or write fails *)
| KClose (i : nat)
| KWakeup (i : nat)
| RHandle (e : env)                              (* the oldest completion is handled *)
| DetachedDone (id : nat).                       (* [runDetached] returns *)

Definition complete (i : nat) (c : rcqe) (r : reactor) : reactor :=
  with_cq (with_ops r (delete i (r_ops r))) (r_cq r ++ [c]).

(** The descriptor for the fallback is a free one. *)
Definition env_free (e : env) (r : reactor) : bool :=
  match e_dup e with Some fd => if r_fds r !! fd is Some _ then false else true | None => true end.

Definition step (r : reactor) (s : rstep) : reactor :=
  match s with
  | KSubmit n => with_sq (with_ops r (r_ops r ++ take n (r_sq r))) (drop n (r_sq r))
  | KAccept i fd peer =>
      match r_ops r !! i, r_fds r !! fd with
      | Some OpAccept, None =>
          with_next (with_fds (complete i (CAccept (Some fd) peer) r) (<[fd := r_next r]> (r_fds r))) (S (r_next r))
      | _, _ => r
      end
  | KAcceptFail i => match r_ops r !! i with Some OpAccept => complete i (CAccept None None) r | _ => r end
  | KRecv i data =>
      match r_ops r !! i with
      | Some (OpRecv fd room) =>
          match r_fds r !! fd with
          | Some id =>
              if (length data <=? room)%nat
              then with_said (complete i (CRecv fd (Some data)) r) (extend id data (r_said r)) else r
          | None => complete i (CRecv fd None) r
          end
      | _ => r
      end
  | KWrite i n =>
      match r_ops r !! i with
      | Some (OpWrite fd h) =>
          if (n <=? length h)%nat then send_to fd (take n h) (complete i (CWrite fd (Some n)) r) else r
      | _ => r
      end
  | KFail i =>
      match r_ops r !! i with
      | Some (OpRecv fd _) => complete i (CRecv fd None) r
      | Some (OpWrite fd _) => complete i (CWrite fd None) r
      | _ => r
      end
  | KClose i =>
      match r_ops r !! i with
      | Some (OpClose fd) => with_fds (complete i (CClose fd) r) (delete fd (r_fds r))
      | _ => r
      end
  | KWakeup i => match r_ops r !! i with Some OpWakeup => complete i CWakeup r | _ => r end
  | RHandle e =>
      match r_cq r with
      | [] => r
      | c :: cq => if env_free e r then default r (handleCQE e c (with_cq r cq)) else r
      end
  | DetachedDone id =>
      match r_detached r !! id, r_held r !! id with
      | Some fd, Some slot =>
          release id slot (with_detached (with_fds r (delete fd (r_fds r))) (delete id (r_detached r)))
      | _, _ => r
      end
  end.

Definition run (r : reactor) (ss : list rstep) : reactor := foldl step r ss.

End Handlers.

(** The wake-up read and the first accept are queued. *)
Definition start : reactor := mkReactor ∅ [OpWakeup; OpAccept] [] [] ∅ ∅ ∅ ∅ ∅ ∅ ∅ 0.

(** The lookup never yields a negative offset. *)
Definition env_ok (e : env) : Prop := ∀ io st keep, e_warm e io = Some (st, keep) → 0 ≤ st_off st.

(** ** The invariant *)

(** Operations queued or running, and completions not yet handled. *)
Inductive item := Todo (o : rop) | Done (c : rcqe).

Definition items (r : reactor) : list item := (Todo <$> r_sq r ++ r_ops r) ++ (Done <$> r_cq r).

Definition item_fd (it : item) : option Z :=
  match it with
  | Todo (OpRecv fd _) | Todo (OpWrite fd _) | Todo (OpClose fd) => Some fd
  | Done (CRecv fd _) | Done (CWrite fd _) => Some fd
  | Done (CAccept fd _) => fd
  | _ => None
  end.

Definition on (fd : Z) (l : list item) : list item := filter (λ it, item_fd it = Some fd) l.

Definition flight (r : reactor) (fd : Z) : list item := on fd (items r).

(** The one operation in flight agrees with the state of its connection. *)
Definition serving (r : reactor) (c : rconn) (it : item) : Prop :=
  let id := rc_id c in
  let said := stream (r_said r) id in
  let wire := stream (r_wire r) id in
  let owed := stream (r_owed r) id in
  match it with
  | Todo (OpRecv _ _) | Done (CRecv _ None) => rc_hb c = None ∧ rc_heard c = said ∧ wire = owed
  | Done (CRecv _ (Some d)) => rc_hb c = None ∧ rc_heard c ++ d = said ∧ wire = owed
  | Todo (OpWrite _ h) =>
      ∃ st, rc_hb c = Some st ∧ 0 ≤ st_off st ∧ h = st_head st ∧ rc_heard c = said ∧ wire ++ response st = owed
  | Done (CWrite _ (Some n)) =>
      ∃ st w, rc_hb c = Some st ∧ 0 ≤ st_off st ∧ rc_heard c = said ∧
              wire = w ++ take n (st_head st) ∧ owed = w ++ response st
  | Done (CWrite _ None) => rc_heard c = said
  | _ => False
  end.

(** The client behind an accepted, not yet tracked descriptor is untouched. *)
Definition untouched (r : reactor) (id : nat) : Prop :=
  r_held r !! id = None ∧ r_detached r !! id = None ∧
  r_said r !! id = None ∧ r_wire r !! id = None ∧ r_owed r !! id = None.

Definition owned (r : reactor) (fd : Z) (c : rconn) : Prop :=
  r_fds r !! fd = Some (rc_id c) ∧ r_held r !! rc_id c = Some (rc_slot c) ∧ r_detached r !! rc_id c = None.

Definition fd_ok (r : reactor) (fd : Z) : Prop :=
  match r_conns r !! fd with
  | Some c => owned r fd c ∧ ∃ it, flight r fd ≡ₚ [it] ∧ serving r c it
  | None =>
      flight r fd ≡ₚ [] ∨
      ∃ id, r_fds r !! fd = Some id ∧
        (flight r fd ≡ₚ [Todo (OpClose fd)] ∨ ∃ peer, flight r fd ≡ₚ [Done (CAccept (Some fd) peer)] ∧ untouched r id)
  end.

(** [x]: a descriptor whose connection a handler is working on. *)
Record inv_x (max : Z) (x : option Z) (r : reactor) : Prop := mkInv {
  i_fd : ∀ fd, x ≠ Some fd → fd_ok r fd;
  i_fresh : ∀ id, (r_next r ≤ id)%nat → untouched r id;
  i_fds : ∀ fd id, r_fds r !! fd = Some id → (id < r_next r)%nat;
  i_inj : ∀ fd fd' id, r_fds r !! fd = Some id → r_fds r !! fd' = Some id → fd = fd';
  i_wire : ∀ id, stream (r_wire r) id `prefix_of` stream (r_owed r) id;
  i_slots : conns_ok max (mkConns (r_perIP r) (r_held r));
  i_held : ∀ id, is_Some (r_held r !! id) →
    (∃ fd, x ≠ Some fd ∧ rc_id <$> r_conns r !! fd = Some id) ∨ is_Some (r_detached r !! id) ∨
    (∃ fd, x = Some fd ∧ r_fds r !! fd = Some id);
  i_det : ∀ id fd, r_detached r !! id = Some fd →
    x ≠ Some fd ∧ r_fds r !! fd = Some id ∧ is_Some (r_held r !! id) ∧ r_conns r !! fd = None ∧ flight r fd ≡ₚ [];
}.

Abbreviation inv max := (inv_x max None).

(** *** Lists of items *)

Lemma on_perm fd l l' : l ≡ₚ l' → on fd l ≡ₚ on fd l'.
Proof. apply filter_Permutation. Qed.

Lemma on_cons fd it l : on fd (it :: l) = if decide (item_fd it = Some fd) then it :: on fd l else on fd l.
Proof. unfold on. by rewrite filter_cons. Qed.

Lemma on_app fd l l' : on fd (l ++ l') = on fd l ++ on fd l'.
Proof. apply filter_app. Qed.

(** A step that adds one item. *)
Lemma flight_add r r' it fd :
  items r' ≡ₚ it :: items r → flight r' fd ≡ₚ on fd [it] ++ flight r fd.
Proof. intros H. unfold flight. rewrite (on_perm fd _ _ H). by rewrite <-on_app. Qed.

Lemma flight_other r r' it fd fd' :
  items r' ≡ₚ it :: items r → item_fd it = Some fd → fd' ≠ fd → flight r' fd' ≡ₚ flight r fd'.
Proof. intros H Hf Hn. rewrite (flight_add r r' it fd' H), on_cons, decide_False by congruence. done. Qed.

Lemma flight_none r r' it fd' :
  items r' ≡ₚ it :: items r → item_fd it = None → flight r' fd' ≡ₚ flight r fd'.
Proof. intros H Hf. rewrite (flight_add r r' it fd' H), on_cons, decide_False by congruence. done. Qed.

Lemma flight_mine r r' it fd :
  items r' ≡ₚ it :: items r → item_fd it = Some fd → flight r fd ≡ₚ [] → flight r' fd ≡ₚ [it].
Proof. intros H Hf Hn. rewrite (flight_add r r' it fd H), on_cons, decide_True, Hn by done. done. Qed.

(** Removing the item that was the only one. *)
Lemma flight_removed r r' it fd :
  items r ≡ₚ it :: items r' → item_fd it = Some fd → ∀ l, flight r fd ≡ₚ [l] → l = it ∧ flight r' fd ≡ₚ [].
Proof.
  intros H Hf l Hl. pose proof (flight_add r' r it fd H) as Ha.
  rewrite on_cons, decide_True in Ha by done. rewrite Hl in Ha. cbn [app] in Ha.
  apply Permutation_singleton_l in Ha. injection Ha as -> Hn. split; [done|]. by rewrite Hn.
Qed.

Lemma flight_present r it fd : it ∈ items r → item_fd it = Some fd → ¬ flight r fd ≡ₚ [].
Proof.
  intros Hin Hf Hn. apply Permutation_nil_r in Hn.
  assert (it ∈ flight r fd) as Hx by (apply list_elem_of_filter; done). rewrite Hn in Hx. by apply not_elem_of_nil in Hx.
Qed.

Lemma items_complete r i o c :
  r_ops r !! i = Some o → items (complete i c r) ≡ₚ Done c :: (Todo <$> r_sq r ++ delete i (r_ops r)) ++ (Done <$> r_cq r).
Proof.
  intros Hi. unfold items, complete. cbn [r_sq r_ops r_cq with_cq with_ops].
  rewrite (fmap_app Done). cbn [fmap list_fmap]. rewrite app_assoc. rewrite Permutation_app_comm. done.
Qed.

Lemma items_op r i o :
  r_ops r !! i = Some o → items r ≡ₚ Todo o :: (Todo <$> r_sq r ++ delete i (r_ops r)) ++ (Done <$> r_cq r).
Proof.
  intros Hi. unfold items. rewrite (delete_Permutation _ _ _ Hi) at 1.
  rewrite <-Permutation_middle. done.
Qed.

(** *** Framing *)

(** Only the queues change. *)
Definition requeue (r : reactor) (sq ops : list rop) (cq : list rcqe) : reactor := with_cq (with_ops (with_sq r sq) ops) cq.

(** Two states agree on everything that concerns client [id]. *)
Definition same_client (r r' : reactor) (id : nat) : Prop :=
  r_held r' !! id = r_held r !! id ∧ r_detached r' !! id = r_detached r !! id ∧
  r_said r' !! id = r_said r !! id ∧ r_wire r' !! id = r_wire r !! id ∧ r_owed r' !! id = r_owed r !! id.

Lemma same_stream m m' id : m' !! id = m !! id → stream m' id = stream m id.
Proof. unfold stream. by intros ->. Qed.

Lemma untouched_same r r' id : same_client r r' id → untouched r id → untouched r' id.
Proof. unfold same_client, untouched. intuition congruence. Qed.

Lemma serving_same r r' c it : same_client r r' (rc_id c) → serving r c it → serving r' c it.
Proof.
  intros (_ & _ & H1 & H2 & H3). unfold serving.
  by rewrite (same_stream _ _ _ H1), (same_stream _ _ _ H2), (same_stream _ _ _ H3).
Qed.

Lemma fd_ok_frame r r' fd :
  r_conns r' !! fd = r_conns r !! fd → r_fds r' !! fd = r_fds r !! fd → flight r' fd ≡ₚ flight r fd →
  (∀ id, r_fds r !! fd = Some id → same_client r r' id) →
  fd_ok r fd → fd_ok r' fd.
Proof.
  intros Hc Hf Hl Hs. unfold fd_ok, owned. rewrite Hc. destruct (r_conns r !! fd) as [c|].
  - intros ((H1 & H2 & H3) & it & H4 & H5). destruct (Hs _ H1) as (Hh & Hd & Hst).
    rewrite Hf, Hh, Hd. split_and!; [done..|]. exists it. rewrite Hl. split; [done|].
    apply (serving_same r); [by apply Hs|done].
  - intros [H|(id & H1 & H2)]; [left; by rewrite Hl|]. right. exists id. rewrite Hf. split; [done|].
    destruct H2 as [H2|(peer & H2 & H3)]; [left; by rewrite Hl|]. right. exists peer. rewrite Hl.
    split; [done|]. by apply (untouched_same r); [apply Hs|].
Qed.

Section Framing.
  Context (max : Z).

(** An item leaves the queues: its connection is the handler's. *)
Lemma inv_take r it sq ops cq fd :
  inv max r → items r ≡ₚ it :: items (requeue r sq ops cq) → item_fd it = Some fd →
  inv_x max (Some fd) (requeue r sq ops cq) ∧ flight (requeue r sq ops cq) fd ≡ₚ [] ∧ fd_ok r fd ∧ flight r fd ≡ₚ [it].
Proof.
  set (r0 := requeue r sq ops cq). intros [Hfd Hfr Hb Hinj Hw Hs Hh Hd] Hit Hf.
  pose proof (Hfd fd ltac:(done)) as Hok.
  assert (it ∈ items r) as Hin by (rewrite Hit; apply list_elem_of_here).
  assert (∃ l, flight r fd ≡ₚ [l]) as (l & Hl).
  { unfold fd_ok in Hok. destruct (r_conns r !! fd); [destruct Hok as (_ & l & ? & _); eauto|].
    destruct Hok as [Hn|(id & _ & [?|(peer & ? & _)])]; [|eauto..]. by destruct (flight_present r it fd Hin Hf). }
  destruct (flight_removed r r0 it fd Hit Hf l Hl) as [-> Hnil].
  split_and!; [|done..]. split; try done.
  - intros fd' Hne. apply (fd_ok_frame r); [done|done| |done|by apply Hfd].
    symmetry. apply (flight_other r0 r it fd fd' Hit Hf). congruence.
  - intros id Hi. destruct (Hh id Hi) as [(fd' & _ & Hc)|[?|(fd' & ? & _)]]; [|by right; left|done].
    destruct (decide (fd' = fd)) as [->|Hne]; [|left; exists fd'; split; [congruence|done]].
    right. right. exists fd. split; [done|]. unfold fd_ok in Hok. destruct (r_conns r !! fd) as [c|]; [|done].
    injection Hc as <-. by destruct Hok as [[? _] _].
  - intros id fd' Hi. destruct (Hd id fd' Hi) as (_ & H1 & H2 & H3 & H4). split_and!; [|done..|].
    + intros [= <-]. by destruct (flight_present r it fd Hin Hf).
    + rewrite <-H4. symmetry. apply (flight_other r0 r it fd fd' Hit Hf). intros ->.
      by destruct (flight_present r it fd Hin Hf).
Qed.

(** An item of no descriptor comes or goes. *)
Lemma flight_silent r it sq ops cq fd :
  (items r ≡ₚ it :: items (requeue r sq ops cq) ∨ items (requeue r sq ops cq) ≡ₚ it :: items r ∨
   items (requeue r sq ops cq) ≡ₚ items r) →
  item_fd it = None → flight (requeue r sq ops cq) fd ≡ₚ flight r fd.
Proof.
  intros [Hit|[Hit|Hit]] Hf.
  - symmetry. by apply (flight_none _ r it).
  - by apply (flight_none r _ it).
  - by apply on_perm.
Qed.

Lemma inv_silent x r it sq ops cq :
  inv_x max x r →
  (items r ≡ₚ it :: items (requeue r sq ops cq) ∨ items (requeue r sq ops cq) ≡ₚ it :: items r ∨
   items (requeue r sq ops cq) ≡ₚ items r) →
  item_fd it = None → inv_x max x (requeue r sq ops cq).
Proof.
  set (r0 := requeue r sq ops cq). intros [Hfd Hfr Hb Hinj Hw Hs Hh Hd] Hit Hf.
  assert (∀ fd, flight r0 fd ≡ₚ flight r fd) as Hfl by (intros; by apply (flight_silent r it)).
  split; try done.
  - intros fd Hne. apply (fd_ok_frame r); [done|done|apply Hfl|done|by apply Hfd].
  - intros id fd' Hi. destruct (Hd id fd' Hi) as (H0 & H1 & H2 & H3 & H4). split_and!; try done. by rewrite Hfl.
Qed.

Section Handler.
  Context (r : reactor) (fd : Z).
  Context (Hinv : inv_x max (Some fd) r) (Hfl : flight r fd ≡ₚ []).

(** The handler queues an item for its connection and is done. *)
Lemma inv_put it sq ops cq :
  items (requeue r sq ops cq) ≡ₚ it :: items r → item_fd it = Some fd →
  fd_ok (requeue r sq ops cq) fd →
  (∀ id, r_fds r !! fd = Some id → is_Some (r_held r !! id) → rc_id <$> r_conns r !! fd = Some id) →
  inv max (requeue r sq ops cq).
Proof.
  set (r0 := requeue r sq ops cq). intros Hit Hf Hok Hheld.
  destruct Hinv as [Hfd Hfr Hb Hinj Hw Hs Hh Hd].
  assert (∀ fd', fd' ≠ fd → flight r0 fd' ≡ₚ flight r fd') as Ho by (intros; by apply (flight_other r r0 it fd)).
  split; try done.
  - intros fd' _. destruct (decide (fd' = fd)) as [->|Hne]; [done|].
    apply (fd_ok_frame r); [done|done|by apply Ho|done|apply Hfd; congruence].
  - intros id Hi. destruct (Hh id Hi) as [(fd' & ? & Hc)|[?|(fd' & [= <-] & Hc)]]; [left; by exists fd'|by right; left|].
    left. exists fd. split; [done|]. by apply Hheld.
  - intros id fd' Hi. destruct (Hd id fd' Hi) as (H0 & H1 & H2 & H3 & H4). split_and!; try done.
    rewrite Ho; [done|]. congruence.
Qed.

(** The handler is done with a connection that is gone. *)
Lemma inv_gone : r_conns r !! fd = None → (∀ id, r_fds r !! fd = Some id → r_held r !! id = None) → inv max r.
Proof.
  intros Hc Hheld. destruct Hinv as [Hfd Hfr Hb Hinj Hw Hs Hh Hd]. split; try done.
  - intros fd' _. destruct (decide (fd' = fd)) as [->|Hne]; [|apply Hfd; congruence].
    unfold fd_ok. rewrite Hc. by left.
  - intros id Hi. destruct (Hh id Hi) as [(fd' & ? & Hx)|[?|(fd' & [= <-] & Hx)]]; [left; by exists fd'|by right; left|].
    rewrite (Hheld id Hx) in Hi. by destruct Hi.
  - intros id fd' Hi. by destruct (Hd id fd' Hi) as (_ & H1 & H2 & H3 & H4).
Qed.

(** Its table entry is the handler's to change. *)
Lemma inv_conns m : (∀ fd', fd' ≠ fd → m !! fd' = r_conns r !! fd') → inv_x max (Some fd) (with_conns r m).
Proof.
  intros Hm. destruct Hinv as [Hfd Hfr Hb Hinj Hw Hs Hh Hd]. split; try done.
  - intros fd' Hne. apply (fd_ok_frame r); [apply Hm; congruence|done|done|done|by apply Hfd].
  - intros id Hi. destruct (Hh id Hi) as [(fd' & H1 & Hx)|[?|?]]; [|by right; left|by right; right].
    left. exists fd'. split; [done|]. cbn [r_conns with_conns]. rewrite Hm; [done|congruence].
  - intros id fd' Hi. destruct (Hd id fd' Hi) as (H0 & H1 & H2 & H3 & H4). split_and!; try done.
    cbn [r_conns with_conns]. rewrite Hm; [done|congruence].
Qed.

(** Its client's streams too. *)
Lemma inv_streams id said wire owed :
  r_fds r !! fd = Some id →
  (∀ id', id' ≠ id → said !! id' = r_said r !! id' ∧ wire !! id' = r_wire r !! id' ∧ owed !! id' = r_owed r !! id') →
  stream wire id `prefix_of` stream owed id →
  inv_x max (Some fd) (with_owed (with_wire (with_said r said) wire) owed).
Proof.
  intros Hid Hsame Hp. destruct Hinv as [Hfd Hfr Hb Hinj Hw Hs Hh Hd].
  set (r' := with_owed (with_wire (with_said r said) wire) owed).
  assert (∀ id', id' ≠ id → same_client r r' id') as Hcl.
  { intros id' Hne. destruct (Hsame id' Hne) as (H1 & H2 & H3). by split_and!. }
  split; try done.
  - intros fd' Hne. apply (fd_ok_frame r); [done|done|done| |by apply Hfd].
    intros id' Hx. apply Hcl. intros ->. apply Hne. f_equal. by apply (Hinj fd fd' id).
  - intros id' Hle. apply (untouched_same r); [|by apply Hfr]. apply Hcl. intros ->. apply Hb in Hid. cbn in Hle. lia.
  - intros id'. destruct (decide (id' = id)) as [->|Hne]; [done|].
    destruct (Hsame id' Hne) as (_ & H2 & H3). cbn [r_wire r_owed r' with_owed with_wire].
    rewrite (same_stream _ _ _ H2), (same_stream _ _ _ H3). apply Hw.
Qed.

End Handler.
End Framing.

(** *** Handlers *)

Section HandlerProofs.
  Context (cap : nat) (max : Z).

Lemma release_ok r fd c :
  inv_x max (Some fd) r → owned r fd c → inv_x max (Some fd) (release (rc_id c) (rc_slot c) r).
Proof.
  intros [Hfd Hfr Hb Hinj Hw Hs Hh Hd] (Ho1 & Ho2 & Ho3). set (r' := release _ _ r).
  assert (∀ id', id' ≠ rc_id c → same_client r r' id') as Hcl.
  { intros id' Hne. split_and!; try done. cbn [r_held r' release with_slots]. by rewrite lookup_delete_ne. }
  assert (∀ id', is_Some (r_held r' !! id') → id' ≠ rc_id c ∧ is_Some (r_held r !! id')) as Hdel.
  { intros id'. cbn [r_held r' release with_slots]. intros [s Hx]. apply lookup_delete_Some in Hx as [? ?]. eauto. }
  split; try done.
  - intros fd' Hne. apply (fd_ok_frame r); [done|done|done| |by apply Hfd].
    intros id' Hx. apply Hcl. intros ->. apply Hne. f_equal. by apply (Hinj fd fd' (rc_id c)).
  - intros id' Hle. apply (untouched_same r); [|by apply Hfr]. apply Hcl. intros ->. apply Hb in Ho1. cbn in Hle. lia.
  - pose proof (disconnect_ok max _ (rc_id c) Hs) as Hx. cbn [conn_step c_open c_map] in Hx. by rewrite Ho2 in Hx.
  - intros id' Hi. destruct (Hdel id' Hi) as [_ Hi']. by apply Hh.
  - intros id' fd' Hi. destruct (Hd id' fd' Hi) as (H0 & H1 & H2 & H3 & H4). split_and!; try done.
    cbn [r_held r' release with_slots]. rewrite lookup_delete_ne; [done|]. intros <-. cbn in Hi. congruence.
Qed.

Lemma items_push r op : items (with_sq r (r_sq r ++ [op])) ≡ₚ Todo op :: items r.
Proof.
  unfold items. cbn [r_sq r_ops r_cq with_sq]. rewrite !fmap_app. cbn [fmap list_fmap].
  rewrite <-!app_assoc. cbn [app]. symmetry. apply Permutation_middle.
Qed.

Lemma prep_Some op r r' : prep cap op r = Some r' → r' = with_sq r (r_sq r ++ [op]).
Proof. unfold prep. case_match; [|done]. by intros [= <-]. Qed.

(** Queueing for the connection a handler works on. *)
Lemma prep_ok op r r' fd c :
  inv_x max (Some fd) r → flight r fd ≡ₚ [] → prep cap op r = Some r' → item_fd (Todo op) = Some fd →
  r_conns r !! fd = Some c → owned r fd c → serving r c (Todo op) → inv max r'.
Proof.
  intros Hinv Hfl Hp Hop Hc Ho Hs. apply prep_Some in Hp as ->.
  change (with_sq r (r_sq r ++ [op])) with (requeue r (r_sq r ++ [op]) (r_ops r) (r_cq r)).
  apply (inv_put max r fd Hinv (Todo op)); [exact (items_push r op)|done| |].
  - unfold fd_ok. cbn [r_conns requeue with_cq with_ops with_sq]. rewrite Hc. split; [exact Ho|].
    exists (Todo op). split; [|apply (serving_same r); [by split_and!|done]].
    apply (flight_mine r); [exact (items_push r op)|done|done].
  - intros id Hid _. rewrite Hc. cbn. destruct Ho as (Ho & _). congruence.
Qed.

Lemma closeConn_ok r fd c :
  inv_x max (Some fd) r → flight r fd ≡ₚ [] → owned r fd c → inv max (closeConn cap fd c r).
Proof.
  intros Hinv Hfl Ho.
  set (r1 := release (rc_id c) (rc_slot c) (with_conns r (delete fd (r_conns r)))).
  assert (inv_x max (Some fd) r1) as H1.
  { apply (release_ok _ fd c); [|exact Ho]. apply inv_conns; [done|]. intros. by rewrite lookup_delete_ne. }
  assert (r_conns r1 !! fd = None) as Hc by apply lookup_delete_eq.
  assert (∀ id, r_fds r1 !! fd = Some id → r_held r1 !! id = None) as Hheld.
  { intros id Hid. destruct Ho as (Ho & _). assert (id = rc_id c) as -> by (cbn in Hid; congruence). apply lookup_delete_eq. }
  assert (closeConn cap fd c r = default r1 (prep cap (OpClose fd) r1)) as ->.
  { unfold closeConn, prep, r1. cbn [r_sq release with_slots with_conns]. by destruct (_ <? cap)%nat. }
  destruct (prep cap (OpClose fd) r1) as [r2|] eqn:Hp; cbn [default]; [|by apply (inv_gone max r1 fd)].
  apply prep_Some in Hp as ->.
  change (with_sq r1 (r_sq r1 ++ [OpClose fd])) with (requeue r1 (r_sq r1 ++ [OpClose fd]) (r_ops r1) (r_cq r1)).
  apply (inv_put max r1 fd H1 (Todo (OpClose fd))); [exact (items_push r1 _)|done| |].
  - unfold fd_ok. cbn [r_conns requeue with_cq with_ops with_sq]. rewrite Hc. right. exists (rc_id c).
    split; [apply Ho|]. left. apply (flight_mine r1); [exact (items_push r1 _)|done|done].
  - intros id Hid [s Hx]. rewrite (Hheld id Hid) in Hx. done.
Qed.

(** [prepRecv] or close. *)
Lemma rearm_ok r fd c :
  inv_x max (Some fd) r → flight r fd ≡ₚ [] → r_conns r !! fd = Some c → owned r fd c →
  rc_hb c = None → rc_heard c = stream (r_said r) (rc_id c) → stream (r_wire r) (rc_id c) = stream (r_owed r) (rc_id c) →
  inv max (match rearm cap fd (rc_io c) r with Some r => r | None => closeConn cap fd c r end).
Proof.
  intros Hinv Hfl Hc Ho H1 H2 H3. unfold rearm. destruct (_ =? 0)%nat; [by apply closeConn_ok|].
  destruct (prep cap _ r) as [r'|] eqn:Hp; [|by apply closeConn_ok].
  eapply (prep_ok _ r r' fd c); [done|done|exact Hp|done|done|done|]. by split_and!.
Qed.

(** A descriptor that is nobody's is closed. *)
Lemma closed_ok r fd :
  inv_x max (Some fd) r → flight r fd ≡ₚ [] → r_conns r !! fd = None →
  (∀ id, r_fds r !! fd = Some id → r_held r !! id = None) →
  inv max (with_fds r (delete fd (r_fds r))).
Proof.
  intros [Hfd Hfr Hb Hinj Hw Hs Hh Hd] Hfl Hc Hheld. set (r' := with_fds _ _).
  assert (∀ fd' id, r_fds r' !! fd' = Some id → fd' ≠ fd ∧ r_fds r !! fd' = Some id) as Hf.
  { intros fd' id Hx. cbn [r_fds r' with_fds] in Hx. apply lookup_delete_Some in Hx as [? ?]. done. }
  split; try done.
  - intros fd' _. destruct (decide (fd' = fd)) as [->|Hne]; [unfold fd_ok; cbn [r_conns r' with_fds]; rewrite Hc; by left|].
    apply (fd_ok_frame r); [done| |done|done|apply Hfd; congruence]. cbn [r_fds r' with_fds]. by rewrite lookup_delete_ne.
  - intros fd' id Hx. destruct (Hf fd' id Hx) as [_ Hy]. by apply (Hb fd').
  - intros f1 f2 id H1 H2. destruct (Hf _ _ H1) as [_ H1'], (Hf _ _ H2) as [_ H2']. by apply (Hinj f1 f2 id).
  - intros id Hi. destruct (Hh id Hi) as [(fd' & ? & Hx)|[?|(fd' & [= <-] & Hx)]]; [left; by exists fd'|by right; left|].
    change (r_held r') with (r_held r) in Hi. rewrite (Hheld id Hx) in Hi. by destruct Hi.
  - intros id fd' Hi. destruct (Hd id fd' Hi) as (H0 & H1 & H2 & H3 & H4). split_and!; try done.
    cbn [r_fds r' with_fds]. rewrite lookup_delete_ne; [done|congruence].
Qed.

(** A free descriptor is untracked and idle. *)
Lemma free_idle x r fd :
  inv_x max x r → x ≠ Some fd → r_fds r !! fd = None → r_conns r !! fd = None ∧ flight r fd ≡ₚ [].
Proof.
  intros Hinv Hx Hn. pose proof (i_fd _ _ _ Hinv fd Hx) as Hok. unfold fd_ok in Hok.
  destruct (r_conns r !! fd) as [c|]; [destruct Hok as [[H _] _]; congruence|].
  destruct Hok as [?|(id & H & _)]; [done|congruence].
Qed.

(** The connection moves to the fallback under another descriptor. *)
Lemma moved_ok r fd fd' c :
  inv_x max (Some fd) r → flight r fd ≡ₚ [] → r_conns r !! fd = None → owned r fd c → r_fds r !! fd' = None →
  inv max (with_detached (with_fds r (<[fd' := rc_id c]> (delete fd (r_fds r)))) (<[rc_id c := fd']> (r_detached r))).
Proof.
  intros Hinv Hfl Hc (Ho1 & Ho2 & Ho3) Hfree. set (r' := with_detached _ _).
  assert (fd' ≠ fd) as Hne by congruence.
  destruct (free_idle _ r fd' Hinv ltac:(congruence) Hfree) as [Hc' Hfl'].
  destruct Hinv as [Hfd Hfr Hb Hinj Hw Hs Hh Hd].
  assert (∀ f id, r_fds r' !! f = Some id → f = fd' ∧ id = rc_id c ∨ f ≠ fd' ∧ f ≠ fd ∧ id ≠ rc_id c ∧ r_fds r !! f = Some id) as Hf.
  { intros f id. cbn [r_fds r' with_fds with_detached]. intros [[<- <-]|[H1 H2]]%lookup_insert_Some; [by left|].
    apply lookup_delete_Some in H2 as [H2 H3]. right. split_and!; try done. intros ->. by apply H2, (Hinj _ _ (rc_id c)). }
  assert (∀ id, id ≠ rc_id c → same_client r r' id) as Hcl.
  { intros id Hx. split_and!; try done. cbn [r_detached r' with_detached]. by rewrite lookup_insert_ne. }
  split; try done.
  - intros f _. destruct (decide (f = fd)) as [->|H1]; [unfold fd_ok; cbn [r_conns r' with_fds with_detached]; rewrite Hc; by left|].
    destruct (decide (f = fd')) as [->|H2]; [unfold fd_ok; cbn [r_conns r' with_fds with_detached]; rewrite Hc'; by left|].
    apply (fd_ok_frame r); [done| |done| |apply Hfd; congruence].
    + cbn [r_fds r' with_fds with_detached]. by rewrite lookup_insert_ne, lookup_delete_ne.
    + intros id Hx. apply Hcl. intros ->. by apply H1, (Hinj _ _ (rc_id c)).
  - intros id Hle. apply (untouched_same r); [|by apply Hfr]. apply Hcl. intros ->. apply Hb in Ho1. cbn in Hle. lia.
  - intros f id Hx. destruct (Hf f id Hx) as [[-> ->]|(_ & _ & _ & Hy)]; [by apply (Hb fd)|by apply (Hb f)].
  - intros f1 f2 id H1 H2. destruct (Hf _ _ H1) as [[-> ->]|(? & ? & ? & H1')], (Hf _ _ H2) as [[-> ?]|(? & ? & ? & H2')];
      try done. by apply (Hinj f1 f2 id).
  - intros id Hi. destruct (decide (id = rc_id c)) as [->|Hx].
    { right. left. cbn [r_detached r' with_detached]. rewrite lookup_insert_eq. by eexists. }
    destruct (Hh id Hi) as [(f & H1 & H2)|[H1|(f & [= <-] & H1)]]; [left; by exists f| |congruence].
    right. left. cbn [r_detached r' with_detached]. by rewrite lookup_insert_ne.
  - intros id f Hi. cbn [r_detached r' with_detached] in Hi. apply lookup_insert_Some in Hi as [[<- <-]|[H1 H2]].
    + split_and!; try done. cbn [r_fds r' with_detached with_fds]. apply lookup_insert_eq.
    + destruct (Hd id f H2) as (H3 & H4 & H5 & H6 & H7). split_and!; try done.
      cbn [r_fds r' with_detached with_fds]. rewrite lookup_insert_ne, lookup_delete_ne; congruence.
Qed.

Lemma detach_ok e r fd c :
  inv_x max (Some fd) r → flight r fd ≡ₚ [] → owned r fd c → env_free e r = true →
  inv max (detachToFallback e fd c r).
Proof.
  intros Hinv Hfl Ho Hfree. unfold detachToFallback. set (r1 := with_conns r (delete fd (r_conns r))).
  assert (inv_x max (Some fd) r1) as H1.
  { apply inv_conns; [done|]. intros. by rewrite lookup_delete_ne. }
  unfold env_free in Hfree. destruct (e_dup e) as [fd'|].
  - destruct (r_fds r !! fd') eqn:Hx; [done|]. apply (moved_ok r1 fd fd' c H1 Hfl); [apply lookup_delete_eq|exact Ho|exact Hx].
  - pose proof (release_ok r1 fd c H1 Ho) as H2. apply (closed_ok _ fd H2 Hfl); [apply lookup_delete_eq|].
    intros id Hid. destruct Ho as (Ho & _). assert (id = rc_id c) as -> by (cbn in Hid; congruence). apply lookup_delete_eq.
Qed.

Lemma stream_extend id b m : stream (extend id b m) id = stream m id ++ b.
Proof. unfold stream at 1, extend. by rewrite lookup_insert_eq. Qed.

Lemma extend_other id id' b m : id' ≠ id → extend id b m !! id' = m !! id'.
Proof. intros. unfold extend. by rewrite lookup_insert_ne. Qed.

(** A handler at work on connection [c]. *)
Record working (r : reactor) (fd : Z) (c : rconn) : Prop := mkWorking {
  w_inv : inv_x max (Some fd) r;
  w_idle : flight r fd ≡ₚ [];
  w_owned : owned r fd c;
}.

(** A connection between requests. *)
Definition rested (r : reactor) (c : rconn) : Prop :=
  rc_hb c = None ∧ rc_heard c = stream (r_said r) (rc_id c) ∧
  stream (r_wire r) (rc_id c) = stream (r_owed r) (rc_id c).

Lemma working_conn r fd c c' :
  working r fd c → rc_id c' = rc_id c → rc_slot c' = rc_slot c →
  working (with_conns r (<[fd := c']> (r_conns r))) fd c'.
Proof.
  intros [H1 H2 H3] Hi Hs. split; [|done|unfold owned; rewrite Hi, Hs; exact H3].
  apply inv_conns; [done|]. intros. by rewrite lookup_insert_ne.
Qed.

Lemma working_streams r fd c wb ob :
  working r fd c → stream (r_wire r) (rc_id c) ++ wb `prefix_of` stream (r_owed r) (rc_id c) ++ ob →
  working (with_owed (with_wire r (extend (rc_id c) wb (r_wire r))) (extend (rc_id c) ob (r_owed r))) fd c.
Proof.
  intros [H1 H2 H3] Hp. split; [|done|exact H3].
  apply (inv_streams max r fd H1 (rc_id c) (r_said r)); [apply H3| |by rewrite !stream_extend].
  intros id' Hne. by rewrite !extend_other.
Qed.

Lemma working_owed r fd c ob :
  working r fd c → working (with_owed r (extend (rc_id c) ob (r_owed r))) fd c.
Proof.
  intros [H1 H2 H3]. split; [|done|exact H3].
  apply (inv_streams max r fd H1 (rc_id c) (r_said r) (r_wire r)); [apply H3| |].
  - intros id' Hne. by rewrite !extend_other.
  - rewrite stream_extend. by apply prefix_app_r, H1.
Qed.

Lemma working_wire r fd c wb :
  working r fd c → stream (r_wire r) (rc_id c) ++ wb `prefix_of` stream (r_owed r) (rc_id c) →
  working (with_wire r (extend (rc_id c) wb (r_wire r))) fd c.
Proof.
  intros [H1 H2 H3] Hp. split; [|done|exact H3].
  apply (inv_streams max r fd H1 (rc_id c) (r_said r) (extend (rc_id c) wb (r_wire r)) (r_owed r)); [apply H3| |by rewrite stream_extend].
  intros id' Hne. by rewrite !extend_other.
Qed.

Lemma send_to_owned r fd c b : owned r fd c → send_to fd b r = with_wire r (extend (rc_id c) b (r_wire r)).
Proof. intros (H & _). unfold send_to. by rewrite H. Qed.

Lemma serve_request_ok e r fd c :
  env_ok e → working r fd c → r_conns r !! fd = Some c → rested r c → env_free e r = true →
  inv max (serve_request cap e fd c r).
Proof.
  intros He Hw Hc (H1 & H2 & H3) Hfree. unfold serve_request. destruct (e_gate e (rc_io c)) as [buf|].
  - rewrite (send_to_owned _ fd c) by apply Hw.
    assert (working (with_owed (with_wire r (extend (rc_id c) (take (e_rejected e) buf) (r_wire r))) (extend (rc_id c) buf (r_owed r))) fd c) as [Ha Hb Hd].
    { apply working_streams; [done|]. rewrite H3. apply prefix_app, prefix_take. }
    exact (closeConn_ok _ fd c Ha Hb Hd).
  - destruct (e_warm e (rc_io c)) as [[st keep]|] eqn:Hwarm; [|by destruct Hw; apply detach_ok].
    set (c' := mkRC _ _ _ _ _ _). set (r1 := with_owed r _).
    assert (working (with_conns r1 (<[fd := c']> (r_conns r1))) fd c') as [Ha Hb Hd].
    { apply (working_conn r1 fd c); [|done|done]. exact (working_owed r fd c (response st) Hw). }
    cbv zeta. destruct (_ =? 0)%nat; [by apply closeConn_ok|].
    destruct (prep cap _ _) as [r2|] eqn:Hp; [|by apply closeConn_ok].
    apply (prep_ok _ _ r2 fd c' Ha Hb Hp); [done|apply lookup_insert_eq|done|].
    exists st. split_and!; [done|by apply (He _ _ _ Hwarm)|done|exact H2|].
    cbn [r_wire r_owed with_conns with_owed r1 rc_id c']. by rewrite stream_extend, H3.
Qed.

Lemma after_parse_ok e r fd c o :
  env_ok e → working r fd c → rested r c → env_free e r = true → inv max (after_parse cap e fd c o r).
Proof.
  intros He Hw Hr Hfree. destruct o as [|io|io]; unfold after_parse; [by destruct Hw; apply closeConn_ok|..];
    pose proof (working_conn r fd c (set_io c io) Hw eq_refl eq_refl) as Hw'; pose proof Hw' as [Ha Hb Hd];
    destruct Hr as (H1 & H2 & H3).
  - apply (rearm_ok _ fd (set_io c io)); [done|done|apply lookup_insert_eq|done|done|exact H2|exact H3].
  - apply serve_request_ok; [done|done|apply lookup_insert_eq|by split_and!|done].
Qed.

(** Only receive and write completions concern tracked connections. *)
Lemma tracked_item r fd it :
  fd_ok r fd → flight r fd ≡ₚ [it] → it ≠ Todo (OpClose fd) → (∀ peer, it ≠ Done (CAccept (Some fd) peer)) →
  ∃ c, r_conns r !! fd = Some c ∧ owned r fd c ∧ serving r c it.
Proof.
  unfold fd_ok. intros Hok Hfl H1 H2. destruct (r_conns r !! fd) as [c|].
  - destruct Hok as (Ho & it' & Hl & Hs). exists c. split_and!; try done.
    rewrite Hl in Hfl. apply Permutation_singleton_inj in Hfl. by subst.
  - destruct Hok as [Hx|(id & _ & [Hx|(peer & Hx & _)])]; rewrite Hfl in Hx.
    + by apply Permutation_nil_r in Hx.
    + by apply Permutation_singleton_inj in Hx.
    + apply Permutation_singleton_inj in Hx. by destruct (H2 peer).
Qed.

Lemma items_pop r c cq : r_cq r = c :: cq → items r ≡ₚ Done c :: items (with_cq r cq).
Proof.
  intros Hc. unfold items. rewrite Hc. cbn [fmap list_fmap r_sq r_ops r_cq with_cq].
  by rewrite Permutation_middle.
Qed.

(** Popping a completion of a tracked connection. *)
Lemma pop_tracked r c cq fd :
  inv max r → r_cq r = c :: cq → item_fd (Done c) = Some fd → (∀ fd' peer, c ≠ CAccept fd' peer) →
  ∃ cn, r_conns r !! fd = Some cn ∧ working (with_cq r cq) fd cn ∧ serving r cn (Done c).
Proof.
  intros Hinv Hq Hf Hn.
  destruct (inv_take max r (Done c) (r_sq r) (r_ops r) cq fd Hinv (items_pop r c cq Hq) Hf) as (H1 & H2 & H3 & H4).
  destruct (tracked_item r fd (Done c) H3 H4) as (cn & Hc & Ho & Hs); [done|intros peer [= Hx]; by apply (Hn (Some fd) peer)|].
  exists cn. split_and!; [done|split; [exact H1|exact H2|exact Ho]|done].
Qed.

Lemma onRecv_ok e r fd res cq :
  env_ok e → inv max r → r_cq r = CRecv fd res :: cq → env_free e r = true →
  inv max (onRecv cap e fd res (with_cq r cq)).
Proof.
  intros He Hinv Hq Hfree.
  destruct (pop_tracked r (CRecv fd res) cq fd Hinv Hq eq_refl) as (c & Hc & Hw & Hs); [done|].
  unfold onRecv. cbn [r_conns with_cq]. rewrite Hc. destruct res as [data|]; [|by destruct Hw; apply closeConn_ok].
  set (c' := mkRC _ _ _ _ _ _). cbn [serving] in Hs. destruct Hs as (H1 & H2 & H3).
  destruct Hw as [Ha Hb Hd]. apply (after_parse_ok e _ fd c'); [done|by split|by split_and!|done].
Qed.

Lemma body_sent evs file off n s :
  0 ≤ off → reactorSendfile evs file off n = Some s →
  s_wire s `prefix_of` window file off n ∧ (s_err s = None → s_count s = n → s_wire s = window file off n).
Proof.
  intros Hoff. unfold reactorSendfile. destruct (Z.le_gt_cases n 0) as [Hn|Hn].
  - assert (transfer (maxSendfileSlice n) (Some UnexpectedEOF) (λ _, Some ClientStalled) file evs off n 0 = Some (mkSent [] 0 None evs)) as ->.
    { destruct evs; cbn [transfer]; by rewrite (proj2 (Z.leb_le n 0) Hn). }
    intros [= <-]. cbn [s_wire s_err s_count]. split; [apply prefix_nil|]. by intros _ <-.
  - intros Hr. destruct (transfer_exact (maxSendfileSlice n) (Some UnexpectedEOF) (λ _, Some ClientStalled) file n
      (λ m Hm, maxSendfileSlice_bounds n m Hm) evs off 0 s) as (H1 & H2 & _); [lia|lia|exact Hr|].
    rewrite Z.add_0_r, Z.sub_0_r in H2. rewrite H2. split; [apply window_prefix; lia|]. by intros _ ->.
Qed.

Lemma onWrite_ok e r fd res cq r' :
  env_ok e → inv max r → r_cq r = CWrite fd res :: cq → env_free e r = true →
  onWrite cap e fd res (with_cq r cq) = Some r' → inv max r'.
Proof.
  intros He Hinv Hq Hfree.
  destruct (pop_tracked r (CWrite fd res) cq fd Hinv Hq eq_refl) as (c & Hc & Hw & Hs); [done|].
  pose proof Hw as [Ha Hb Hd]. unfold onWrite. cbn [r_conns with_cq]. rewrite Hc.
  destruct res as [n|]; [|intros [= <-]; by apply closeConn_ok]. cbn [serving] in Hs.
  destruct Hs as (st & w & H1 & Hoff & H2 & H3 & H4). rewrite H1.
  destruct (Nat.eqb_spec n (length (st_head st))) as [->|Hne]; cbn [negb]; [|intros [= <-]; by apply closeConn_ok].
  rewrite firstn_all in H3.
  destruct (reactorSendfile _ _ _ _) as [s|] eqn:Hsf; [|done].
  destruct (body_sent _ _ _ _ _ Hoff Hsf) as [Hpre Hfull].
  rewrite (send_to_owned _ fd c _ Hd). set (c' := mkRC _ _ _ _ _ _). set (r1 := with_wire _ _).
  assert (working r1 fd c) as Hw1.
  { apply working_wire; [done|]. cbn [r_wire r_owed with_cq]. rewrite H3, H4, <-app_assoc. by apply prefix_app, prefix_app. }
  pose proof (working_conn r1 fd c c' Hw1 eq_refl eq_refl) as Hw2. pose proof Hw2 as [Ha2 Hb2 Hd2].
  cbv zeta. destruct (is_error s) eqn:Her; cbn [orb]; [intros [= <-]; by apply closeConn_ok|].
  destruct (Z.eqb_spec (s_count s) (st_len st)) as [Hcnt|Hcnt]; cbn [negb]; [|intros [= <-]; by apply closeConn_ok].
  assert (rested (with_conns r1 (<[fd := c']> (r_conns r1))) c') as Hrest.
  { split_and!; [done|exact H2|]. cbn [r_wire r_owed with_conns with_wire with_cq r1 c' rc_id].
    rewrite stream_extend, H3, H4, <-app_assoc. unfold response. unfold is_error in Her. rewrite Hfull; [done| |done].
    by destruct (s_err s). }
  destruct (negb (rc_keepAlive c')); [intros [= <-]; by apply closeConn_ok|].
  destruct (0 <? recvLen (rc_io c'))%nat; intros [= <-].
  - by apply after_parse_ok.
  - destruct Hrest as (Hr1 & Hr2 & Hr3). apply (rearm_ok _ fd c'); try done. apply lookup_insert_eq.
Qed.

(** Re-arming ACCEPT concerns no connection. *)
Lemma accept_rearmed x r :
  inv_x max x r → inv_x max x (default r (prep cap OpAccept r)) ∧
  ∀ fd, flight (default r (prep cap OpAccept r)) fd ≡ₚ flight r fd.
Proof.
  intros Hinv. destruct (prep cap OpAccept r) as [r'|] eqn:Hp; [|done]. apply prep_Some in Hp as ->. cbn [default].
  change (with_sq r (r_sq r ++ [OpAccept])) with (requeue r (r_sq r ++ [OpAccept]) (r_ops r) (r_cq r)). split.
  - apply (inv_silent max x r (Todo OpAccept)); [done|right; left; exact (items_push r OpAccept)|done].
  - intros fd. apply (flight_silent r (Todo OpAccept)); [right; left; exact (items_push r OpAccept)|done].
Qed.

(** A slot is taken for a client that had none. *)
Lemma acquire_ok r fd id peer slot m :
  inv_x max (Some fd) r → r_fds r !! fd = Some id → untouched r id →
  acquirePerIPSlot max (r_perIP r) peer = (Some slot, m) →
  inv_x max (Some fd) (with_slots r m (<[id := slot]> (r_held r))).
Proof.
  intros [Hfd Hfr Hb Hinj Hw Hs Hh Hd] Hid (Hu1 & Hu2 & _) Hacq. set (r' := with_slots _ _ _).
  assert (∀ id', id' ≠ id → same_client r r' id') as Hcl.
  { intros id' Hne. split_and!; try done. cbn [r_held r' with_slots]. by rewrite lookup_insert_ne. }
  split; try done.
  - intros fd' Hne. apply (fd_ok_frame r); [done|done|done| |by apply Hfd].
    intros id' Hx. apply Hcl. intros ->. apply Hne. f_equal. by apply (Hinj fd fd' id).
  - intros id' Hle. apply (untouched_same r); [|by apply Hfr]. apply Hcl. intros ->. apply Hb in Hid. cbn in Hle. lia.
  - pose proof (accept_ok max _ id peer Hs) as Hx. cbn [conn_step c_open c_map] in Hx. by rewrite Hu1, Hacq in Hx.
  - intros id' Hi. destruct (decide (id' = id)) as [->|Hne]; [right; right; by exists fd|].
    cbn [r_held r' with_slots] in Hi. rewrite lookup_insert_ne in Hi by done. by apply Hh.
  - intros id' fd' Hi. destruct (Hd id' fd' Hi) as (H0 & H1 & H2 & H3 & H4). split_and!; try done.
    cbn [r_held r' with_slots]. rewrite lookup_insert_ne; [done|]. intros <-. cbn in Hi. congruence.
Qed.

Lemma onAccept_ok e r res peer cq :
  inv max r → r_cq r = CAccept res peer :: cq → inv max (onAccept cap max e res peer (with_cq r cq)).
Proof.
  intros Hinv Hq. unfold onAccept. set (r0 := with_cq r cq).
  assert (match prep cap OpAccept r0 with Some r => r | None => r0 end = default r0 (prep cap OpAccept r0)) as ->
    by (by destruct (prep cap OpAccept r0)).
  destruct res as [fd|].
  2: { apply accept_rearmed. apply (inv_silent max None r (Done (CAccept None peer)) (r_sq r) (r_ops r) cq); [done| |done].
       left. exact (items_pop r _ cq Hq). }
  destruct (inv_take max r (Done (CAccept (Some fd) peer)) (r_sq r) (r_ops r) cq fd Hinv (items_pop r _ cq Hq) eq_refl)
    as (H1 & H2 & H3 & H4). change (requeue r (r_sq r) (r_ops r) cq) with r0 in *.
  assert (r_conns r !! fd = None ∧ ∃ id, r_fds r !! fd = Some id ∧ untouched r id) as (Hc & id & Hid & Hu).
  { unfold fd_ok in H3. destruct (r_conns r !! fd) as [c|].
    - destruct H3 as (_ & it & Hl & Hs). rewrite H4 in Hl. apply Permutation_singleton_inj in Hl. by subst it.
    - split; [done|]. destruct H3 as [Hx|(id & Hid & [Hx|(p & Hx & Hu)])]; [| |by exists id]; rewrite H4 in Hx;
        [by apply Permutation_nil_r in Hx|by apply Permutation_singleton_inj in Hx]. }
  destruct (accept_rearmed _ r0 H1) as [H5 H6]. set (r1 := default r0 (prep cap OpAccept r0)) in *.
  assert (r_conns r1 !! fd = None ∧ r_fds r1 !! fd = Some id ∧ untouched r1 id) as (Hc1 & Hid1 & Hu1).
  { unfold r1. destruct (prep cap OpAccept r0) as [r'|] eqn:Hp; [apply prep_Some in Hp as ->|]; by split_and!. }
  assert (flight r1 fd ≡ₚ []) as Hfl1 by (by rewrite H6).
  destruct (acquirePerIPSlot max (r_perIP r1) peer) as [[slot|] m] eqn:Hacq.
  - rewrite Hid1. set (c := mkRC _ _ _ _ _ _).
    assert (working (with_slots r1 m (<[id := slot]> (r_held r1))) fd c) as Hw.
    { split; [by apply (acquire_ok r1 fd id peer)|exact Hfl1|]. split_and!; [exact Hid1|apply lookup_insert_eq|apply Hu1]. }
    pose proof (working_conn _ fd c c Hw eq_refl eq_refl) as [Ha Hb Hd].
    apply (rearm_ok _ fd c); try done; [apply lookup_insert_eq|..]; destruct Hu1 as (_ & _ & Hx & Hy & Hz);
      cbn [r_said r_wire r_owed with_conns with_slots c rc_id rc_heard]; unfold stream; by rewrite ?Hx, ?Hy, ?Hz.
  - apply closed_ok; try done. intros id' Hx. assert (id' = id) as -> by congruence. apply Hu1.
Qed.

Lemma handleCQE_ok e r c cq r' :
  env_ok e → inv max r → r_cq r = c :: cq → env_free e r = true →
  handleCQE cap max e c (with_cq r cq) = Some r' → inv max r'.
Proof.
  intros He Hinv Hq Hfree. destruct c as [res peer| |fd res|fd res|fd]; cbn [handleCQE].
  - intros [= <-]. by apply onAccept_ok.
  - intros [= <-]. apply (inv_silent max None r (Done CWakeup) (r_sq r) (r_ops r) cq); [done| |done]. left. exact (items_pop r _ cq Hq).
  - intros [= <-]. by apply onRecv_ok.
  - by apply onWrite_ok.
  - intros [= <-]. apply (inv_silent max None r (Done (CClose fd)) (r_sq r) (r_ops r) cq); [done| |done]. left. exact (items_pop r _ cq Hq).
Qed.

(** *** The kernel's steps *)

Lemma items_post r c : items (with_cq r (r_cq r ++ [c])) ≡ₚ Done c :: items r.
Proof.
  unfold items. cbn [r_sq r_ops r_cq with_cq]. rewrite (fmap_app Done), app_assoc. cbn [fmap list_fmap].
  by rewrite Permutation_app_comm.
Qed.

(** A running operation of a tracked connection. *)
Lemma take_op r i o fd :
  inv max r → r_ops r !! i = Some o → item_fd (Todo o) = Some fd → o ≠ OpClose fd →
  ∃ c, r_conns r !! fd = Some c ∧ working (with_ops r (delete i (r_ops r))) fd c ∧ serving r c (Todo o).
Proof.
  intros Hinv Hi Hf Hn.
  destruct (inv_take max r (Todo o) (r_sq r) (delete i (r_ops r)) (r_cq r) fd Hinv (items_op r i o Hi) Hf) as (H1 & H2 & H3 & H4).
  destruct (tracked_item r fd (Todo o) H3 H4) as (c & Hc & Ho & Hs); [congruence|done|].
  exists c. split_and!; [done|split; [exact H1|exact H2|exact Ho]|done].
Qed.

Lemma put_done r fd c q :
  working r fd c → r_conns r !! fd = Some c → item_fd (Done q) = Some fd → serving r c (Done q) →
  inv max (with_cq r (r_cq r ++ [q])).
Proof.
  intros [H1 H2 H3] Hc Hf Hs.
  change (with_cq r (r_cq r ++ [q])) with (requeue r (r_sq r) (r_ops r) (r_cq r ++ [q])).
  apply (inv_put max r fd H1 (Done q)); [exact (items_post r q)|done| |].
  - unfold fd_ok. cbn [r_conns requeue with_cq with_ops with_sq]. rewrite Hc. split; [exact H3|].
    exists (Done q). split; [|apply (serving_same r); [by split_and!|done]].
    apply (flight_mine r); [exact (items_post r q)|done|done].
  - intros id Hid _. rewrite Hc. cbn. destruct H3 as (H3 & _). congruence.
Qed.

(** An operation of no descriptor completes. *)
Lemma silent_complete r i o q :
  inv max r → r_ops r !! i = Some o → item_fd (Todo o) = None → item_fd (Done q) = None → inv max (complete i q r).
Proof.
  intros Hinv Hi Ho Hq. set (r0 := requeue r (r_sq r) (delete i (r_ops r)) (r_cq r)).
  assert (inv max r0) as H0 by (apply (inv_silent max None r (Todo o)); [done|left; exact (items_op r i o Hi)|done]).
  apply (inv_silent max None r0 (Done q) (r_sq r) (delete i (r_ops r)) (r_cq r ++ [q]) H0); [|done].
  right. left. exact (items_post r0 q).
Qed.

(** A descriptor being closed belongs to nobody. *)
Lemma unheld r fd id :
  inv max r → r_conns r !! fd = None → ¬ flight r fd ≡ₚ [] → r_fds r !! fd = Some id → r_held r !! id = None.
Proof.
  intros [Hfd Hfr Hb Hinj Hw Hs Hh Hd] Hc Hfl Hid. destruct (r_held r !! id) as [slot|] eqn:He; [exfalso|done].
  destruct (Hh id ltac:(by rewrite He)) as [(fd' & _ & Hx)|[[fd' Hx]|(? & ? & _)]]; [| |done].
  - pose proof (Hfd fd' ltac:(done)) as Hok. unfold fd_ok in Hok. destruct (r_conns r !! fd') as [c|] eqn:Hc'; [|done].
    destruct Hok as [[Ho _] _]. injection Hx as <-. assert (fd = fd') as -> by (by apply (Hinj _ _ (rc_id c))). congruence.
  - destruct (Hd id fd' Hx) as (_ & H1 & _ & _ & H2). assert (fd = fd') as -> by (by apply (Hinj _ _ id)). done.
Qed.

Lemma close_step r i fd :
  inv max r → r_ops r !! i = Some (OpClose fd) →
  inv max (with_fds (complete i (CClose fd) r) (delete fd (r_fds r))).
Proof.
  intros Hinv Hi.
  destruct (inv_take max r (Todo (OpClose fd)) (r_sq r) (delete i (r_ops r)) (r_cq r) fd Hinv (items_op r i _ Hi) eq_refl) as (H1 & H2 & H3 & H4).
  set (r0 := requeue r (r_sq r) (delete i (r_ops r)) (r_cq r)) in *.
  assert (r_conns r !! fd = None) as Hc.
  { unfold fd_ok in H3. destruct (r_conns r !! fd) as [c|]; [exfalso|done]. destruct H3 as (_ & it & Hl & Hs).
    rewrite H4 in Hl. apply Permutation_singleton_inj in Hl. by subst it. }
  assert (inv max (with_fds r0 (delete fd (r_fds r0)))) as H5.
  { apply closed_ok; [done|done|done|]. intros id Hid. apply (unheld r fd id Hinv Hc); [|done].
    intros Hx. rewrite H4 in Hx. by apply Permutation_nil_r in Hx. }
  set (r1 := with_fds r0 (delete fd (r_fds r0))) in *.
  apply (inv_silent max None r1 (Done (CClose fd)) (r_sq r) (delete i (r_ops r)) (r_cq r ++ [CClose fd]) H5); [|done].
  right. left. exact (items_post r1 (CClose fd)).
Qed.

(** The kernel hands out a free descriptor for a new client. *)
Lemma accept_step r i fd peer :
  inv max r → r_ops r !! i = Some OpAccept → r_fds r !! fd = None →
  inv max (with_next (with_fds (complete i (CAccept (Some fd) peer) r) (<[fd := r_next r]> (r_fds r))) (S (r_next r))).
Proof.
  intros Hinv Hi Hfree. set (r0 := requeue r (r_sq r) (delete i (r_ops r)) (r_cq r)).
  assert (inv max r0) as H0 by (apply (inv_silent max None r (Todo OpAccept)); [done|left; exact (items_op r i _ Hi)|done]).
  destruct (free_idle None r0 fd H0 ltac:(done) Hfree) as [Hc Hfl].
  change (inv max (with_next (with_fds (with_cq r0 (r_cq r0 ++ [CAccept (Some fd) peer])) (<[fd := r_next r0]> (r_fds r0))) (S (r_next r0)))).
  set (r' := with_next _ _). pose proof (items_post r0 (CAccept (Some fd) peer)) as Hit.
  change (items r' ≡ₚ Done (CAccept (Some fd) peer) :: items r0) in Hit.
  destruct H0 as [Hfd Hfr Hb Hinj Hw Hs Hh Hd].
  assert (∀ f, f ≠ fd → flight r' f ≡ₚ flight r0 f) as Ho by (intros; by eapply flight_other).
  assert (∀ f id, r_fds r' !! f = Some id → f = fd ∧ id = r_next r0 ∨ f ≠ fd ∧ r_fds r0 !! f = Some id) as Hf.
  { intros f id Hx. cbn [r_fds r' with_next with_fds] in Hx. apply lookup_insert_Some in Hx as [[<- <-]|[? ?]]; [by left|right]. done. }
  split; [| | | |exact Hw|exact Hs| |].
  - intros f _. destruct (decide (f = fd)) as [->|Hne].
    + unfold fd_ok. change (r_conns r') with (r_conns r0). rewrite Hc. right. exists (r_next r0).
      split; [apply lookup_insert_eq|]. right. exists peer. split; [by eapply flight_mine|].
      by apply (untouched_same r0); [split_and!|apply Hfr].
    + apply (fd_ok_frame r0); [done| |by apply Ho|by intros; split_and!|by apply Hfd].
      cbn [r_fds r' with_next with_fds]. by rewrite lookup_insert_ne.
  - intros id Hle. apply (untouched_same r0); [by split_and!|]. apply Hfr. cbn [r_next r' with_next] in Hle. lia.
  - intros f id Hx. cbn [r_next r' with_next]. destruct (Hf f id Hx) as [[_ ->]|[_ Hy]]; [lia|]. specialize (Hb f id Hy). lia.
  - intros f1 f2 id H1 H2. destruct (Hf _ _ H1) as [[-> ->]|[? H1']], (Hf _ _ H2) as [[-> Hx]|[? H2']]; try done.
    + apply Hb in H2'. lia.
    + subst id. apply Hb in H1'. lia.
    + by apply (Hinj f1 f2 id).
  - intros id Hx. destruct (Hh id Hx) as [?|[?|(? & ? & _)]]; [by left|by right; left|done].
  - intros id f Hx. destruct (Hd id f Hx) as (H1 & H2 & H3 & H4 & H5).
    assert (f ≠ fd) as Hne by (intros ->; change (r_fds r0) with (r_fds r) in H2; congruence).
    split_and!; try done; [|by rewrite Ho]. cbn [r_fds r' with_next with_fds]. by rewrite lookup_insert_ne.
Qed.

Lemma recv_step r i fd room id data :
  inv max r → r_ops r !! i = Some (OpRecv fd room) → r_fds r !! fd = Some id →
  inv max (with_said (complete i (CRecv fd (Some data)) r) (extend id data (r_said r))).
Proof.
  intros Hinv Hi Hid. destruct (take_op r i _ fd Hinv Hi eq_refl ltac:(done)) as (c & Hc & [H1 H2 H3] & Hs).
  set (r0 := with_ops r (delete i (r_ops r))) in *.
  assert (id = rc_id c) as -> by (destruct H3 as (H3 & _); cbn in H3; congruence).
  assert (inv_x max (Some fd) (with_owed (with_wire (with_said r0 (extend (rc_id c) data (r_said r0))) (r_wire r0)) (r_owed r0))) as H4.
  { apply (inv_streams max r0 fd H1 (rc_id c)); [apply H3| |apply H1]. intros id' Hne. by rewrite extend_other. }
  apply (put_done (with_said r0 (extend (rc_id c) data (r_said r0))) fd c (CRecv fd (Some data))); [by split|done|done|].
  cbn [serving] in Hs |- *. destruct Hs as (Ha & Hb & Hd). split_and!; [done| |done].
  change (r_said (with_said r0 (extend (rc_id c) data (r_said r0)))) with (extend (rc_id c) data (r_said r)).
  by rewrite stream_extend, Hb.
Qed.

Lemma write_step r i fd h n :
  inv max r → r_ops r !! i = Some (OpWrite fd h) →
  inv max (send_to fd (take n h) (complete i (CWrite fd (Some n)) r)).
Proof.
  intros Hinv Hi. destruct (take_op r i _ fd Hinv Hi eq_refl ltac:(done)) as (c & Hc & Hw & Hs).
  set (r0 := with_ops r (delete i (r_ops r))) in *. pose proof Hw as [_ _ H3].
  rewrite (send_to_owned _ fd c) by exact H3. cbn [serving] in Hs. destruct Hs as (st & Ha & Hoff & -> & Hb & Hd).
  assert (working (with_wire r0 (extend (rc_id c) (take n (st_head st)) (r_wire r0))) fd c) as Hw1.
  { apply working_wire; [done|]. change (r_wire r0) with (r_wire r). change (r_owed r0) with (r_owed r).
    rewrite <-Hd. unfold response. by apply prefix_app, prefix_app_r, prefix_take. }
  apply (put_done _ fd c (CWrite fd (Some n)) Hw1); [done|done|].
  exists st, (stream (r_wire r) (rc_id c)). split_and!; [done|done|done| |done].
  change (r_wire (with_wire r0 (extend (rc_id c) (take n (st_head st)) (r_wire r0)))) with (extend (rc_id c) (take n (st_head st)) (r_wire r)).
  apply stream_extend.
Qed.

Lemma failed_step r i o fd q :
  inv max r → r_ops r !! i = Some o → (∃ room, o = OpRecv fd room ∧ q = CRecv fd None) ∨ (∃ h, o = OpWrite fd h ∧ q = CWrite fd None) →
  inv max (complete i q r).
Proof.
  intros Hinv Hi [(room & -> & ->)|(h & -> & ->)];
    destruct (take_op r i _ fd Hinv Hi eq_refl ltac:(done)) as (c & Hc & Hw & Hs).
  - apply (put_done (with_ops r (delete i (r_ops r))) fd c (CRecv fd None) Hw Hc eq_refl). exact Hs.
  - apply (put_done (with_ops r (delete i (r_ops r))) fd c (CWrite fd None) Hw Hc eq_refl).
    destruct Hs as (st & _ & _ & _ & Hs & _). exact Hs.
Qed.

Lemma submit_step r n : inv max r → inv max (with_sq (with_ops r (r_ops r ++ take n (r_sq r))) (drop n (r_sq r))).
Proof.
  intros Hinv. apply (inv_silent max None r (Todo OpAccept) (drop n (r_sq r)) (r_ops r ++ take n (r_sq r)) (r_cq r) Hinv); [|done].
  right. right. unfold items. cbn [requeue r_sq r_ops r_cq with_cq with_ops with_sq].
  rewrite <-(take_drop n (r_sq r)) at 3. rewrite (Permutation_app_comm (take n (r_sq r))).
  by rewrite <-app_assoc, (Permutation_app_comm (take n (r_sq r))).
Qed.

(** The fallback is done: its descriptor is closed and its slot released. *)
Lemma detached_step r id fd slot :
  inv max r → r_detached r !! id = Some fd → r_held r !! id = Some slot →
  inv max (release id slot (with_detached (with_fds r (delete fd (r_fds r))) (delete id (r_detached r)))).
Proof.
  intros [Hfd Hfr Hb Hinj Hw Hs Hh Hd] Hdet Hheld. set (r' := release _ _ _).
  destruct (Hd id fd Hdet) as (_ & Hid & _ & Hc & Hfl).
  assert (∀ id', id' ≠ id → same_client r r' id') as Hcl.
  { intros id' Hne. split_and!; try done; cbn [r_held r_detached r' release with_slots with_detached]; by rewrite lookup_delete_ne. }
  assert (∀ f id', r_fds r' !! f = Some id' → f ≠ fd ∧ r_fds r !! f = Some id' ∧ id' ≠ id) as Hf.
  { intros f id' Hx. cbn [r_fds r' release with_slots with_detached with_fds] in Hx.
    apply lookup_delete_Some in Hx as [H1 H2]. split_and!; try done. intros ->. by apply H1, (Hinj _ _ id). }
  split; [| | | |exact Hw| | |].
  - intros f _. destruct (decide (f = fd)) as [->|Hne]; [unfold fd_ok; change (r_conns r') with (r_conns r); rewrite Hc; by left|].
    apply (fd_ok_frame r); [done| |done| |by apply Hfd].
    + cbn [r_fds r' release with_slots with_detached with_fds]. by rewrite lookup_delete_ne.
    + intros id' Hx. apply Hcl. intros ->. by apply Hne, (Hinj _ _ id).
  - intros id' Hle. apply (untouched_same r); [|by apply Hfr]. apply Hcl. intros ->. apply Hb in Hid. cbn in Hle. lia.
  - intros f id' Hx. destruct (Hf f id' Hx) as (_ & Hy & _). by apply (Hb f).
  - intros f1 f2 id' H1 H2. destruct (Hf _ _ H1) as (_ & ? & _), (Hf _ _ H2) as (_ & ? & _). by apply (Hinj f1 f2 id').
  - pose proof (disconnect_ok max _ id Hs) as Hx. cbn [conn_step c_open c_map] in Hx. by rewrite Hheld in Hx.
  - intros id' [s Hx]. cbn [r_held r' release with_slots] in Hx. apply lookup_delete_Some in Hx as [Hne Hx].
    destruct (Hh id' ltac:(by eexists)) as [(f & H1 & H2)|[H1|(? & ? & _)]]; [left; by exists f| |done].
    right. left. cbn [r_detached r' release with_slots with_detached]. by rewrite lookup_delete_ne.
  - intros id' f Hx. cbn [r_detached r' release with_slots with_detached] in Hx. apply lookup_delete_Some in Hx as [Hne Hx].
    destruct (Hd id' f Hx) as (H1 & H2 & H3 & H4 & H5). split_and!; try done.
    + cbn [r_fds r' release with_slots with_detached with_fds]. rewrite lookup_delete_ne; [done|]. intros <-. congruence.
    + cbn [r_held r' release with_slots]. by rewrite lookup_delete_ne.
Qed.

Definition step_ok (s : rstep) : Prop := match s with RHandle e => env_ok e | _ => True end.

Lemma step_inv r s : inv max r → step_ok s → inv max (step cap max r s).
Proof.
  intros Hinv Hs. destruct s as [n|i fd peer|i|i data|i n|i|i|i|e|id]; cbn [step].
  - by apply submit_step.
  - destruct (r_ops r !! i) as [[]|] eqn:Hi; try done. destruct (r_fds r !! fd) eqn:Hf; [done|]. by apply accept_step.
  - destruct (r_ops r !! i) as [[]|] eqn:Hi; try done. by apply (silent_complete r i OpAccept).
  - destruct (r_ops r !! i) as [[| |fd room| |]|] eqn:Hi; try done. destruct (r_fds r !! fd) as [id|] eqn:Hf.
    + destruct (_ <=? _)%nat; [|done]. by apply (recv_step r i fd room id).
    + apply (failed_step r i (OpRecv fd room) fd); [done|done|]. left. by exists room.
  - destruct (r_ops r !! i) as [[]|] eqn:Hi; try done. destruct (_ <=? _)%nat; [|done]. by apply write_step.
  - destruct (r_ops r !! i) as [[| |fd room|fd h|]|] eqn:Hi; try done.
    + apply (failed_step r i (OpRecv fd room) fd); [done|done|]. left. by exists room.
    + apply (failed_step r i (OpWrite fd h) fd); [done|done|]. right. by exists h.
  - destruct (r_ops r !! i) as [[]|] eqn:Hi; try done. by apply close_step.
  - destruct (r_ops r !! i) as [[]|] eqn:Hi; try done. by apply (silent_complete r i OpWakeup).
  - destruct (r_cq r) as [|c cq] eqn:Hq; [done|]. destruct (env_free e r) eqn:Hfree; [|done].
    destruct (handleCQE cap max e c (with_cq r cq)) as [r'|] eqn:Hh; [|done]. by apply (handleCQE_ok e r c cq).
  - destruct (r_detached r !! id) eqn:Hd; [|done]. destruct (r_held r !! id) eqn:Hh; [|done]. by apply detached_step.
Qed.

Lemma start_inv : inv max start.
Proof.
  split; try done.
  - intros fd _. by left.
  - intros a. unfold open_at. cbn [c_map c_open start r_perIP r_held]. rewrite lookup_empty, gsum_empty. cbn. split_and!; [lia..|done].
  - intros id [? Hx]. done.
Qed.

Lemma run_inv ss : Forall step_ok ss → inv max (run cap max start ss).
Proof.
  intros Hall. unfold run. generalize start_inv. generalize start. induction Hall as [|s ss Hs Hall IH]; intros r Hr; [done|].
  cbn [foldl]. by apply IH, step_inv.
Qed.

End HandlerProofs.

(** ** Losing the accept *)

Definition accepts (it : item) : bool :=
  match it with Todo OpAccept | Done (CAccept _ _) => true | _ => false end.

(** No accept is queued, running or waiting to be handled. *)
Definition deaf (r : reactor) : Prop := Forall (λ it, accepts it = false) (items r).

Lemma deaf_queues r :
  deaf r ↔ Forall (λ o, accepts (Todo o) = false) (r_sq r) ∧ Forall (λ o, accepts (Todo o) = false) (r_ops r) ∧
           Forall (λ c, accepts (Done c) = false) (r_cq r).
Proof. unfold deaf, items. rewrite Forall_app, !Forall_fmap, Forall_app. unfold compose. naive_solver. Qed.

Section Deaf.
  Context (cap : nat) (max : Z).

Lemma deaf_same r r' : deaf r → r_sq r' = r_sq r → r_ops r' = r_ops r → r_cq r' = r_cq r → deaf r'.
Proof. unfold deaf, items. by intros ? -> -> ->. Qed.

Lemma deaf_prep op r r' : deaf r → op ≠ OpAccept → prep cap op r = Some r' → deaf r' ∧ r_next r' = r_next r.
Proof.
  intros Hd Ho Hp. apply prep_Some in Hp as ->. split; [|done]. apply deaf_queues in Hd as (H1 & H2 & H3).
  apply deaf_queues. split_and!; try done. apply Forall_app. split; [done|]. apply Forall_singleton. by destruct op.
Qed.

Definition quiet (r r' : reactor) : Prop := deaf r → deaf r' ∧ r_next r' = r_next r.

Lemma quiet_same r r' :
  r_sq r' = r_sq r → r_ops r' = r_ops r → r_cq r' = r_cq r → r_next r' = r_next r → quiet r r'.
Proof. intros ???? Hd. split; [|done]. by eapply deaf_same. Qed.

Ltac quiet_done := exact (quiet_same _ _ eq_refl eq_refl eq_refl eq_refl).

Lemma quiet_trans r1 r2 r3 : quiet r1 r2 → quiet r2 r3 → quiet r1 r3.
Proof. unfold quiet. intros H1 H2 Hd. destruct (H1 Hd) as [? <-]. by apply H2. Qed.

Lemma send_to_quiet fd b r : quiet r (send_to fd b r).
Proof. unfold send_to. destruct (r_fds r !! fd); quiet_done. Qed.

Lemma closeConn_quiet fd c r : quiet r (closeConn cap fd c r).
Proof.
  unfold closeConn. set (r1 := with_conns r _). apply (quiet_trans r r1); [quiet_done|].
  destruct (prep cap (OpClose fd) r1) as [r2|] eqn:Hp; [|quiet_done].
  apply (quiet_trans r1 r2); [intros Hd; by refine (deaf_prep _ _ _ Hd _ Hp)|quiet_done].
Qed.

Lemma rearm_quiet fd io c r : quiet r (match rearm cap fd io r with Some r => r | None => closeConn cap fd c r end).
Proof.
  unfold rearm. destruct (_ =? 0)%nat; [apply closeConn_quiet|].
  destruct (prep cap _ r) as [r'|] eqn:Hp; [|apply closeConn_quiet]. intros Hd. by refine (deaf_prep _ _ _ Hd _ Hp).
Qed.

Lemma serve_request_quiet e fd c r : quiet r (serve_request cap e fd c r).
Proof.
  unfold serve_request. destruct (e_gate e (rc_io c)) as [buf|].
  - eapply quiet_trans; [|apply closeConn_quiet]. eapply quiet_trans; [|apply send_to_quiet]. quiet_done.
  - destruct (e_warm e (rc_io c)) as [[st keep]|]; cbv zeta.
    + match goal with |- quiet r (if _ then closeConn _ _ _ ?r1 else _) => apply (quiet_trans r r1); [quiet_done|] end.
      destruct (_ =? 0)%nat; [apply closeConn_quiet|].
      destruct (prep cap _ _) as [r2|] eqn:Hp; [|apply closeConn_quiet]. intros Hd. by refine (deaf_prep _ _ _ Hd _ Hp).
    + unfold detachToFallback. destruct (e_dup e); quiet_done.
Qed.

Lemma after_parse_quiet e fd c o r : quiet r (after_parse cap e fd c o r).
Proof.
  destruct o as [|io|io]; unfold after_parse; cbv zeta; [apply closeConn_quiet|..].
  - eapply quiet_trans; [|apply rearm_quiet]. quiet_done.
  - eapply quiet_trans; [|apply serve_request_quiet]. quiet_done.
Qed.

Lemma handleCQE_quiet e c r r' : accepts (Done c) = false → handleCQE cap max e c r = Some r' → quiet r r'.
Proof.
  intros Ha. destruct c as [res peer| |fd res|fd res|fd]; cbn [handleCQE]; try done; try (intros [= <-]; quiet_done).
  - intros [= <-]. unfold onRecv. destruct (r_conns r !! fd); [|quiet_done].
    destruct res; [apply after_parse_quiet|apply closeConn_quiet].
  - unfold onWrite. destruct (r_conns r !! fd) as [c|]; [|by intros [= <-]].
    destruct res as [n|]; [|intros [= <-]; apply closeConn_quiet].
    destruct (rc_hb c) as [st|]; [|intros [= <-]; apply closeConn_quiet].
    destruct (negb _); [intros [= <-]; apply closeConn_quiet|].
    destruct (reactorSendfile _ _ _ _) as [s|]; [|done]. cbv zeta.
    set (r1 := with_conns _ _). set (c1 := mkRC _ _ _ _ _ _).
    assert (quiet r r1) as H1 by (eapply quiet_trans; [apply send_to_quiet|quiet_done]).
    destruct (_ || _); [intros [= <-]; eapply quiet_trans; [exact H1|apply closeConn_quiet]|].
    destruct (negb _); [intros [= <-]; eapply quiet_trans; [exact H1|apply closeConn_quiet]|].
    destruct (_ <? _)%nat; intros [= <-]; (eapply quiet_trans; [exact H1|]); [apply after_parse_quiet|apply rearm_quiet].
Qed.

Lemma deaf_complete i q r : accepts (Done q) = false → quiet r (complete i q r).
Proof.
  intros Hq Hd. split; [|done]. apply deaf_queues in Hd as (H1 & H2 & H3). apply deaf_queues. split_and!; [done| |].
  - by apply Forall_delete.
  - apply Forall_app. split; [done|]. by apply Forall_singleton.
Qed.

Lemma deaf_no_op i r : deaf r → r_ops r !! i ≠ Some OpAccept.
Proof. intros (_ & H2 & _)%deaf_queues Hi. by apply (Forall_lookup_1 _ _ _ _ H2) in Hi. Qed.

(** Once no accept is in flight there never is one again. *)
Lemma step_deaf r s : quiet r (step cap max r s).
Proof.
  intros Hd. pose proof (deaf_no_op) as Hno. destruct s as [n|i fd peer|i|i data|i n|i|i|i|e|id]; cbn [step].
  - split; [|done]. apply deaf_queues in Hd as (H1 & H2 & H3). apply deaf_queues. split_and!; [by apply Forall_drop| |done].
    apply Forall_app. split; [done|by apply Forall_take].
  - destruct (r_ops r !! i) as [[]|] eqn:Hi; try done. by destruct (Hno i r Hd).
  - destruct (r_ops r !! i) as [[]|] eqn:Hi; try done. by destruct (Hno i r Hd).
  - destruct (r_ops r !! i) as [[| |fd room| |]|] eqn:Hi; try done.
    destruct (r_fds r !! fd); [destruct (_ <=? _)%nat; [|done]|by apply deaf_complete].
    destruct (deaf_complete i (CRecv fd (Some data)) r eq_refl Hd) as [Ha Hb]. split; [by apply (deaf_same (complete i (CRecv fd (Some data)) r))|done].
  - destruct (r_ops r !! i) as [[| | |fd h|]|] eqn:Hi; try done. destruct (_ <=? _)%nat; [|done].
    by apply (quiet_trans r (complete i (CWrite fd (Some n)) r)); [apply deaf_complete|apply send_to_quiet|].
  - destruct (r_ops r !! i) as [[]|] eqn:Hi; try done; by apply deaf_complete.
  - destruct (r_ops r !! i) as [[| | | |fd]|] eqn:Hi; try done.
    by apply (quiet_trans r (complete i (CClose fd) r)); [apply deaf_complete|quiet_done|].
  - destruct (r_ops r !! i) as [[]|] eqn:Hi; try done; by apply deaf_complete.
  - destruct (r_cq r) as [|c cq] eqn:Hq; [done|]. destruct (env_free e r); [|done].
    destruct (handleCQE cap max e c (with_cq r cq)) as [r'|] eqn:Hh; [|done]. cbn [default].
    apply deaf_queues in Hd as (H1 & H2 & H3). rewrite Hq in H3. apply Forall_cons in H3 as [H3 H4].
    apply (handleCQE_quiet e c (with_cq r cq) r' H3 Hh). apply deaf_queues. by split_and!.
  - destruct (r_detached r !! id), (r_held r !! id); done.
Qed.

Lemma run_deaf r ss : quiet r (run cap max r ss).
Proof.
  unfold run. revert r. induction ss as [|s ss IH]; intros r; cbn [foldl]; [quiet_done|].
  eapply quiet_trans; [apply step_deaf|apply IH].
Qed.

End Deaf.

(** Completion tags are read back exactly: the operation and the descriptor,
    for every operation code of a byte and every 32-bit descriptor. *)
Lemma user_data_roundtrip op fd :
  0 ≤ op < 256 → - 2 ^ 31 ≤ fd < 2 ^ 31 → unpackUserData (packUserData op fd) = (op, fd).
Proof.
  intros Hop Hfd. unfold unpackUserData, packUserData, to_uint32.
  pose proof (Z.mod_pos_bound fd (2 ^ 32) ltac:(lia)) as Hm.
  replace (Z.lor op (Z.shiftl (fd mod 2 ^ 32) 8)) with (op + fd mod 2 ^ 32 * 2 ^ 8).
  2: { rewrite Z.shiftl_mul_pow2 by lia.
       rewrite Z.add_nocarry_lxor, <-Z.lxor_lor; [done|..]; apply Z.bits_inj'; intros n Hn; rewrite Z.land_spec, Z.bits_0;
       (destruct (Z.lt_ge_cases n 8); [rewrite (Z.mul_pow2_bits_low _ 8 n) by lia; apply andb_false_r|];
        rewrite (Z.bits_above_log2 op n); [done|lia|];
        destruct (Z.eq_dec op 0) as [->|]; [cbn; lia|apply Z.log2_lt_pow2; [lia|]; pose proof (Z.pow_le_mono_r 2 8 n); lia]). }
  f_equal.
  - change 255 with (Z.ones 8). rewrite Z.land_ones by lia. rewrite Z.mod_add by lia. apply Z.mod_small. lia.
  - rewrite Z.shiftr_div_pow2 by lia. rewrite Z.div_add by lia. rewrite (Z.div_small op) by (change (2 ^ 8) with 256; lia).
    rewrite Z.add_0_l, Z.mod_mod by lia. unfold to_int32.
    rewrite <-(Z.add_mod_idemp_l (fd mod 2 ^ 32)) by lia. rewrite Z.mod_mod, Z.add_mod_idemp_l by lia.
    rewrite Z.mod_small; lia.
Qed.

Lemma serving_heard r c it : serving r c it → rc_heard c `prefix_of` stream (r_said r) (rc_id c).
Proof.
  destruct it as [[]|[? ?| |fd [d|]|fd [n|]|?]]; cbn [serving]; try done.
  - intros (_ & -> & _). done.
  - intros (st & _ & _ & _ & -> & _). done.
  - intros (_ & <- & _). by apply prefix_app_r.
  - intros (_ & -> & _). done.
  - intros (st & w & _ & _ & -> & _). done.
  - intros ->. done.
Qed.

Lemma completion_tracked max r fd c :
  inv max r → Done c ∈ items r → (∃ data, c = CRecv fd data) ∨ (∃ n, c = CWrite fd n) → is_Some (r_conns r !! fd).
Proof.
  intros Hinv Hin Hk. assert (item_fd (Done c) = Some fd) as Hf by (by destruct Hk as [[? ->]|[? ->]]).
  pose proof (i_fd _ _ _ Hinv fd ltac:(done)) as Hok. unfold fd_ok in Hok.
  destruct (r_conns r !! fd) as [cn|]; [by eexists|exfalso].
  assert (Done c ∈ flight r fd) as Hfl by (by apply list_elem_of_filter).
  destruct Hok as [Hx|(id & _ & [Hx|(p & Hx & _)])]; rewrite Hx in Hfl; apply list_elem_of_In in Hfl; cbn in Hfl;
    destruct Hk as [[? ->]|[? ->]]; naive_solver.
Qed.

(** ** The main results *)

(** C12: connections of a reactor never mix.  For every interleaving of the
    handlers with the kernel, whatever descriptors are reused and however the
    operations fail: every tracked connection has exactly one operation in
    flight and its descriptor still belongs to its client; a receive or write
    completion always finds its connection; a handler's view of a client's
    stream is what that client sent; and the bytes a client receives are a
    prefix of the responses produced for that client. *)
Theorem reactor_no_crosstalk cap max ss :
  Forall step_ok ss →
  let r := run cap max start ss in
  (∀ fd c, r_conns r !! fd = Some c →
     r_fds r !! fd = Some (rc_id c) ∧ length (flight r fd) = 1%nat ∧
     rc_heard c `prefix_of` stream (r_said r) (rc_id c)) ∧
  (∀ fd c, c ∈ r_cq r → (∃ data, c = CRecv fd data) ∨ (∃ n, c = CWrite fd n) → is_Some (r_conns r !! fd)) ∧
  (∀ id, stream (r_wire r) id `prefix_of` stream (r_owed r) id).
Proof.
  intros Hall r. assert (inv max r) as Hinv by by apply run_inv. split_and!.
  - intros fd c Hc. pose proof (i_fd _ _ _ Hinv fd ltac:(done)) as Hok. unfold fd_ok in Hok. rewrite Hc in Hok.
    destruct Hok as ((Ho & _) & it & Hl & Hs). split_and!; [done|by rewrite Hl|]. by apply (serving_heard r c it).
  - intros fd c Hin Hk. apply (completion_tracked max r fd c); [done| |done].
    apply elem_of_app. right. apply list_elem_of_fmap. by exists c.
  - apply Hinv.
Qed.

(** C31: the per-address cap is exact on this path too.  A slot is taken when
    a connection is accepted and given back exactly once, when the connection
    closes, or when the fallback it was handed to is done: the count kept for an
    address is the number of its connections that are tracked or detached, and
    never exceeds the cap. *)
Theorem reactor_slots_exact cap max ss a :
  0 < max → Forall step_ok ss →
  let r := run cap max start ss in
  default 0 (r_perIP r !! a) = open_at (mkConns (r_perIP r) (r_held r)) a ∧
  default 0 (r_perIP r !! a) ≤ max ∧
  (∀ id, is_Some (r_held r !! id) ↔
     (∃ fd c, r_conns r !! fd = Some c ∧ rc_id c = id) ∨ is_Some (r_detached r !! id)).
Proof.
  intros Hmax Hall r. assert (inv max r) as Hinv by by apply run_inv.
  destruct (i_slots _ _ _ Hinv a) as (H1 & H2 & _). cbn [c_map] in H1. split_and!; [done|lia|].
  intros id. split.
  - intros Hi. destruct (i_held _ _ _ Hinv id Hi) as [(fd & _ & Hx)|[?|(? & ? & _)]]; [left|by right|done].
    destruct (r_conns r !! fd) as [c|] eqn:Hc; [|done]. injection Hx as <-. by exists fd, c.
  - intros [(fd & c & Hc & <-)|[fd Hd]]; [|by apply (i_det _ _ _ Hinv id fd)].
    pose proof (i_fd _ _ _ Hinv fd ltac:(done)) as Hok. unfold fd_ok in Hok. rewrite Hc in Hok.
    destruct Hok as ((_ & -> & _) & _). by eexists.
Qed.

(** a reactor that has no accept in flight never accepts again, whatever
    happens afterwards. *)
Theorem lost_accept_is_final cap max r ss :
  deaf r → deaf (run cap max r ss) ∧ r_next (run cap max r ss) = r_next r.
Proof. intros Hd. exact (run_deaf cap max r ss Hd). Qed.

(** ** Concrete runs *)

(** No gate; every request is a warm hit for the last three bytes of a file. *)
Definition hit_env : env :=
  mkEnv (λ _, None) 0 (λ _, Some (mkStaged (bs "HEAD") (bs "abcdef") 3 3, true)) [SysN 1; SysIntr; SysN 9]
    fresh_buf None.

Lemma hit_env_ok : env_ok hit_env.
Proof. intros io st keep [= <- <-]. discriminate. Qed.

Definition local_peer : remote := Some [10; 0; 0; 1].

(** Two clients; the first one's request arrives in two pieces around the other's
    arrival and is answered; the second disconnects. *)
Definition two_clients : list rstep :=
  let req := get_request "/" "" in
  [KSubmit 2; KAccept 1 5 local_peer; RHandle hit_env; KSubmit 2;
   KRecv 2 (take 7 req); KAccept 1 6 local_peer; RHandle hit_env; RHandle hit_env; KSubmit 9;
   KRecv 1 (drop 7 req); KRecv 2 []; RHandle hit_env; RHandle hit_env; KSubmit 9; KWrite 2 4; RHandle hit_env; KSubmit 9; KClose 2].

Lemma two_clients_ok : Forall step_ok two_clients.
Proof. repeat constructor; exact hit_env_ok. Qed.

Lemma two_clients_result :
  let r := run 8 4 start two_clients in
  (stream (r_wire r) 0, stream (r_said r) 0, map_to_list (rc_id <$> r_conns r), map_to_list (r_fds r), r_sq r)
  = (bs "HEADdef", get_request "/" "", [(5, 0%nat)], [(5, 0%nat)], []).
Proof. vm_compute. reflexivity. Qed.

Lemma reactor_no_crosstalk_witness :
  let r := run 8 4 start two_clients in
  (∀ fd c, r_conns r !! fd = Some c →
     r_fds r !! fd = Some (rc_id c) ∧ length (flight r fd) = 1%nat ∧
     rc_heard c `prefix_of` stream (r_said r) (rc_id c)) ∧
  (∀ fd c, c ∈ r_cq r → (∃ data, c = CRecv fd data) ∨ (∃ n, c = CWrite fd n) → is_Some (r_conns r !! fd)) ∧
  (∀ id, stream (r_wire r) id `prefix_of` stream (r_owed r) id).
Proof. apply (reactor_no_crosstalk 8 4 two_clients). exact two_clients_ok. Defined.

Lemma reactor_slots_exact_witness :
  let r := run 8 1 start two_clients in
  default 0 (r_perIP r !! v4_mapped [10; 0; 0; 1]) = open_at (mkConns (r_perIP r) (r_held r)) (v4_mapped [10; 0; 0; 1]) ∧
  default 0 (r_perIP r !! v4_mapped [10; 0; 0; 1]) ≤ 1 ∧
  (∀ id, is_Some (r_held r !! id) ↔
     (∃ fd c, r_conns r !! fd = Some c ∧ rc_id c = id) ∨ is_Some (r_detached r !! id)).
Proof. apply (reactor_slots_exact 8 1 two_clients); [reflexivity|exact two_clients_ok]. Defined.

(** With a queue of two entries: two clients disconnect and a third arrives
    before the next [enter].  The two closes fill the queue, so the accept is not
    re-armed, nor is the third client's receive or its close queued. *)
Definition full_queue : list rstep :=
  [KSubmit 2; KAccept 1 5 local_peer; RHandle hit_env; KSubmit 2;
   KAccept 1 6 local_peer; RHandle hit_env; KSubmit 2;
   KRecv 1 []; KRecv 2 []; KAccept 1 7 local_peer; RHandle hit_env; RHandle hit_env; RHandle hit_env; KSubmit 2].

(** The reactor is deaf; descriptor 7 stays open, is in no table, and its slot
    has been given back. *)
Lemma full_queue_result :
  let r := run 2 4 start full_queue in
  deaf r ∧ r_fds r !! 7 = Some 2%nat ∧ r_conns r = ∅ ∧ r_held r = ∅ ∧ r_perIP r = ∅ ∧ flight r 7 = [].
Proof. vm_compute. split_and!; repeat constructor. Qed.

Lemma lost_accept_is_final_witness :
  let r := run 2 4 start full_queue in
  deaf (run 2 4 r [KSubmit 2; KClose 1]) ∧ r_next (run 2 4 r [KSubmit 2; KClose 1]) = r_next r.
Proof. apply (lost_accept_is_final 2 4). exact (proj1 full_queue_result). Defined.
