(* ===== verification/HubClient.v ===== *)
(** * The Hub client (src/internal/hfhub/client.go)

    The client lists a repository, cuts its files into ranges and fetches them
    in parallel, with retries, into a directory or a sink.  Responses, write
    failures, cancellation and the order in which the goroutines write are
    arguments; the results hold for all of them.  The parts of net/url,
    path/filepath and unicode/utf8 it uses are modelled first. *)

From stdpp Require Import base strings numbers gmap list.
From S2P Require Import Prelude GoStd Spans Store StoreBytes Rewrite SendFile.

Local Open Scope Z_scope.
Local Open Scope go_scope.

(** ** net/url *)

Definition path_plain (c : Z) : bool :=
  unreserved c || (c =? 36) || (c =? 38) || (c =? 43) || (c =? 61) || (c =? 58) || (c =? 64).

Definition path_escape_byte (c : Z) : bytes :=
  if path_plain c then [c] else [37; upper_hex (c / 16); upper_hex (c mod 16)].

Definition PathEscape (s : bytes) : bytes := concat (path_escape_byte <$> s).

Fixpoint PathUnescape (s : bytes) : option bytes :=
  match s with
  | [] => Some []
  | 37 :: a :: b :: s =>
      match unhex a, unhex b, PathUnescape s with
      | Some x, Some y, Some t => Some (16 * x + y :: t)
      | _, _, _ => None
      end
  | 37 :: _ => None
  | c :: s => cons c <$> PathUnescape s
  end.

(** ** unicode/utf8 *)

Definition RuneError : Z := 65533.

Definition cont (lo hi c : Z) : bool := (lo <=? c) && (c <=? hi).

(** Rune and width. *)
Definition DecodeRune (s : bytes) : Z * nat :=
  match s with
  | [] => (RuneError, 0%nat)
  | a :: s =>
      if a <? 128 then (a, 1%nat)
      else
        match s with
        | b :: s' =>
            if (194 <=? a) && (a <=? 223) && cont 128 191 b then ((a - 192) * 64 + (b - 128), 2%nat)
            else
              match s' with
              | c :: s'' =>
                  let lo := if a =? 224 then 160 else 128 in
                  let hi := if a =? 237 then 159 else 191 in
                  if (224 <=? a) && (a <=? 239) && cont lo hi b && cont 128 191 c
                  then ((a - 224) * 4096 + (b - 128) * 64 + (c - 128), 3%nat)
                  else
                    match s'' with
                    | d :: _ =>
                        let lo := if a =? 240 then 144 else 128 in
                        let hi := if a =? 244 then 143 else 191 in
                        if (240 <=? a) && (a <=? 244) && cont lo hi b && cont 128 191 c && cont 128 191 d
                        then ((a - 240) * 262144 + (b - 128) * 4096 + (c - 128) * 64 + (d - 128), 4%nat)
                        else (RuneError, 1%nat)
                    | [] => (RuneError, 1%nat)
                    end
              | [] => (RuneError, 1%nat)
              end
        | [] => (RuneError, 1%nat)
        end
  end.

(** ** path/filepath *)

(** One character of a class, and the rest of the pattern, never empty. *)
Definition getEsc (chunk : bytes) : option (Z * bytes) :=
  match chunk with
  | [] => None
  | c :: rest =>
      if (c =? 45) || (c =? 93) then None
      else
        let chunk := if c =? 92 then rest else chunk in
        match chunk with
        | [] => None
        | _ =>
            let '(r, n) := DecodeRune chunk in
            if (r =? RuneError) && (n =? 1)%nat then None
            else match drop n chunk with [] => None | rest => Some (r, rest) end
        end
  end.

(** The ranges of a class: does [r] lie in one, and the rest after the bracket. *)
Fixpoint match_class (fuel : nat) (r : Z) (nrange : nat) (found : bool) (chunk : bytes) : option (bool * bytes) :=
  match fuel with
  | O => None
  | S fuel =>
      match chunk with
      | 93 :: rest => if (0 <? nrange)%nat then Some (found, rest)
                      else None
      | _ =>
          match getEsc chunk with
          | None => None
          | Some (lo, rest) =>
              match (match rest with 45 :: rest' => getEsc rest' | _ => Some (lo, rest) end) with
              | None => None
              | Some (hi, rest) => match_class fuel r (S nrange) (found || ((lo <=? r) && (r <=? hi))) rest
              end
          end
      end
  end.

(** [matchChunk]: the rest of the name, [Some None] when it does not match,
    [None] for a malformed pattern.  [s = None]: already failed, only the syntax
    is checked. *)
Fixpoint matchChunk (fuel : nat) (chunk : bytes) (s : option bytes) : option (option bytes) :=
  match fuel with
  | O => None
  | S fuel =>
      match chunk with
      | [] => Some s
      | c :: chunk' =>
          let s := match s with Some [] => None | _ => s end in
          if c =? 91 then
            let '(r, n) := match s with Some t => DecodeRune t | None => (0, 0%nat) end in
            let '(negated, body) := match chunk' with 94 :: b => (true, b) | _ => (false, chunk') end in
            match match_class (S (length body)) r 0 false body with
            | None => None
            | Some (found, rest) =>
                matchChunk fuel rest (match s with
                                      | Some t => if Bool.eqb found negated then None else Some (drop n t)
                                      | None => None
                                      end)
            end
          else if c =? 63 then
            matchChunk fuel chunk' (match s with
                                    | Some (x :: t) => if x =? 47 then None else Some (drop (DecodeRune (x :: t)).2 (x :: t))
                                    | _ => None
                                    end)
          else
            match (if c =? 92 then chunk' else chunk) with
            | [] => None
            | d :: rest =>
                matchChunk fuel rest (match s with Some (x :: t) => if d =? x then Some t else None | _ => None end)
            end
      end
  end.

Definition match_chunk (chunk : bytes) (s : bytes) : option (option bytes) := matchChunk (S (length chunk)) chunk (Some s).

(** The chunk up to the next star that is not in a class or escaped. *)
Fixpoint scan_chunk (inrange : bool) (p : bytes) : bytes * bytes :=
  match p with
  | [] => ([], [])
  | 92 :: c :: p => let '(a, b) := scan_chunk inrange p in (92 :: c :: a, b)
  | c :: p' =>
      if (c =? 42) && negb inrange then ([], p)
      else
        let '(a, b) := scan_chunk (if c =? 91 then true else if c =? 93 then false else inrange) p' in (c :: a, b)
  end.

Fixpoint drop_stars (p : bytes) : bytes := match p with 42 :: p => drop_stars p | _ => p end.

Definition scanChunk (p : bytes) : bool * bytes * bytes :=
  let q := drop_stars p in
  let '(chunk, rest) := scan_chunk false q in
  (negb (length q =? length p)%nat, chunk, rest).

(** After a star: the first place in the segment where the chunk matches; the
    last chunk must reach the end. *)
Fixpoint star_match (chunk : bytes) (last : bool) (name : bytes) : option (option bytes) :=
  match name with
  | [] => Some None
  | c :: t =>
      if c =? 47 then Some None
      else
        match match_chunk chunk t with
        | None => None
        | Some (Some rest) => if last && negb (beq rest []) then star_match chunk last t else Some (Some rest)
        | Some None => star_match chunk last t
        end
  end.

(** Is the rest of the pattern well formed? *)
Fixpoint chunks_ok (fuel : nat) (p : bytes) : bool :=
  match fuel with
  | O => true
  | S fuel =>
      match p with
      | [] => true
      | _ =>
          let '(_, chunk, rest) := scanChunk p in
          match match_chunk chunk [] with None => false | Some _ => chunks_ok fuel rest end
      end
  end.

(** [None]: ErrBadPattern. *)
Fixpoint match_loop (fuel : nat) (p name : bytes) : option bool :=
  match fuel with
  | O => None
  | S fuel =>
      match p with
      | [] => Some (beq name [])
      | _ =>
          let '(star, chunk, rest) := scanChunk p in
          let fail := if chunks_ok (S (length rest)) rest then Some false else None in
          if star && beq chunk [] then Some (negb (bool_decide (47 ∈ name)))
          else
            match match_chunk chunk name with
            | None => None
            | Some (Some t) =>
                if beq t [] || negb (beq rest []) then match_loop fuel rest t
                else if star then
                  match star_match chunk (beq rest []) name with
                  | None => None
                  | Some (Some t) => match_loop fuel rest t
                  | Some None => fail
                  end
                else fail
            | Some None =>
                if star then
                  match star_match chunk (beq rest []) name with
                  | None => None
                  | Some (Some t) => match_loop fuel rest t
                  | Some None => fail
                  end
                else fail
            end
      end
  end.

Definition Match (p name : bytes) : option bool := match_loop (S (length p)) p name.

(** [filepath.Join] of a directory and a relative path: the cleaned segments. *)
Definition clean_step (rooted : bool) (acc : list bytes) (seg : bytes) : list bytes :=
  if beq seg [] || beq seg (bs ".") then acc
  else if beq seg (bs "..") then
    match reverse acc with
    | last :: r => if beq last (bs "..") then acc ++ [seg] else reverse r
    | [] => if rooted then [] else [seg]
    end
  else acc ++ [seg].

Definition clean_segments (rooted : bool) (segs : list bytes) : list bytes := foldl (clean_step rooted) [] segs.

Definition joined (localDir rel : bytes) : bytes :=
  if beq localDir [] then rel else if beq rel [] then localDir else localDir ++ bs "/" ++ rel.

Definition dest_path (localDir rel : bytes) : bool * list bytes :=
  let p := joined localDir rel in
  let rooted := HasPrefix p (bs "/") in
  (rooted, clean_segments rooted (Split p 47)).

(** ** URLs *)

Definition RepoTypeModel : bytes := bs "model".
Definition RepoTypeDataset : bytes := bs "dataset".
Definition RepoTypeSpace : bytes := bs "space".

Definition apiPrefix (rt : bytes) : bytes :=
  if beq rt RepoTypeDataset then bs "datasets" else if beq rt RepoTypeSpace then bs "spaces" else bs "models".

Definition resolvePrefix (rt : bytes) : bytes :=
  if beq rt RepoTypeDataset then bs "datasets/" else if beq rt RepoTypeSpace then bs "spaces/" else [].

Definition escapePath (repo : bytes) : bytes := Join (PathEscape <$> Split repo 47) (bs "/").

(** The target after the base. *)
Definition resolveURL (repo revision filePath rt : bytes) : bytes :=
  bs "/" ++ resolvePrefix rt ++ escapePath repo ++ bs "/resolve/" ++ PathEscape revision ++ bs "/" ++ escapePath filePath.

Definition tree_url (repo revision rt : bytes) : bytes :=
  bs "/api/" ++ apiPrefix rt ++ bs "/" ++ escapePath repo ++ bs "/tree/" ++ PathEscape revision.

Definition commit_char (c : Z) : bool :=
  ((48 <=? c) && (c <=? 57)) || ((97 <=? c) && (c <=? 102)) || ((65 <=? c) && (c <=? 70)).

Definition looksLikeCommitSHA (rev : bytes) : bool := (length rev =? 40)%nat && forallb commit_char rev.

Definition symbolicRevision (rev : bytes) : bool :=
  let rev := TrimSpace rev in
  if beq rev [] || beq rev (bs "main") || beq rev (bs "master") || beq rev (bs "HEAD") then true
  else negb (looksLikeCommitSHA rev).

(** ** Errors and retries *)

Inductive client_error :=
| CtxCanceled | CtxDeadline
| HttpError (status : Z)
| ErrUnexpectedEOF | NetError
| DiskError | NilFileState | NoFiles | BadGlob | BadReply
| GaveUp (last : client_error).

Fixpoint shouldRetry (e : client_error) : bool :=
  match e with
  | HttpError s => (s =? 429) || (s =? 502) || (s =? 503) || (s =? 504)
  | ErrUnexpectedEOF | NetError => true
  | GaveUp e => shouldRetry e
  | _ => false
  end.

Record Client := mkClient { MaxRetries : Z; RetryBaseDelay : Z; RetryMaxDelay : Z }.

Definition max_retries (c : Client) : Z := if MaxRetries c <=? 0 then 5 else MaxRetries c.
Definition base_delay (c : Client) : Z := if RetryBaseDelay c <=? 0 then 200 * 1000000 else RetryBaseDelay c.
Definition max_delay (c : Client) : Z := if RetryMaxDelay c <=? 0 then 5 * 1000000000 else RetryMaxDelay c.

(** The wait after an attempt, in nanoseconds; the shift wraps around. *)
Definition delay (c : Client) (attempt : nat) : Z :=
  let d := wrap64 (Z.shiftl (base_delay c) (Z.of_nat attempt)) in
  if (d >? max_delay c) || (d <=? 0) then max_delay c else d.

(** The context around an attempt: its error before it, and during the wait. *)
Record attempt_ctx := mkCtx { ac_done : option client_error; ac_wait : option client_error }.

Section doRetry.
Context {St : Type} (c : Client) (ctx : nat → attempt_ctx) (fn : nat → St → option client_error * St).

(** [todo] retries are left; the second component is the time waited. *)
Fixpoint retry_from (todo attempt : nat) (waited : Z) (st : St) : option client_error * Z * St :=
  match ac_done (ctx attempt) with
  | Some e => (Some e, waited, st)
  | None =>
      match fn attempt st with
      | (None, st) => (None, waited, st)
      | (Some e, st) =>
          if negb (shouldRetry e) then (Some e, waited, st)
          else
            match todo with
            | O => (Some (GaveUp e), waited, st)
            | S todo =>
                match ac_wait (ctx attempt) with
                | Some e => (Some e, waited, st)
                | None => retry_from todo (S attempt) (waited + delay c attempt) st
                end
            end
      end
  end.

Definition doRetry (st : St) : option client_error * Z * St := retry_from (Z.to_nat (max_retries c)) 0 0 st.

End doRetry.

(** ** Listings *)

Record FileEntry := mkFE { fe_Path : bytes; fe_Size : Z }.
Record treeEntry := mkTE { te_Type : bytes; te_Path : bytes; te_Size : Z }.

Definition tree_file_entries (entries : list treeEntry) : list FileEntry :=
  omap (fun e => if negb (beq (te_Type e) (bs "file")) || beq (te_Path e) [] then None
                 else Some (mkFE (te_Path e) (te_Size e))) entries.

(** [reply k]: what the [k]-th request for the tree returns, decoded. *)
Definition ListFilesTyped (c : Client) (ctx : nat → attempt_ctx) (reply : nat → result client_error (list treeEntry))
    : result client_error (list FileEntry) :=
  let fn k (st : list treeEntry) := match reply k with Ok es => (None, es) | Err e => (Some e, st) end in
  match doRetry c ctx fn [] with
  | (None, _, entries) => Ok (tree_file_entries entries)
  | (Some e, _, _) => Err e
  end.

(** ** Selection *)

Record DownloadOpts := mkOpts {
  LocalDir : bytes; Sink : bool; Workers : Z; Revision : bytes; MinBytes : Z; RangeChunk : Z;
  RepoType : bytes; Files : list bytes; Include : list bytes; Exclude : list bytes;
}.

Definition filepathBase (p : bytes) : bytes :=
  match LastIndexByte p 47 with Some i => drop (S i) p | None => p end.

Definition matches_glob (p name : bytes) : bool := match Match p name with Some true => true | _ => false end.

Definition globAny (patterns : list bytes) (path : bytes) : bool :=
  existsb (fun p => matches_glob p path || matches_glob p (filepathBase path)) patterns.

Definition valid_glob (p : bytes) : bool := match Match p (bs "validate") with Some _ => true | None => false end.

Definition selected (o : DownloadOpts) (f : FileEntry) : bool :=
  (match Files o with [] => true | fs => existsb (fun x => beq (TrimPrefix x (bs "/")) (fe_Path f)) fs end)
  && (match Include o with [] => true | ps => globAny ps (fe_Path f) end)
  && negb (globAny (Exclude o) (fe_Path f)).

Definition filterFiles (files : list FileEntry) (o : DownloadOpts) : result client_error (list FileEntry) :=
  match Files o, Include o, Exclude o with
  | [], [], [] => Ok files
  | _, _, _ =>
      if negb (forallb valid_glob (Include o)) || negb (forallb valid_glob (Exclude o)) then Err BadGlob
      else Ok (List.filter (selected o) files)
  end.

(** ** Tasks *)

Definition defaultRangeChunk : Z := 16 * 2 ^ 20.

Record fetchTask := mkTask { ft_url : bytes; ft_path : bytes; ft_start : Z; ft_end : Z; ft_size : Z }.

(** The ranges of one file, from [off] on. *)
Fixpoint ranges (fuel : nat) (chunk size off : Z) : list (Z * Z) :=
  match fuel with
  | O => []
  | S fuel =>
      if off <? size then
        let last := off +64 chunk -64 1 in
        let last := if last >=? size then size -64 1 else last in
        (off, last) :: ranges fuel chunk size (last +64 1)
      else []
  end.

Definition file_ranges (chunk size : Z) : list (Z * Z) :=
  if size <=? chunk then [(0, size -64 1)] else ranges (Z.to_nat (size / chunk + 2)) chunk size 0.

Definition file_tasks (repo : bytes) (o : DownloadOpts) (f : FileEntry) : list fetchTask :=
  (fun r => mkTask (resolveURL repo (Revision o) (fe_Path f) (RepoType o)) (fe_Path f) r.1 r.2 (fe_Size f))
    <$> file_ranges (RangeChunk o) (fe_Size f).

Definition with_defaults (o : DownloadOpts) : DownloadOpts :=
  mkOpts (LocalDir o) (Sink o) (if Workers o <=? 0 then 32 else Workers o)
    (if beq (Revision o) [] then bs "main" else Revision o) (MinBytes o)
    (if RangeChunk o <=? 0 then defaultRangeChunk else RangeChunk o)
    (if beq (RepoType o) [] then RepoTypeModel else RepoType o) (Files o) (Include o) (Exclude o).

Definition wanted (o : DownloadOpts) (f : FileEntry) : bool := negb ((MinBytes o >? 0) && (fe_Size f <? MinBytes o)).

Definition planned_bytes (fs : list FileEntry) : Z := foldl (fun n f => n +64 fe_Size f) 0 fs.

(** ** Fetching *)

Definition has_range (t : fetchTask) : bool := (ft_end t >=? ft_start t) && (ft_end t +64 1 -64 ft_start t <? ft_size t).

Definition range_header (t : fetchTask) : bytes :=
  if has_range t then bs "bytes=" ++ FormatInt (ft_start t) ++ bs "-" ++ FormatInt (ft_end t) else [].

Record response := mkResp { rs_status : Z; rs_blocks : list bytes; rs_end : option client_error }.

(** What reaches the outside: a write at an offset of a file, or to the sink. *)
Inductive write := ToFile (path : bytes) (off : Z) (data : bytes) | ToSink (data : bytes).

Record written := mkWritten { wr_log : list write; wr_n : Z; wr_err : option client_error }.

(** [copyToWriterAt]; [faults]: for each block, the bytes a failing [WriteAt]
    still writes. *)
Fixpoint copyToWriterAt (path : bytes) (faults : list (option nat)) (offset : Z) (blocks : list bytes)
    (fin : option client_error) : written :=
  match blocks with
  | [] => mkWritten [] 0 fin
  | b :: blocks =>
      if beq b [] then copyToWriterAt path faults offset blocks fin
      else
        match faults with
        | Some nw :: _ => let b := take nw b in mkWritten [ToFile path offset b] (Z.of_nat (length b)) (Some DiskError)
        | _ =>
            let n := Z.of_nat (length b) in
            let r := copyToWriterAt path (tail faults) (offset + n) blocks fin in
            mkWritten (ToFile path offset b :: wr_log r) (n + wr_n r) (wr_err r)
        end
  end.

(** [io.CopyBuffer] to the sink, which does not fail. *)
Definition copy_to_sink (blocks : list bytes) (fin : option client_error) : written :=
  mkWritten (ToSink <$> blocks) (Z.of_nat (length (concat blocks))) fin.

Definition fetchOnce (o : DownloadOpts) (t : fetchTask) (r : result client_error response) (faults : list (option nat)) : written :=
  match r with
  | Err e => mkWritten [] 0 (Some e)
  | Ok resp =>
      if negb (rs_status resp =? 200) && negb (rs_status resp =? 206)
      then mkWritten [] 0 (Some (HttpError (rs_status resp)))
      else if Sink o then copy_to_sink (rs_blocks resp) (rs_end resp)
      else if beq (LocalDir o) [] then mkWritten [] 0 (Some NilFileState)
      else copyToWriterAt (ft_path t) faults (ft_start t) (rs_blocks resp) (rs_end resp)
  end.

(** What the goroutine of a task meets: the reply and the disk at each attempt,
    and its context. *)
Record task_env := mkTaskEnv {
  tv_reply : nat → result client_error response; tv_disk : nat → list (option nat); tv_ctx : nat → attempt_ctx;
}.

(** Its writes over all attempts, the count of the last one, the error. *)
Definition fetch_task (c : Client) (o : DownloadOpts) (t : fetchTask) (v : task_env) : written :=
  let fn k (st : list write * Z) :=
    let w := fetchOnce o t (tv_reply v k) (tv_disk v k) in (wr_err w, (st.1 ++ wr_log w, wr_n w)) in
  let '(err, _, (log, n)) := doRetry c (tv_ctx v) fn ([], 0) in mkWritten log n err.

(** ** The local files *)

Abbreviation disk := (gmap (bool * list bytes) bytes).

(** [filePool.prepare] for every file, the first time its path is seen.
    [fails]: the paths whose directory or file cannot be made; false: one of
    them was met. *)
Fixpoint prepare_all (localDir : bytes) (fails : list bytes) (opened : gset bytes) (fs : list FileEntry) (d : disk)
    : bool * disk :=
  match fs with
  | [] => (true, d)
  | f :: fs =>
      if decide (fe_Path f ∈ opened) then prepare_all localDir fails opened fs d
      else if bool_decide (fe_Path f ∈ fails) then (false, d)
      else
        let k := dest_path localDir (fe_Path f) in
        let old := default [] (d !! k) in
        let f' := if fe_Size f >? 0 then truncate (Z.to_nat (fe_Size f)) old else old in
        prepare_all localDir fails ({[fe_Path f]} ∪ opened) fs (<[k := f']> d)
  end.

Definition apply_write (localDir : bytes) (d : disk) (w : write) : disk :=
  match w with
  | ToFile p off data => alter (write_at (Z.to_nat off) data) (dest_path localDir p) d
  | ToSink _ => d
  end.

(** ** Download *)

(** An interleaving of the goroutines' writes: [sched] names whose next write
    comes; what is left comes in order. *)
Fixpoint interleave {A} (sched : list nat) (ts : list (list A)) : list A :=
  match sched with
  | [] => concat ts
  | i :: sched =>
      match ts !! i with
      | Some (w :: ws) => w :: interleave sched (<[i := ws]> ts)
      | _ => interleave sched ts
      end
  end.

Record download_env := mkDenv {
  dv_tree : nat → result client_error (list treeEntry);
  dv_tree_ctx : nat → attempt_ctx;
  dv_mkdir : bool;                               (* the directory cannot be made *)
  dv_prepare : list bytes;                       (* files that cannot be made *)
  dv_task : nat → task_env;                      (* the [k]-th task *)
  dv_cancel : option (nat * client_error);       (* the context ends once that many tasks are started *)
  dv_sched : list nat;
  dv_first : list client_error → client_error;   (* whose error is stored first *)
}.

Record download := mkDownload { dl_result : result client_error Z; dl_bytes : Z; dl_disk : disk; dl_log : list write }.

Definition to_disk (o : DownloadOpts) : bool := negb (Sink o) && negb (beq (LocalDir o) []).

Definition run_tasks (c : Client) (o : DownloadOpts) (v : download_env) (ts : list fetchTask) : list written :=
  imap (fun k t => fetch_task c o t (dv_task v k)) (match dv_cancel v with Some (k, _) => take k ts | None => ts end).

Definition count_bytes (ws : list written) : Z :=
  foldl (fun n w => match wr_err w with None => n +64 wr_n w | Some _ => n end) 0 ws.

Definition Download (c : Client) (repo : bytes) (o : DownloadOpts) (v : download_env) (d : disk) : download :=
  let o := with_defaults o in
  let fail e d := mkDownload (Err e) 0 d [] in
  match ListFilesTyped c (dv_tree_ctx v) (dv_tree v) with
  | Err e => fail e d
  | Ok files =>
      match filterFiles files o with
      | Err e => fail e d
      | Ok [] => fail NoFiles d
      | Ok files =>
          if to_disk o && dv_mkdir v then fail DiskError d else
          let files := List.filter (wanted o) files in
          match (if to_disk o then prepare_all (LocalDir o) (dv_prepare v) ∅ files d else (true, d)) with
          | (false, d) => fail DiskError d
          | (true, d) =>
              match concat (file_tasks repo o <$> files) with
              | [] => fail NoFiles d
              | ts =>
                  let ws := run_tasks c o v ts in
                  let log := interleave (dv_sched v) (wr_log <$> ws) in
                  let d := foldl (apply_write (LocalDir o)) d log in
                  let n := count_bytes ws in
                  mkDownload
                    (match omap wr_err ws with
                     | [] => match dv_cancel v with Some (_, e) => Err e | None => Ok n end
                     | es => Err (dv_first v es)
                     end) n d log
              end
          end
      end
  end.

(** ** Interleavings *)

Lemma concat_pick {A} (ts : list (list A)) i w ws :
  ts !! i = Some (w :: ws) → concat ts ≡ₚ w :: concat (<[i := ws]> ts).
Proof.
  intros Hi. rewrite <-(take_drop_middle ts i _ Hi) at 1. rewrite (insert_take_drop ts i ws (lookup_lt_Some _ _ _ Hi)).
  rewrite !concat_app. cbn [concat]. rewrite <-app_comm_cons. symmetry. apply Permutation_middle.
Qed.

(** Every write happens once. *)
Lemma interleave_perm {A} sched (ts : list (list A)) : interleave sched ts ≡ₚ concat ts.
Proof.
  revert ts. induction sched as [|i sched IH]; intros ts; [done|]. cbn [interleave].
  destruct (ts !! i) as [[|w ws]|] eqn:E; [apply IH| |apply IH]. by rewrite IH, <-concat_pick.
Qed.

(** ** Retries *)

Section RetryFacts.
Context {St : Type} (c : Client) (ctx : nat → attempt_ctx) (fn : nat → St → option client_error * St).

Lemma delay_bound k : 0 < delay c k ≤ max_delay c.
Proof.
  unfold delay. assert (0 < max_delay c) by (unfold max_delay; destruct (_ <=? _) eqn:?; lia).
  destruct (_ || _) eqn:E; lia.
Qed.

Lemma retry_waited todo k w st : 0 ≤ (retry_from c ctx fn todo k w st).1.2 - w ≤ Z.of_nat todo * max_delay c.
Proof.
  revert k w st. induction todo as [|todo IH]; intros k w st; cbn [retry_from].
  all: pose proof (delay_bound k).
  all: destruct (ac_done _); [cbn; nia|]; destruct (fn k st) as [[e|] st']; [|cbn; nia]; destruct (negb _); [cbn; nia|].
  { cbn; nia. }
  destruct (ac_wait _); [cbn; nia|]. specialize (IH (S k) (w + delay c k) st'). lia.
Qed.

(** Without error, some attempt succeeded, and its result is the state. *)
Lemma retry_success todo k w st w' st' :
  retry_from c ctx fn todo k w st = (None, w', st') → ∃ j st0, (j ≤ k + todo)%nat ∧ fn j st0 = (None, st').
Proof.
  revert k w st. induction todo as [|todo IH]; intros k w st; cbn [retry_from].
  all: destruct (ac_done _); [done|]; destruct (fn k st) as [[e|] st1] eqn:E; [|intros [= <- <-]; exists k, st; split; [lia|done]].
  all: destruct (negb _); [done|]. { done. }
  destruct (ac_wait _); [done|]. intros (j & st0 & Hj & Hf)%IH. exists j, st0. split; [lia|done].
Qed.

(** What every attempt keeps, the loop keeps. *)
Lemma retry_keeps (P : St → Prop) todo k w st :
  (∀ j st, P st → P (fn j st).2) → P st → P (retry_from c ctx fn todo k w st).2.
Proof.
  intros Hfn. revert k w st. induction todo as [|todo IH]; intros k w st Hst; cbn [retry_from].
  all: pose proof (Hfn k st Hst) as Hn; destruct (ac_done _); [done|]; destruct (fn k st) as [[e|] st1]; [|done].
  all: destruct (negb _); [done|]. { done. } destruct (ac_wait _); [done|]. by apply IH.
Qed.

(** Transient failures before a success are overcome. *)
Lemma retry_settles todo k w st n :
  (n ≤ todo)%nat →
  (∀ j, (k ≤ j ≤ k + n)%nat → ctx j = mkCtx None None) →
  (∀ j st, (k ≤ j < k + n)%nat → ∃ e, (fn j st).1 = Some e ∧ shouldRetry e = true) →
  (∀ st, (fn (k + n)%nat st).1 = None) →
  (retry_from c ctx fn todo k w st).1.1 = None.
Proof.
  revert todo k w st. induction n as [|n IH]; intros todo k w st Hn Hctx Hbad Hgood.
  - rewrite Nat.add_0_r in Hgood. specialize (Hgood st). destruct todo; cbn [retry_from]; rewrite Hctx by lia; cbn [ac_done];
      destruct (fn k st) as [e st1]; cbn in Hgood; subst e; done.
  - destruct todo as [|todo]; [lia|]. cbn [retry_from]. rewrite !Hctx by lia. cbn [ac_done ac_wait].
    destruct (Hbad k st ltac:(lia)) as (e & He & Hr). destruct (fn k st) as [e' st1]. cbn in He. subst e'. rewrite Hr. cbn [negb].
    apply IH; [lia|intros; apply Hctx; lia|intros; apply Hbad; lia|]. intros st2.
    replace (S k + n)%nat with (k + S n)%nat by lia. apply Hgood.
Qed.

End RetryFacts.

(** ** Ranges *)

Section Ranges.
Context (chunk size : Z) (Hchunk : 0 < chunk < 2 ^ 62) (Hsize : 0 ≤ size < 2 ^ 62).

(** From [off] on, the ranges follow one another up to the size. *)
Fixpoint tiles (off : Z) (l : list (Z * Z)) : Prop :=
  match l with
  | [] => off = size
  | (a, b) :: l => a = off ∧ a ≤ b < size ∧ b + 1 - a ≤ chunk ∧ tiles (b + 1) l
  end.

Lemma ranges_step fuel off :
  0 ≤ off < size →
  let last := Z.min (off + chunk) size - 1 in
  ranges (S fuel) chunk size off = (off, last) :: ranges fuel chunk size (last + 1).
Proof.
  intros Hoff last. cbn [ranges]. replace (off <? size) with true by lia.
  rewrite (wrap64_id (off + chunk)), (wrap64_id (off + chunk - 1)), (wrap64_id (size - 1)) by zlia.
  assert ((if off + chunk - 1 >=? size then size - 1 else off + chunk - 1) = last) as ->.
  { unfold last. destruct (_ >=? _) eqn:E; lia. }
  by rewrite wrap64_id by zlia.
Qed.

Lemma ranges_done fuel : ranges fuel chunk size size = [].
Proof. destruct fuel; [done|]. cbn [ranges]. by replace (size <? size) with false by lia. Qed.

Lemma tiles_ranges fuel off :
  0 ≤ off ≤ size → size - off ≤ chunk * Z.of_nat fuel → tiles off (ranges fuel chunk size off).
Proof.
  revert off. induction fuel as [|fuel IH]; intros off Hoff Hf; [cbn; lia|].
  destruct (decide (off = size)) as [->|]; [by rewrite ranges_done|].
  rewrite ranges_step by lia. cbn [tiles]. split_and!; try lia. apply IH; lia.
Qed.

Lemma tiles_file : 0 < size → tiles 0 (file_ranges chunk size).
Proof.
  intros Hpos. unfold file_ranges. destruct (size <=? chunk) eqn:E.
  - rewrite wrap64_id by zlia. cbn [tiles]. lia.
  - apply tiles_ranges; [lia|]. pose proof (Z.div_pos size chunk). pose proof (Z.mod_pos_bound size chunk).
    pose proof (Z.div_mod size chunk). rewrite Z2Nat.id by lia. lia.
Qed.

Lemma tiles_bounds off l a b : 0 ≤ off → tiles off l → (a, b) ∈ l → off ≤ a ≤ b ∧ b < size ∧ b + 1 - a ≤ chunk.
Proof.
  revert off. induction l as [|[x y] l IH]; intros off Ho Ht; [by intros ?%not_elem_of_nil|]. destruct Ht as (-> & Hb & Hc & Ht).
  intros [[= -> ->]|Hin]%elem_of_cons; [lia|]. specialize (IH (y + 1) ltac:(lia) Ht Hin). lia.
Qed.

Lemma tiles_find off l i : tiles off l → off ≤ i < size → ∃ a b, (a, b) ∈ l ∧ a ≤ i ≤ b.
Proof.
  revert off. induction l as [|[x y] l IH]; intros off Ht Hi; [cbn in Ht; lia|]. destruct Ht as (-> & Hb & Hc & Ht).
  destruct (decide (i ≤ y)); [exists off, y; split; [left|lia]|].
  destruct (IH _ Ht ltac:(lia)) as (a & b & Hin & ?). exists a, b. split; [by right|done].
Qed.

Lemma tiles_sum off l : tiles off l → foldr (fun r n => r.2 + 1 - r.1 + n) 0 l = size - off.
Proof.
  revert off. induction l as [|[x y] l IH]; intros off Ht; [cbn in *; lia|]. destruct Ht as (-> & Hb & Hc & Ht).
  cbn [foldr fst snd]. rewrite (IH _ Ht). lia.
Qed.

Lemma file_ranges_empty : size = 0 → file_ranges chunk size = [(0, -1)].
Proof. intros ->. unfold file_ranges. replace (0 <=? chunk) with true by lia. done. Qed.

End Ranges.

(** ** Right writes *)

Section Right.
(** The objects behind the paths. *)
Context (content : bytes → bytes).

Definition right (w : write) : Prop :=
  match w with
  | ToFile p off data => 0 ≤ off ∧ data `prefix_of` drop (Z.to_nat off) (content p)
  | ToSink _ => True
  end.

Definition touches (p : bytes) (i : Z) (w : write) : Prop :=
  match w with ToFile q off data => q = p ∧ off ≤ i < off + Z.of_nat (length data) | ToSink _ => False end.

Lemma prefix_drop_shift (a b : bytes) off l :
  0 ≤ off → a ++ b `prefix_of` drop (Z.to_nat off) l → b `prefix_of` drop (Z.to_nat (off + Z.of_nat (length a))) l.
Proof.
  intros Ho [k Hk]. exists k. replace (Z.to_nat (off + Z.of_nat (length a))) with (Z.to_nat off + length a)%nat by lia.
  rewrite <-drop_drop, Hk, <-app_assoc, drop_app_length. done.
Qed.

(** A copy writes right bytes only; if it returns without error it has written
    every byte and counted them. *)
Lemma copy_right p faults off blocks fin :
  0 ≤ off → concat blocks `prefix_of` drop (Z.to_nat off) (content p) →
  let w := copyToWriterAt p faults off blocks fin in
  Forall right (wr_log w) ∧ (∀ q o x, ToFile q o x ∈ wr_log w → q = p) ∧
  (wr_err w = None → fin = None ∧ wr_n w = Z.of_nat (length (concat blocks)) ∧
     ∀ i, off ≤ i < off + Z.of_nat (length (concat blocks)) → Exists (touches p i) (wr_log w)).
Proof.
  revert faults off. induction blocks as [|b blocks IH]; intros faults off Ho Hp; cbn [copyToWriterAt].
  { split_and!; [constructor|by intros ??? ?%not_elem_of_nil|]. cbn. intros ->. split_and!; [done|done|]. intros i; lia. }
  cbn [concat] in Hp. destruct (beq b []) eqn:Eb; [apply beq_true in Eb as ->; by apply IH|].
  assert (b `prefix_of` drop (Z.to_nat off) (content p)) as Hb by (destruct Hp as [k Hk]; exists (concat blocks ++ k); by rewrite app_assoc).
  assert (Hok : let r := copyToWriterAt p (tail faults) (off + Z.of_nat (length b)) blocks fin in
    let w := mkWritten (ToFile p off b :: wr_log r) (Z.of_nat (length b) + wr_n r) (wr_err r) in
    Forall right (wr_log w) ∧ (∀ q o x, ToFile q o x ∈ wr_log w → q = p) ∧
    (wr_err w = None → fin = None ∧ wr_n w = Z.of_nat (length (b ++ concat blocks)) ∧
     ∀ i, off ≤ i < off + Z.of_nat (length (b ++ concat blocks)) → Exists (touches p i) (wr_log w))).
  { destruct (IH (tail faults) (off + Z.of_nat (length b)) ltac:(lia) (prefix_drop_shift _ _ _ _ Ho Hp)) as (H1 & H2 & H3).
    cbv zeta. cbn [wr_log wr_n wr_err]. split_and!.
    - constructor; [split; [done|exact Hb]|exact H1].
    - intros q o x [[= -> _ _]|Hin]%elem_of_cons; [done|by eapply H2].
    - intros He. destruct (H3 He) as (-> & Hn & Hc). rewrite Hn, length_app. split_and!; [done|lia|].
      intros i Hi. destruct (decide (i < off + Z.of_nat (length b))); [left; split; [done|lia]|right; apply Hc; lia]. }
  destruct faults as [|[nw|] faults]; [exact Hok| |exact Hok].
  cbn [wr_log wr_n wr_err]. split_and!; [|by intros q o x [= -> _ _]%list_elem_of_singleton|done].
  constructor; [|constructor]. split; [done|]. etrans; [|exact Hb]. by apply prefix_take.
Qed.

(** What the server has to send for the request of a task. *)
Definition served (t : fetchTask) : bytes :=
  if has_range t then window (content (ft_path t)) (ft_start t) (ft_end t + 1 - ft_start t) else content (ft_path t).

(** Replies of a server that honours Range, over a connection that reports
    bodies cut short. *)
Definition honest (t : fetchTask) (r : result client_error response) : Prop :=
  match r with
  | Ok resp =>
      rs_status resp = 200 ∨ rs_status resp = 206 →
      concat (rs_blocks resp) `prefix_of` served t ∧ (rs_end resp = None → concat (rs_blocks resp) = served t)
  | Err _ => True
  end.

(** A task asks for a part of its object. *)
Definition task_ok (t : fetchTask) : Prop :=
  0 ≤ ft_start t ≤ ft_end t + 1 ∧ ft_end t < Z.of_nat (length (content (ft_path t))) ∧
  served t = window (content (ft_path t)) (ft_start t) (ft_end t + 1 - ft_start t).

(** Its writes are right; without error they are complete. *)
Definition task_done (t : fetchTask) (w : written) : Prop :=
  Forall right (wr_log w) ∧ (∀ q o x, ToFile q o x ∈ wr_log w → q = ft_path t) ∧
  (wr_err w = None → wr_n w = ft_end t + 1 - ft_start t ∧
     ∀ i, ft_start t ≤ i ≤ ft_end t → Exists (touches (ft_path t) i) (wr_log w)).

Lemma served_prefix t : task_ok t → served t `prefix_of` drop (Z.to_nat (ft_start t)) (content (ft_path t)).
Proof. intros (_ & _ & ->). unfold window. apply prefix_take. Qed.

Lemma served_length t : task_ok t → Z.of_nat (length (served t)) = ft_end t + 1 - ft_start t.
Proof. intros (H1 & H2 & ->). apply window_length; lia. Qed.

Lemma fetchOnce_done o t r faults : to_disk o = true → task_ok t → honest t r → task_done t (fetchOnce o t r faults).
Proof.
  unfold to_disk. intros [Hs Hd]%andb_prop Ht Hr.
  assert (∀ e, task_done t (mkWritten [] 0 (Some e))) as Hfail.
  { intros e. split_and!; [constructor|by intros ??? ?%not_elem_of_nil|done]. }
  unfold fetchOnce. destruct r as [resp|e]; [|apply Hfail]. destruct (negb _ && negb _) eqn:Es; [apply Hfail|].
  apply negb_true_iff in Hs, Hd. rewrite Hs, Hd. destruct (Hr ltac:(lia)) as [Hp He].
  destruct (copy_right (ft_path t) faults (ft_start t) (rs_blocks resp) (rs_end resp)) as (H1 & H2 & H3);
    [apply Ht|etrans; [exact Hp|by apply served_prefix]|].
  split_and!; [done|done|]. intros Herr. destruct (H3 Herr) as (Hend & Hn & Hc).
  rewrite (He Hend), (served_length t Ht) in Hn, Hc. split; [done|]. intros i Hi. apply Hc. lia.
Qed.

Lemma fetch_task_done c o t v :
  to_disk o = true → task_ok t → (∀ k, honest t (tv_reply v k)) → task_done t (fetch_task c o t v).
Proof.
  intros Ho Ht Hv. unfold fetch_task.
  pose proof (λ k, fetchOnce_done o t (tv_reply v k) (tv_disk v k) Ho Ht (Hv k)) as Hone.
  set (fn := λ k (st : list write * Z), _). destruct (doRetry c (tv_ctx v) fn ([], 0)) as [[err w] [log n]] eqn:E. unfold doRetry in E.
  assert (Forall right log ∧ (∀ q o x, ToFile q o x ∈ log → q = ft_path t)) as [H1 H2].
  { pose proof (retry_keeps c (tv_ctx v) fn (λ st, Forall right st.1 ∧ ∀ q o x, ToFile q o x ∈ st.1 → q = ft_path t)
      (Z.to_nat (max_retries c)) 0 0 ([], 0)) as Hk. rewrite E in Hk. apply Hk.
    - intros j st [Ha Hb]. cbn [fn snd fst]. destruct (Hone j) as (H1 & H2 & _). split; [by apply Forall_app|].
      intros q o' x [Hin|Hin]%elem_of_app; [by eapply Hb|by eapply H2].
    - split; [constructor|by intros ??? ?%not_elem_of_nil]. }
  split_and!; [done|done|]. cbn [wr_err wr_n wr_log]. intros ->.
  apply retry_success in E as (j & st0 & _ & Hf). unfold fn in Hf. injection Hf as He <- <-.
  destruct (Hone j) as (_ & _ & H3). destruct (H3 He) as [Hn Hc]. split; [done|].
  intros i Hi. apply Exists_app. right. by apply Hc.
Qed.

End Right.

(** ** Tasks of a file *)

Lemma file_task_ok content repo o f t :
  0 < RangeChunk o < 2 ^ 62 → fe_Size f = Z.of_nat (length (content (fe_Path f))) → fe_Size f < 2 ^ 62 →
  t ∈ file_tasks repo o f → task_ok content t ∧ ft_path t = fe_Path f.
Proof.
  intros Hc Hs Hlt ([a b] & -> & Hin)%list_elem_of_fmap. split; [|done]. unfold task_ok, served, has_range. cbn [ft_start ft_end ft_size ft_path fst snd].
  destruct (decide (fe_Size f = 0)) as [Hz|Hz].
  - rewrite file_ranges_empty in Hin by (done || lia). apply list_elem_of_singleton in Hin as [= -> ->].
    cbn [Z.geb Z.compare andb]. split_and!; try lia. destruct (content (fe_Path f)); [done|cbn in Hs; lia].
  - assert (tiles (RangeChunk o) (fe_Size f) 0 (file_ranges (RangeChunk o) (fe_Size f))) as Ht by (apply tiles_file; lia).
    destruct (tiles_bounds _ _ 0 _ a b ltac:(lia) Ht Hin) as (H1 & H2 & H3).
    rewrite (wrap64_id (b + 1)), (wrap64_id (b + 1 - a)) by zlia. split_and!; try lia.
    destruct (_ && _) eqn:E; [done|]. assert (a = 0 ∧ b + 1 = fe_Size f) as [-> Hb] by lia.
    rewrite Hb, Z.sub_0_r, Hs. symmetry. apply window_all.
Qed.

(** Every byte of a file is asked for by one of its tasks. *)
Lemma file_tasks_find repo o f i :
  0 < RangeChunk o < 2 ^ 62 → 0 ≤ i < fe_Size f → fe_Size f < 2 ^ 62 →
  ∃ t, t ∈ file_tasks repo o f ∧ ft_start t ≤ i ≤ ft_end t.
Proof.
  intros Hc Hi Hlt.
  assert (tiles (RangeChunk o) (fe_Size f) 0 (file_ranges (RangeChunk o) (fe_Size f))) as Ht by (apply tiles_file; lia).
  destruct (tiles_find _ _ 0 _ i Ht Hi) as (a & b & Hin & Hab).
  eexists. split; [apply list_elem_of_fmap; exists (a, b); split; [reflexivity|exact Hin]|exact Hab].
Qed.

(** ** Files on disk *)

Lemma write_at_length off data (f : bytes) : (off + length data ≤ length f)%nat → length (write_at off data f) = length f.
Proof.
  intros H. unfold write_at. destruct data as [|x data]; [done|].
  rewrite !length_app, length_take, length_replicate, length_drop. lia.
Qed.

Section Disk.
Context (content : bytes → bytes) (localDir : bytes).

Lemma right_inside p off data : right content (ToFile p off data) → data ≠ [] → (Z.to_nat off + length data ≤ length (content p))%nat.
Proof. intros [H0 [k Hk]] Hne. apply (f_equal length) in Hk. rewrite length_drop, length_app in Hk. destruct data; [done|]. cbn [length] in *. lia. Qed.

(** One right write to a file of the right length. *)
Lemma write_right p off data (g : bytes) :
  right content (ToFile p off data) → length g = length (content p) →
  length (write_at (Z.to_nat off) data g) = length (content p) ∧
  ∀ i, g !! i = content p !! i ∨ touches p (Z.of_nat i) (ToFile p off data) →
    write_at (Z.to_nat off) data g !! i = content p !! i.
Proof.
  intros Hr Hg. destruct (decide (data = [])) as [->|Hne].
  { split; [done|]. intros i [Hi|[_ Hi]]; [done|cbn in Hi; lia]. }
  pose proof (right_inside _ _ _ Hr Hne) as Hin. destruct Hr as [Ho Hp]. split; [rewrite write_at_length; lia|].
  intros i [Hi|[_ Hi]].
  - destruct (content p !! i) as [c|] eqn:Hc; [by eapply write_at_agree|].
    apply lookup_ge_None. rewrite write_at_length by lia. apply lookup_ge_None in Hc. lia.
  - replace i with (Z.to_nat off + (i - Z.to_nat off))%nat at 1 by lia. rewrite write_at_inside by lia.
    destruct Hp as [k Hk]. assert (content p !! i = drop (Z.to_nat off) (content p) !! (i - Z.to_nat off)%nat) as ->.
    { rewrite lookup_drop. f_equal. lia. }
    rewrite Hk, lookup_app_l; [done|lia].
Qed.

Lemma apply_writes log d p g :
  (∀ q o x, ToFile q o x ∈ log → q ≠ p → dest_path localDir q ≠ dest_path localDir p) → Forall (right content) log →
  d !! dest_path localDir p = Some g → length g = length (content p) →
  ∃ g', foldl (apply_write localDir) d log !! dest_path localDir p = Some g' ∧ length g' = length (content p) ∧
    ∀ i, g !! i = content p !! i ∨ Exists (touches p (Z.of_nat i)) log → g' !! i = content p !! i.
Proof.
  revert d g. induction log as [|w log IH]; intros d g Hq Hr Hd Hg.
  { exists g. split_and!; [done|done|]. intros i [Hi|Hi]; [done|by apply Exists_nil in Hi]. }
  apply Forall_cons in Hr as [Hw Hr]. cbn [foldl].
  assert (∃ g1, apply_write localDir d w !! dest_path localDir p = Some g1 ∧ length g1 = length (content p) ∧
    ∀ i, g !! i = content p !! i ∨ touches p (Z.of_nat i) w → g1 !! i = content p !! i) as (g1 & Hd1 & Hg1 & Hi1).
  { destruct w as [q off data|]; [|exists g; split_and!; [done|done|intros i [Hi|[]]; done]]. cbn [apply_write].
    destruct (decide (q = p)) as [->|Hne].
    - exists (write_at (Z.to_nat off) data g). rewrite lookup_alter_eq, Hd. destruct (write_right p off data g Hw Hg) as [H1 H2]. done.
    - exists g. rewrite lookup_alter_ne by (eapply Hq; [left|done]). split_and!; [done|done|]. intros i [Hi|[Hi _]]; done. }
  destruct (IH _ g1 (λ q o x Hin, Hq q o x (list_elem_of_further _ _ _ Hin)) Hr Hd1 Hg1) as (g' & Hd' & Hg' & Hi').
  exists g'. split_and!; [done|done|]. intros i [Hi|[Ht|Ht]%Exists_cons]; apply Hi'; [left; apply Hi1; by left|left; apply Hi1; by right|by right].
Qed.

Lemma apply_other log d k :
  (∀ q o x, ToFile q o x ∈ log → dest_path localDir q ≠ k) → foldl (apply_write localDir) d log !! k = d !! k.
Proof.
  revert d. induction log as [|w log IH]; intros d Hq; [done|]. cbn [foldl]. rewrite IH by (intros; eapply Hq; by right).
  destruct w as [q off data|]; [|done]. cbn [apply_write]. apply lookup_alter_ne. eapply Hq. left.
Qed.

Definition prepared (f : FileEntry) (old : bytes) : bytes :=
  if fe_Size f >? 0 then truncate (Z.to_nat (fe_Size f)) old else old.

Definition dest (f : FileEntry) : bool * list bytes := dest_path localDir (fe_Path f).

Lemma prepare_all_spec fails opened fs d ok d' :
  NoDup (dest <$> fs) → (∀ f, f ∈ fs → fe_Path f ∉ opened) → prepare_all localDir fails opened fs d = (ok, d') →
  (∀ k, k ∉ dest <$> fs → d' !! k = d !! k) ∧
  (ok = true → ∀ f, f ∈ fs → d' !! dest f = Some (prepared f (default [] (d !! dest f)))).
Proof.
  revert opened d. induction fs as [|f fs IH]; intros opened d Hnd Hop; cbn [prepare_all].
  { intros [= <- <-]. split; [done|]. intros _ f Hf. by apply not_elem_of_nil in Hf. }
  cbn [fmap list_fmap] in Hnd. apply NoDup_cons in Hnd as [Hf Hnd]. rewrite decide_False by (apply Hop; left).
  case_bool_decide; [by intros [= <- <-]|]. intros Hp. apply IH in Hp as [Ho Hk]; [|done|].
  2: { intros g Hg. apply not_elem_of_union. split; [|apply Hop; by right]. intros Heq%elem_of_singleton. apply Hf.
       apply list_elem_of_fmap. exists g. unfold dest. by rewrite Heq. }
  split.
  - intros k [Hne Hnk]%not_elem_of_cons. rewrite Ho by done. by apply lookup_insert_ne.
  - intros Hok g [->|Hg]%elem_of_cons; [rewrite Ho by done; apply lookup_insert_eq|].
    rewrite (Hk Hok g Hg), lookup_insert_ne; [done|]. intros Heq. apply Hf. apply list_elem_of_fmap. exists g. done.
Qed.

End Disk.

(** ** Downloads *)

Lemma foldl_wrap {A} (f : A → Z) a l : is_int64 a → foldl (fun n x => n +64 f x) a l = wrap64 (a + foldr (fun x n => f x + n) 0 l).
Proof.
  revert a. induction l as [|x l IH]; intros a Ha; cbn [foldl foldr]; [by rewrite Z.add_0_r, wrap64_id|].
  rewrite IH by apply wrap64_range. rewrite wrap64_add_l. f_equal. lia.
Qed.

Lemma foldr_sum_app {A} (f : A → Z) l k :
  foldr (fun x n => f x + n) 0 (l ++ k) = foldr (fun x n => f x + n) 0 l + foldr (fun x n => f x + n) 0 k.
Proof. induction l as [|x l IH]; cbn [app foldr]; lia. Qed.

(** The files a download is about, and its tasks. *)
Definition selection (c : Client) (o : DownloadOpts) (v : download_env) : list FileEntry :=
  match ListFilesTyped c (dv_tree_ctx v) (dv_tree v) with
  | Err _ => []
  | Ok files =>
      match filterFiles files (with_defaults o) with
      | Err _ => []
      | Ok files => List.filter (wanted (with_defaults o)) files
      end
  end.

Definition tasks (c : Client) (repo : bytes) (o : DownloadOpts) (v : download_env) : list fetchTask :=
  concat (file_tasks repo (with_defaults o) <$> selection c o v).

Lemma to_disk_defaults o : to_disk (with_defaults o) = to_disk o.
Proof. done. Qed.

Lemma Download_inv c repo o v d n :
  to_disk o = true → dl_result (Download c repo o v d) = Ok n →
  let ws := imap (fun k t => fetch_task c (with_defaults o) t (dv_task v k)) (tasks c repo o v) in
  ∃ d1, prepare_all (LocalDir o) (dv_prepare v) ∅ (selection c o v) d = (true, d1) ∧
    dl_disk (Download c repo o v d) = foldl (apply_write (LocalDir o)) d1 (interleave (dv_sched v) (wr_log <$> ws)) ∧
    Forall (λ w, wr_err w = None) ws ∧ n = count_bytes ws.
Proof.
  intros Ho. unfold Download, selection, tasks, selection. cbv zeta. rewrite to_disk_defaults, Ho.
  destruct (ListFilesTyped _ _ _) as [files|e]; [|done].
  destruct (filterFiles files (with_defaults o)) as [[|f fs]|e]; [done| |done].
  destruct (true && dv_mkdir v); [done|]. set (sel := List.filter _ (f :: fs)).
  destruct (prepare_all _ _ _ sel d) as [[] d1] eqn:Hp; [|done].
  destruct (concat (file_tasks repo (with_defaults o) <$> sel)) as [|t ts] eqn:Ht; [done|].
  cbn [dl_result dl_disk]. unfold run_tasks. destruct (dv_cancel v) as [[k e]|].
  { destruct (omap wr_err _); intros ?; done. }
  set (ws := imap _ (t :: ts)). destruct (omap wr_err ws) as [|e es] eqn:He; [|done]. intros [= <-].
  exists d1. split_and!; [done|done| |done].
  apply Forall_forall. intros w Hw. destruct (wr_err w) as [e|] eqn:Hwe; [|done].
  assert (e ∈ omap wr_err ws) as Hin by (apply list_elem_of_omap; eauto). rewrite He in Hin. by apply not_elem_of_nil in Hin.
Qed.

Lemma count_done content ts ws :
  Forall2 (task_done content) ts ws → Forall (λ w, wr_err w = None) ws →
  count_bytes ws = wrap64 (foldr (fun t n => ft_end t + 1 - ft_start t + n) 0 ts).
Proof.
  intros H2 Hn. transitivity (foldl (fun n w => n +64 wr_n w) 0 ws).
  - unfold count_bytes. generalize 0. clear H2. induction Hn as [|w ws Hw _ IH]; intros a; [done|]. cbn [foldl]. rewrite Hw. apply IH.
  - rewrite foldl_wrap by zlia. f_equal. rewrite Z.add_0_l. induction H2 as [|t w ts ws Ht _ IH]; [done|].
    apply Forall_cons in Hn as [Hw Hn]. cbn [foldr]. rewrite IH by done. destruct Ht as (_ & _ & Ht). by rewrite (proj1 (Ht Hw)).
Qed.

Lemma tasks_sum repo o fs :
  0 < RangeChunk o < 2 ^ 62 → Forall (λ f, 0 ≤ fe_Size f < 2 ^ 62) fs →
  foldr (fun t n => ft_end t + 1 - ft_start t + n) 0 (concat (file_tasks repo o <$> fs)) = foldr (fun f n => fe_Size f + n) 0 fs.
Proof.
  intros Hc. induction 1 as [|f fs Hf _ IH]; [done|]. cbn [fmap list_fmap concat foldr].
  rewrite (foldr_sum_app (λ t, ft_end t + 1 - ft_start t)), IH. f_equal. unfold file_tasks.
  transitivity (foldr (fun r n => r.2 + 1 - r.1 + n) 0 (file_ranges (RangeChunk o) (fe_Size f))).
  { generalize (file_ranges (RangeChunk o) (fe_Size f)). intros l. induction l as [|[a b] l IHl]; [done|]. cbn. cbn in IHl. by rewrite IHl. }
  destruct (decide (fe_Size f = 0)) as [Hz|Hz]; [rewrite file_ranges_empty by (done || lia); cbn; lia|].
  rewrite (tiles_sum _ _ 0) by (apply tiles_file; lia). lia.
Qed.

(** The surroundings of a download to a directory: the listing has the right
    sizes, the files have places of their own, and the server is honest. *)
Record snapshot (content : bytes → bytes) (c : Client) (repo : bytes) (o : DownloadOpts) (v : download_env) : Prop := mkSnapshot {
  sn_disk : to_disk o = true;
  sn_chunk : RangeChunk o < 2 ^ 62;
  sn_sizes : ∀ f, f ∈ selection c o v → fe_Size f = Z.of_nat (length (content (fe_Path f))) ∧ fe_Size f < 2 ^ 62;
  sn_dest : NoDup (dest (LocalDir o) <$> selection c o v);
  sn_honest : ∀ k t i, tasks c repo o v !! k = Some t → honest content t (tv_reply (dv_task v k) i);
}.

Section Snapshot.
Context (content : bytes → bytes) (c : Client) (repo : bytes) (o : DownloadOpts) (v : download_env).
Context (Hs : snapshot content c repo o v).

Lemma chunk_range : 0 < RangeChunk (with_defaults o) < 2 ^ 62.
Proof. destruct Hs as [_ H _ _ _]. cbn [RangeChunk with_defaults]. destruct (_ <=? _) eqn:E; unfold defaultRangeChunk; lia. Qed.

Lemma task_of_file t : t ∈ tasks c repo o v ↔ ∃ f, f ∈ selection c o v ∧ t ∈ file_tasks repo (with_defaults o) f.
Proof.
  unfold tasks. rewrite list_elem_of_In, in_concat. split.
  - intros (l & Hl & Ht). apply list_elem_of_In in Hl, Ht. apply list_elem_of_fmap in Hl as (f & -> & Hf). eauto.
  - intros (f & Hf & Ht). exists (file_tasks repo (with_defaults o) f). rewrite <-!list_elem_of_In. split; [by apply list_elem_of_fmap_2|done].
Qed.

Lemma selection_path f g : f ∈ selection c o v → g ∈ selection c o v → dest (LocalDir o) f = dest (LocalDir o) g → f = g.
Proof.
  intros Hf Hg He. apply list_elem_of_lookup in Hf as [i Hi], Hg as [j Hj].
  assert (i = j) as ->; [|congruence]. eapply NoDup_lookup; [apply Hs|rewrite list_lookup_fmap, Hi; reflexivity|].
  rewrite list_lookup_fmap, Hj. cbn. by rewrite He.
Qed.

Let ws := imap (fun k t => fetch_task c (with_defaults o) t (dv_task v k)) (tasks c repo o v).

Lemma all_tasks_done : Forall2 (task_done content) (tasks c repo o v) ws.
Proof.
  apply Forall2_same_length_lookup. split; [unfold ws; by rewrite length_imap|]. intros k t w Ht Hw.
  unfold ws in Hw. rewrite list_lookup_imap, Ht in Hw. injection Hw as <-.
  pose proof (proj1 (task_of_file t) (list_elem_of_lookup_2 _ _ _ Ht)) as (f & Hf & Hin).
  destruct (sn_sizes _ _ _ _ _ Hs f Hf) as [Hsz Hlt].
  apply fetch_task_done; [exact (sn_disk _ _ _ _ _ Hs)| |intros i; by eapply sn_honest].
  by apply (file_task_ok content repo (with_defaults o) f t chunk_range Hsz Hlt Hin).
Qed.

(** The writes of the goroutines, in any order, are right, and they go to
    selected files. *)
Lemma log_right w :
  w ∈ interleave (dv_sched v) (wr_log <$> ws) →
  right content w ∧ ∀ q off x, w = ToFile q off x → ∃ f, f ∈ selection c o v ∧ fe_Path f = q.
Proof.
  rewrite interleave_perm, list_elem_of_In, in_concat. intros (l & Hl & Hw). apply list_elem_of_In in Hl, Hw.
  apply list_elem_of_fmap in Hl as (x & -> & Hx). apply list_elem_of_lookup in Hx as [k Hk].
  destruct (Forall2_lookup_r _ _ _ _ _ all_tasks_done Hk) as (t & Ht & H1 & H2 & _).
  rewrite Forall_forall in H1. split; [by apply H1|]. intros q off y ->. rewrite (H2 _ _ _ Hw).
  pose proof (proj1 (task_of_file t) (list_elem_of_lookup_2 _ _ _ Ht)) as (f & Hf & Hin). exists f. split; [done|].
  by apply list_elem_of_fmap in Hin as (r & -> & _).
Qed.

(** Without errors, every byte of a selected file is written. *)
Lemma log_complete f i :
  Forall (λ w, wr_err w = None) ws → f ∈ selection c o v → 0 ≤ i < fe_Size f →
  Exists (touches (fe_Path f) i) (interleave (dv_sched v) (wr_log <$> ws)).
Proof.
  intros Hn Hf Hi. destruct (sn_sizes _ _ _ _ _ Hs f Hf) as [_ Hlt].
  destruct (file_tasks_find repo (with_defaults o) f i chunk_range Hi Hlt) as (t & Ht & Hti).
  assert (ft_path t = fe_Path f) as Hpath by (by apply list_elem_of_fmap in Ht as (r & -> & _)).
  assert (t ∈ tasks c repo o v) as Hin by (apply task_of_file; eauto). apply list_elem_of_lookup in Hin as [k Hk].
  destruct (Forall2_lookup_l _ _ _ _ _ all_tasks_done Hk) as (w & Hw & _ & _ & H3).
  destruct (H3 (Forall_lookup_1 _ _ _ _ Hn Hw)) as [_ Hc]. specialize (Hc i Hti). rewrite Hpath in Hc.
  apply Exists_exists in Hc as (x & Hx & Htx). apply Exists_exists. exists x. split; [|done].
  rewrite interleave_perm, list_elem_of_In, in_concat. exists (wr_log w). rewrite <-!list_elem_of_In. split; [|done].
  apply list_elem_of_fmap_2. by eapply list_elem_of_lookup_2.
Qed.

End Snapshot.

(** The count after a download without error. *)
Lemma snapshot_count content c repo o v d n :
  snapshot content c repo o v → dl_result (Download c repo o v d) = Ok n → n = planned_bytes (selection c o v).
Proof.
  intros Hs Hr. destruct (Download_inv c repo o v d n (sn_disk _ _ _ _ _ Hs) Hr) as (d1 & _ & _ & Hn & ->).
  set (ws := imap _ _) in Hn |- *. unfold planned_bytes. rewrite foldl_wrap by zlia.
  rewrite (count_done content _ ws (all_tasks_done content c repo o v Hs) Hn).
  rewrite Z.add_0_l. f_equal. apply tasks_sum; [by eapply chunk_range|]. apply Forall_forall. intros f Hf.
  destruct (sn_sizes _ _ _ _ _ Hs f Hf). lia.
Qed.

(** The files after a download without error. *)
Lemma snapshot_file content c repo o v d n f :
  snapshot content c repo o v → dl_result (Download c repo o v d) = Ok n →
  f ∈ selection c o v → 0 < fe_Size f ∨ d !! dest (LocalDir o) f = None →
  dl_disk (Download c repo o v d) !! dest (LocalDir o) f = Some (content (fe_Path f)).
Proof.
  intros Hs Hr Hf Hnew. destruct (Download_inv c repo o v d n (sn_disk _ _ _ _ _ Hs) Hr) as (d1 & Hp & Hd & Hn & _).
  set (ws := imap _ _) in Hn, Hd |- *. set (log := interleave _ _) in Hd.
  destruct (prepare_all_spec (LocalDir o) _ _ _ _ _ _ (sn_dest _ _ _ _ _ Hs) (λ f _, not_elem_of_empty _) Hp) as [_ Hprep].
  assert (∀ w, w ∈ log → _) as Hlog by exact (log_right content c repo o v Hs).
  destruct (sn_sizes _ _ _ _ _ Hs f Hf) as [Hsz _].
  destruct (apply_writes content (LocalDir o) log d1 (fe_Path f) (prepared f (default [] (d !! dest (LocalDir o) f)))) as (g & Hg & Hlen & Hi).
  - intros q off x Hin Hne Heq. destruct (Hlog _ Hin) as [_ Hq]. destruct (Hq q off x eq_refl) as (f' & Hf' & <-).
    apply Hne. by rewrite (selection_path content c repo o v Hs f' f Hf' Hf Heq).
  - apply Forall_forall. intros w Hw. by apply Hlog.
  - by apply Hprep.
  - unfold prepared. destruct (_ >? _) eqn:E.
    + unfold truncate. rewrite length_app, length_take, length_replicate. lia.
    + destruct Hnew as [?|Hnone]; [lia|]. rewrite Hnone. cbn [default length]. lia.
  - rewrite Hd. unfold dest. rewrite Hg. f_equal. apply list_eq. intros i.
    destruct (decide (Z.of_nat i < fe_Size f)).
    + apply Hi. right. apply (log_complete content c repo o v Hs f (Z.of_nat i) Hn Hf). lia.
    + rewrite !lookup_ge_None_2 by lia. done.
Qed.

Lemma snapshot_other content c repo o v d n k :
  snapshot content c repo o v → dl_result (Download c repo o v d) = Ok n →
  k ∉ dest (LocalDir o) <$> selection c o v → dl_disk (Download c repo o v d) !! k = d !! k.
Proof.
  intros Hs Hr Hk. destruct (Download_inv c repo o v d n (sn_disk _ _ _ _ _ Hs) Hr) as (d1 & Hp & Hd & _ & _).
  destruct (prepare_all_spec (LocalDir o) _ _ _ _ _ _ (sn_dest _ _ _ _ _ Hs) (λ f _, not_elem_of_empty _) Hp) as [Hother _].
  rewrite Hd, apply_other; [by apply Hother|]. intros q off x Hin <-.
  destruct (log_right content c repo o v Hs _ Hin) as [_ Hq]. destruct (Hq q off x eq_refl) as (f & Hf & <-).
  apply Hk. apply list_elem_of_fmap. exists f. done.
Qed.


(** A task whose attempts fail for a while with errors worth a retry, and then
    succeed. *)
Definition settles (c : Client) (o : DownloadOpts) (t : fetchTask) (v : task_env) : Prop :=
  ∃ k, (k ≤ Z.to_nat (max_retries c))%nat ∧ (∀ j, (j ≤ k)%nat → tv_ctx v j = mkCtx None None) ∧
    (∀ j, (j < k)%nat → ∃ e, wr_err (fetchOnce o t (tv_reply v j) (tv_disk v j)) = Some e ∧ shouldRetry e = true) ∧
    wr_err (fetchOnce o t (tv_reply v k) (tv_disk v k)) = None.

Lemma fetch_task_settles c o t v : settles c o t v → wr_err (fetch_task c o t v) = None.
Proof.
  intros (k & Hk & Hctx & Hbad & Hgood). unfold fetch_task, doRetry. set (fn := λ j (st : list write * Z), _).
  pose proof (retry_settles c (tv_ctx v) fn (Z.to_nat (max_retries c)) 0 0 ([], 0) k Hk) as H.
  destruct (retry_from _ _ _ _ _ _ _) as [[e w] [log n]]. cbn [fst wr_err] in *. apply H.
  - intros j Hj. apply Hctx. lia.
  - intros j st Hj. apply Hbad. lia.
  - intros st. apply Hgood.
Qed.

Lemma omap_none {A B} (f : A → option B) l : Forall (λ x, f x = None) l → omap f l = [].
Proof. induction 1 as [|x l Hx _ IH]; [done|]. cbn. by rewrite Hx. Qed.

Lemma prepare_all_clean localDir opened fs d : (prepare_all localDir [] opened fs d).1 = true.
Proof.
  revert opened d. induction fs as [|g fs IH]; intros opened d; [done|]. cbn [prepare_all]. destruct (decide _); [apply IH|].
  rewrite bool_decide_false by apply not_elem_of_nil. apply IH.
Qed.

Lemma file_tasks_nonempty repo o f : 0 < RangeChunk o < 2 ^ 62 → 0 ≤ fe_Size f < 2 ^ 62 → file_tasks repo o f ≠ [].
Proof.
  intros Hc Hz Ht. apply fmap_nil_inv in Ht. destruct (decide (fe_Size f = 0)).
  - by rewrite file_ranges_empty in Ht by (done || lia).
  - assert (tiles (RangeChunk o) (fe_Size f) 0 (file_ranges (RangeChunk o) (fe_Size f))) as Hti by (apply tiles_file; lia).
    rewrite Ht in Hti. cbn in Hti. lia.
Qed.

Lemma Download_runs c repo o v d :
  to_disk o = true → dv_mkdir v = false → dv_prepare v = [] → dv_cancel v = None → tasks c repo o v ≠ [] →
  (∀ k t, tasks c repo o v !! k = Some t → settles c (with_defaults o) t (dv_task v k)) →
  ∃ n, dl_result (Download c repo o v d) = Ok n.
Proof.
  intros Ho Hm Hp Hc Hne Hset. unfold tasks, selection in Hset, Hne. unfold Download. cbv zeta.
  rewrite to_disk_defaults, Ho, Hm, Hp. destruct (ListFilesTyped _ _ _) as [files|e]; [|done].
  destruct (filterFiles files (with_defaults o)) as [[|f fs]|e]; [done| |done].
  cbn [andb]. set (sel := List.filter _ (f :: fs)) in *.
  pose proof (prepare_all_clean (LocalDir (with_defaults o)) ∅ sel d) as Hprep.
  destruct (prepare_all _ _ _ sel d) as [ok d1]. cbn in Hprep. subst ok.
  destruct (concat (file_tasks repo (with_defaults o) <$> sel)) as [|t ts] eqn:Ht; [done|].
  unfold run_tasks. rewrite Hc. eexists. cbn [dl_result]. rewrite omap_none; [reflexivity|].
  apply Forall_forall. intros w Hw. apply list_elem_of_lookup in Hw as [k Hk]. rewrite list_lookup_imap in Hk.
  apply fmap_Some in Hk as (t' & Ht' & ->). apply fetch_task_settles. by apply Hset.
Qed.

(** C35: downloads get done.  If the listing succeeds, files are selected and can
    be made, the context stays alive and every task succeeds within its retries,
    Download returns the planned total. *)
Theorem download_completes content c repo o v d :
  snapshot content c repo o v → selection c o v ≠ [] →
  dv_mkdir v = false → dv_prepare v = [] → dv_cancel v = None →
  (∀ k t, tasks c repo o v !! k = Some t → settles c (with_defaults o) t (dv_task v k)) →
  dl_result (Download c repo o v d) = Ok (planned_bytes (selection c o v)).
Proof.
  intros Hs Hne Hm Hp Hc Hset. assert (tasks c repo o v ≠ []) as Htne.
  { unfold tasks. destruct (selection c o v) as [|f fs] eqn:Es; [done|]. cbn [fmap list_fmap concat]. intros [Ht _]%app_nil.
    destruct (sn_sizes _ _ _ _ _ Hs f) as [Hsz Hlt]; [rewrite Es; left|].
    apply file_tasks_nonempty in Ht; [done|by eapply chunk_range|lia]. }
  destruct (Download_runs c repo o v d (sn_disk _ _ _ _ _ Hs) Hm Hp Hc Htne Hset) as [n Hn].
  by rewrite Hn, (snapshot_count content c repo o v d n Hs Hn).
Qed.

(** ** Concrete downloads *)

Definition demo_client : Client := mkClient 0 0 0.

Definition demo_opts : DownloadOpts := mkOpts (bs "/d") false 0 [] 0 2 [] [] [bs "*.bin"] [].

Definition demo_object (p : bytes) : bytes := bs "abc".

(** Three bytes in two ranges; the first attempt at the first is cut. *)
Definition demo_replies (k i : nat) : result client_error response :=
  match k, i with
  | O, O => Ok (mkResp 206 [bs "a"] (Some ErrUnexpectedEOF))
  | O, _ => Ok (mkResp 206 [bs "a"; bs "b"] None)
  | _, _ => Ok (mkResp 206 [bs "c"] None)
  end.

Definition demo_download_env : download_env :=
  mkDenv (λ _, Ok [mkTE (bs "file") (bs "m/w.bin") 3; mkTE (bs "directory") (bs "m") 0; mkTE (bs "file") (bs "README.md") 9])
    (λ _, mkCtx None None) false [] (λ k, mkTaskEnv (demo_replies k) (λ _, []) (λ _, mkCtx None None))
    None [1%nat; 0%nat] (λ _, NoFiles).

Lemma demo_selection : selection demo_client demo_opts demo_download_env = [mkFE (bs "m/w.bin") 3].
Proof. vm_compute. reflexivity. Qed.

Lemma demo_tasks :
  tasks demo_client (bs "acme/m") demo_opts demo_download_env =
  (λ r, mkTask (bs "/acme/m/resolve/main/m/w.bin") (bs "m/w.bin") r.1 r.2 3) <$> [(0, 1); (2, 2)].
Proof. vm_compute. reflexivity. Qed.

Lemma demo_snapshot : snapshot demo_object demo_client (bs "acme/m") demo_opts demo_download_env.
Proof.
  split.
  - reflexivity.
  - cbn. lia.
  - rewrite demo_selection. intros f ->%list_elem_of_singleton. cbn. lia.
  - rewrite demo_selection. apply NoDup_singleton.
  - rewrite demo_tasks. intros k t i Ht. destruct k as [|[|k]]; [..|done]; injection Ht as <-; [destruct i|]; intros _;
      (split; [apply (bool_decide_unpack _); vm_compute; exact I|vm_compute; congruence]).
Qed.


Lemma download_completes_witness : dl_result (Download demo_client (bs "acme/m") demo_opts demo_download_env ∅) = Ok 3.
Proof.
  refine (eq_trans (download_completes demo_object demo_client (bs "acme/m") demo_opts demo_download_env ∅ demo_snapshot _ _ _ _ _) _);
    [rewrite demo_selection; discriminate|reflexivity|reflexivity|reflexivity| |vm_compute; reflexivity].
  rewrite demo_tasks. intros k t Ht. destruct k as [|[|k]]; [..|done]; injection Ht as <-.
  - exists 1%nat. split_and!; [vm_compute; lia|done| |done]. intros [|j] Hj; [|lia]. exists ErrUnexpectedEOF. done.
  - exists 0%nat. split_and!; [lia|done|intros j; lia|done].
Defined.

(** ** Behaviours worth knowing *)

(** A server that ignores Range and answers 200 with the whole object: the
    object is written at the offset of the range, and the file is wrong though
    the download reports no error. *)
Lemma ignored_range_corrupts :
  let v := mkDenv (dv_tree demo_download_env) (λ _, mkCtx None None) false []
             (λ k, mkTaskEnv (λ _, Ok (mkResp 200 [bs "abc"] None)) (λ _, []) (λ _, mkCtx None None)) None [] (λ _, NoFiles) in
  let r := Download demo_client (bs "acme/m") demo_opts v ∅ in
  dl_result r = Ok 6 ∧ dl_disk r !! dest (bs "/d") (mkFE (bs "m/w.bin") 3) = Some (bs "ababc").
Proof. vm_compute. done. Qed.

(** An object that is empty now keeps the bytes of the local file it had. *)
Lemma empty_file_keeps_old :
  let v := mkDenv (λ _, Ok [mkTE (bs "file") (bs "w.bin") 0]) (λ _, mkCtx None None) false []
             (λ k, mkTaskEnv (λ _, Ok (mkResp 200 [] None)) (λ _, []) (λ _, mkCtx None None)) None [] (λ _, NoFiles) in
  let k := dest (bs "/d") (mkFE (bs "w.bin") 0) in
  let r := Download demo_client (bs "acme/m") demo_opts v {[k := bs "old"]} in
  dl_result r = Ok 0 ∧ dl_disk r !! k = Some (bs "old").
Proof. vm_compute. done. Qed.

(** A listed path with dots leaves the directory. *)
Lemma listed_path_escapes : dest (bs "/d") (mkFE (bs "../etc/x") 1) = (true, [bs "etc"; bs "x"]).
Proof. vm_compute. reflexivity. Qed.

(** A retried range goes to the sink again from its start. *)
Lemma sink_retry_repeats :
  dl_log (Download demo_client (bs "acme/m") (mkOpts [] true 0 [] 0 2 [] [] [bs "*.bin"] []) demo_download_env ∅) =
  [ToSink (bs "c"); ToSink (bs "a"); ToSink (bs "a"); ToSink (bs "b")].
Proof. vm_compute. reflexivity. Qed.

(** Globs: a star stays within a segment, a pattern may name the last one. *)
Lemma glob_samples :
  globAny [bs "*.safetensors"] (bs "a/b.safetensors") = true ∧ Match (bs "*.safetensors") (bs "a/b.safetensors") = Some false ∧
  Match (bs "a/*/[a-c]?") (bs "a/x/b1") = Some true ∧ Match (bs "a/[") (bs "b") = None ∧ Match (bs "[^x]*b") (bs "a/b") = Some false.
Proof. vm_compute. split_and!; reflexivity. Qed.
