(* ===== verification/Snapshot.v ===== *)
(** * The client against the registry (src/internal/hfhub/client.go and
    src/internal/proxy/registry_handler.go)

    The URLs the client builds are decoded and routed by the server to the names
    they were built from, and a snapshot download from a registry reproduces the
    files of the revision, in every interleaving and over dropping connections. *)

From stdpp Require Import base strings numbers gmap list.
From S2P Require Import Prelude GoStd Sha256 Rewrite BlobStore Registry SendFile RegistryHandler HubClient.

Local Open Scope Z_scope.

(** ** Escaped paths *)

Lemma PathUnescape_plain c s t : c ≠ 37 → PathUnescape s = Some t → PathUnescape (c :: s) = Some (c :: t).
Proof.
  intros H1 Hs. cbn [PathUnescape]. rewrite Hs.
  destruct c as [|p|p]; try done. do 6 (destruct p as [p|p|]; try done).
Qed.

Lemma PathUnescape_lit l s t : 37 ∉ l → PathUnescape s = Some t → PathUnescape (l ++ s) = Some (l ++ t).
Proof.
  induction l as [|c l IH]; intros Hl Hs; [done|]. apply not_elem_of_cons in Hl as [Hc Hl].
  cbn [app]. apply PathUnescape_plain; [congruence|by apply IH].
Qed.

Lemma PathUnescape_escape s t u :
  Forall is_byte s → PathUnescape t = Some u → PathUnescape (PathEscape s ++ t) = Some (s ++ u).
Proof.
  intros Hb Ht. unfold PathEscape. induction Hb as [|c s Hc _ IH]; [done|]. rewrite fmap_cons. cbn [concat].
  rewrite <-app_assoc. unfold path_escape_byte at 1. destruct (path_plain c) eqn:Ep.
  - cbn [app]. apply PathUnescape_plain; [|done]. intros ->. by vm_compute in Ep.
  - cbn [app PathUnescape]. unfold is_byte in Hc. rewrite IH, !unhex_upper; [|apply Z.mod_pos_bound; lia|].
    + do 2 f_equal. pose proof (Z.div_mod c 16). lia.
    + split; [apply Z.div_pos; lia|apply Z.div_lt_upper_bound; lia].
Qed.

Lemma PathUnescape_segments ws t u :
  ws ≠ [] → Forall (Forall is_byte) ws → PathUnescape t = Some u →
  PathUnescape (Join (PathEscape <$> ws) (bs "/") ++ t) = Some (Join ws (bs "/") ++ u).
Proof.
  intros Hne Hb Ht. induction Hb as [|w ws Hw Hb IH]; [done|]. destruct ws as [|w' ws].
  - cbn [fmap list_fmap Join]. by apply PathUnescape_escape.
  - rewrite fmap_cons, Join_cons, (Join_cons w (w' :: ws)) by done.
    rewrite <-!app_assoc. apply PathUnescape_escape; [done|]. apply PathUnescape_lit; [by apply (bool_decide_unpack _)|].
    by apply IH.
Qed.

Lemma Split_bytes s c : Forall is_byte s → Forall (Forall is_byte) (Split s c).
Proof.
  intros Hs. induction Hs as [|x s Hx Hs IH]; cbn [Split]; [constructor; constructor|].
  destruct (x =? c); [by constructor|]. destruct (Split s c) as [|w ws] eqn:E; [by apply Split_nonempty in E|].
  apply Forall_cons in IH as [Hw Hws]. constructor; [by constructor|done].
Qed.

Lemma escapePath_decodes s t u :
  Forall is_byte s → PathUnescape t = Some u → PathUnescape (escapePath s ++ t) = Some (s ++ u).
Proof.
  intros Hs Ht. unfold escapePath.
  rewrite (PathUnescape_segments _ t u (Split_nonempty _ _) (Split_bytes _ _ Hs) Ht). by rewrite Join_Split.
Qed.

Lemma repo_bytes ns name : Forall is_byte ns → Forall is_byte name → Forall is_byte (ns ++ bs "/" ++ name).
Proof.
  intros. apply Forall_app. split; [done|]. apply Forall_app. split; [|done].
  constructor; [vm_compute; split; [discriminate|reflexivity]|constructor].
Qed.

(** The path the server decodes from a client's URL. *)
Lemma resolveURL_decodes ns name rev p rt :
  Forall is_byte ns → Forall is_byte name → Forall is_byte rev → Forall is_byte p →
  PathUnescape (resolveURL (ns ++ bs "/" ++ name) rev p rt) = Some (resolve_path (apiPrefix rt) ns name rev p).
Proof.
  intros Hns Hname Hrev Hp.
  pose proof (repo_bytes ns name Hns Hname) as Hrepo.
  assert (resolvePrefix rt = if beq (apiPrefix rt) (bs "models") then [] else apiPrefix rt ++ bs "/") as Hpre.
  { unfold resolvePrefix, apiPrefix. destruct (beq rt RepoTypeDataset); [done|]. by destruct (beq rt RepoTypeSpace). }
  assert (37 ∉ resolvePrefix rt) as Hlit.
  { unfold resolvePrefix. destruct (beq rt RepoTypeDataset); [|destruct (beq rt RepoTypeSpace)]; apply (bool_decide_unpack _); vm_compute; exact I. }
  unfold resolveURL, resolve_path. apply PathUnescape_lit; [by apply (bool_decide_unpack _)|]. rewrite <-Hpre.
  apply PathUnescape_lit; [done|].
  assert (PathUnescape (escapePath p) = Some p) as Hend.
  { pose proof (escapePath_decodes p [] [] Hp eq_refl) as H. by rewrite !app_nil_r in H. }
  pose proof (PathUnescape_lit (bs "/") _ _ ltac:(by apply (bool_decide_unpack _)) Hend) as H1.
  pose proof (PathUnescape_escape rev _ _ Hrev H1) as H2.
  pose proof (PathUnescape_lit (bs "/resolve/") _ _ ltac:(by apply (bool_decide_unpack _)) H2) as H3.
  rewrite (escapePath_decodes _ _ _ Hrepo H3). by rewrite <-!app_assoc.
Qed.

(** ** The server, as the client sees it *)

Section Server.
Context (tenant blobDir : bytes) (pick : list bytes → option bytes) (h : hub).

(** A GET of a target: decoded, routed, answered. *)
Definition registry_get (target range : bytes) : reply :=
  match PathUnescape target with
  | None => Status 400
  | Some path =>
      match RegistryHandler.ServeHTTP (bs "GET") path with
      | ResolveR => serveResolve tenant blobDir pick no_hfaults h (bs "GET") path range
      | TreeR repoType ns name rev => tree tenant pick no_hfaults h repoType ns name rev
      | ModelInfoR repoType ns name => modelInfo tenant pick no_hfaults h repoType ns name
      | _ => Next
      end
  end.

End Server.

(** The tree reply, decoded. *)
Definition tree_reply (r : reply) : result client_error (list treeEntry) :=
  match r with
  | Tree es => Ok ((λ e, mkTE (bs "file") (en_Path e) (en_Size e)) <$> es)
  | JSONError s | Status s => Err (HttpError s)
  | _ => Err BadReply
  end.

(** A body arrives in blocks; if the connection ends before it does, the reader
    reports it. *)
Fixpoint deliver (sizes : list nat) (body : bytes) : list bytes * option client_error :=
  match sizes with
  | [] => ([], if beq body [] then None else Some ErrUnexpectedEOF)
  | n :: sizes => let '(bl, e) := deliver sizes (drop n body) in (take n body :: bl, e)
  end.

Definition file_reply (r : reply) (net : option (list nat)) : result client_error response :=
  match net with
  | None => Err NetError
  | Some sizes =>
      match r with
      | File status _ body => let '(bl, e) := deliver sizes body in Ok (mkResp status bl e)
      | JSONError s | Status s => Ok (mkResp s [] None)
      | _ => Err BadReply
      end
  end.

Lemma deliver_spec sizes body :
  let '(bl, e) := deliver sizes body in concat bl `prefix_of` body ∧ (e = None → concat bl = body).
Proof.
  revert body. induction sizes as [|n sizes IH]; intros body; cbn [deliver].
  - split; [apply prefix_nil|]. destruct (beq body []) eqn:E; [apply beq_true in E as ->; done|done].
  - specialize (IH (drop n body)). destruct (deliver sizes (drop n body)) as [bl e]. destruct IH as [H1 H2]. cbn [concat]. split.
    + rewrite <-(take_drop n body) at 2. by apply prefix_app.
    + intros He. rewrite (H2 He). apply take_drop.
Qed.

(** ** Names *)

Lemma tree_url_decodes ns name rev rt :
  Forall is_byte ns → Forall is_byte name → Forall is_byte rev →
  PathUnescape (tree_url (ns ++ bs "/" ++ name) rev rt) =
  Some (bs "/api/" ++ apiPrefix rt ++ bs "/" ++ ns ++ bs "/" ++ name ++ bs "/" ++ bs "tree" ++ bs "/" ++ rev).
Proof.
  intros Hns Hname Hrev. pose proof (PathUnescape_escape rev [] [] Hrev eq_refl) as H0. rewrite !app_nil_r in H0.
  pose proof (PathUnescape_lit (bs "/tree/") _ _ ltac:(by apply (bool_decide_unpack _)) H0) as H1.
  pose proof (escapePath_decodes _ _ _ (repo_bytes ns name Hns Hname) H1) as H2.
  pose proof (PathUnescape_lit (bs "/") _ _ ltac:(by apply (bool_decide_unpack _)) H2) as H3.
  assert (37 ∉ apiPrefix rt) as Hlit.
  { unfold apiPrefix. destruct (beq rt RepoTypeDataset); [|destruct (beq rt RepoTypeSpace)]; apply (bool_decide_unpack _); vm_compute; exact I. }
  pose proof (PathUnescape_lit _ _ _ Hlit H3) as H4.
  unfold tree_url. rewrite (PathUnescape_lit (bs "/api/") _ _ ltac:(by apply (bool_decide_unpack _)) H4). by rewrite <-!app_assoc.
Qed.

Lemma api_tree_routed rt ns name rev :
  47 ∉ ns → 47 ∉ name → 47 ∉ rev →
  RegistryHandler.ServeHTTP (bs "GET")
    (bs "/api/" ++ apiPrefix rt ++ bs "/" ++ ns ++ bs "/" ++ name ++ bs "/" ++ bs "tree" ++ bs "/" ++ rev) =
  TreeR (apiPrefix rt) ns name rev.
Proof.
  intros Hns Hname Hrev. set (x := apiPrefix rt ++ _). unfold RegistryHandler.ServeHTTP, serveAPI.
  assert (∀ w, HasPrefix w (bs "/api/") = false → beq (bs "/api/" ++ x) w = false) as Hneq.
  { intros w Hw. apply beq_false. intros <-. by rewrite HasPrefix_app in Hw. }
  rewrite (Hneq (bs "/healthz")), (Hneq (bs "/metrics")) by done. cbn [orb]. rewrite HasPrefix_app.
  rewrite TrimPrefix_app, andb_false_r. unfold x.
  assert (47 ∉ apiPrefix rt ∧ is_repo_type (apiPrefix rt) = true) as [H47 Ht].
  { unfold apiPrefix. destruct (beq rt RepoTypeDataset); [|destruct (beq rt RepoTypeSpace)];
      (split; [apply (bool_decide_unpack _); vm_compute; exact I|vm_compute; reflexivity]). }
  rewrite !Split_slash, Split_no_sep; try done; [|apply (bool_decide_unpack _); vm_compute; exact I].
  rewrite Ht. done.
Qed.

(** client and server agree on names.  For any repository, revision without
    a slash and path, whatever bytes they are made of, the path decoded from the
    URL the client builds is taken apart into exactly these names, and the URL
    of the tree is routed to the tree of that revision. *)
Theorem client_urls_routed ns name rev p rt :
  Forall is_byte (ns ++ name ++ rev ++ p) → plain_names (apiPrefix rt) ns name rev →
  (PathUnescape (resolveURL (ns ++ bs "/" ++ name) rev p rt) ≫= parseResolvePath) = Some (apiPrefix rt, ns, name, rev, p) ∧
  RegistryHandler.ServeHTTP (bs "GET") <$> PathUnescape (tree_url (ns ++ bs "/" ++ name) rev rt) = Some (TreeR (apiPrefix rt) ns name rev).
Proof.
  rewrite !Forall_app. intros (H1 & H2 & H3 & H4) Hn. rewrite resolveURL_decodes, tree_url_decodes by done.
  split; [cbn; by apply parse_resolve|]. destruct Hn as (_ & Hns & Hname & Hrev & _). cbn [fmap option_fmap option_map].
  by rewrite api_tree_routed.
Qed.

(** A revision with a slash is escaped by the client, decoded before the server
    takes the path apart, and read as another revision and path. *)
Lemma slash_revision_misread :
  (PathUnescape (resolveURL (bs "acme/m") (bs "refs/pr/1") (bs "w.bin") RepoTypeModel) ≫= parseResolvePath) =
  Some (bs "models", bs "acme", bs "m", bs "refs", bs "pr/1/w.bin").
Proof. vm_compute. reflexivity. Qed.

(** ** Ranges *)

Lemma range_roundtrip a b size :
  0 ≤ a ≤ b → b < size → size < 2 ^ 62 →
  parseSimpleRange (bs "bytes=" ++ FormatInt a ++ bs "-" ++ FormatInt b) size = Some (a, b).
Proof.
  intros Ha Hb Hs. unfold parseSimpleRange. rewrite HasPrefix_app, TrimPrefix_app. cbn [negb].
  assert (∀ n c, 0 ≤ n → is_digit c = false → c ∉ FormatInt n) as Hno by (intros n c ??; apply FormatInt_not_in; by right).
  assert (Contains (FormatInt a ++ bs "-" ++ FormatInt b) (bs ",") = false) as ->.
  { apply not_true_iff_false. intros (x & y & Hxy)%Contains_spec. assert (44 ∈ FormatInt a ++ bs "-" ++ FormatInt b) as Hin.
    { rewrite Hxy. apply elem_of_app. right. left. }
    apply elem_of_app in Hin as [Hin|[Hin|Hin]%elem_of_app];
      [exact (Hno a 44 ltac:(lia) eq_refl Hin)| |exact (Hno b 44 ltac:(lia) eq_refl Hin)].
    by apply list_elem_of_singleton in Hin. }
  change (FormatInt a ++ bs "-" ++ FormatInt b) with (FormatInt a ++ 45 :: FormatInt b).
  rewrite IndexByte_app by (apply Hno; [lia|done]). cbv zeta.
  change (45 :: FormatInt b) with ([45] ++ FormatInt b).
  rewrite take_app_length. replace (S (length (FormatInt a))) with (length (FormatInt a ++ [45])) by (rewrite length_app; cbn; lia).
  rewrite app_assoc, drop_app_length.
  assert (∀ n, 0 ≤ n < 2 ^ 62 → beq (FormatInt n) [] = false ∧ ParseInt (FormatInt n) = Some n) as Hp.
  { intros n Hn. assert (ParseInt (FormatInt n) = Some n) as H by (apply ParseInt_FormatInt; zlia). split; [|done].
    apply beq_false. intros He. rewrite He in H. done. }
  destruct (Hp a ltac:(lia)) as [-> ->]. destruct (Hp b ltac:(lia)) as [-> ->].
  replace ((a <? 0) || (a >=? size)) with false by lia. by replace ((b <? a) || (b >=? size)) with false by lia.
Qed.

(** ** Downloading from a registry *)

(** The replies of a download come from a registry; requests may fail on the way
    and bodies may be cut. *)
Record served_by (tenant blobDir : bytes) (pick : list bytes → option bytes) (h : hub) (c : Client) (repo : bytes)
    (o : DownloadOpts) (v : download_env) : Prop := mkServedBy {
  sb_tree : ∀ k, (∃ e, dv_tree v k = Err e) ∨
    dv_tree v k = tree_reply (registry_get tenant blobDir pick h (tree_url repo (Revision (with_defaults o)) (RepoType (with_defaults o))) []);
  sb_files : ∀ k t i, tasks c repo o v !! k = Some t →
    ∃ net, tv_reply (dv_task v k) i = file_reply (registry_get tenant blobDir pick h (ft_url t) (range_header t)) net;
}.

(** What the registry serves for a path. *)
Definition registry_content (tenant blobDir : bytes) (pick : list bytes → option bytes) (h : hub) (repoType ns name rev p : bytes) : bytes :=
  match serveResolve tenant blobDir pick no_hfaults h (bs "GET") (resolve_path repoType ns name rev p) [] with
  | File _ _ body => body
  | _ => []
  end.

Lemma ListFiles_reply c ctx (reply : nat → result client_error (list treeEntry)) es files :
  (∀ k, (∃ e, reply k = Err e) ∨ reply k = Ok es) → ListFilesTyped c ctx reply = Ok files → files = tree_file_entries es.
Proof.
  intros Hr. unfold ListFilesTyped, doRetry. set (fn := λ k (st : list treeEntry), _).
  destruct (retry_from c ctx fn _ 0 0 []) as [[[e|] w] st] eqn:E; [done|]. intros [= <-]. f_equal.
  apply retry_success in E as (j & st0 & _ & Hf). unfold fn in Hf. destruct (Hr j) as [(e & He)|He]; rewrite He in Hf; by injection Hf.
Qed.

Lemma filterFiles_sub files o sel f : filterFiles files o = Ok sel → f ∈ sel → f ∈ files.
Proof.
  unfold filterFiles. intros H Hf.
  assert (sel = files ∨ sel = List.filter (selected o) files) as [-> | ->]; [|done|].
  { repeat case_match; try done; injection H as <-; auto. }
  apply list_elem_of_In, filter_In in Hf as [Hf _]. by apply list_elem_of_In.
Qed.

Lemma tree_file_entries_elem es f :
  f ∈ tree_file_entries ((λ e, mkTE (bs "file") (en_Path e) (en_Size e)) <$> es) → ∃ e, e ∈ es ∧ f = mkFE (en_Path e) (en_Size e).
Proof.
  unfold tree_file_entries. rewrite list_elem_of_omap. intros (te & Hte & H). apply list_elem_of_fmap in Hte as (e & -> & He). exists e. split; [done|].
  cbn [te_Type te_Path te_Size] in H. destruct (_ || _); [done|]. by injection H.
Qed.

Section FromRegistry.
Context (tenant blobDir : bytes) (pick : list bytes → option bytes) (h : hub) (Hh : hub_ok blobDir h).
Context (c : Client) (o : DownloadOpts) (v : download_env) (ns name : bytes).

Let rt := RepoType (with_defaults o).
Let rev := Revision (with_defaults o).
Let repo := ns ++ bs "/" ++ name.
Let content := registry_content tenant blobDir pick h (apiPrefix rt) ns name rev.

Context (Hn : plain_names (apiPrefix rt) ns name rev) (Hb : Forall is_byte (ns ++ name ++ rev)).
Context (es : list entry) (Htree : tree tenant pick no_hfaults h (apiPrefix rt) ns name rev = Tree es).
Context (Hes : ∀ e, e ∈ es → Forall is_byte (en_Path e) ∧ en_Size e < 2 ^ 62 ∧
  RegistryHandler.ServeHTTP (bs "GET") (resolve_path (apiPrefix rt) ns name rev (en_Path e)) = ResolveR).
Context (Hs : served_by tenant blobDir pick h c repo o v).

(** The selected files are entries of the tree. *)
Lemma selection_listed f : f ∈ selection c o v → ∃ e, e ∈ es ∧ f = mkFE (en_Path e) (en_Size e).
Proof.
  assert (Hb' := Hb). rewrite !Forall_app in Hb'. destruct Hb' as (Hb1 & Hb2 & Hb3).
  assert (∀ k, (∃ e, dv_tree v k = Err e) ∨ dv_tree v k = Ok ((λ e, mkTE (bs "file") (en_Path e) (en_Size e)) <$> es)) as Hr.
  { intros k. destruct (sb_tree _ _ _ _ _ _ _ _ Hs k) as [He|He]; [by left|right]. rewrite He. unfold registry_get, repo.
    rewrite tree_url_decodes by done. destruct Hn as (_ & H1 & H2 & H3 & _). rewrite api_tree_routed by done.
    fold rt rev. by rewrite Htree. }
  unfold selection. destruct (ListFilesTyped c _ _) as [files|] eqn:El; [|by intros ?%not_elem_of_nil].
  apply (ListFiles_reply _ _ _ _ _ Hr) in El as ->. destruct (filterFiles _ _) as [sel|] eqn:Ef; [|by intros ?%not_elem_of_nil].
  intros [Hin _]%list_elem_of_In%filter_In. apply list_elem_of_In in Hin.
  apply tree_file_entries_elem. by eapply filterFiles_sub.
Qed.

(** What a request for a listed file gets. *)
Lemma listed_reply e range :
  e ∈ es → ∃ fr sha, registry_get tenant blobDir pick h (resolveURL repo rev (en_Path e) rt) range =
             send_file fr sha (bs "GET") range (content (en_Path e)) ∧
    tf_Size fr = en_Size e ∧ oid_of (content (en_Path e)) = en_OID e ∧ right_size (content (en_Path e)) (en_Size e).
Proof.
  intros He. assert (Hb' := Hb). rewrite !Forall_app in Hb'. destruct Hb' as (Hb1 & Hb2 & Hb3). destruct (Hes e He) as (Hp & _ & Hroute).
  destruct (tree_entry tenant blobDir pick h _ _ _ _ _ e Hh Hn Htree He) as (f & fr & sha & Hg & Ho & Hz & Hf & Hsz).
  assert (content (en_Path e) = f) as -> by (unfold content, registry_content; by rewrite Hg).
  exists fr, sha. unfold registry_get, repo. rewrite resolveURL_decodes, Hroute, Hg by done. split_and!; [done|done|congruence|congruence].
Qed.

Lemma registry_honest t e r net :
  e ∈ es → en_Size e = size_of (content (en_Path e)) → 0 < RangeChunk (with_defaults o) < 2 ^ 62 →
  t ∈ file_tasks repo (with_defaults o) (mkFE (en_Path e) (en_Size e)) →
  r = file_reply (registry_get tenant blobDir pick h (ft_url t) (range_header t)) net → honest content t r.
Proof.
  intros He Hz Hc Ht ->. destruct (Hes e He) as (_ & Hlt & _). unfold size_of in Hz.
  assert (task_ok content t ∧ ft_path t = en_Path e) as [[Hok1 [Hok2 _]] Hpath] by exact (file_task_ok content repo _ (mkFE (en_Path e) (en_Size e)) t Hc Hz Hlt Ht).
  assert (ft_url t = resolveURL repo rev (en_Path e) rt ∧ ft_size t = en_Size e) as [Hu Hfs] by (by apply list_elem_of_fmap in Ht as (x & -> & _)).
  destruct net as [sizes|]; [|done]. rewrite Hu. destruct (listed_reply e (range_header t) He) as (fr & sha & -> & Hfr & _).
  set (f := content (en_Path e)) in *. assert (∃ st hd, send_file fr sha (bs "GET") (range_header t) f = File st hd (served content t)) as (st & hd & ->).
  { unfold send_file, served, range_header. rewrite Hpath, Hfr. destruct (has_range t) eqn:Er; [|cbn; by do 2 eexists].
    unfold has_range in Er. rewrite (wrap64_id (ft_end t + 1)), (wrap64_id (ft_end t + 1 - ft_start t)) in Er by (rewrite Hpath in Hok2; fold f in Hok2; zlia).
    rewrite range_roundtrip by (rewrite ?Hpath in *; fold f in Hok2; lia).
    do 2 eexists. f_equal. unfold window. do 2 f_equal. lia. }
  cbn [file_reply]. pose proof (deliver_spec sizes (served content t)) as Hd. destruct (deliver sizes (served content t)) as [bl e0].
  intros _. exact Hd.
Qed.

End FromRegistry.


(** ** A concrete round trip *)

Lemma client_urls_routed_witness :
  (PathUnescape (resolveURL (bs "acme/a b") (bs "v1?x") (bs "d/50%.bin") RepoTypeDataset) ≫= parseResolvePath) =
  Some (bs "datasets", bs "acme", bs "a b", bs "v1?x", bs "d/50%.bin").
Proof.
  apply (proj1 (client_urls_routed (bs "acme") (bs "a b") (bs "v1?x") (bs "d/50%.bin") RepoTypeDataset
    ltac:(repeat (constructor; [vm_compute; split; [discriminate|reflexivity]|]); constructor)
    ltac:(unfold plain_names; split_and!; try (apply (bool_decide_unpack _); vm_compute; exact I); vm_compute; discriminate))).
Defined.

Definition trip_ops : list hub_op :=
  [HCreateRepo None (bs "r1") (bs "t") (bs "models") (bs "acme") (bs "m") false]
  ++ (HBlob <$> upload 0 0 (mkPutOpts [] 0) [bs "abc"]) ++ (HBlob <$> [AStatDest 0 false; AMkdir 0 false; ARename 0 false])
  ++ [HRow 0 None; HCommit None 1 [1] (mkInput (bs "r1") [] (bs "up") [] ∅ {[bs "m/w.bin" := mkCF (oid_of (bs "abc")) 3]} [])].

Definition trip_hub : hub := Eval vm_compute in hub_run (bs "b") trip_ops.

Definition trip_url : bytes := resolveURL (bs "acme/m") (bs "main") (bs "m/w.bin") RepoTypeModel.

Definition trip_get (a b : Z) (net : option (list nat)) : result client_error response :=
  file_reply (registry_get (bs "t") (bs "b") head trip_hub trip_url (range_header (mkTask trip_url (bs "m/w.bin") a b 3))) net.

(** The second range comes in two attempts. *)
Definition trip_env : download_env :=
  mkDenv (λ _, tree_reply (registry_get (bs "t") (bs "b") head trip_hub (tree_url (bs "acme/m") (bs "main") RepoTypeModel) []))
    (λ _, mkCtx None None) false []
    (λ k, mkTaskEnv (λ i, if (k =? 0)%nat then trip_get 0 1 (Some [1%nat; 1%nat])
                          else if (i =? 0)%nat then trip_get 2 2 None else trip_get 2 2 (Some [1%nat]))
            (λ _, []) (λ _, mkCtx None None))
    None [1%nat; 0%nat] (λ _, NoFiles).

Definition trip_entry : entry := Eval vm_compute in mkEntry (bs "m/w.bin") (oid_of (bs "abc")) 3 true.

Lemma trip_hub_run : hub_run (bs "b") trip_ops = trip_hub.
Proof. vm_cast_no_check (eq_refl trip_hub). Qed.

Lemma trip_tree : tree (bs "t") head no_hfaults trip_hub (bs "models") (bs "acme") (bs "m") (bs "main") = Tree [trip_entry].
Proof. vm_compute. reflexivity. Qed.

Lemma trip_tasks :
  tasks demo_client (bs "acme/m") demo_opts trip_env = (λ r, mkTask trip_url (bs "m/w.bin") r.1 r.2 3) <$> [(0, 1); (2, 2)].
Proof. vm_compute. reflexivity. Qed.

Lemma trip_served : served_by (bs "t") (bs "b") head trip_hub demo_client (bs "acme/m") demo_opts trip_env.
Proof.
  split; [by right|]. rewrite trip_tasks. intros k t i Ht. destruct k as [|[|k]]; [..|done]; injection Ht as <-.
  - by eexists.
  - cbn [dv_task trip_env tv_reply Nat.eqb]. destruct (i =? 0)%nat; by eexists.
Qed.

