(* ===== verification/Importer.v ===== *)
(** * Imports (src/internal/importer, src/internal/importmsg,
    src/internal/admin/store/import_jobs.go)

    An import warms the cache by downloading a repository through a proxy of its
    own.  The worker reports progress and turns errors into messages; the admin
    store creates, lists, cancels and deletes the jobs of a tenant.  The job queue
    (River) is a third-party library: its operations are a class, and what the
    store relies on are the laws of that class. *)

From stdpp Require Import base strings numbers gmap list.
From S2P Require Import Prelude GoStd Spans CacheKey HubClient.

Local Open Scope Z_scope.

(** ** Messages *)

Record Message := mkMsg { Title : bytes; Hint : bytes }.

Definition IsZero (m : Message) : bool := beq (Title m) [] && beq (Hint m) [].

Definition has_any (lower : bytes) (pats : list string) : bool := existsb (fun p => Contains lower (bs p)) pats.

(** The cases of the switch, in order. *)
Definition message_cases : list ((bytes → bool) * Message) :=
  [ (fun l => has_any l ["cache storage quota exceeded"; "507"; "insufficient storage"],
     mkMsg (bs "Cache is full") (bs "Free space on the Models page, then try again."));
    (fun l => has_any l ["context canceled"; "job canceled remotely"; "jobcancelerror"], mkMsg [] []);
    (fun l => has_any l ["context deadline exceeded"],
     mkMsg (bs "Import timed out") (bs "The job ran longer than the configured time limit."));
    (fun l => has_any l ["401"; "403"; "unauthorized"; "forbidden"],
     mkMsg (bs "Hugging Face rejected the download token") (bs "The proxy's read token is missing access to this repository."));
    (fun l => has_any l ["404"; "not found"],
     mkMsg (bs "Repository not found") (bs "Check the repo ID and revision, then try again."));
    (fun l => has_any l ["429"; "rate limit"],
     mkMsg (bs "Rate-limited by Hugging Face") (bs "Wait a few minutes, then retry."));
    (fun l => has_any l ["gave up after"] && has_any l ["retries"],
     mkMsg (bs "Download failed") (bs "Hugging Face returned errors after several retries."));
    (fun l => has_any l ["502"; "503"; "504"; "bad gateway"; "service unavailable"; "gateway timeout"],
     mkMsg (bs "Hugging Face is unavailable") (bs "The upstream returned a temporary error. Try again shortly."));
    (fun l => has_any l ["connection refused"; "connection reset"; "no such host"; "network is unreachable"; "i/o timeout"],
     mkMsg (bs "Network error") (bs "The proxy could not reach Hugging Face.")) ].

Definition import_failed : Message :=
  mkMsg (bs "Import failed") (bs "Open technical details below for the underlying error.").

Fixpoint first_case (cases : list ((bytes → bool) * Message)) (lower : bytes) : Message :=
  match cases with
  | [] => import_failed
  | (p, m) :: cases => if p lower then m else first_case cases lower
  end.

Section Humanize.
Context `{GoUnicode}.

Definition HumanizeMessage (raw : bytes) : Message :=
  let raw := TrimSpace raw in
  if beq raw [] then mkMsg [] [] else first_case message_cases (ToLower raw).

Definition Humanize (raw : bytes) : bytes := Title (HumanizeMessage raw).

End Humanize.

(** ** The worker *)

Record ImportSpec := mkSpec { RepoID : bytes; spec_Revision : bytes; spec_RepoType : bytes }.

Definition parseSpec (s : ImportSpec) : option ImportSpec :=
  let id := TrimSpace (RepoID s) in
  let rev := TrimSpace (spec_Revision s) in
  let rt := TrimSpace (spec_RepoType s) in
  if beq id [] then None
  else Some (mkSpec id (if beq rev [] then bs "main" else rev) (if beq rt [] then bs "models" else rt)).

Definition repoType (s : bytes) : option bytes :=
  let s := TrimSpace s in
  if beq s [] || beq s (bs "models") || beq s (bs "model") then Some RepoTypeModel
  else if beq s (bs "datasets") || beq s (bs "dataset") then Some RepoTypeDataset
  else if beq s (bs "spaces") || beq s (bs "space") then Some RepoTypeSpace
  else None.

(** The options of the download: everything, to nowhere. *)
Definition import_opts (workers rangeChunk : Z) (rev rt : bytes) : DownloadOpts :=
  mkOpts [] true (if workers <=? 0 then 32 else workers) rev 0 rangeChunk rt [] [] [].

Record ImportProgress := mkProgress { Phase : bytes; BytesDone : Z; BytesTotal : Z; pg_Message : bytes }.

(** An error as the worker looks at it: its text, whether it is a cancellation,
    the HTTP status it carries. *)
Record go_error := mkGoErr { ge_text : bytes; ge_canceled : bool; ge_status : option Z }.

(** The context: canceled by the queue on request, canceled at all. *)
Record job_ctx := mkJobCtx { jc_remote : bool; jc_canceled : bool }.

Definition isImportCanceled (ctx : job_ctx) (err : option go_error) : bool :=
  (match err with Some e => ge_canceled e | None => false end) || jc_remote ctx || jc_canceled ctx.

Definition isQuotaHTTPError (e : go_error) : bool :=
  match ge_status e with Some s => s =? 507 | None => false end.

Definition quota_text : bytes :=
  bs "cache storage quota exceeded; purge unused models on /models or raise -cache-max-bytes".

Inductive work_result := WorkDone | WorkCanceled | WorkFailed (text : bytes).

Section Work.
Context `{GoUnicode} (every : Z).

(** Progress as it is stored, and the time of the last store. *)
Record work_state := mkWork { wk_last : option Z; wk_latest : ImportProgress; wk_stored : list (Z * ImportProgress) }.

Definition progressEvery (configured : Z) : Z := if configured >? 0 then configured else 2 * 1000000000.

Definition persist (now : Z) (p : ImportProgress) (force : bool) (w : work_state) : work_state :=
  if negb force && (match wk_last w with Some t => now - t <? progressEvery every | None => false end)
  then mkWork (wk_last w) p (wk_stored w)
  else mkWork (Some now) p (wk_stored w ++ [(now, p)]).

(** A report of the download; none is taken once the context has ended. *)
Definition report (w : work_state) (ev : Z * ImportProgress * bool) : work_state :=
  let '(now, p, ended) := ev in
  if ended then w
  else persist now (if beq (Phase p) [] then mkProgress (bs "downloading") (BytesDone p) (BytesTotal p) (pg_Message p) else p) false w.

(** [Work]: what is stored, and the result.  [start] and [fin] are its times. *)
Definition Work (args : ImportSpec) (start fin : Z) (events : list (Z * ImportProgress * bool)) (err : option go_error)
    (ctx : job_ctx) : list (Z * ImportProgress) * work_result :=
  match parseSpec args with
  | None => ([], WorkFailed (bs "repo_id required"))
  | Some _ =>
      let w := persist start (mkProgress (bs "resolving") 0 0 (bs "resolving repository metadata")) true
                 (mkWork None (mkProgress [] 0 0 []) []) in
      let w := foldl report w events in
      match err with
      | Some e =>
          (wk_stored w,
           if isImportCanceled ctx err then WorkCanceled
           else WorkFailed (Humanize (if isQuotaHTTPError e then quota_text else ge_text e)))
      | None =>
          if isImportCanceled ctx None then (wk_stored w, WorkCanceled)
          else (wk_stored w ++ [(fin, mkProgress (bs "complete") (BytesDone (wk_latest w)) (BytesTotal (wk_latest w)) (bs "import complete"))],
                WorkDone)
      end
  end.

End Work.

(** ** The job queue *)

Inductive job_state := JAvailable | JPending | JScheduled | JRunning | JRetryable | JCompleted | JCancelled | JDiscarded.

Record job_meta := mkMeta { jm_TenantID : bytes; jm_CreatedBy : option bytes; jm_cancel_attempted_at : option Z; jm_force_cancel_attempted_at : option Z; jm_output : option ImportProgress }.

Record job_row := mkRow {
  jr_Kind : bytes; jr_Metadata : job_meta; jr_Args : ImportSpec; jr_State : job_state;
  jr_Errors : list bytes; jr_Attempt : Z; jr_CreatedAt : Z; jr_AttemptedAt : option Z; jr_FinalizedAt : option Z;
}.

Inductive river_error := RvNotFound | RvRunning | RvDatabase.

(** The queue's operations.  [fault]: the database fails. *)
Class River (Q : Type) := {
  rv_get : Q → Z → option job_row;
  rv_insert : Z → bytes → ImportSpec → job_meta → Q → Z * Q;          (* time, kind *)
  rv_list : bytes → bytes → nat → Q → list job_row;                  (* kind, tenant in the metadata, limit *)
  rv_cancel : Z → Z → Q → option Q;                                  (* time, id; [None]: no such row *)
  rv_delete : Z → Q → result river_error Q;
  rv_set : Z → job_row → Q → Q;                                      (* an UPDATE of one row *)
}.

(** What the documentation of the queue says of them. *)
Record river_laws (Q : Type) `{River Q} : Prop := mkLaws {
  rl_insert : ∀ now kind args m (q : Q), let '(id, q') := rv_insert now kind args m q in
    rv_get q id = None ∧
    rv_get q' id = Some (mkRow kind m args JAvailable [] 0 now None None) ∧
    ∀ j, j ≠ id → rv_get q' j = rv_get q j;
  rl_list : ∀ kind tenant n (q : Q) row, row ∈ rv_list kind tenant n q →
    jr_Kind row = kind ∧ jm_TenantID (jr_Metadata row) = tenant ∧ ∃ id, rv_get q id = Some row;
  rl_cancel : ∀ now id (q q' : Q), rv_cancel now id q = Some q' →
    (∀ j, j ≠ id → rv_get q' j = rv_get q j) ∧
    ∀ row, rv_get q id = Some row → ∃ row', rv_get q' id = Some row' ∧
      jr_Kind row' = jr_Kind row ∧ jm_TenantID (jr_Metadata row') = jm_TenantID (jr_Metadata row);
  rl_cancel_found : ∀ now id (q : Q), is_Some (rv_get q id) → is_Some (rv_cancel now id q);
  rl_delete : ∀ id (q : Q), match rv_get q id with
    | None => rv_delete id q = Err RvNotFound
    | Some row => match jr_State row with
                  | JRunning => rv_delete id q = Err RvRunning
                  | _ => ∃ q', rv_delete id q = Ok q' ∧ rv_get q' id = None ∧ ∀ j, j ≠ id → rv_get q' j = rv_get q j
                  end
    end;
  rl_set : ∀ id row (q : Q), rv_get (rv_set id row q) id = Some row ∧ ∀ j, j ≠ id → rv_get (rv_set id row q) j = rv_get q j;
}.

(** ** The jobs of a tenant *)

Inductive ImportJobStatus := ImportJobQueued | ImportJobRunning | ImportJobRetrying | ImportJobSucceeded | ImportJobFailed | ImportJobCanceled.

Definition ImportJobTypeHFCacheImport : bytes := bs "hf_cache_import".

Definition mapRiverImportState (s : job_state) : ImportJobStatus :=
  match s with
  | JAvailable | JPending | JScheduled => ImportJobQueued
  | JRunning => ImportJobRunning
  | JRetryable => ImportJobRetrying
  | JCompleted => ImportJobSucceeded
  | JCancelled => ImportJobCanceled
  | JDiscarded => ImportJobFailed
  end.

Record ImportJob := mkJob {
  ij_TenantID : bytes; ij_CreatedBy : option bytes; ij_Status : ImportJobStatus; ij_Payload : ImportSpec;
  ij_Progress : option ImportProgress; ij_Error : option bytes; ij_ErrorHint : option bytes; ij_ErrorDetail : option bytes;
  ij_CancelRequestedAt : option Z; ij_Attempt : Z; ij_CreatedAt : Z; ij_UpdatedAt : Z;
}.

Inductive job_error := ErrImportJobNotFound | ErrImportJobRunning | ErrBadType | ErrRepoRequired | ErrQueue.

Section Jobs.
Context `{GoUnicode} {Q : Type} `{River Q}.

(** The error block of a job: none for healthy and canceled ones. *)
Definition shown_error (status : ImportJobStatus) (errors : list bytes) : option (Message * bytes) :=
  match reverse errors, status with
  | [], _ | _, ImportJobCanceled => None
  | raw :: _, _ => let m := HumanizeMessage raw in if IsZero m then None else Some (m, raw)
  end.

Definition jobFromRow (row : job_row) (expectTenant : bytes) : option ImportJob :=
  let m := jr_Metadata row in
  if negb (beq expectTenant []) && negb (beq (jm_TenantID m) expectTenant) then None
  else
    let status := mapRiverImportState (jr_State row) in
    let e := shown_error status (jr_Errors row) in
    Some (mkJob (jm_TenantID m) (jm_CreatedBy m) status (jr_Args row) (jm_output m)
      (Title ∘ fst <$> e)
      (match e with Some (m, _) => if beq (Hint m) [] then None else Some (Hint m) | None => None end)
      (snd <$> e)
      (jm_cancel_attempted_at m) (jr_Attempt row) (jr_CreatedAt row)
      (match jr_FinalizedAt row, jr_AttemptedAt row with Some t, _ => t | None, Some t => t | None, None => jr_CreatedAt row end)).

Definition CreateImportJob (now : Z) (tenant createdBy typ : bytes) (payload : ImportSpec) (q : Q)
    : result job_error (Z * option ImportJob) * Q :=
  if negb (beq typ []) && negb (beq typ ImportJobTypeHFCacheImport) then (Err ErrBadType, q)
  else
    match parseSpec payload with
    | None => (Err ErrRepoRequired, q)
    | Some spec =>
        let m := mkMeta tenant (if beq createdBy [] then None else Some createdBy) None None None in
        let '(id, q') := rv_insert now ImportJobTypeHFCacheImport spec m q in
        match rv_get q' id with
        | None => (Err ErrImportJobNotFound, q')
        | Some row => (Ok (id, jobFromRow row tenant), q')
        end
    end.

Definition list_limit (limit : Z) : nat := Z.to_nat (if (limit <=? 0) || (limit >? 500) then 100 else limit).

(** One job that cannot be rendered fails the list. *)
Definition ListImportJobs (tenant : bytes) (limit : Z) (q : Q) : result job_error (list ImportJob) :=
  match mapM (fun row => jobFromRow row tenant) (rv_list ImportJobTypeHFCacheImport tenant (list_limit limit) q) with
  | Some js => Ok js
  | None => Err ErrImportJobNotFound
  end.

Definition GetImportJob (tenant jobID : bytes) (q : Q) : result job_error ImportJob :=
  match ParseInt jobID with
  | None => Err ErrImportJobNotFound
  | Some id =>
      match rv_get q id with
      | None => Err ErrImportJobNotFound
      | Some row =>
          if negb (beq (jr_Kind row) ImportJobTypeHFCacheImport) then Err ErrImportJobNotFound
          else
            match jobFromRow row tenant with
            | None => Err ErrImportJobNotFound
            | Some job => if negb (beq (ij_TenantID job) tenant) then Err ErrImportJobNotFound else Ok job
            end
      end
  end.

Definition CancelImportJob (now : Z) (tenant jobID : bytes) (q : Q) : option job_error * Q :=
  match GetImportJob tenant jobID q, ParseInt jobID with
  | Err e, _ => (Some e, q)
  | _, None => (Some ErrImportJobNotFound, q)
  | Ok _, Some id =>
      match rv_cancel now id q with
      | Some q' => (None, q')
      | None => (Some ErrImportJobNotFound, q)
      end
  end.

(** The UPDATE of the row. *)
Definition force_cancelled (now : Z) (row : job_row) : job_row :=
  mkRow (jr_Kind row)
    (mkMeta (jm_TenantID (jr_Metadata row)) (jm_CreatedBy (jr_Metadata row)) (Some now) (Some now) (jm_output (jr_Metadata row)))
    (jr_Args row) JCancelled (jr_Errors row) (jr_Attempt row) (jr_CreatedAt row) (jr_AttemptedAt row)
    (Some (default now (jr_FinalizedAt row))).

Definition ForceCancelImportJob (now : Z) (tenant jobID : bytes) (q : Q) : option job_error * Q :=
  match GetImportJob tenant jobID q, ParseInt jobID with
  | Err e, _ => (Some e, q)
  | _, None => (Some ErrImportJobNotFound, q)
  | Ok _, Some id =>
      match rv_get q id with
      | Some row => (None, rv_set id (force_cancelled now row) q)
      | None => (Some ErrImportJobNotFound, q)
      end
  end.

Definition DeleteImportJob (tenant jobID : bytes) (q : Q) : option job_error * Q :=
  match GetImportJob tenant jobID q, ParseInt jobID with
  | Err e, _ => (Some e, q)
  | _, None => (Some ErrImportJobNotFound, q)
  | Ok job, Some id =>
      match ij_Status job with
      | ImportJobRunning => (Some ErrImportJobRunning, q)
      | _ =>
          match rv_delete id q with
          | Ok q' => (None, q')
          | Err RvNotFound => (Some ErrImportJobNotFound, q)
          | Err RvRunning => (Some ErrImportJobRunning, q)
          | Err RvDatabase => (Some ErrQueue, q)
          end
      end
  end.

(** What tenants and workers do to the queue: a worker changes a row's state,
    errors and progress, not its kind or tenant. *)
Inductive job_op :=
| JCreate (now : Z) (tenant createdBy typ : bytes) (payload : ImportSpec)
| JCancelOp (now : Z) (tenant jobID : bytes)
| JForce (now : Z) (tenant jobID : bytes)
| JDelete (tenant jobID : bytes).

Definition job_tenant (op : job_op) : bytes :=
  match op with JCreate _ t _ _ _ | JCancelOp _ t _ | JForce _ t _ | JDelete t _ => t end.

Definition job_step (q : Q) (op : job_op) : Q :=
  match op with
  | JCreate now t by_ typ p => (CreateImportJob now t by_ typ p q).2
  | JCancelOp now t j => (CancelImportJob now t j q).2
  | JForce now t j => (ForceCancelImportJob now t j q).2
  | JDelete t j => (DeleteImportJob t j q).2
  end.

End Jobs.

(** ** Messages for failed imports *)

Lemma first_case_elem cases l : first_case cases l ∈ import_failed :: (snd <$> cases).
Proof.
  induction cases as [|[p m] cases IH]; cbn [first_case fmap list_fmap snd]; [left|].
  destruct (p l); [right; left|]. apply elem_of_cons in IH as [->|IH]; [left|right; by right].
Qed.

Definition repository_not_found : Message := mkMsg (bs "Repository not found") (bs "Check the repo ID and revision, then try again.").

(** What becomes of a message that is read again as an error. *)
Definition reread (m : Message) : Message := if beq (Title m) (bs "Repository not found") then repository_not_found else import_failed.

Section MessageFacts.
Context `{GoUnicode}.

Lemma message_reread m :
  m ∈ import_failed :: (snd <$> message_cases) → HumanizeMessage (Title m) = if beq (Title m) [] then mkMsg [] [] else reread m.
Proof.
  intros Hm. assert (Forall (λ m, HumanizeMessage (Title m) = if beq (Title m) [] then mkMsg [] [] else reread m)
    (import_failed :: (snd <$> message_cases))) as Hall.
  { repeat (apply Forall_cons; split; [vm_compute; reflexivity|]). apply Forall_nil. done. }
  rewrite Forall_forall in Hall. by apply Hall.
Qed.

Lemma HumanizeMessage_elem raw : HumanizeMessage raw = mkMsg [] [] ∨ HumanizeMessage raw ∈ import_failed :: (snd <$> message_cases).
Proof. unfold HumanizeMessage. destruct (beq _ []); [by left|right; apply first_case_elem]. Qed.

Lemma Humanize_twice raw :
  let m := HumanizeMessage (Humanize raw) in m = mkMsg [] [] ∨ m = import_failed ∨ m = repository_not_found.
Proof.
  unfold Humanize. destruct (HumanizeMessage_elem raw) as [E|E]; [rewrite E; left; vm_compute; reflexivity|].
  rewrite (message_reread _ E). unfold reread. destruct (beq _ []); [by left|]. destruct (beq _ _); [by right; right|by right; left].
Qed.

Lemma shown_last status errors text :
  status ≠ ImportJobCanceled →
  shown_error status (errors ++ [text]) = if IsZero (HumanizeMessage text) then None else Some (HumanizeMessage text, text).
Proof. intros Hs. unfold shown_error. rewrite reverse_snoc. by destruct status. Qed.

End MessageFacts.

(** the message of a failed import is lost.  The worker already stores the
    short title in place of the error, and the admin store reads that title as if
    it were the error: whatever made the import fail (a full cache, a rejected
    token, rate limits, a timeout), the job shows the generic "Import failed",
    or "Repository not found" when that was it, and its technical details are
    the title, never the error. *)
Theorem failed_import_message `{GoUnicode} every args start fin events err ctx status errors text :
  (Work every args start fin events (Some err) ctx).2 = WorkFailed text → status ≠ ImportJobCanceled → is_Some (parseSpec args) →
  match shown_error status (errors ++ [text]) with
  | None => text = Humanize (ge_text err) ∧ IsZero (HumanizeMessage text) = true
  | Some (m, detail) => (m = import_failed ∨ m = repository_not_found) ∧ detail = text ∧ ∃ raw, detail = Humanize raw
  end.
Proof.
  unfold Work. intros Hw Hst [spec Hspec]. rewrite Hspec in Hw. cbn [snd] in Hw. destruct (isImportCanceled _ _); [done|].
  injection Hw as <-. set (raw := if isQuotaHTTPError err then quota_text else ge_text err).
  rewrite shown_last by done. destruct (IsZero _) eqn:Ez.
  - split; [|done]. unfold raw in *. destruct (isQuotaHTTPError err); [|done]. vm_compute in Ez. discriminate Ez.
  - split; [|split; [done|by exists raw]]. destruct (Humanize_twice raw) as [E|E]; [|exact E]. rewrite E in Ez. discriminate Ez.
Qed.

(** ** Progress *)

(** Neighbouring stores are at least [gap] apart. *)
Fixpoint spaced (gap : Z) (l : list (Z * ImportProgress)) : Prop :=
  match l with
  | (t, _) :: ((t', _) :: _) as l' => gap ≤ t' - t ∧ spaced gap l'
  | _ => True
  end.

Lemma spaced_snoc gap l t p t' p' : spaced gap (l ++ [(t, p)]) → gap ≤ t' - t → spaced gap ((l ++ [(t, p)]) ++ [(t', p')]).
Proof.
  induction l as [|[a q] l IH]; cbn [app spaced]; [by intros _ ?|]. intros Hl Ht. specialize (IH).
  destruct l as [|[b q'] l]; cbn [app spaced] in *; [tauto|]. destruct Hl as [H1 H2]. split; [done|]. by apply IH.
Qed.

Section WorkFacts.
Context `{GoUnicode} (every : Z).

(** The last store is the remembered one, and stores are spaced. *)
Definition work_ok (w : work_state) : Prop :=
  ∃ l t p, wk_stored w = l ++ [(t, p)] ∧ wk_last w = Some t ∧ spaced (progressEvery every) (wk_stored w).

Lemma report_ok w ev : work_ok w → work_ok (report every w ev).
Proof.
  intros (l & t & p & Hs & Hl & Hsp). destruct ev as [[now q] ended]. unfold report. destruct ended; [by exists l, t, p|].
  set (q' := if beq _ _ then _ else _). unfold persist. rewrite Hl. cbn [negb andb].
  destruct (now - t <? progressEvery every) eqn:E; [exists l, t, p; done|].
  exists (wk_stored w), now, q'. cbn [wk_stored wk_last]. split_and!; [done|done|]. rewrite Hs in Hsp |- *. apply spaced_snoc; [done|lia].
Qed.

Lemma report_head w ev e l : wk_stored w = e :: l → ∃ l', wk_stored (report every w ev) = e :: l'.
Proof.
  intros Hs. destruct ev as [[now q] ended]. unfold report. destruct ended; [eauto|]. unfold persist.
  destruct (_ && _); cbn [wk_stored]; [eauto|]. rewrite Hs. by eexists.
Qed.

Lemma reports_ok events w : work_ok w → work_ok (foldl (report every) w events).
Proof. revert w. induction events as [|e events IH]; intros w Hw; [done|]. apply IH. by apply report_ok. Qed.

Lemma reports_head events w e l : wk_stored w = e :: l → ∃ l', wk_stored (foldl (report every) w events) = e :: l'.
Proof.
  revert w l. induction events as [|ev events IH]; intros w l Hs; [eauto|]. cbn [foldl].
  destruct (report_head w ev e l Hs) as [l' Hl']. by eapply IH.
Qed.

End WorkFacts.

(** what an import job reports.  The first report is that it resolves the
    repository; reports while it runs are at least the interval apart, so the
    database is not flooded; the job is done exactly when the download ended
    without error and was not canceled, and only then is "complete" stored, as
    the last report. *)
Theorem work_reports `{GoUnicode} every args start fin events err ctx stored r :
  is_Some (parseSpec args) → Work every args start fin events err ctx = (stored, r) →
  ∃ l, (∃ rest, l = (start, mkProgress (bs "resolving") 0 0 (bs "resolving repository metadata")) :: rest) ∧
    spaced (progressEvery every) l ∧
    (r = WorkDone ↔ err = None ∧ isImportCanceled ctx None = false) ∧
    match r with
    | WorkDone => ∃ done total, stored = l ++ [(fin, mkProgress (bs "complete") done total (bs "import complete"))]
    | _ => stored = l
    end.
Proof.
  intros [spec Hspec]. unfold Work. rewrite Hspec. cbv zeta. set (w0 := persist _ _ _ _ _). set (w := foldl _ w0 events).
  assert (work_ok every w) as (l & t & p & Hs & _ & Hsp).
  { apply reports_ok. by exists [], start, (mkProgress (bs "resolving") 0 0 (bs "resolving repository metadata")). }
  destruct (reports_head every events w0 _ [] eq_refl) as [rest Hrest]. fold w in Hrest.
  destruct err as [e|]; [|destruct (isImportCanceled ctx None) eqn:Ec]; intros [= <- <-]; exists (wk_stored w);
    (split; [by exists rest|]); (split; [exact Hsp|]).
  - split; [|by destruct (isImportCanceled ctx (Some e))]. split; [by destruct (isImportCanceled ctx (Some e))|by intros [? _]].
  - split; [split; [done|by intros [_ ?]]|done].
  - split; [done|by do 2 eexists].
Qed.

(** ** Tenants *)

Section JobFacts.
Context `{GoUnicode} {Q : Type} `{River Q} (Hlaws : river_laws Q).

(** A row a tenant may touch. *)
Definition own (tenant : bytes) (row : job_row) : Prop :=
  jr_Kind row = ImportJobTypeHFCacheImport ∧ jm_TenantID (jr_Metadata row) = tenant.

Lemma GetImportJob_own tenant jobID (q : Q) job :
  GetImportJob tenant jobID q = Ok job →
  ∃ id row, ParseInt jobID = Some id ∧ rv_get q id = Some row ∧ own tenant row ∧ jobFromRow row tenant = Some job.
Proof.
  unfold GetImportJob. destruct (ParseInt jobID) as [id|]; [|done]. destruct (rv_get q id) as [row|] eqn:Hr; [|done].
  destruct (beq (jr_Kind row) _) eqn:Ek; [|done]. cbn [negb]. destruct (jobFromRow row tenant) as [j|] eqn:Ej; [|done].
  destruct (beq (ij_TenantID j) tenant) eqn:Et; [|done]. intros [= <-]. apply beq_true in Ek, Et. exists id, row. split_and!; try done.
  split; [done|]. unfold jobFromRow in Ej. destruct (_ && _); [done|]. injection Ej as <-. exact Et.
Qed.

Lemma GetImportJob_found tenant jobID id (q : Q) row :
  ParseInt jobID = Some id → rv_get q id = Some row → own tenant row → ∃ job, GetImportJob tenant jobID q = Ok job ∧
    ij_Status job = mapRiverImportState (jr_State row).
Proof.
  intros Hp Hr [Hk Ht]. unfold GetImportJob. rewrite Hp, Hr, Hk, beq_refl. cbn [negb]. unfold jobFromRow. rewrite Ht, beq_refl, andb_false_r.
  cbn [ij_TenantID]. rewrite beq_refl. cbn [negb]. by eexists.
Qed.

Lemma rv_delete_other id (q q' : Q) : rv_delete id q = Ok q' → ∀ j, j ≠ id → rv_get q' j = rv_get q j.
Proof.
  intros Hd j Hj. pose proof (rl_delete _ Hlaws id q) as Hl. destruct (rv_get q id) as [row|]; [|congruence].
  destruct (jr_State row); try congruence; destruct Hl as (q2 & Hq & _ & Ho); rewrite Hd in Hq; injection Hq as <-; by apply Ho.
Qed.

(** An operation leaves alone every row its tenant does not own. *)
Lemma job_step_other op (q : Q) id row :
  rv_get q id = Some row → ¬ own (job_tenant op) row → rv_get (job_step q op) id = Some row.
Proof.
  intros Hr Hno.
  assert (∀ t j job id', GetImportJob t j q = Ok job → ParseInt j = Some id' → t = job_tenant op → id ≠ id') as Hne.
  { intros t j job id' Hg Hp -> ->. apply GetImportJob_own in Hg as (id2 & row2 & Hp2 & Hr2 & Hown & _). congruence. }
  destruct op as [now t c typ p|now t j|now t j|t j]; cbn [job_step job_tenant] in *.
  - unfold CreateImportJob. destruct (_ && _); [done|]. destruct (parseSpec p) as [spec|]; [|done].
    pose proof (rl_insert _ Hlaws now ImportJobTypeHFCacheImport spec
      (mkMeta t (if beq c [] then None else Some c) None None None) q) as Hi.
    destruct (rv_insert _ _ _ _ q) as [id' q']. destruct Hi as (Hnew & Hg & Ho). rewrite Hg. cbn [snd]. rewrite Ho by congruence. done.
  - unfold CancelImportJob. destruct (GetImportJob t j q) as [job|] eqn:Hg; [|done]. destruct (ParseInt j) as [id'|] eqn:Hp; [|done].
    destruct (rv_cancel now id' q) as [q'|] eqn:Hc; [|done]. cbn [snd]. rewrite (proj1 (rl_cancel _ Hlaws _ _ _ _ Hc)); [done|by eapply Hne].
  - unfold ForceCancelImportJob. destruct (GetImportJob t j q) as [job|] eqn:Hg; [|done]. destruct (ParseInt j) as [id'|] eqn:Hp; [|done].
    destruct (rv_get q id') as [row'|]; [|done]. cbn [snd]. rewrite (proj2 (rl_set _ Hlaws _ _ _)); [done|by eapply Hne].
  - unfold DeleteImportJob. destruct (GetImportJob t j q) as [job|] eqn:Hg; [|done]. destruct (ParseInt j) as [id'|] eqn:Hp; [|done].
    destruct (ij_Status job); try done; (destruct (rv_delete id' q) as [q'|[]] eqn:Hd; try done;
      cbn [snd]; rewrite (rv_delete_other _ _ _ Hd); [done|by eapply Hne]).
Qed.

End JobFacts.

(** tenants do not reach each other's jobs.  Whatever other tenants create,
    cancel, force or delete, with whatever job ids, a job of a tenant stays as it
    is, and so does every job of another kind; and a lookup returns only import
    jobs of the asking tenant. *)
Theorem tenant_jobs_isolated `{GoUnicode} {Q} `{River Q} (ops : list job_op) (q : Q) id row :
  river_laws Q → rv_get q id = Some row →
  Forall (λ op, ¬ own (job_tenant op) row) ops →
  rv_get (foldl job_step q ops) id = Some row ∧
  (∀ tenant jobID job, GetImportJob tenant jobID (foldl job_step q ops) = Ok job → ij_TenantID job = tenant).
Proof.
  intros Hl Hr Hops. split.
  - revert q Hr. induction Hops as [|op ops Hop _ IH]; intros q Hr; [done|]. cbn [foldl]. apply IH. by apply job_step_other.
  - intros tenant jobID job Hg. apply GetImportJob_own in Hg as (i & r & _ & _ & [_ Ht] & Hj).
    unfold jobFromRow in Hj. destruct (_ && _); [done|]. injection Hj as <-. exact Ht.
Qed.

(** a stuck job can always be removed.  Deleting a running job is refused,
    but after a force-cancel of any job of the tenant, in whatever state, the job
    shows as canceled without an error, the delete succeeds and the job is gone. *)
Theorem force_then_delete `{GoUnicode} {Q} `{River Q} now tenant jobID (q : Q) job :
  river_laws Q → GetImportJob tenant jobID q = Ok job →
  (ij_Status job = ImportJobRunning → DeleteImportJob tenant jobID q = (Some ErrImportJobRunning, q)) ∧
  ∃ q1 job1 q2, ForceCancelImportJob now tenant jobID q = (None, q1) ∧
    GetImportJob tenant jobID q1 = Ok job1 ∧ ij_Status job1 = ImportJobCanceled ∧ ij_Error job1 = None ∧
    DeleteImportJob tenant jobID q1 = (None, q2) ∧ GetImportJob tenant jobID q2 = Err ErrImportJobNotFound.
Proof.
  intros Hl Hg. destruct (GetImportJob_own _ _ _ _ Hg) as (id & row & Hp & Hr & [Hk Ht] & Hj).
  split; [intros Hs; unfold DeleteImportJob; by rewrite Hg, Hp, Hs|].
  set (q1 := rv_set id (force_cancelled now row) q). destruct (rl_set _ Hl id (force_cancelled now row) q) as [Hset _]. fold q1 in Hset.
  destruct (GetImportJob_found tenant jobID id q1 _ Hp Hset) as (job1 & Hg1 & Hs1); [done|].
  pose proof (rl_delete _ Hl id q1) as Hd. rewrite Hset in Hd. cbn [force_cancelled jr_State] in Hd, Hs1. destruct Hd as (q2 & Hd & Hgone & _).
  exists q1, job1, q2. split_and!; try done.
  - unfold ForceCancelImportJob. by rewrite Hg, Hp, Hr.
  - destruct (GetImportJob_own _ _ _ _ Hg1) as (id' & row' & Hp' & Hr' & _ & Hj'). rewrite Hp in Hp'. injection Hp' as <-.
    rewrite Hset in Hr'. injection Hr' as <-. unfold jobFromRow in Hj'. destruct (_ && _); [done|]. injection Hj' as <-.
    cbn [ij_Error force_cancelled jr_State jr_Errors mapRiverImportState]. unfold shown_error. by destruct (reverse _).
  - unfold DeleteImportJob. by rewrite Hg1, Hp, Hs1, Hd.
  - unfold GetImportJob. by rewrite Hp, Hgone.
Qed.

(** ** What an import fetches *)

Definition task_span (t : fetchTask) : Span := mkSpan (ft_start t) (ft_end t + 1).

(** an import fetches whole files.  The ranges of the requests for a file,
    recorded as the cache records them, cover it from the first byte to the
    last. *)
Theorem import_covers workers rangeChunk repo rev rt f :
  rangeChunk < 2 ^ 62 → 0 ≤ fe_Size f < 2 ^ 62 →
  Covers (task_span <$> file_tasks repo (with_defaults (import_opts workers rangeChunk rev rt)) f) 0 (fe_Size f) = true.
Proof.
  intros Hc Hz. set (o := with_defaults _).
  assert (0 < RangeChunk o < 2 ^ 62) as Hchunk.
  { unfold o. cbn [RangeChunk with_defaults import_opts]. destruct (_ <=? _) eqn:E; unfold defaultRangeChunk; lia. }
  apply Covers_spec.
  - apply Forall_forall. intros s (t & -> & Ht)%list_elem_of_fmap.
    destruct (file_task_ok (λ _, replicate (Z.to_nat (fe_Size f)) 0) repo o f t Hchunk) as [(H1 & _) _]; [rewrite length_replicate; lia|lia|done|].
    unfold wf_span, task_span. cbn. lia.
  - intros x Hx. destruct (file_tasks_find repo o f x Hchunk Hx ltac:(lia)) as (t & Ht & Hi).
    exists (task_span t). split; [by apply list_elem_of_fmap_2|]. unfold in_span, task_span. cbn. lia.
Qed.

(** ** A queue in memory *)

Definition queue := gmap Z job_row.

Definition fresh_id (q : queue) : Z := 1 + foldr Z.max 0 (map_to_list q).*1.

(** A running job is only signalled; one that has not started is canceled. *)
Definition queue_cancel (now : Z) (row : job_row) : job_row :=
  let m := jr_Metadata row in
  let mark := mkMeta (jm_TenantID m) (jm_CreatedBy m) (Some now) (jm_force_cancel_attempted_at m) (jm_output m) in
  let with_state m s f := mkRow (jr_Kind row) m (jr_Args row) s (jr_Errors row) (jr_Attempt row) (jr_CreatedAt row) (jr_AttemptedAt row) f in
  match jr_State row with
  | JRunning => with_state mark JRunning (jr_FinalizedAt row)
  | JAvailable | JPending | JScheduled | JRetryable => with_state mark JCancelled (Some now)
  | _ => row
  end.

#[export] Instance queue_river : River queue := {|
  rv_get := fun q id => q !! id;
  rv_insert := fun now kind args m q => (fresh_id q, <[fresh_id q := mkRow kind m args JAvailable [] 0 now None None]> q);
  rv_list := fun kind tenant n q =>
    take n (filter (λ row, jr_Kind row = kind ∧ jm_TenantID (jr_Metadata row) = tenant) (map_to_list q).*2);
  rv_cancel := fun now id q => (λ row, <[id := queue_cancel now row]> q) <$> q !! id;
  rv_delete := fun id q =>
    match q !! id with
    | None => Err RvNotFound
    | Some row => match jr_State row with JRunning => Err RvRunning | _ => Ok (delete id q) end
    end;
  rv_set := fun id row q => <[id := row]> q;
|}.

Lemma fresh_id_new q : q !! fresh_id q = None.
Proof.
  destruct (q !! fresh_id q) as [row|] eqn:E; [|done]. exfalso.
  assert (fresh_id q ∈ (map_to_list q).*1) as Hin by (apply list_elem_of_fmap; exists (fresh_id q, row); split; [done|by apply elem_of_map_to_list]).
  unfold fresh_id in Hin at 1. revert Hin. unfold fresh_id. generalize ((map_to_list q).*1) as l. intros l.
  assert (∀ x, x ∈ l → x ≤ foldr Z.max 0 l) as Hmax.
  { induction l as [|y l IH]; intros x; [by intros ?%not_elem_of_nil|]. cbn [foldr]. intros [->|Hx]%elem_of_cons; [lia|]. specialize (IH x Hx). lia. }
  intros Hin%Hmax. lia.
Qed.

Lemma queue_laws : river_laws queue.
Proof.
  split; cbn [rv_get rv_insert rv_list rv_cancel rv_delete rv_set queue_river].
  - intros now kind args m q. split_and!; [apply fresh_id_new|apply lookup_insert_eq|]. intros j Hj. by apply lookup_insert_ne.
  - intros kind tenant n q row Hin. apply list_elem_of_lookup in Hin as [i Hi]. apply lookup_take_Some in Hi as [Hi _]. apply list_elem_of_lookup_2 in Hi.
    apply list_elem_of_filter in Hi as [[Hk Ht] ([id row'] & -> & Hr)%list_elem_of_fmap]. split_and!; [done|done|].
    exists id. by apply elem_of_map_to_list.
  - intros now id q q' Hc. apply fmap_Some in Hc as (row & Hr & ->). split; [intros j Hj; by apply lookup_insert_ne|].
    intros row' [= ->]%(eq_trans (eq_sym Hr)). exists (queue_cancel now row'). split; [apply lookup_insert_eq|]. unfold queue_cancel. by destruct (jr_State row').
  - intros now id q [row Hr]. rewrite Hr. by eexists.
  - intros id q. destruct (q !! id) as [row|]; [|done]. destruct (jr_State row); try done;
      (eexists; split_and!; [done|apply lookup_delete_eq|intros j Hj; by apply lookup_delete_ne]).
  - intros id row q. split; [apply lookup_insert_eq|]. intros j Hj. by apply lookup_insert_ne.
Qed.

(** ** Concrete jobs *)

#[local] Existing Instance ascii_unicode.

Definition demo_spec : ImportSpec := mkSpec (bs "acme/m") [] [].

Definition demo_queue : queue := foldl job_step ∅ [JCreate 1 (bs "t1") [] [] demo_spec; JCreate 2 (bs "t2") (bs "u") [] demo_spec].

Definition demo_row : job_row :=
  mkRow ImportJobTypeHFCacheImport (mkMeta (bs "t1") None None None None) (mkSpec (bs "acme/m") (bs "main") (bs "models")) JAvailable [] 0 1 None None.

Lemma tenant_jobs_isolated_witness :
  rv_get (foldl job_step demo_queue [JDelete (bs "t2") (bs "1"); JForce 3 (bs "t3") (bs "1"); JCancelOp 4 (bs "t2") (bs "2")]) 1 = Some demo_row.
Proof.
  apply (proj1 (tenant_jobs_isolated [JDelete (bs "t2") (bs "1"); JForce 3 (bs "t3") (bs "1"); JCancelOp 4 (bs "t2") (bs "2")]
    demo_queue 1 demo_row queue_laws ltac:(vm_compute; reflexivity)
    ltac:(repeat (apply Forall_cons; split; [intros [_ Ht]; vm_compute in Ht; discriminate Ht|]); apply Forall_nil; exact I))).
Defined.

Lemma force_then_delete_witness :
  ∃ q1 job1 q2, ForceCancelImportJob 9 (bs "t1") (bs "1") demo_queue = (None, q1) ∧
    GetImportJob (bs "t1") (bs "1") q1 = Ok job1 ∧ ij_Status job1 = ImportJobCanceled ∧ ij_Error job1 = None ∧
    DeleteImportJob (bs "t1") (bs "1") q1 = (None, q2) ∧ GetImportJob (bs "t1") (bs "1") q2 = Err ErrImportJobNotFound.
Proof.
  exact (proj2 (force_then_delete 9 (bs "t1") (bs "1") demo_queue
    (mkJob (bs "t1") None ImportJobQueued (mkSpec (bs "acme/m") (bs "main") (bs "models")) None None None None None 0 1 1)
    queue_laws ltac:(vm_compute; reflexivity))).
Defined.

Definition demo_failure : go_error := mkGoErr (bs "GET w.bin: 507 Insufficient Storage") false (Some 507).

Lemma failed_import_message_witness :
  Humanize (ge_text demo_failure) = bs "Cache is full" ∧
  match shown_error ImportJobFailed ([] ++ [bs "Cache is full"]) with
  | None => bs "Cache is full" = Humanize (ge_text demo_failure) ∧ IsZero (HumanizeMessage (bs "Cache is full")) = true
  | Some (m, detail) => (m = import_failed ∨ m = repository_not_found) ∧ detail = bs "Cache is full" ∧ ∃ raw, detail = Humanize raw
  end.
Proof.
  split; [vm_compute; reflexivity|].
  apply (failed_import_message 0 demo_spec 0 9 [] demo_failure (mkJobCtx false false) ImportJobFailed [] (bs "Cache is full"));
    [vm_compute; reflexivity|discriminate|by eexists].
Defined.

Definition demo_events : list (Z * ImportProgress * bool) :=
  [(3, mkProgress [] 1 9 [], false); (12, mkProgress [] 5 9 [], false); (15, mkProgress [] 9 9 [], false)].

Lemma work_reports_witness :
  ∃ l d t, spaced (progressEvery 10) l ∧
    (Work 10 demo_spec 0 40 demo_events None (mkJobCtx false false)).1 = l ++ [(40, mkProgress (bs "complete") d t (bs "import complete"))].
Proof.
  destruct (work_reports 10 demo_spec 0 40 demo_events None (mkJobCtx false false)
    (Work 10 demo_spec 0 40 demo_events None (mkJobCtx false false)).1 WorkDone ltac:(by eexists) ltac:(vm_compute; reflexivity))
    as (l & _ & Hs & _ & (d & t & Hl)).
  exists l, d, t. split; [exact Hs|exact Hl].
Defined.

Lemma import_covers_witness :
  Covers (task_span <$> file_tasks (bs "acme/m") (with_defaults (import_opts 0 4 [] [])) (mkFE (bs "w.bin") 10)) 0 10 = true.
Proof. apply (import_covers 0 4 (bs "acme/m") [] [] (mkFE (bs "w.bin") 10)); cbn; lia. Defined.
