(* ===== verification/AdminStore.v ===== *)
(** * The admin database
    (src/internal/auth/store/pg.go, src/internal/admin/store/admin.go,
    src/internal/auth/token.go, store.go, src/internal/db/migrations/0001, 0002)

    The tables of the admin plane and the statements run on them.  A table is a
    finite map from the uuid a row was given; unique indexes, foreign keys and
    CHECK constraints of the migrations are tests of the inserting and updating
    statements.  A statement takes a flag saying that the database refused or
    lost it.  Row-level security is not modelled: the service connects as the
    owner of the tables.  Times are nanoseconds, stored in microseconds. *)

From stdpp Require Import base strings numbers gmap sorting list.
From S2P Require Import Prelude GoStd Sha256 PatGate Auth.

Local Open Scope Z_scope.

(** ** Tokens *)

(** base64.RawURLEncoding *)
Definition url64_char (v : Z) : Z :=
  if v <? 26 then 65 + v else if v <? 52 then 71 + v else if v <? 62 then v - 4 else if v =? 62 then 45 else 95.

Fixpoint RawURLEncode (s : bytes) : bytes :=
  match s with
  | [] => []
  | [a] => [url64_char (a / 4); url64_char (a mod 4 * 16)]
  | [a; b] => [url64_char (a / 4); url64_char (a mod 4 * 16 + b / 16); url64_char (b mod 16 * 4)]
  | a :: b :: c :: s =>
      url64_char (a / 4) :: url64_char (a mod 4 * 16 + b / 16) :: url64_char (b mod 16 * 4 + c / 64)
        :: url64_char (c mod 64) :: RawURLEncode s
  end.

(** crypto/rand: what reading [n] bytes gives, or nothing. *)
Abbreviation entropy := (nat → option bytes).

Definition RandomToken (rand : entropy) (n : nat) : option bytes :=
  let n := if (n <? 16)%nat then 16%nat else n in
  match rand n with Some b => Some (RawURLEncode b) | None => None end.

(** The secret and the prefix are two reads. *)
Definition GeneratePAT (rand rand' : entropy) : option (bytes * bytes * bytes) :=
  match RandomToken rand 32 with
  | None => None
  | Some secret =>
      match rand' 4%nat with
      | None => None
      | Some prefixBytes =>
          let prefix := hex_encode prefixBytes in
          let display := patPrefix ++ prefix ++ bs "_" ++ secret in
          Some (display, prefix, TokenHash display)
      end
  end.

(** ** Rows *)

(** What the database decides about values: citext equality (the folded
    strings are equal), which strings are uuids and which are addresses. *)
Class PgTypes := {
  citext_fold : bytes → bytes;
  uuid_ok : bytes → bool;
  inet_ok : bytes → bool;
}.

(** timestamptz keeps microseconds. *)
Definition pg_time (t : Z) : Z := t / 1000 * 1000.

Record Tenant := mkTenant { tn_name : bytes; tn_display : bytes; tn_created : Z; tn_deleted : bool }.

Record User := mkUserRow {
  us_tenant : bytes; us_email : bytes; us_display : bytes; us_role : bytes; us_sub : option bytes;
  us_active : bool; us_created : Z; us_deleted : bool;
}.

Record Token := mkTokenRow {
  tk_tenant : bytes; tk_owner : option bytes; tk_name : bytes; tk_prefix : bytes; tk_hash : bytes;
  tk_scopes : list bytes; tk_expires : option Z; tk_created : Z; tk_revoked : option Z; tk_deleted : bool;
}.

Record Session := mkSessionRow {
  se_hash : bytes; se_user : bytes; se_tenant : bytes; se_csrf : bytes; se_expires : Z; se_seen : Z;
  se_revoked : option Z;
}.

Record Setting := mkSettingRow { sg_value : bytes; sg_version : Z; sg_updated : Z; sg_by : option bytes }.

Record AuditEntry := mkAudit {
  au_tenant : bytes; au_actor_type : bytes; au_actor : option bytes; au_action : bytes; au_resource : option bytes;
  au_outcome : bytes; au_metadata : bytes; au_ip : option bytes; au_agent : option bytes; au_at : Z;
}.

Record OIDCProvider := mkProvider {
  p_TenantID : bytes; p_Issuer : bytes; p_ClientID : bytes; p_ClientSecret : bytes; p_RedirectURI : bytes;
  p_Scopes : bytes; p_Enabled : bool; p_GroupsClaim : bytes; p_OwnerGroups : list bytes; p_AdminGroups : list bytes;
  p_JITDefaultRole : bytes; p_RequirePreprovisioned : bool;
}.

(** Settings are keyed by tenant, scope and key; providers by tenant. *)
Record db := mkDb {
  db_tenants : gmap bytes Tenant;
  db_providers : gmap bytes OIDCProvider;
  db_users : gmap bytes User;
  db_tokens : gmap bytes Token;
  db_sessions : gmap bytes Session;
  db_settings : gmap (bytes * bytes * bytes) Setting;
  db_audit : list AuditEntry;
}.

Definition empty_db : db := mkDb ∅ ∅ ∅ ∅ ∅ ∅ [].

Definition with_tenants (d : db) t := mkDb t (db_providers d) (db_users d) (db_tokens d) (db_sessions d) (db_settings d) (db_audit d).
Definition with_providers (d : db) p := mkDb (db_tenants d) p (db_users d) (db_tokens d) (db_sessions d) (db_settings d) (db_audit d).
Definition with_users (d : db) u := mkDb (db_tenants d) (db_providers d) u (db_tokens d) (db_sessions d) (db_settings d) (db_audit d).
Definition with_tokens (d : db) t := mkDb (db_tenants d) (db_providers d) (db_users d) t (db_sessions d) (db_settings d) (db_audit d).
Definition with_sessions (d : db) s := mkDb (db_tenants d) (db_providers d) (db_users d) (db_tokens d) s (db_settings d) (db_audit d).
Definition with_settings (d : db) s := mkDb (db_tenants d) (db_providers d) (db_users d) (db_tokens d) (db_sessions d) s (db_audit d).
Definition with_audit (d : db) a := mkDb (db_tenants d) (db_providers d) (db_users d) (db_tokens d) (db_sessions d) (db_settings d) a.

(** A row satisfying a WHERE clause. *)
Definition find_row {A} (P : A → bool) (m : gmap bytes A) : option (bytes * A) :=
  head (List.filter (fun kv => P kv.2) (map_to_list m)).

Definition some_row {A} (P : A → bool) (m : gmap bytes A) : bool := bool_decide (is_Some (find_row P m)).

(** ORDER BY ... DESC LIMIT of the rows satisfying a WHERE clause. *)
Definition later {A} (at_ : A → Z) (a b : A) : Prop := at_ b ≤ at_ a.

#[export] Instance later_dec {A} (at_ : A → Z) : RelDecision (later at_).
Proof. intros a b. apply Z.le_dec. Defined.

Definition recent {A} (at_ : A → Z) (P : A → bool) (limit : nat) (rows : list A) : list A :=
  take limit (merge_sort (later at_) (List.filter P rows)).

Inductive store_error :=
| SErrNotFound | SErrNoProvider | SErrInvalid | SErrSession | SErrTokenNotFound | SErrConflict | SErrDatabase.

#[export] Instance store_error_eq_dec : EqDecision store_error.
Proof. solve_decision. Defined.

Definition nullUUID (s : bytes) : option bytes := if beq s [] then None else Some s.
Definition nullString (s : bytes) : option bytes := if beq s [] then None else Some s.

Section Store.
Context `{PgTypes}.

(** ** Tenants and providers *)

Definition tenant_named (name : bytes) (t : Tenant) : bool := beq (tn_name t) name && negb (tn_deleted t).

(** [x], [x']: the SELECT and the INSERT fail; [id]: the uuid the row gets. *)
Definition EnsureTenant (x x' : bool) (now : Z) (id name displayName : bytes) (d : db) : result store_error bytes * db :=
  if x then (Err SErrDatabase, d)
  else match find_row (tenant_named name) (db_tenants d) with
       | Some (id', _) => (Ok id', d)
       | None =>
           if x' || bool_decide (is_Some (db_tenants d !! id)) then (Err SErrDatabase, d)
           else (Ok id, with_tenants d (<[id := mkTenant name displayName (pg_time now) false]> (db_tenants d)))
       end.

Definition GetTenantIDByName (x : bool) (name : bytes) (d : db) : result store_error bytes :=
  if x then Err SErrDatabase
  else match find_row (tenant_named name) (db_tenants d) with
       | Some (id, _) => Ok id
       | None => Err SErrNotFound
       end.

Definition GetTenant (x : bool) (tenantID : bytes) (d : db) : result store_error Tenant :=
  if x || negb (uuid_ok tenantID) then Err SErrDatabase
  else match db_tenants d !! tenantID with
       | Some t => if tn_deleted t then Err SErrNotFound else Ok t
       | None => Err SErrNotFound
       end.

Definition GetOIDCProviderByTenant (x : bool) (tenantID : bytes) (d : db) : result store_error OIDCProvider :=
  if x || negb (uuid_ok tenantID) then Err SErrDatabase
  else match db_providers d !! tenantID with
       | Some p => if p_Enabled p then Ok p else Err SErrNoProvider
       | None => Err SErrNoProvider
       end.

Definition ValidateProvider (p : OIDCProvider) : bool :=
  if beq (p_TenantID p) [] then false
  else if beq (p_Issuer p) [] || beq (p_ClientID p) [] || beq (p_ClientSecret p) [] || beq (p_RedirectURI p) [] then false
  else match ParseRole (p_JITDefaultRole p) with Some _ => true | None => false end.

Definition UpsertOIDCProvider (x : bool) (p : OIDCProvider) (d : db) : result store_error unit * db :=
  if negb (ValidateProvider p) then (Err SErrInvalid, d)
  else if x || negb (bool_decide (is_Some (db_tenants d !! p_TenantID p))) then (Err SErrDatabase, d)
  else (Ok tt, with_providers d (<[p_TenantID p := p]> (db_providers d))).

(** ** Users *)

Definition user_with_sub (tenantID oidcSub : bytes) (u : User) : bool :=
  beq (us_tenant u) tenantID && bool_decide (us_sub u = Some oidcSub) && negb (us_deleted u).

Definition user_with_email (tenantID email : bytes) (u : User) : bool :=
  beq (us_tenant u) tenantID && beq (citext_fold (us_email u)) (citext_fold email) && negb (us_deleted u).

Definition FindUserByOIDCSub (x : bool) (tenantID oidcSub : bytes) (d : db) : result store_error (option (bytes * User)) :=
  if x then Err SErrDatabase else Ok (find_row (user_with_sub tenantID oidcSub) (db_users d)).

(** users_role_chk and the two unique indexes. *)
Definition user_fits (u : User) (others : gmap bytes User) : bool :=
  bool_decide (is_Some (ParseRole (us_role u)))
  && negb (some_row (user_with_email (us_tenant u) (us_email u)) others)
  && match us_sub u with Some sub => negb (some_row (user_with_sub (us_tenant u) sub) others) | None => true end.

Definition CreateUserOIDC (x : bool) (now : Z) (id tenantID email displayName role oidcSub : bytes) (d : db)
    : result store_error bytes * db :=
  let u := mkUserRow tenantID email displayName role (Some oidcSub) true (pg_time now) false in
  if x || bool_decide (is_Some (db_users d !! id)) || negb (bool_decide (is_Some (db_tenants d !! tenantID)))
     || negb (user_fits u (db_users d)) then (Err SErrDatabase, d)
  else (Ok id, with_users d (<[id := u]> (db_users d))).

Definition profile (u : User) (email displayName role : bytes) : User :=
  mkUserRow (us_tenant u) email displayName role (us_sub u) (us_active u) (us_created u) (us_deleted u).

Definition UpdateUserProfile (x : bool) (userID email displayName role : bytes) (d : db) : result store_error unit * db :=
  if x then (Err SErrDatabase, d)
  else match db_users d !! userID with
       | Some u =>
           if us_deleted u then (Ok tt, d)
           else
             let u' := profile u email displayName role in
             if negb (user_fits u' (delete userID (db_users d))) then (Err SErrDatabase, d)
             else (Ok tt, with_users d (<[userID := u']> (db_users d)))
       | None => (Ok tt, d)
       end.

Definition selectorLabel (email oidcSub : bytes) : bytes :=
  if negb (beq email []) then bs "email:" ++ email else bs "oidc_sub:" ++ oidcSub.

Definition promoted (u : User) : User :=
  mkUserRow (us_tenant u) (us_email u) (us_display u) RoleOwner (us_sub u) true (us_created u) (us_deleted u).

(** [x], [x']: a statement before or after the SELECT of the user failed, so
    that the transaction is rolled back; [meta]: the metadata printed from the previous role and the label. *)
Definition GrantOwner (meta : bytes → bytes → bytes) (x x' : bool) (now : Z) (tenantID email oidcSub : bytes) (d : db)
    : result store_error (bytes * bytes) * db :=
  let email := TrimSpace email in
  let oidcSub := TrimSpace oidcSub in
  if Bool.eqb (beq email []) (beq oidcSub []) then (Err SErrInvalid, d)
  else if x then (Err SErrDatabase, d)
  else
    let sel := if negb (beq email []) then user_with_email tenantID email else user_with_sub tenantID oidcSub in
    match find_row sel (db_users d) with
    | None => (Err SErrNotFound, d)
    | Some (userID, u) =>
        if x' then (Err SErrDatabase, d)
        else
        let d := with_users d (<[userID := promoted u]> (db_users d)) in
        (Ok (userID, us_role u),
         with_audit d (db_audit d ++ [mkAudit tenantID (bs "system") None (bs "user.grant_owner") (Some userID)
                                        (bs "success") (meta (us_role u) (selectorLabel email oidcSub)) None None (pg_time now)]))
    end.

(** ** Sessions *)

(** [gonow]: the clock of the service; [x]: the insert fails. *)
Definition CreateSession (x : bool) (rand rand' : entropy) (gonow now : Z) (id userID tenantID : bytes) (ttl : Z) (d : db)
    : option (bytes * Session) * db :=
  match RandomToken rand 32, RandomToken rand' 16 with
  | Some plain, Some csrf =>
      let s := mkSessionRow (TokenHash plain) userID tenantID csrf (pg_time (gonow + ttl)) (pg_time now) None in
      if x || bool_decide (is_Some (db_sessions d !! id))
         || negb (bool_decide (is_Some (db_users d !! userID)) && bool_decide (is_Some (db_tenants d !! tenantID)))
         || some_row (fun s => beq (se_hash s) (TokenHash plain) && bool_decide (se_revoked s = None)) (db_sessions d)
      then (None, d)
      else (Some (plain, s), with_sessions d (<[id := s]> (db_sessions d)))
  | _, _ => (None, d)
  end.

Definition live_session (now : Z) (hash : bytes) (s : Session) : bool :=
  beq (se_hash s) hash && bool_decide (se_revoked s = None) && (now <? se_expires s).

(** [x], [x']: the two SELECTs fail. *)
Definition pg_LookupSession (x x' : bool) (now : Z) (plainToken : bytes) (d : db)
    : result auth_error ((bytes * Session) * (bytes * User)) :=
  if x then Err ErrStore
  else match find_row (live_session (pg_time now) (TokenHash plainToken)) (db_sessions d) with
       | None => Err ErrInvalidSession
       | Some (sid, s) =>
           if x' then Err ErrStore
           else match db_users d !! se_user s with
                | None => Err ErrStore
                | Some u =>
                    if us_deleted u then Err ErrStore
                    else if negb (us_active u) then Err ErrInvalidSession
                    else Ok ((sid, s), (se_user s, u))
                end
       end.

Definition touched (now expires : Z) (s : Session) : Session :=
  mkSessionRow (se_hash s) (se_user s) (se_tenant s) (se_csrf s) expires now (se_revoked s).

Definition TouchSession (x : bool) (gonow now : Z) (sessionID : bytes) (ttl : Z) (d : db) : db :=
  if x then d
  else match db_sessions d !! sessionID with
       | Some s =>
           if bool_decide (se_revoked s = None)
           then with_sessions d (<[sessionID := touched (pg_time now) (pg_time (gonow + ttl)) s]> (db_sessions d)) else d
       | None => d
       end.

Definition session_revoked (now : Z) (hash : bytes) (s : Session) : Session :=
  if beq (se_hash s) hash && bool_decide (se_revoked s = None)
  then mkSessionRow (se_hash s) (se_user s) (se_tenant s) (se_csrf s) (se_expires s) (se_seen s) (Some now) else s.

Definition RevokeSession (x : bool) (now : Z) (plainToken : bytes) (d : db) : db :=
  if x then d else with_sessions d (session_revoked (pg_time now) (TokenHash plainToken) <$> db_sessions d).

(** ** API tokens *)

Definition token_live (now : Z) (t : Token) : bool :=
  negb (tk_deleted t) && bool_decide (tk_revoked t = None)
  && match tk_expires t with Some e => now <? e | None => true end.

Definition pg_LookupAPIToken (x : bool) (now : Z) (plainToken : bytes) (d : db) : result auth_error (bytes * Token) :=
  if negb (IsPAT plainToken) then Err ErrInvalidSession
  else if x then Err ErrStore
  else match find_row (fun t => beq (tk_hash t) (TokenHash plainToken) && token_live (pg_time now) t) (db_tokens d) with
       | None => Err ErrInvalidSession
       | Some r => Ok r
       end.

(** tokens_prefix_len_chk, tokens_hash_len_chk and tokens_hash_uq. *)
Definition CreateToken (x : bool) (now : Z) (id tenantID ownerUserID name prefix hash : bytes) (scopes : list bytes)
    (expiresAt : option Z) (d : db) : option (bytes * Token) * db :=
  let t := mkTokenRow tenantID (nullUUID ownerUserID) name prefix hash scopes (pg_time <$> expiresAt) (pg_time now) None false in
  if x || bool_decide (is_Some (db_tokens d !! id))
     || negb (bool_decide (is_Some (db_tenants d !! tenantID)))
     || negb (match nullUUID ownerUserID with Some u => bool_decide (is_Some (db_users d !! u)) | None => true end)
     || negb ((4 <=? length prefix)%nat && (length prefix <=? 16)%nat && (length hash =? 32)%nat)
     || some_row (fun t => beq (tk_hash t) hash && negb (tk_deleted t)) (db_tokens d)
  then (None, d)
  else (Some (id, t), with_tokens d (<[id := t]> (db_tokens d))).

Definition token_revoked (now : Z) (t : Token) : Token :=
  mkTokenRow (tk_tenant t) (tk_owner t) (tk_name t) (tk_prefix t) (tk_hash t) (tk_scopes t) (tk_expires t) (tk_created t)
    (Some now) (tk_deleted t).

(** [x]: the UPDATE fails; [x']: the SELECT after it. *)
Definition RevokeToken (x x' : bool) (now : Z) (tenantID tokenID : bytes) (d : db) : result store_error (bytes * bool) * db :=
  if x || negb (uuid_ok tokenID) then (Err SErrDatabase, d)
  else match db_tokens d !! tokenID with
       | Some t =>
           let own := beq (tk_tenant t) tenantID && negb (tk_deleted t) in
           if own && bool_decide (tk_revoked t = None)
           then (Ok (tk_hash t, false), with_tokens d (<[tokenID := token_revoked (pg_time now) t]> (db_tokens d)))
           else if x' then (Err SErrDatabase, d)
           else if own then (Ok (tk_hash t, true), d)
           else (Err SErrTokenNotFound, d)
       | None => if x' then (Err SErrDatabase, d) else (Err SErrTokenNotFound, d)
       end.

(** ** Lists *)

Definition row_limit (limit : Z) : nat := Z.to_nat (if (limit <=? 0) || (limit >? 500) then 100 else limit).

Definition ListUsers (x : bool) (tenantID : bytes) (limit : Z) (d : db) : option (list (bytes * User)) :=
  if x then None
  else Some (recent (fun r => us_created r.2) (fun r => beq (us_tenant r.2) tenantID && negb (us_deleted r.2))
               (row_limit limit) (map_to_list (db_users d))).

Definition ListTokens (x : bool) (tenantID : bytes) (limit : Z) (d : db) : option (list (bytes * Token)) :=
  if x then None
  else Some (recent (fun r => tk_created r.2) (fun r => beq (tk_tenant r.2) tenantID && negb (tk_deleted r.2))
               (row_limit limit) (map_to_list (db_tokens d))).

(** The order of the rows, which depends on the database's collation, is not
    modelled. *)
Definition ListSettings (x : bool) (tenantID scope : bytes) (d : db) : option (list ((bytes * bytes * bytes) * Setting)) :=
  if x then None
  else Some (List.filter
               (fun kv => beq kv.1.1.1 tenantID && (beq scope [] || beq kv.1.1.2 scope)) (map_to_list (db_settings d))).

Definition ListAudit (x : bool) (tenantID : bytes) (limit : Z) (d : db) : option (list AuditEntry) :=
  if x then None
  else Some (recent au_at (fun e => beq (au_tenant e) tenantID) (row_limit limit) (db_audit d)).

(** ** Settings *)

(** [value]: absent when the request had none. *)
Definition UpsertSetting (x : bool) (now : Z) (tenantID scope key : bytes) (value : option bytes) (expectVersion : Z)
    (updatedBy : bytes) (d : db) : result store_error Setting * db :=
  let k := (tenantID, scope, key) in
  let by_ok := match nullUUID updatedBy with Some u => bool_decide (is_Some (db_users d !! u)) | None => true end in
  if expectVersion <? 0 then (Err SErrInvalid, d)
  else if 1 <=? expectVersion then
    if x then (Err SErrDatabase, d)
    else match db_settings d !! k with
         | Some s =>
             if negb (sg_version s =? expectVersion) then (Err SErrConflict, d)
             else match value with
                  | Some v =>
                      if negb by_ok || (sg_version s =? int64_max) then (Err SErrDatabase, d)
                      else
                        let s' := mkSettingRow v (sg_version s + 1) (pg_time now) (nullUUID updatedBy) in
                        (Ok s', with_settings d (<[k := s']> (db_settings d)))
                  | None => (Err SErrDatabase, d)
                  end
         | None => (Err SErrConflict, d)
         end
  else if x then (Err SErrDatabase, d)
  else match value with
       | Some v =>
           match db_settings d !! k with
           | Some _ => (Err SErrConflict, d)
           | None =>
               if negb (by_ok && bool_decide (is_Some (db_tenants d !! tenantID))) then (Err SErrDatabase, d)
               else
                 let s' := mkSettingRow v 1 (pg_time now) (nullUUID updatedBy) in
                 (Ok s', with_settings d (<[k := s']> (db_settings d)))
           end
       | None => (Err SErrDatabase, d)
       end.

(** ** The audit log *)

Definition audit_actor_types : list bytes := [bs "user"; bs "token"; bs "system"].
Definition audit_outcomes : list bytes := [bs "success"; bs "failure"; bs "denied"].

Definition InsertAudit (x : bool) (now : Z) (tenantID actorType : bytes) (actorID : option bytes)
    (action resource outcome metadata clientIP userAgent : bytes) (d : db) : bool * db :=
  let metadata := if beq metadata [] then bs "{}" else metadata in
  if x || negb (bool_decide (is_Some (db_tenants d !! tenantID)))
     || negb (match actorID with Some a => uuid_ok a | None => true end)
     || negb (bool_decide (actorType ∈ audit_actor_types)) || negb (bool_decide (outcome ∈ audit_outcomes))
     || negb (beq clientIP [] || inet_ok clientIP)
  then (false, d)
  else (true, with_audit d (db_audit d ++ [mkAudit tenantID actorType actorID action (nullString resource) outcome metadata
                                             (nullString clientIP) (nullString userAgent) (pg_time now)])).

End Store.

(** ** Histories *)

(** A statement of the service, with what it draws and what fails. *)
Inductive db_op :=
| OEnsureTenant (x x' : bool) (now : Z) (id name display : bytes)
| OUpsertProvider (x : bool) (p : OIDCProvider)
| OCreateUser (x : bool) (now : Z) (id tenant email display role sub : bytes)
| OUpdateProfile (x : bool) (id email display role : bytes)
| OGrantOwner (meta : bytes → bytes → bytes) (x x' : bool) (now : Z) (tenant email sub : bytes)
| OCreateSession (x : bool) (rand rand' : entropy) (gonow now : Z) (id user tenant : bytes) (ttl : Z)
| OTouchSession (x : bool) (gonow now : Z) (id : bytes) (ttl : Z)
| ORevokeSession (x : bool) (now : Z) (plain : bytes)
| OCreateToken (x : bool) (now : Z) (id tenant owner name prefix hash : bytes) (scopes : list bytes) (expires : option Z)
| ORevokeToken (x x' : bool) (now : Z) (tenant id : bytes)
| OUpsertSetting (x : bool) (now : Z) (tenant scope key : bytes) (value : option bytes) (version : Z) (by_ : bytes)
| OInsertAudit (x : bool) (now : Z) (tenant typ : bytes) (actor : option bytes) (action resource outcome meta ip agent : bytes).

Definition db_step `{PgTypes} (d : db) (op : db_op) : db :=
  match op with
  | OEnsureTenant x x' now id name display => (EnsureTenant x x' now id name display d).2
  | OUpsertProvider x p => (UpsertOIDCProvider x p d).2
  | OCreateUser x now id tenant email display role sub => (CreateUserOIDC x now id tenant email display role sub d).2
  | OUpdateProfile x id email display role => (UpdateUserProfile x id email display role d).2
  | OGrantOwner meta x x' now tenant email sub => (GrantOwner meta x x' now tenant email sub d).2
  | OCreateSession x rand rand' gonow now id user tenant ttl => (CreateSession x rand rand' gonow now id user tenant ttl d).2
  | OTouchSession x gonow now id ttl => TouchSession x gonow now id ttl d
  | ORevokeSession x now plain => RevokeSession x now plain d
  | OCreateToken x now id tenant owner name prefix hash scopes expires =>
      (CreateToken x now id tenant owner name prefix hash scopes expires d).2
  | ORevokeToken x x' now tenant id => (RevokeToken x x' now tenant id d).2
  | OUpsertSetting x now tenant scope key value version by_ => (UpsertSetting x now tenant scope key value version by_ d).2
  | OInsertAudit x now tenant typ actor action resource outcome meta ip agent =>
      (InsertAudit x now tenant typ actor action resource outcome meta ip agent d).2
  end.

Definition db_run `{PgTypes} (d : db) (ops : list db_op) : db := foldl db_step d ops.

(** ** Finding rows *)

Section Rows.
Context {A : Type}.
Implicit Types (P : A → bool) (m : gmap bytes A).

Lemma find_row_Some P m k a : find_row P m = Some (k, a) → m !! k = Some a ∧ P a = true.
Proof.
  unfold find_row. intros E.
  assert (In (k, a) (List.filter (fun kv => P kv.2) (map_to_list m))) as [Hin HP]%filter_In.
  { destruct (List.filter _ _); [done|]. cbn in E. injection E as ->. by left. }
  split; [|done]. by apply elem_of_map_to_list, list_elem_of_In.
Qed.

Lemma find_row_None P m k a : find_row P m = None → m !! k = Some a → P a = false.
Proof.
  unfold find_row. intros E Hk%elem_of_map_to_list%list_elem_of_In. destruct (P a) eqn:HP; [|done].
  assert (In (k, a) (List.filter (fun kv => P kv.2) (map_to_list m))) by by apply filter_In.
  by destruct (List.filter _ _).
Qed.

Lemma find_row_none P m : (∀ k a, m !! k = Some a → P a = false) → find_row P m = None.
Proof.
  intros Hall. destruct (find_row P m) as [[k a]|] eqn:E; [|done].
  apply find_row_Some in E as [E HP]. by rewrite (Hall _ _ E) in HP.
Qed.

Lemma find_row_unique P m k a :
  m !! k = Some a → P a = true → (∀ k' a', m !! k' = Some a' → P a' = true → k' = k) → find_row P m = Some (k, a).
Proof.
  intros Hk HP Hu. destruct (find_row P m) as [[k' a']|] eqn:E.
  - apply find_row_Some in E as [E HP']. assert (k' = k) as -> by eauto. by simplify_eq.
  - by rewrite (find_row_None _ _ _ _ E Hk) in HP.
Qed.

Lemma some_row_false P m k a : some_row P m = false → m !! k = Some a → P a = false.
Proof. intros E%bool_decide_eq_false. apply find_row_None, eq_None_not_Some, E. Qed.

Lemma recent_elem (at_ : A → Z) (P : A → bool) limit rows a :
  a ∈ recent at_ P limit rows → a ∈ rows ∧ P a = true.
Proof.
  intros Hin. apply elem_of_take in Hin as (i & Hi & _).
  apply list_elem_of_lookup_2 in Hi. rewrite merge_sort_Permutation in Hi.
  apply list_elem_of_In, filter_In in Hi as [??]. by rewrite list_elem_of_In.
Qed.

Lemma recent_all (at_ : A → Z) (P : A → bool) limit rows a :
  (length rows ≤ limit)%nat → a ∈ rows → P a = true → a ∈ recent at_ P limit rows.
Proof.
  intros Hl Hin HP. unfold recent. rewrite take_ge.
  - rewrite merge_sort_Permutation. apply list_elem_of_In, filter_In. by rewrite <-list_elem_of_In.
  - rewrite merge_sort_Permutation. etrans; [|done]. apply List.filter_length_le.
Qed.
End Rows.

(** ** Invariants of the tables *)

(** Which operations touch which table. *)
Lemma step_tokens `{PgTypes} d op :
  db_tokens (db_step d op) = db_tokens d
  ∨ (∃ x x' now tenant id, op = ORevokeToken x x' now tenant id)
  ∨ (∃ x now id tenant owner name prefix hash scopes expires,
       op = OCreateToken x now id tenant owner name prefix hash scopes expires).
Proof.
  destruct op; try (by right; left; do 5 eexists); try (by right; right; do 10 eexists); left; cbn [db_step];
    unfold EnsureTenant, UpsertOIDCProvider, CreateUserOIDC, UpdateUserProfile, GrantOwner, CreateSession, TouchSession,
      RevokeSession, UpsertSetting, InsertAudit; repeat (case_match; try done).
Qed.

Lemma step_sessions `{PgTypes} d op :
  db_sessions (db_step d op) = db_sessions d
  ∨ (∃ x rand rand' gonow now id user tenant ttl, op = OCreateSession x rand rand' gonow now id user tenant ttl)
  ∨ (∃ x gonow now id ttl, op = OTouchSession x gonow now id ttl)
  ∨ (∃ x now plain, op = ORevokeSession x now plain).
Proof.
  destruct op; try (by right; left; do 9 eexists); try (by right; right; left; do 5 eexists);
    try (by do 3 right; do 3 eexists); left; cbn [db_step];
    unfold EnsureTenant, UpsertOIDCProvider, CreateUserOIDC, UpdateUserProfile, GrantOwner, CreateToken, RevokeToken,
      UpsertSetting, InsertAudit; repeat (case_match; try done).
Qed.

Lemma step_settings `{PgTypes} d op :
  db_settings (db_step d op) = db_settings d
  ∨ (∃ x now tenant scope key value version by_, op = OUpsertSetting x now tenant scope key value version by_).
Proof.
  destruct op; try (by right; do 8 eexists); left; cbn [db_step];
    unfold EnsureTenant, UpsertOIDCProvider, CreateUserOIDC, UpdateUserProfile, GrantOwner, CreateToken, RevokeToken,
      CreateSession, TouchSession, RevokeSession, InsertAudit; repeat (case_match; try done).
Qed.

(** A unique index on the hash column of the rows [live] selects. *)
Definition hashes_unique {A} (live : A → Prop) (hash : A → bytes) (m : gmap bytes A) : Prop :=
  ∀ i j a b, m !! i = Some a → m !! j = Some b → live a → live b → hash a = hash b → i = j.

Lemma hashes_unique_insert {A} (live : A → Prop) (hash : A → bytes) m id a :
  hashes_unique live hash m → (∀ j b, m !! j = Some b → live b → hash b = hash a → j = id) →
  hashes_unique live hash (<[id := a]> m).
Proof.
  intros Hu Hnew i j b c Hi Hj Hb Hc Hh.
  destruct (decide (i = id)) as [->|Ni], (decide (j = id)) as [->|Nj]; [done|..].
  - rewrite lookup_insert_eq in Hi. rewrite lookup_insert_ne in Hj by done. simplify_eq. symmetry. by eapply Hnew.
  - rewrite lookup_insert_eq in Hj. rewrite lookup_insert_ne in Hi by done. simplify_eq. by eapply Hnew.
  - rewrite lookup_insert_ne in Hi by done. rewrite lookup_insert_ne in Hj by done. by eapply Hu.
Qed.

(** tokens_hash_uq and sessions_token_hash_uq. *)
Definition token_hashes_unique : gmap bytes Token → Prop := hashes_unique (fun t => tk_deleted t = false) tk_hash.
Definition session_hashes_unique : gmap bytes Session → Prop := hashes_unique (fun s => se_revoked s = None) se_hash.

Definition db_ok (d : db) : Prop :=
  token_hashes_unique (db_tokens d) ∧ session_hashes_unique (db_sessions d)
  ∧ map_Forall (fun _ s => 1 ≤ sg_version s ≤ int64_max) (db_settings d)
  ∧ map_Forall (fun tenant p => p_TenantID p = tenant) (db_providers d).

Lemma CreateToken_inv `{PgTypes} x now id tenant owner name prefix hash scopes expires d r d' :
  CreateToken x now id tenant owner name prefix hash scopes expires d = (Some r, d') →
  r = (id, mkTokenRow tenant (nullUUID owner) name prefix hash scopes (pg_time <$> expires) (pg_time now) None false)
  ∧ d' = with_tokens d (<[id := r.2]> (db_tokens d))
  ∧ db_tokens d !! id = None
  ∧ (∀ j t, db_tokens d !! j = Some t → tk_deleted t = false → tk_hash t ≠ hash).
Proof.
  unfold CreateToken. cbv zeta. destruct (_ || _) eqn:E; [done|]. intros [= <- <-].
  apply orb_false_iff in E as [E Eu]. rewrite !orb_false_iff in E. destruct E as [[[[_ Ei] _] _] _].
  apply bool_decide_eq_false in Ei. split_and!; [done|done|by apply eq_None_not_Some|].
  intros j t Hj Hd Hh. pose proof (some_row_false _ _ _ _ Eu Hj) as E. cbv beta in E.
  by rewrite Hh, beq_refl, Hd in E.
Qed.

Lemma RevokeToken_inv `{PgTypes} x x' now tenant id d r d' :
  RevokeToken x x' now tenant id d = (r, d') →
  d' = d ∨ (∃ t, db_tokens d !! id = Some t ∧ tk_tenant t = tenant ∧ tk_deleted t = false ∧ tk_revoked t = None
            ∧ d' = with_tokens d (<[id := token_revoked (pg_time now) t]> (db_tokens d)) ∧ r = Ok (tk_hash t, false)).
Proof.
  unfold RevokeToken. destruct (_ || _); [by intros [= <- <-]; left|].
  destruct (db_tokens d !! id) as [t|] eqn:Et; [|case_match; by intros [= <- <-]; left]. cbv zeta.
  destruct (_ && bool_decide _) eqn:E.
  - intros [= <- <-]. right. apply andb_true_iff in E as [[E1%beq_true E2%negb_true_iff]%andb_true_iff E3%bool_decide_eq_true].
    by exists t.
  - left. repeat case_match; by simplify_eq.
Qed.

Lemma step_tokens_unique `{PgTypes} d op :
  token_hashes_unique (db_tokens d) → token_hashes_unique (db_tokens (db_step d op)).
Proof.
  intros Hu. destruct (step_tokens d op) as [->|[(x & x' & now & tenant & id & ->)|
    (x & now & id & tenant & owner & name & prefix & hash & scopes & expires & ->)]]; [done|..]; cbn [db_step].
  - destruct (RevokeToken x x' now tenant id d) as [r d'] eqn:E.
    apply RevokeToken_inv in E as [->|(t & Ht & _ & Hd & _ & -> & _)]; [done|]. cbn.
    apply hashes_unique_insert; [done|]. intros j u Hj Hu' Hh. by eapply (Hu j id u t).
  - destruct (CreateToken _ _ _ _ _ _ _ _ _ _ d) as [[r|] d'] eqn:E.
    + apply CreateToken_inv in E as (-> & -> & Hn & Hh). cbn. apply hashes_unique_insert; [done|].
      intros j u Hj Hd He. by destruct (Hh j u Hj Hd).
    + revert E. unfold CreateToken. cbv zeta. case_match; intros [= <-]; done.
Qed.

Lemma CreateSession_inv `{PgTypes} x rand rand' gonow now id user tenant ttl d r d' :
  CreateSession x rand rand' gonow now id user tenant ttl d = (Some r, d') →
  ∃ csrf, RandomToken rand 32 = Some r.1 ∧ RandomToken rand' 16 = Some csrf
  ∧ r.2 = mkSessionRow (TokenHash r.1) user tenant csrf (pg_time (gonow + ttl)) (pg_time now) None
  ∧ d' = with_sessions d (<[id := r.2]> (db_sessions d)) ∧ db_sessions d !! id = None
  ∧ is_Some (db_users d !! user) ∧ is_Some (db_tenants d !! tenant)
  ∧ (∀ j s, db_sessions d !! j = Some s → se_revoked s = None → se_hash s ≠ TokenHash r.1).
Proof.
  unfold CreateSession. destruct (RandomToken rand 32) as [plain|]; [|done].
  destruct (RandomToken rand' 16) as [csrf|]; [|done]. cbv zeta.
  destruct (_ || _) eqn:E; [done|]. intros [= <- <-]. exists csrf.
  apply orb_false_iff in E as [E Eu]. rewrite !orb_false_iff in E. destruct E as [[_ Ei%bool_decide_eq_false] Ef].
  apply negb_false_iff, andb_true_iff in Ef as [Ef1%bool_decide_eq_true Ef2%bool_decide_eq_true].
  split_and!; try done; [by apply eq_None_not_Some|].
  intros j s Hj Hr Hh. pose proof (some_row_false _ _ _ _ Eu Hj) as E. cbv beta in E.
  by rewrite Hh, beq_refl, Hr in E.
Qed.

Lemma CreateSession_none `{PgTypes} x rand rand' gonow now id user tenant ttl d d' :
  CreateSession x rand rand' gonow now id user tenant ttl d = (None, d') → d' = d.
Proof. unfold CreateSession. by repeat case_match; intros [= <-]. Qed.

Lemma session_revoked_keeps now hash s :
  se_hash (session_revoked now hash s) = se_hash s ∧ (se_revoked (session_revoked now hash s) = None → se_revoked s = None).
Proof. unfold session_revoked. by case_match. Qed.

Lemma step_sessions_unique `{PgTypes} d op :
  session_hashes_unique (db_sessions d) → session_hashes_unique (db_sessions (db_step d op)).
Proof.
  intros Hu. destruct (step_sessions d op) as [->|[(x & rand & rand' & gonow & now & id & user & tenant & ttl & ->)|
    [(x & gonow & now & id & ttl & ->)|(x & now & plain & ->)]]]; [done|..]; cbn [db_step].
  - destruct (CreateSession _ _ _ _ _ _ _ _ _ d) as [[r|] d'] eqn:E.
    + apply CreateSession_inv in E as (csrf & _ & _ & Er & -> & Hn & _ & _ & Hh). cbn. apply hashes_unique_insert; [done|].
      intros j u Hj Hd He. rewrite Er in He. by destruct (Hh j u Hj Hd).
    + by apply CreateSession_none in E as ->.
  - unfold TouchSession. destruct x; [done|]. destruct (db_sessions d !! id) as [s|] eqn:Es; [|done].
    case_bool_decide as Hr; [|done]. cbn. apply hashes_unique_insert; [done|]. intros j u Hj Hu' Hh.
    by eapply (Hu j id u s).
  - unfold RevokeSession. destruct x; [done|]. cbn. intros i j s u Hi Hj Hs Hv Hh.
    rewrite lookup_fmap, fmap_Some in Hi, Hj. destruct Hi as (s' & Hi & ->), Hj as (u' & Hj & ->).
    destruct (session_revoked_keeps (pg_time now) (TokenHash plain) s') as [E1 R1].
    destruct (session_revoked_keeps (pg_time now) (TokenHash plain) u') as [E2 R2].
    rewrite E1, E2 in Hh. by eapply (Hu i j s' u'); eauto.
Qed.

Lemma UpsertSetting_inv `{PgTypes} x now tenant scope key value version by_ d r d' :
  UpsertSetting x now tenant scope key value version by_ d = (r, d') →
  (d' = d ∧ ∀ s, r ≠ Ok s)
  ∨ ∃ v s, r = Ok s ∧ value = Some v ∧ s = mkSettingRow v (version + 1) (pg_time now) (nullUUID by_)
      ∧ d' = with_settings d (<[(tenant, scope, key) := s]> (db_settings d))
      ∧ 0 ≤ version
      ∧ match db_settings d !! (tenant, scope, key) with
        | Some s0 => sg_version s0 = version ∧ 1 ≤ version ∧ version ≠ int64_max
        | None => version = 0
        end.
Proof.
  unfold UpsertSetting. cbv zeta.
  destruct (version <? 0) eqn:E0; [by intros [= <- <-]; left|]. apply Z.ltb_ge in E0.
  destruct (1 <=? version) eqn:E1.
  - destruct x; [by intros [= <- <-]; left|].
    destruct (db_settings d !! _) as [s|]; [|by intros [= <- <-]; left].
    destruct (sg_version s =? version) eqn:Ev; cbn [negb]; [|by intros [= <- <-]; left]. apply Z.eqb_eq in Ev.
    destruct value as [v|]; [|by intros [= <- <-]; left].
    destruct (_ || _) eqn:Eb; [by intros [= <- <-]; left|]. apply orb_false_iff in Eb as [_ Eb%Z.eqb_neq].
    intros [= <- <-]. right. exists v. eexists. split_and!; try done; [by rewrite Ev|by apply Z.leb_le|congruence].
  - apply Z.leb_gt in E1. assert (version = 0) as -> by lia.
    destruct x; [by intros [= <- <-]; left|]. destruct value as [v|]; [|by intros [= <- <-]; left].
    destruct (db_settings d !! _) as [s|]; [by intros [= <- <-]; left|].
    destruct (negb _); [by intros [= <- <-]; left|]. intros [= <- <-]. right. exists v. eexists. by split_and!.
Qed.

Lemma step_providers `{PgTypes} d op :
  map_Forall (fun tenant p => p_TenantID p = tenant) (db_providers d) →
  map_Forall (fun tenant p => p_TenantID p = tenant) (db_providers (db_step d op)).
Proof.
  intros Hp. destruct op; cbn [db_step];
    unfold EnsureTenant, CreateUserOIDC, UpdateUserProfile, GrantOwner, CreateSession, TouchSession, RevokeSession, CreateToken,
      RevokeToken, UpsertSetting, InsertAudit; try (repeat (case_match; try done)).
  unfold UpsertOIDCProvider. repeat (case_match; try done). cbn. by apply map_Forall_insert_2.
Qed.

Lemma db_step_ok `{PgTypes} d op : db_ok d → db_ok (db_step d op).
Proof.
  intros (Ht & Hs & Hv & Hp). split_and!; [by apply step_tokens_unique|by apply step_sessions_unique| |by apply step_providers].
  destruct (step_settings d op) as [->|(x & now & tenant & scope & key & value & version & by_ & ->)]; [done|].
  cbn [db_step]. destruct (UpsertSetting _ _ _ _ _ _ _ _ d) as [r d'] eqn:E.
  apply UpsertSetting_inv in E as [[-> _]|(v & s & _ & _ & -> & -> & H0 & Hold)]; [done|]. cbn.
  apply map_Forall_insert_2; [|done]. cbn.
  destruct (db_settings d !! _) as [s0|] eqn:E0; [|subst; zlia].
  pose proof (map_Forall_lookup_1 _ _ _ _ Hv E0) as Hs0. cbv beta in Hs0. destruct Hold as (Hsv & Hge & Hm). lia.
Qed.

Lemma db_run_ok `{PgTypes} d ops : db_ok d → db_ok (db_run d ops).
Proof. revert d. induction ops as [|op ops IH]; intros d Hd; [done|]. by apply IH, db_step_ok. Qed.

Lemma empty_db_ok : db_ok empty_db.
Proof. split_and!; [by intros ???? ?|by intros ???? ?|apply map_Forall_empty|apply map_Forall_empty]. Qed.

(** ** Tokens: found until revoked, never after *)

Section TokenFacts.
Context `{PgTypes}.
Implicit Types d : db.

Lemma step_token d op id t :
  db_tokens d !! id = Some t →
  ∃ t', db_tokens (db_step d op) !! id = Some t'
    ∧ (t' = t ∨ ∃ x x' now, op = ORevokeToken x x' now (tk_tenant t) id ∧ t' = token_revoked (pg_time now) t).
Proof.
  intros Ht. destruct (step_tokens d op) as [->|[(x & x' & now & tenant & id' & ->)|
    (x & now & id' & tenant & owner & name & prefix & hash & scopes & expires & ->)]]; [by eauto|..]; cbn [db_step].
  - destruct (RevokeToken x x' now tenant id' d) as [r d'] eqn:E.
    apply RevokeToken_inv in E as [->|(u & Hu & Htn & _ & _ & -> & _)]; [by eauto|]. cbn.
    destruct (decide (id' = id)) as [->|N].
    + assert (u = t) as -> by congruence. rewrite lookup_insert_eq. eexists. split; [done|]. right. subst. by do 3 eexists.
    + rewrite lookup_insert_ne by done. by eauto.
  - destruct (CreateToken _ _ _ _ _ _ _ _ _ _ d) as [[r|] d'] eqn:E.
    + apply CreateToken_inv in E as (-> & -> & Hn & _). cbn. rewrite lookup_insert_ne by congruence. by eauto.
    + revert E. unfold CreateToken. cbv zeta. case_match; intros [= <-]; by eauto.
Qed.

(** No operation of the list revokes this token of this tenant. *)
Definition not_revoked (tenant id : bytes) (ops : list db_op) : Prop :=
  Forall (fun op => ∀ x x' now, op ≠ ORevokeToken x x' now tenant id) ops.

Lemma run_token_kept ops d id t :
  db_tokens d !! id = Some t → not_revoked (tk_tenant t) id ops → db_tokens (db_run d ops) !! id = Some t.
Proof.
  revert d. induction ops as [|op ops IH]; intros d Ht Hn; [done|]. apply Forall_cons in Hn as [Hop Hn].
  apply (IH (db_step d op)); [|done].
  destruct (step_token d op id t Ht) as (t' & Ht' & [->|(x & x' & now & -> & _)]); [done|]. by destruct (Hop x x' now).
Qed.

(** A revoked row stays a revoked row of the same hash. *)
Definition token_dead (hash : bytes) (d : db) : Prop :=
  ∃ id t, db_tokens d !! id = Some t ∧ tk_hash t = hash ∧ tk_deleted t = false ∧ is_Some (tk_revoked t).

Lemma run_token_dead ops d hash : token_dead hash d → token_dead hash (db_run d ops).
Proof.
  revert d. induction ops as [|op ops IH]; intros d Hd; [done|]. apply (IH (db_step d op)).
  destruct Hd as (id & t & Ht & Hh & Hd & Hr).
  destruct (step_token d op id t Ht) as (t' & Ht' & [->|(x & x' & now & _ & ->)]); exists id; eexists; split_and!; done.
Qed.

Lemma dead_token_refused x now plain d :
  db_ok d → token_dead (TokenHash plain) d → ∃ e, pg_LookupAPIToken x now plain d = Err e.
Proof.
  intros (Hu & _) (id & t & Ht & Hh & Hd & Hr). unfold pg_LookupAPIToken.
  destruct (negb _); [by eauto|]. destruct x; [by eauto|].
  destruct (find_row _ _) as [[j u]|] eqn:E; [|by eauto].
  apply find_row_Some in E as [Hj E]. apply andb_true_iff in E as [E1%beq_true E2]. unfold token_live in E2.
  apply andb_true_iff in E2 as [[E2%negb_true_iff E3%bool_decide_eq_true]%andb_true_iff _].
  assert (j = id) as -> by by eapply (Hu j id u t); [..|congruence]. destruct Hr as [? Hr]. congruence.
Qed.

Lemma live_token_found now plain id t d :
  db_ok d → db_tokens d !! id = Some t → tk_hash t = TokenHash plain → IsPAT plain = true → token_live (pg_time now) t = true →
  pg_LookupAPIToken false now plain d = Ok (id, t).
Proof.
  intros (Hu & _) Ht Hh Hp Hl. unfold pg_LookupAPIToken. rewrite Hp. cbn [negb].
  rewrite (find_row_unique _ _ id t); [done|done|by rewrite Hh, beq_refl, Hl|].
  intros j u Hj E. apply andb_true_iff in E as [E1%beq_true E2]. unfold token_live in E2, Hl.
  apply andb_true_iff in E2 as [[E2%negb_true_iff _]%andb_true_iff _].
  apply andb_true_iff in Hl as [[Hl%negb_true_iff _]%andb_true_iff _].
  by eapply (Hu j id u t); [..|congruence].
Qed.

Lemma RevokeToken_dead x x' now tenant id d h b d' :
  RevokeToken x x' now tenant id d = (Ok (h, b), d') → token_dead h d'.
Proof.
  intros E. pose proof (RevokeToken_inv _ _ _ _ _ _ _ _ E) as [->|(t & Ht & _ & Hd & _ & -> & [= -> ->])].
  - revert E. unfold RevokeToken. destruct (_ || _); [done|].
    destruct (db_tokens d !! id) as [t|] eqn:Et; [|by destruct x']. cbv zeta.
    destruct (beq _ _ && negb _) eqn:Eo; cbn [andb]; [|by destruct x'].
    case_bool_decide as Hr; [intros [= <- <- Ed]|].
    + exfalso. apply (f_equal (fun d => db_tokens d !! id)) in Ed. cbn in Ed. rewrite lookup_insert_eq, Et in Ed.
      injection Ed as Ed. by rewrite <-Ed in Hr.
    + destruct x'; [done|]. intros [= <- <-]. apply andb_true_iff in Eo as [_ Eo%negb_true_iff].
      exists id, t. split_and!; try done. by apply not_eq_None_Some.
  - exists id. eexists. cbn. rewrite lookup_insert_eq. split_and!; [done..|]. by eexists.
Qed.
End TokenFacts.

(** ** Sessions: accepted until expired or revoked, never after *)

Section SessionFacts.
Context `{PgTypes}.
Implicit Types d : db.

(** Every session of this hash is revoked. *)
Definition session_dead (hash : bytes) (d : db) : Prop :=
  ∀ id s, db_sessions d !! id = Some s → se_hash s = hash → is_Some (se_revoked s).

(** The operation draws a session token of this hash. *)
Definition draws (hash : bytes) (op : db_op) : Prop :=
  match op with
  | OCreateSession _ rand _ _ _ _ _ _ _ => ∃ plain, RandomToken rand 32 = Some plain ∧ TokenHash plain = hash
  | _ => False
  end.

Lemma step_session_dead hash d op : session_dead hash d → ¬ draws hash op → session_dead hash (db_step d op).
Proof.
  intros Hd Hn. destruct (step_sessions d op) as [E|[(x & rand & rand' & gonow & now & id & user & tenant & ttl & ->)|
    [(x & gonow & now & id & ttl & ->)|(x & now & plain & ->)]]]; [by unfold session_dead; rewrite E|..]; cbn [db_step].
  - destruct (CreateSession _ _ _ _ _ _ _ _ _ d) as [[r|] d'] eqn:E; [|by apply CreateSession_none in E as ->].
    apply CreateSession_inv in E as (csrf & Hr & _ & Er & -> & _). intros j s Hj Hh. cbn in Hj.
    destruct (decide (j = id)) as [->|N]; [|rewrite lookup_insert_ne in Hj by done; by eapply Hd].
    rewrite lookup_insert_eq in Hj. destruct Hn. exists r.1. split; [done|]. injection Hj as <-. by rewrite Er in Hh.
  - unfold TouchSession. destruct x; [done|]. destruct (db_sessions d !! id) as [s|] eqn:Es; [|done].
    case_bool_decide as Hr; [|done]. intros j s' Hj Hh. cbn in Hj.
    destruct (decide (j = id)) as [->|N]; [|rewrite lookup_insert_ne in Hj by done; by eapply Hd].
    rewrite lookup_insert_eq in Hj. injection Hj as <-. by apply (Hd id s).
  - unfold RevokeSession. destruct x; [done|]. intros j s Hj Hh. cbn in Hj. rewrite lookup_fmap, fmap_Some in Hj.
    destruct Hj as (s' & Hj & ->). unfold session_revoked in *. case_match; [by eexists|]. by eapply Hd.
Qed.

Lemma run_session_dead hash ops d :
  session_dead hash d → Forall (fun op => ¬ draws hash op) ops → session_dead hash (db_run d ops).
Proof.
  revert d. induction ops as [|op ops IH]; intros d Hd Hn; [done|]. apply Forall_cons in Hn as [Hop Hn].
  apply (IH (db_step d op)); [|done]. by apply step_session_dead.
Qed.

Lemma RevokeSession_dead now plain d : session_dead (TokenHash plain) (RevokeSession false now plain d).
Proof.
  intros id s Hs Hh. cbn in Hs. rewrite lookup_fmap, fmap_Some in Hs. destruct Hs as (s' & Hs & ->).
  unfold session_revoked in *. destruct (beq _ _ && bool_decide _) eqn:E; [by eexists|].
  rewrite Hh, beq_refl in E. apply bool_decide_eq_false in E. by apply not_eq_None_Some.
Qed.

Lemma dead_session_refused x x' now plain d :
  session_dead (TokenHash plain) d → ∃ e, pg_LookupSession x x' now plain d = Err e.
Proof.
  intros Hd. unfold pg_LookupSession. destruct x; [by eauto|]. rewrite find_row_none; [by eauto|].
  intros k s Hs. unfold live_session. destruct (beq _ _) eqn:E; [|done]. apply beq_true in E.
  destruct (Hd k s Hs E) as [t Ht]. by rewrite Ht.
Qed.

Lemma live_session_found now plain id s u d :
  db_ok d → db_sessions d !! id = Some s → live_session (pg_time now) (TokenHash plain) s = true →
  db_users d !! se_user s = Some u → us_deleted u = false → us_active u = true →
  pg_LookupSession false false now plain d = Ok ((id, s), (se_user s, u)).
Proof.
  intros (_ & Hu & _) Hs Hl Hus Hd Ha. unfold pg_LookupSession. rewrite (find_row_unique _ _ id s); [|done|done|].
  - by rewrite Hus, Hd, Ha.
  - intros j v Hj E. unfold live_session in E, Hl.
    apply andb_true_iff in E as [[E1%beq_true E2%bool_decide_eq_true]%andb_true_iff _].
    apply andb_true_iff in Hl as [[H1%beq_true H2%bool_decide_eq_true]%andb_true_iff _].
    by eapply (Hu j id v s); [..|congruence].
Qed.
End SessionFacts.

(** ** Settings: one writer per version *)

(** The successful writes of a key in a history: the version each expected and
    the value it wrote. *)
Fixpoint setting_writes `{PgTypes} (k : bytes * bytes * bytes) (d : db) (ops : list db_op) : list (Z * bytes) :=
  match ops with
  | [] => []
  | op :: ops =>
      match op with
      | OUpsertSetting x now tenant scope key value version by_ =>
          if bool_decide ((tenant, scope, key) = k) then
            match (UpsertSetting x now tenant scope key value version by_ d).1 with
            | Ok s => [(version, sg_value s)]
            | Err _ => []
            end
          else []
      | _ => []
      end ++ setting_writes k (db_step d op) ops
  end.

Definition setting_version (k : bytes * bytes * bytes) (d : db) : Z :=
  match db_settings d !! k with Some s => sg_version s | None => 0 end.

Lemma step_setting `{PgTypes} k d op :
  let w := setting_writes k d [op] in
  (w = [] ∧ db_settings (db_step d op) !! k = db_settings d !! k)
  ∨ (∃ v, w = [(setting_version k d, v)] ∧ setting_version k (db_step d op) = setting_version k d + 1
          ∧ (sg_value <$> db_settings (db_step d op) !! k) = Some v).
Proof.
  intros w. destruct (step_settings d op) as [E|(x & now & tenant & scope & key & value & version & by_ & ->)].
  - destruct op as [| | | | | | | | | |x now tenant scope key value version by_|]; try (by left; split; [|rewrite E]).
    destruct (decide ((tenant, scope, key) = k)) as [<-|N].
    2:{ left. subst w. cbn [setting_writes]. rewrite bool_decide_eq_false_2 by done. split; [done|by rewrite E]. }
    subst w. cbn [setting_writes db_step] in *. rewrite bool_decide_eq_true_2 by done.
    destruct (UpsertSetting _ _ _ _ _ _ _ _ d) as [r d'] eqn:Er. cbn [fst snd] in *.
    pose proof (UpsertSetting_inv _ _ _ _ _ _ _ _ _ _ _ Er) as [[-> Hr]|(v & s & -> & _ & -> & -> & H0 & Hold)].
    { left. split; [|done]. destruct r as [s|]; [by destruct (Hr s)|done]. }
    exfalso. cbn in E. apply (f_equal (.!! (tenant, scope, key))) in E. rewrite lookup_insert_eq in E.
    rewrite <-E in Hold. cbn in Hold. lia.
  - subst w. cbn [setting_writes db_step]. destruct (UpsertSetting _ _ _ _ _ _ _ _ d) as [r d'] eqn:Er. cbn [fst snd] in *.
    apply UpsertSetting_inv in Er as [[-> Hr]|(v & s & -> & _ & -> & -> & H0 & Hold)].
    { left. split; [|done]. case_bool_decide; [|done]. destruct r as [s|]; [by destruct (Hr s)|done]. }
    unfold setting_version. cbn. destruct (decide ((tenant, scope, key) = k)) as [<-|N].
    + right. exists v. rewrite bool_decide_eq_true_2, !lookup_insert_eq by done. cbn.
      destruct (db_settings d !! _) as [s0|]; [destruct Hold as (<- & _)|subst]; done.
    + left. rewrite bool_decide_eq_false_2, lookup_insert_ne by done. done.
Qed.

Lemma setting_writes_cons `{PgTypes} k d op ops :
  setting_writes k d (op :: ops) = setting_writes k d [op] ++ setting_writes k (db_step d op) ops.
Proof. cbn [setting_writes]. by rewrite app_nil_r. Qed.

(** C30: no update of a setting is lost: in every history of the database the
    successful writes of a key expected the consecutive versions from the
    key's first one on, so no two of them replaced the same version, the
    version afterwards counts them, and the stored value is that of the last. *)
Theorem settings_no_lost_update `{PgTypes} k d ops :
  let ws := setting_writes k d ops in
  ws.*1 = seqZ (setting_version k d) (Z.of_nat (length ws))
  ∧ setting_version k (db_run d ops) = setting_version k d + Z.of_nat (length ws)
  ∧ (sg_value <$> db_settings (db_run d ops) !! k)
    = match last ws with Some w => Some w.2 | None => sg_value <$> db_settings d !! k end.
Proof.
  revert d. induction ops as [|op ops IH]; intros d; [by split_and!; [..|cbn]; rewrite ?Z.add_0_r|].
  intros ws. subst ws. rewrite setting_writes_cons. destruct (IH (db_step d op)) as (H1 & H2 & H3).
  change (db_run d (op :: ops)) with (db_run (db_step d op) ops). rewrite H2, H3.
  destruct (step_setting k d op) as [[-> Hk]|(v & -> & Hv & Hk)]; cbn [app].
  - unfold setting_version in *. rewrite Hk in *. done.
  - rewrite fmap_cons, H1, length_cons, Hv. cbn [fst]. rewrite (seqZ_cons (setting_version k d)) by lia.
    split_and!; [by rewrite Nat2Z.inj_succ, Z.pred_succ, Z.add_1_r|lia|]. rewrite Hk, last_cons. by destruct (last _).
Qed.
