(* ===== verification/AdminApi.v ===== *)
(** * The admin API and its audit trail
    (src/internal/admin/api/handler.go, authz.go,
    src/internal/admin/audit/middleware.go, src/internal/admin/server.go)

    The handlers of /admin/api/v1/ over the tables of [AdminStore], the import
    queue of [Importer], the cache and the token gate's cache; the audit
    middleware around them; the chain of [Auth] in front of both. *)

From stdpp Require Import base strings numbers gmap sorting list.
From S2P Require Import Prelude GoStd Sha256 Spans CacheKey Lru Store MetaLru Models Listing PatGate Auth Importer AdminStore.

Local Open Scope Z_scope.

(** ** Requests and replies *)

Record createTokenRequest := mkCreateToken { ct_Name : bytes; ct_Scopes : list bytes; ct_ExpiresIn : option Z }.
Record putSettingRequest := mkPutSetting { ps_Value : option bytes; ps_Version : Z }.
Record createImportRequest := mkCreateImport { ci_RepoID : bytes; ci_Revision : bytes }.
Record purgeCacheRequest := mkPurgeRequest { pr_Org : bytes; pr_Name : bytes }.

(** A request: what [Auth] reads of it, the segments of its path, the query,
    the remaining headers and what decoding the body as each request type
    gives ([None]: an error). *)
Record admin_req := mkReq {
  rq_http : HttpRequest;
  rq_segs : list bytes;
  rq_query : list (bytes * bytes);
  rq_xff : bytes;
  rq_remote : bytes;
  rq_agent : bytes;
  rq_token : option createTokenRequest;
  rq_setting : option putSettingRequest;
  rq_import : option createImportRequest;
  rq_purge : option purgeCacheRequest;
}.

(** URL.Query().Get *)
Definition query_get (k : bytes) (q : list (bytes * bytes)) : bytes :=
  match List.find (fun kv => beq kv.1 k) q with Some kv => kv.2 | None => [] end.

Inductive payload :=
| PError (msg : bytes) | PEmpty
| PTenant (t : Tenant) | PUsers (l : list (bytes * User)) | PTokens (l : list (bytes * Token))
| PCreated (id : bytes) (t : Token) (secret : bytes)
| PSettings (l : list ((bytes * bytes * bytes) * Setting)) | PSetting (scope key : bytes) (s : Setting)
| PAudit (l : list AuditEntry) | PJobs (l : list ImportJob) | PJob (j : ImportJob)
| PModels (m : gmap bytes CachedModel) | PGrouped (g : GroupedListing) | PStats (used quota free entries : Z)
| PPurge (r : PurgeResult)
| PConfig (issuer clientID redirectURI : bytes) (scopes : list bytes) | PCsrf (csrf : bytes)
| PLogin (cookie csrf userID email role : bytes) (expires : Z).

(** [rp_replay]: the X-Pulsys-Idempotent-Replay header is set. *)
Record admin_reply := mkReply { rp_status : Z; rp_body : payload; rp_replay : bool }.

Definition writeError (status : Z) (msg : string) : admin_reply := mkReply status (PError (bs msg)) false.
Definition writeJSON (status : Z) (v : payload) : admin_reply := mkReply status v false.
Definition noContent : admin_reply := mkReply 204 PEmpty false.

(** The metadata of an audit row, before it is encoded. *)
Inductive audit_meta :=
| MRequest (method path : bytes) (status : Z)
| MImport (job : Z) (repo rev : bytes)
| MJob (id : bytes)
| MPurge (r : PurgeResult) (org name : bytes).

Definition queryLimit (r : admin_req) (def : Z) : Z :=
  let s := query_get (bs "limit") (rq_query r) in
  if beq s [] then def
  else match ParseInt s with Some n => if n >? 0 then n else def | None => def end.

(** net.SplitHostPort, its host. *)
Definition SplitHost (hostport : bytes) : option bytes :=
  match LastIndexByte hostport 58 with
  | None => None
  | Some i =>
      let hp := match hostport with
                | 91 :: _ =>
                    match IndexByte hostport 93 with
                    | Some e => if (S e =? i)%nat then Some (take (e - 1) (drop 1 hostport), drop 1 hostport, drop (S e) hostport) else None
                    | None => None
                    end
                | _ =>
                    let host := take i hostport in
                    match IndexByte host 58 with Some _ => None | None => Some (host, hostport, hostport) end
                end in
      match hp with
      | Some (host, j, k) => match IndexByte j 91, IndexByte k 93 with None, None => Some host | _, _ => None end
      | None => None
      end
  end.

Definition clientIP (r : admin_req) : bytes :=
  if negb (beq (rq_xff r) []) then
    match IndexByte (rq_xff r) 44 with
    | Some i => TrimSpace (take i (rq_xff r))
    | None => TrimSpace (rq_xff r)
    end
  else match SplitHost (rq_remote r) with Some host => host | None => rq_remote r end.

(** ** The audit middleware's tables *)

Definition actor_type (t : ActorType) : bytes :=
  match t with NoActor | ActorUser => bs "user" | ActorToken => bs "token" | ActorSystem => bs "system" end.

Definition actorIDPtr (a : Actor) : option bytes :=
  match a_Type a with
  | ActorUser => nullString (a_UserID a)
  | ActorToken => nullString (a_TokenID a)
  | _ => None
  end.

Definition api_prefix : bytes := bs "/admin/api/v1/".

Definition shouldAudit (method path : bytes) : bool :=
  if beq method (bs "DELETE") && beq path (bs "/admin/api/v1/models/cache") then false
  else if negb (bool_decide (method ∈ [bs "POST"; bs "PUT"; bs "DELETE"; bs "PATCH"])) then false
  else if HasPrefix path api_prefix then true
  else bool_decide (path ∈ [bs "/auth/session"; bs "/auth/logout"]).

(** The action and the resource of the row. *)
Definition mapAction (method path : bytes) : bytes * bytes :=
  let post := beq method (bs "POST") in
  let del := beq method (bs "DELETE") in
  let sub := TrimPrefix path (bs "/admin/") in
  if post && beq path (bs "/admin/api/v1/tokens") then (bs "token.create", bs "tokens")
  else if del && HasPrefix path (bs "/admin/api/v1/tokens/") then (bs "token.revoke", sub)
  else if beq method (bs "PUT") && HasPrefix path (bs "/admin/api/v1/settings/")
       then (bs "settings.update", TrimPrefix path (bs "/admin/api/v1/settings/"))
  else if post && beq path (bs "/admin/api/v1/imports") then (bs "import.create", bs "imports")
  else if post && HasPrefix path (bs "/admin/api/v1/imports/") && HasSuffix path (bs "/cancel") then (bs "import.cancel", sub)
  else if del && HasPrefix path (bs "/admin/api/v1/imports/") then (bs "import.delete", sub)
  else if post && beq path (bs "/auth/session") then (bs "auth.session.create", bs "sessions")
  else if post && beq path (bs "/auth/logout") then (bs "auth.session.revoke", bs "sessions")
  else if HasPrefix path api_prefix then (bs "admin.mutate", sub)
  else ([], []).

Definition outcomeForStatus (status : Z) : bytes :=
  if (200 <=? status) && (status <? 300) then bs "success"
  else if (status =? 401) || (status =? 403) then bs "denied"
  else bs "failure".

(** ** Routes *)

Inductive endpoint :=
| EGetTenant | EListUsers | EListTokens | ECreateToken | ERevokeToken (id : bytes) | EListSettings
| EPutSetting (scope key : bytes) | EListAudit | EListImports | ECreateImport | EGetImport (id : bytes)
| ECancelImport (id : bytes) | EForceCancelImport (id : bytes) | EDeleteImport (id : bytes)
| EListModels | EListModelsGrouped | ECacheStats | EPurge.

(** The patterns of a path below /admin/api/v1/, by method: role, scope,
    handler.  A wildcard matches one non-empty segment. *)
Definition Mount (method : bytes) (segs : list bytes) : option (bytes * bytes * endpoint) :=
  let get := bool_decide (method ∈ [bs "GET"; bs "HEAD"]) in
  let post := beq method (bs "POST") in
  let del := beq method (bs "DELETE") in
  let reads (e : endpoint) := Some (RoleReader, bs "admin:read", e) in
  let writes (e : endpoint) := Some (RoleAdmin, bs "admin:write", e) in
  match segs with
  | [a] =>
      if get && beq a (bs "tenant") then reads EGetTenant
      else if get && beq a (bs "users") then writes EListUsers
      else if get && beq a (bs "tokens") then Some (RoleMember, bs "admin:read", EListTokens)
      else if post && beq a (bs "tokens") then writes ECreateToken
      else if get && beq a (bs "settings") then reads EListSettings
      else if get && beq a (bs "audit") then reads EListAudit
      else if get && beq a (bs "imports") then reads EListImports
      else if post && beq a (bs "imports") then writes ECreateImport
      else if get && beq a (bs "models") then reads EListModels
      else None
  | [a; b] =>
      if beq b [] then None
      else if del && beq a (bs "tokens") then writes (ERevokeToken b)
      else if get && beq a (bs "imports") then reads (EGetImport b)
      else if del && beq a (bs "imports") then writes (EDeleteImport b)
      else if get && beq a (bs "models") && beq b (bs "grouped") then reads EListModelsGrouped
      else if get && beq a (bs "cache") && beq b (bs "stats") then reads ECacheStats
      else if del && beq a (bs "models") && beq b (bs "cache") then writes EPurge
      else None
  | [a; b; c] =>
      if beq b [] || beq c [] then None
      else if beq method (bs "PUT") && beq a (bs "settings") then writes (EPutSetting b c)
      else if post && beq a (bs "imports") && beq c (bs "cancel") then writes (ECancelImport b)
      else if post && beq a (bs "imports") && beq c (bs "force-cancel") then writes (EForceCancelImport b)
      else None
  | _ => None
  end.

(** ** Handlers *)

(** What a request meets: the clocks of the service and of the database, the
    uuid and the entropy drawn, and which steps fail: the lookups and the touch
    of the authentication, the handler's statements (with the text of the error),
    the two audit inserts, the
    scan of the cache directory ([None]) and the purge. *)
Record admin_env := mkEnv {
  e_gonow : Z; e_now : Z; e_id : bytes; e_rand : entropy; e_rand' : entropy;
  e_auth : bool; e_auth' : bool; e_touch : bool;
  e_stmt : bool; e_stmt' : bool; e_errtext : bytes; e_haudit : bool; e_audit : bool;
  e_scan : option (list (option Meta)); e_free : Z;
  e_faults : faults; e_rmerr : bool; e_order : list bytes;
}.

Definition allowedTokenScopes : list bytes :=
  [bs "models:read"; bs "models:write"; bs "admin:read"; bs "admin:write"; bs "admin:*"].

(** Durations are int64 nanoseconds. *)
Definition Second : Z := 1000000000.
Definition maxTokenTTL : Z := 366 * 24 * 3600 * Second.

(** The cases of expires_in_seconds: the error, or the time added. *)
Definition token_ttl (secs : Z) : result string Z :=
  if secs =? 0 then Err "expires_in_seconds: omit the field for no expiry; 0 is ambiguous"%string
  else if secs <? 0 then Err "expires_in_seconds: must be positive"%string
  else if (wrap64 (secs * Second) >? maxTokenTTL) || (secs >? maxTokenTTL / Second)
       then Err "expires_in_seconds: exceeds 366 days"%string
  else Ok (wrap64 (secs * Second)).

Section Api.
Context `{PgTypes, GoUnicode} {Q : Type} `{River Q} {C : Type} `{MetaCache C} (marshal : audit_meta → bytes).

(** [ad_jobs]: absent when no queue is wired; [ad_pat]: the gate's cache. *)
Record admin := mkAdmin {
  ad_db : db;
  ad_jobs : option Q;
  ad_pat : option pat_cache;
  ad_cache : option (Store C);
}.

Definition set_db (s : admin) d := mkAdmin d (ad_jobs s) (ad_pat s) (ad_cache s).
Definition set_jobs (s : admin) q := mkAdmin (ad_db s) (Some q) (ad_pat s) (ad_cache s).
Definition set_pat (s : admin) c := mkAdmin (ad_db s) (ad_jobs s) c (ad_cache s).
Definition set_cache (s : admin) c := mkAdmin (ad_db s) (ad_jobs s) (ad_pat s) (Some c).

Implicit Types (e : admin_env) (r : admin_req) (actor : Actor) (s : admin).

(** The handlers' own audit rows. *)
Definition insertAudit e r actor (action resource outcome : bytes) (meta : audit_meta) s : admin :=
  let actorID := if negb (beq (a_UserID actor) []) then Some (a_UserID actor) else nullString (a_TokenID actor) in
  set_db s (InsertAudit (e_haudit e) (e_now e) (a_TenantID actor) (actor_type (a_Type actor)) actorID action resource outcome
              (marshal meta) (clientIP r) (rq_agent r) (ad_db s)).2.

Definition getTenant e actor s : admin_reply :=
  match GetTenant (e_stmt e) (a_TenantID actor) (ad_db s) with
  | Ok t => writeJSON 200 (PTenant t)
  | Err SErrNotFound => writeError 404 "tenant not found"
  | Err _ => mkReply 404 (PError (e_errtext e)) false
  end.

Definition listUsers e r actor s : admin_reply :=
  match ListUsers (e_stmt e) (a_TenantID actor) (queryLimit r 100) (ad_db s) with
  | Some l => writeJSON 200 (PUsers l)
  | None => writeError 500 "failed to list users"
  end.

Definition listTokens e r actor s : admin_reply :=
  match ListTokens (e_stmt e) (a_TenantID actor) (queryLimit r 100) (ad_db s) with
  | Some l => writeJSON 200 (PTokens l)
  | None => writeError 500 "failed to list tokens"
  end.

(** The end of [createToken], after the checks of the request. *)
Definition mint_token e actor (name : bytes) (scopes : list bytes) (expires : option Z) s : admin_reply * admin :=
  match GeneratePAT (e_rand e) (e_rand' e) with
  | None => (writeError 500 "failed to generate token", s)
  | Some (display, prefix, hash) =>
      let owner := match a_Type actor with ActorToken => [] | _ => a_UserID actor end in
      match CreateToken (e_stmt e) (e_now e) (e_id e) (a_TenantID actor) owner name prefix hash scopes expires (ad_db s) with
      | (None, d) => (writeError 500 "failed to create token", set_db s d)
      | (Some (id, t), d) => (writeJSON 201 (PCreated id t display), set_db s d)
      end
  end.

Definition createToken e r actor s : admin_reply * admin :=
  match rq_token r with
  | None => (writeError 400 "name required", s)
  | Some req =>
      if beq (ct_Name req) [] then (writeError 400 "name required", s)
      else
        let scopes := match ct_Scopes req with [] => [bs "models:read"] | l => l end in
        match List.find (fun sc => negb (bool_decide (sc ∈ allowedTokenScopes))) scopes with
        | Some sc => (mkReply 400 (PError (bs "scope not allowed: " ++ sc)) false, s)
        | None =>
            match ct_ExpiresIn req with
            | None => mint_token e actor (ct_Name req) scopes None s
            | Some secs =>
                match token_ttl secs with
                | Err msg => (writeError 400 msg, s)
                | Ok ttl => mint_token e actor (ct_Name req) scopes (Some (e_gonow e + ttl)) s
                end
            end
        end
  end.

Definition revokeToken e (id : bytes) actor s : admin_reply * admin :=
  if beq id [] then (writeError 400 "missing token id", s)
  else match RevokeToken (e_stmt e) (e_stmt' e) (e_now e) (a_TenantID actor) id (ad_db s) with
       | (Err SErrTokenNotFound, d) => (writeError 404 "token not found", set_db s d)
       | (Err _, d) => (writeError 500 "revoke failed", set_db s d)
       | (Ok (hash, alreadyRevoked), d) =>
           (mkReply 204 PEmpty alreadyRevoked,
            set_pat (set_db s d) (match ad_pat s with Some c => Some (InvalidateByHash c hash) | None => None end))
       end.

Definition listSettings e r actor s : admin_reply :=
  match ListSettings (e_stmt e) (a_TenantID actor) (query_get (bs "scope") (rq_query r)) (ad_db s) with
  | Some l => writeJSON 200 (PSettings l)
  | None => writeError 500 "failed to list settings"
  end.

Definition putSetting e r (scope key : bytes) actor s : admin_reply * admin :=
  if beq scope [] || beq key [] then (writeError 400 "scope and key required", s)
  else match rq_setting r with
       | None => (writeError 400 "invalid json", s)
       | Some req =>
           if ps_Version req <? 0 then (writeError 400 "version: must be >= 0", s)
           else match UpsertSetting (e_stmt e) (e_now e) (a_TenantID actor) scope key (ps_Value req) (ps_Version req)
                        (a_UserID actor) (ad_db s) with
                | (Err SErrConflict, d) => (writeError 409 "setting version conflict", set_db s d)
                | (Err _, d) => (writeError 500 "settings write failed", set_db s d)
                | (Ok st, d) => (writeJSON 200 (PSetting scope key st), set_db s d)
                end
       end.

Definition listAudit e r actor s : admin_reply :=
  match ListAudit (e_stmt e) (a_TenantID actor) (queryLimit r 100) (ad_db s) with
  | Some l => writeJSON 200 (PAudit l)
  | None => writeError 500 "failed to list audit"
  end.

Definition unavailable : admin_reply := writeError 503 "import service unavailable".

Definition createImport e r actor s : admin_reply * admin :=
  match ad_jobs s with
  | None => (unavailable, s)
  | Some q =>
      match rq_import r with
      | None => (writeError 400 "invalid json", s)
      | Some req =>
          let repo := TrimSpace (ci_RepoID req) in
          let rev := TrimSpace (ci_Revision req) in
          if beq repo [] then (writeError 400 "repo_id required", s)
          else if negb (validHFRepoID repo) then (writeError 400 "invalid repo_id", s)
          else
            let rev := if beq rev [] then bs "main" else rev in
            if negb (validHFRevision rev) then (writeError 400 "invalid revision", s)
            else
              let createdBy := match a_Type actor with ActorToken => [] | _ => a_UserID actor end in
              match CreateImportJob (e_now e) (a_TenantID actor) createdBy ImportJobTypeHFCacheImport
                      (mkSpec repo rev (bs "models")) q with
              | (Ok (id, Some job), q) =>
                  (writeJSON 201 (PJob job),
                   insertAudit e r actor (bs "import.create") (bs "imports/" ++ FormatInt id) (bs "success")
                     (MImport id repo rev) (set_jobs s q))
              | (_, q) => (writeError 500 "failed to create import", set_jobs s q)
              end
      end
  end.

Definition listImports r actor s : admin_reply :=
  match ad_jobs s with
  | None => unavailable
  | Some q =>
      match ListImportJobs (a_TenantID actor) (queryLimit r 100) q with
      | Ok l => writeJSON 200 (PJobs l)
      | Err _ => writeError 500 "failed to list imports"
      end
  end.

Definition getImport (id : bytes) actor s : admin_reply :=
  match ad_jobs s with
  | None => unavailable
  | Some q =>
      if beq id [] then writeError 400 "missing import id"
      else match GetImportJob (a_TenantID actor) id q with
           | Ok job => writeJSON 200 (PJob job)
           | Err ErrImportJobNotFound => writeError 404 "import not found"
           | Err _ => writeError 500 "failed to get import"
           end
  end.

(** The part cancelImport and forceCancelImport share: the operation on the
    queue, its errors, the audit row. *)
Definition job_change e r (id : bytes) actor s (change : Q → option job_error * Q) (running : bool) (action : bytes) (failed : string)
    : admin_reply * admin :=
  match ad_jobs s with
  | None => (unavailable, s)
  | Some q =>
      if beq id [] then (writeError 400 "missing import id", s)
      else match change q with
           | (Some ErrImportJobNotFound, q) => (writeError 404 "import not found", set_jobs s q)
           | (Some ErrImportJobRunning, q) =>
               (if running then writeError 409 "import is running; cancel before delete" else writeError 500 failed, set_jobs s q)
           | (Some _, q) => (writeError 500 failed, set_jobs s q)
           | (None, q) => (noContent, insertAudit e r actor action (bs "imports/" ++ id) (bs "success") (MJob id) (set_jobs s q))
           end
  end.

Definition cancelImport e r (id : bytes) actor s : admin_reply * admin :=
  job_change e r id actor s (CancelImportJob (e_now e) (a_TenantID actor) id) false (bs "import.cancel") "cancel failed".

Definition forceCancelImport e r (id : bytes) actor s : admin_reply * admin :=
  job_change e r id actor s (ForceCancelImportJob (e_now e) (a_TenantID actor) id) false (bs "import.force_cancel")
    "force-cancel failed".

Definition deleteImport e r (id : bytes) actor s : admin_reply * admin :=
  job_change e r id actor s (DeleteImportJob (a_TenantID actor) id) true (bs "import.delete") "delete failed".

Definition listModels e r : admin_reply :=
  match e_scan e with
  | Some entries => writeJSON 200 (PModels (ListFromCache (queryLimit r 500) entries))
  | None => writeError 500 "failed to scan cache"
  end.

(** The files of a group are not listed. *)
Definition listModelsGrouped e r : admin_reply :=
  match e_scan e with
  | Some entries => writeJSON 200 (PGrouped (ListGroupedFromCache (queryLimit r 500) entries))
  | None => writeError 500 "failed to scan cache"
  end.

Definition cacheStats e s : admin_reply :=
  match ad_cache s with
  | None => writeError 503 "cache store unavailable"
  | Some c => let '(used, quota, entries) := Stats c in writeJSON 200 (PStats used quota (e_free e) entries)
  end.

(** The whole handler around [Models.purgeCacheByPrefix]. *)
Definition purgeCache e r actor s : admin_reply * admin :=
  match ad_cache s with
  | None => (writeError 503 "cache store unavailable", s)
  | Some c =>
      match rq_purge r with
      | None => (writeError 400 "invalid json", s)
      | Some req =>
          let '((status, res), c) := purgeCacheByPrefix (e_faults e) (e_rmerr e) (e_order e) c (pr_Org req) (pr_Name req) in
          if status =? 200 then
            (writeJSON 200 (PPurge res),
             insertAudit e r actor (bs "cache.purge") (pr_Org req ++ bs "/" ++ pr_Name req) (bs "success")
               (MPurge res (pr_Org req) (pr_Name req)) (set_cache s c))
          else if status =? 500 then (writeError 500 "purge failed", set_cache s c)
          else (writeError 400 (if beq (pr_Org req) [] || beq (pr_Name req) [] then "org and name required"
                                else if negb (validHFNameSegment (pr_Org req)) then "invalid org segment" else "invalid name segment"), s)
      end
  end.

Definition handle (ep : endpoint) e r actor s : admin_reply * admin :=
  match ep with
  | EGetTenant => (getTenant e actor s, s)
  | EListUsers => (listUsers e r actor s, s)
  | EListTokens => (listTokens e r actor s, s)
  | ECreateToken => createToken e r actor s
  | ERevokeToken id => revokeToken e id actor s
  | EListSettings => (listSettings e r actor s, s)
  | EPutSetting scope key => putSetting e r scope key actor s
  | EListAudit => (listAudit e r actor s, s)
  | EListImports => (listImports r actor s, s)
  | ECreateImport => createImport e r actor s
  | EGetImport id => (getImport id actor s, s)
  | ECancelImport id => cancelImport e r id actor s
  | EForceCancelImport id => forceCancelImport e r id actor s
  | EDeleteImport id => deleteImport e r id actor s
  | EListModels => (listModels e r, s)
  | EListModelsGrouped => (listModelsGrouped e r, s)
  | ECacheStats => (cacheStats e s, s)
  | EPurge => purgeCache e r actor s
  end.

(** ** The chain *)

(** The auth store over the tables. *)
Definition pg_store (x x' : bool) (now : Z) (d : db) : AuthStore :=
  mkAuthStore
    (fun plain => match pg_LookupSession x x' now plain d with
                  | Ok ((_, se), (uid, u)) => Ok (se_csrf se, mkUser (us_tenant u) uid (us_role u) (us_email u))
                  | Err er => Err er
                  end)
    (fun plain => match pg_LookupAPIToken x now plain d with
                  | Ok (id, t) => Ok (mkToken (tk_tenant t) id (default [] (tk_owner t)) (tk_scopes t))
                  | Err er => Err er
                  end).

Definition default_session_ttl : Z := 8 * 3600 * Second.

(** [actorFromSession] touches the session it found. *)
Definition authenticate_touch e (http : HttpRequest) (d : db) : db :=
  match presented_pat http, q_SessionCookie http with
  | None, Some v =>
      if beq v [] then d
      else match pg_LookupSession (e_auth e) (e_auth' e) (e_now e) v d with
           | Ok ((sid, _), _) => TouchSession (e_touch e) (e_gonow e) (e_now e) sid default_session_ttl d
           | Err _ => d
           end
  | _, _ => d
  end.

(** [TenantName]: the configured slug. *)
Definition audit_tenant (TenantName : bytes) e r (d : db) : bytes :=
  let tid := query_get (bs "tenant_id") (rq_query r) in
  if negb (beq tid []) then tid
  else match GetTenantIDByName (e_auth e) (if beq TenantName [] then bs "default" else TenantName) d with
       | Ok id => id
       | Err _ => []
       end.

Definition record_audit (TenantName : bytes) e r actor (status : Z) s : admin :=
  let method := q_Method (rq_http r) in
  let path := q_Path (rq_http r) in
  let '(action, resource) := mapAction method path in
  if beq action [] then s
  else
    let tenantID := if beq (a_TenantID actor) [] then audit_tenant TenantName e r (ad_db s) else a_TenantID actor in
    if beq tenantID [] then s
    else set_db s (InsertAudit (e_audit e) (e_now e) tenantID (actor_type (a_Type actor)) (actorIDPtr actor) action resource
                     (outcomeForStatus status) (marshal (MRequest method path status)) (clientIP r) (rq_agent r) (ad_db s)).2.

(** The recorder takes the replay header off the reply. *)
Definition Wrap (TenantName : bytes) e r actor (next : admin → admin_reply * admin) s : admin_reply * admin :=
  if negb (shouldAudit (q_Method (rq_http r)) (q_Path (rq_http r))) then next s
  else
    let '(rep, s) := next s in
    let rep' := mkReply (rp_status rep) (rp_body rep) false in
    if rp_replay rep then (rep', s) else (rep', record_audit TenantName e r actor (rp_status rep) s).

Definition no_route (method : bytes) (segs : list bytes) : admin_reply :=
  mkReply (if existsb (fun m => bool_decide (is_Some (Mount m segs))) [bs "GET"; bs "POST"; bs "PUT"; bs "DELETE"]
           then 405 else 404) PEmpty false.

Definition admin_mux e r actor s : admin_reply * admin :=
  let http := rq_http r in
  match Mount (q_Method http) (rq_segs r) with
  | None => (no_route (q_Method http) (rq_segs r), s)
  | Some (minRole, scope, ep) =>
      match requireAccess minRole scope (fun _ a _ => Served a) http actor [] with
      | Refused status => (writeError status (if status =? 401 then "unauthenticated" else "forbidden"), s)
      | Served _ => handle ep e r actor s
      end
  end.

Definition admin_serve (TenantName : bytes) e r s : admin_reply * admin :=
  let http := rq_http r in
  let s' := set_db s (authenticate_touch e http (ad_db s)) in
  match Middleware (pg_store (e_auth e) (e_auth' e) (e_now e) (ad_db s))
          (CSRFProtect (requireAuthenticated (fun _ a _ => Served a))) http with
  | Refused status => (mkReply status PEmpty false, s')
  | Served actor => Wrap TenantName e r actor (admin_mux e r actor) s'
  end.

(** The data plane's gate for one token, when no other request runs between
    its steps. *)
Definition gate_check (x : bool) (now ttl : Z) (tok : bytes) s : bool * admin :=
  match ad_pat s with
  | None => (false, s)
  | Some c =>
      if negb (IsPAT tok) then (false, s)
      else
        let '(hit, c) := lookupCached now c tok in
        if hit then (true, set_pat s (Some c))
        else match pg_LookupAPIToken x now tok (ad_db s) with
             | Ok _ => (true, set_pat s (Some (storeCached now ttl c tok)))
             | Err _ => (false, set_pat s (Some c))
             end
  end.

End Api.

Arguments admin : clear implicits.

(** ** Secrets are bearer tokens *)

Definition draws_bytes (rand : entropy) : Prop := ∀ n b, rand n = Some b → Forall is_byte b ∧ length b = n.

Lemma url64_char_visible v : 0 ≤ v < 64 → visible (url64_char v).
Proof. intros Hv. unfold url64_char, visible. repeat case_match; lia. Qed.

Lemma RawURLEncode_visible s : Forall is_byte s → Forall visible (RawURLEncode s).
Proof.
  induction s as [s IH] using (induction_ltof1 _ length). unfold ltof in IH.
  destruct s as [|a [|b [|c s]]]; intros Hs; cbn [RawURLEncode];
    repeat match goal with Hs : Forall _ (_ :: _) |- _ => apply Forall_cons in Hs as [? Hs] end;
    unfold is_byte in *; repeat (apply Forall_cons; split); try (apply url64_char_visible; Z.to_euclidean_division_equations; lia); try done.
  apply IH; [cbn; lia|done].
Qed.

Lemma hex_encode_visible s : Forall is_byte s → Forall visible (hex_encode s).
Proof.
  induction 1 as [|c s Hc Hs IH]; [done|]. cbn [hex_encode]. unfold is_byte in Hc.
  assert (∀ d, 0 ≤ d < 16 → visible (hex_digit d)) as Hd by (intros d ?; unfold hex_digit, visible; case_match; lia).
  repeat (apply Forall_cons; split); [apply Hd; Z.to_euclidean_division_equations; lia..|done].
Qed.

Lemma GeneratePAT_inv rand rand' display prefix hash :
  draws_bytes rand → draws_bytes rand' → GeneratePAT rand rand' = Some (display, prefix, hash) →
  hash = TokenHash display ∧ IsPAT display = true ∧ Forall visible display ∧ display ≠ [].
Proof.
  intros Hr Hr'. unfold GeneratePAT, RandomToken. cbv zeta. cbn [Nat.ltb Nat.leb].
  destruct (rand 32%nat) as [b|] eqn:Eb; [|done]. destruct (rand' 4%nat) as [b'|] eqn:Eb'; [|done].
  intros E. apply Some_inj, pair_eq in E as [[<- <-]%pair_eq <-]. apply Hr in Eb as [Eb _]. apply Hr' in Eb' as [Eb' _].
  split_and!; [done|..].
  - unfold IsPAT. apply HasPrefix_app.
  - assert (Forall visible patPrefix ∧ Forall visible (bs "_")) as [Hp Hs]
      by (split; repeat constructor; vm_compute; done).
    apply Forall_app; split; [done|]. apply Forall_app; split; [by apply hex_encode_visible|].
    apply Forall_app; split; [done|]. by apply RawURLEncode_visible.
  - done.
Qed.

Lemma ParseBearer_visible tok : Forall visible tok → tok ≠ [] → ParseBearer (bs "Bearer " ++ tok) = Some tok.
Proof.
  intros Hv Hn. unfold ParseBearer. cbv zeta. rewrite length_app.
  assert (length (bs "Bearer ") = 7%nat) as -> by reflexivity.
  destruct (_ <? _)%nat eqn:E; [apply Nat.ltb_lt in E; lia|]. clear E.
  rewrite take_app_length', drop_app_length' by done. rewrite TrimSpace_visible by done.
  change (negb (scheme_matches (bs "Bearer ") (bs "Bearer "))) with false. cbn [orb].
  by rewrite (proj2 (beq_false _ _) Hn).
Qed.

(** ** What a request does to the tables *)

(** An operation on the rows of one tenant, or on the caller's session. *)
Definition tenant_op (T : bytes) (op : db_op) : Prop :=
  match op with
  | OCreateToken _ _ _ tenant _ _ _ _ _ _ => tenant = T
  | ORevokeToken _ _ _ tenant _ => tenant = T
  | OUpsertSetting _ _ tenant _ _ _ _ _ => tenant = T
  | OInsertAudit _ _ tenant _ _ _ _ _ _ _ _ => tenant = T
  | OTouchSession _ _ _ _ _ => True
  | _ => False
  end.

Definition revokes (id : bytes) (op : db_op) : Prop := ∃ x x' now tenant, op = ORevokeToken x x' now tenant id.

(** The operations a handler may run: those of its tenant, and no revocation
    but that of the token its path names. *)
Definition handler_op (T : bytes) (ep : endpoint) (op : db_op) : Prop :=
  tenant_op T op ∧ ∀ id, revokes id op → ep = ERevokeToken id.

Section ApiFacts.
Context `{PgTypes, GoUnicode} {Q : Type} `{River Q} {C : Type} `{MetaCache C} (marshal : audit_meta → bytes).
Implicit Types (e : admin_env) (r : admin_req) (actor : Actor) (s : admin Q C).

(** The state changed by operations satisfying [P], and the gate's cache by
    forgetting entries. *)
Definition ran (P : db_op → Prop) s s' : Prop :=
  (∃ ops, ad_db s' = db_run (ad_db s) ops ∧ Forall P ops)
  ∧ match ad_pat s' with Some c' => ∃ c, ad_pat s = Some c ∧ c' ⊆ c | None => ad_pat s = None end.

Lemma ran_same P s s' : ad_db s' = ad_db s → ad_pat s' = ad_pat s → ran P s s'.
Proof.
  intros Hd Hp. split; [exists []; by split|]. rewrite Hp. destruct (ad_pat s) as [c|]; [by exists c|done].
Qed.

Lemma ran_trans P s s' s'' : ran P s s' → ran P s' s'' → ran P s s''.
Proof.
  intros [(ops & Hd & Ho) Hp] [(ops' & Hd' & Ho') Hp']. split.
  - exists (ops ++ ops'). split; [by unfold db_run in *; rewrite Hd', Hd, foldl_app|]. by apply Forall_app.
  - destruct (ad_pat s'') as [c''|].
    + destruct Hp' as (c' & E & Hs). rewrite E in Hp. destruct Hp as (c & ? & ?). exists c. split; [done|]. by etrans.
    + by rewrite Hp' in Hp.
Qed.

Lemma ran_mono (P P' : db_op → Prop) s s' : (∀ op, P op → P' op) → ran P s s' → ran P' s s'.
Proof.
  intros HP [(ops & Hd & Ho) Hp]. split; [|done]. exists ops. split; [done|]. by eapply Forall_impl.
Qed.

Lemma ran_refl P s : ran P s s.
Proof. by apply ran_same. Qed.

Lemma ran_step P s s' op : ad_db s' = db_step (ad_db s) op → ad_pat s' = ad_pat s → P op → ran P s s'.
Proof.
  intros Hd Hp Hop. split.
  - exists [op]. split; [done|]. by apply Forall_singleton.
  - rewrite Hp. destruct (ad_pat s) as [c|]; [by exists c|done].
Qed.

Lemma ran_jobs P s q s' : ran P (set_jobs s q) s' → ran P s s'.
Proof. done. Qed.

Lemma ran_cache P s c s' : ran P (set_cache s c) s' → ran P s s'.
Proof. done. Qed.

Lemma insertAudit_ran ep e r actor action resource outcome meta s :
  ran (handler_op (a_TenantID actor) ep) s (insertAudit marshal e r actor action resource outcome meta s).
Proof.
  by eapply (ran_step _ _ _ (OInsertAudit _ _ (a_TenantID actor) _ _ _ _ _ _ _ _)); [..|split; [|intros id (?&?&?&?&?)]].
Qed.

Lemma mint_token_ran e actor name scopes expires s :
  ran (handler_op (a_TenantID actor) ECreateToken) s (mint_token e actor name scopes expires s).2.
Proof.
  unfold mint_token. destruct (GeneratePAT _ _) as [[[display prefix] hash]|]; [|apply ran_refl]. cbv zeta.
  set (owner := match a_Type actor with ActorToken => _ | _ => _ end).
  eapply (ran_step _ _ _ (OCreateToken (e_stmt e) (e_now e) (e_id e) (a_TenantID actor) owner name prefix hash scopes expires));
    [| |split; [done|by intros id (?&?&?&?&?)]]; cbn [db_step]; by destruct (CreateToken _ _ _ _ _ _ _ _ _ _ _) as [[[id t]|] d].
Qed.

Lemma createToken_ran e r actor s : ran (handler_op (a_TenantID actor) ECreateToken) s (createToken e r actor s).2.
Proof.
  unfold createToken. destruct (rq_token r) as [req|]; [|apply ran_refl]. destruct (beq _ _); [apply ran_refl|]. cbv zeta.
  destruct (List.find _ _); [apply ran_refl|]. destruct (ct_ExpiresIn req) as [secs|]; [|apply mint_token_ran].
  destruct (token_ttl secs); [apply mint_token_ran|apply ran_refl].
Qed.

Lemma putSetting_ran e r scope key actor s : ran (handler_op (a_TenantID actor) (EPutSetting scope key)) s (putSetting e r scope key actor s).2.
Proof.
  unfold putSetting. destruct (_ || _); [apply ran_refl|]. destruct (rq_setting r) as [req|]; [|apply ran_refl].
  destruct (_ <? _); [apply ran_refl|].
  eapply (ran_step _ _ _ (OUpsertSetting (e_stmt e) (e_now e) (a_TenantID actor) scope key (ps_Value req) (ps_Version req) (a_UserID actor)));
    [| |split; [done|by intros id (?&?&?&?&?)]]; cbn [db_step];
    by destruct (UpsertSetting _ _ _ _ _ _ _ _ _) as [[st|[]] d].
Qed.

Lemma job_change_ran ep e r id actor s change running action failed :
  ran (handler_op (a_TenantID actor) ep) s (job_change marshal e r id actor s change running action failed).2.
Proof.
  unfold job_change. destruct (ad_jobs s) as [q|]; [|apply ran_refl]. destruct (beq _ _); [apply ran_refl|].
  destruct (change q) as [[[]|] q']; try (apply ran_jobs with q', ran_refl).
  apply ran_jobs with q'. apply insertAudit_ran.
Qed.

Lemma createImport_ran e r actor s : ran (handler_op (a_TenantID actor) ECreateImport) s (createImport marshal e r actor s).2.
Proof.
  unfold createImport. destruct (ad_jobs s) as [q|]; [|apply ran_refl]. destruct (rq_import r) as [req|]; [|apply ran_refl].
  cbv zeta. destruct (beq _ _); [apply ran_refl|]. destruct (negb _); [apply ran_refl|].
  destruct (negb (validHFRevision _)); [apply ran_refl|].
  destruct (CreateImportJob _ _ _ _ _ q) as [[[id [job|]]|er] q']; apply ran_jobs with q'; [apply insertAudit_ran|apply ran_refl..].
Qed.

Lemma purgeCache_ran e r actor s : ran (handler_op (a_TenantID actor) EPurge) s (purgeCache marshal e r actor s).2.
Proof.
  unfold purgeCache. destruct (ad_cache s) as [c|]; [|apply ran_refl]. destruct (rq_purge r) as [req|]; [|apply ran_refl].
  destruct (purgeCacheByPrefix _ _ _ _ _ _) as [[status res] c']. destruct (_ =? 200).
  - apply ran_cache with c'. apply insertAudit_ran.
  - destruct (_ =? 500); [apply ran_cache with c', ran_refl|apply ran_refl].
Qed.

Lemma InvalidateByHash_sub c hash : InvalidateByHash c hash ⊆ c.
Proof. unfold InvalidateByHash. destruct (negb _); [done|apply delete_subseteq]. Qed.

Lemma revokeToken_ran e id actor s : ran (handler_op (a_TenantID actor) (ERevokeToken id)) s (revokeToken e id actor s).2.
Proof.
  unfold revokeToken. destruct (beq _ _); [apply ran_refl|].
  destruct (RevokeToken _ _ _ _ _ _) as [res d] eqn:E.
  assert (d = db_step (ad_db s) (ORevokeToken (e_stmt e) (e_stmt' e) (e_now e) (a_TenantID actor) id)) as Ed
    by by cbn [db_step]; rewrite E.
  assert (handler_op (a_TenantID actor) (ERevokeToken id)
            (ORevokeToken (e_stmt e) (e_stmt' e) (e_now e) (a_TenantID actor) id)) as Hop
    by (split; [done|]; intros id' (x & x' & now & tn & E'); by injection E' as _ _ _ _ ->).
  destruct res as [[hash b]|[]]; try (by eapply ran_step; [|..|exact Hop]).
  split; [by exists [ORevokeToken (e_stmt e) (e_stmt' e) (e_now e) (a_TenantID actor) id]; split; [|apply Forall_singleton]|].
  cbn. destruct (ad_pat s) as [c|]; [|done]. exists c. split; [done|apply InvalidateByHash_sub].
Qed.

Lemma handle_ran ep e r actor s : ran (handler_op (a_TenantID actor) ep) s (handle marshal ep e r actor s).2.
Proof.
  destruct ep; try apply ran_refl; [apply createToken_ran|apply revokeToken_ran|apply putSetting_ran|apply createImport_ran|
    apply job_change_ran|apply job_change_ran|apply job_change_ran|apply purgeCache_ran].
Qed.

(** What a request may run: operations of the caller's tenant, and no
    revocation but that of the token its path names. *)
Definition request_op (T : bytes) r (op : db_op) : Prop :=
  (T ≠ [] → tenant_op T op) ∧ ∀ id, revokes id op → ∃ role scope, Mount (q_Method (rq_http r)) (rq_segs r) = Some (role, scope, ERevokeToken id).

Lemma admin_mux_ran e r actor s : ran (request_op (a_TenantID actor) r) s (admin_mux marshal e r actor s).2.
Proof.
  unfold admin_mux. destruct (Mount _ _) as [[[role scope] ep]|] eqn:Em; [|apply ran_refl].
  destruct (requireAccess _ _ _ _ _ _); [|apply ran_refl].
  eapply ran_mono; [|apply handle_ran]. intros op [Hop Hr]. split; [done|]. intros id Hid. rewrite (Hr id Hid) in Em. by eauto.
Qed.

Lemma record_audit_ran TN e r actor status s : ran (request_op (a_TenantID actor) r) s (record_audit marshal TN e r actor status s).
Proof.
  unfold record_audit. destruct (mapAction _ _) as [action resource]. destruct (beq action []); [apply ran_refl|]. cbv zeta.
  destruct (beq (if beq _ _ then _ else _) []); [apply ran_refl|].
  eapply (ran_step _ _ _ (OInsertAudit _ _ _ _ _ _ _ _ _ _ _)); [done..|].
  split; [|by intros id (?&?&?&?&?)]. intros HT. cbn. by rewrite (proj2 (beq_false _ _) HT).
Qed.

Lemma Wrap_ran TN e r actor next s :
  ran (request_op (a_TenantID actor) r) s (next s).2 →
  ran (request_op (a_TenantID actor) r) s (Wrap marshal TN e r actor next s).2.
Proof.
  unfold Wrap. destruct (negb _); [done|]. destruct (next s) as [rep s']. destruct (rp_replay rep); [done|]. intros Hn.
  eapply ran_trans; [done|apply record_audit_ran].
Qed.

Lemma touch_ran (P : db_op → Prop) e http s :
  (∀ x gonow now id ttl, P (OTouchSession x gonow now id ttl)) →
  ran P s (set_db s (authenticate_touch e http (ad_db s))).
Proof.
  intros HP. unfold authenticate_touch. destruct (presented_pat http); [by apply ran_same|].
  destruct (q_SessionCookie http) as [v|]; [|by apply ran_same]. destruct (beq v []); [by apply ran_same|].
  destruct (pg_LookupSession _ _ _ _ _) as [[[sid se] us]|]; [|by apply ran_same].
  by eapply (ran_step _ _ _ (OTouchSession _ _ _ _ _)).
Qed.

(** The actor the chain lets through. *)
Definition admitted e r s : option Actor :=
  match Middleware (pg_store (e_auth e) (e_auth' e) (e_now e) (ad_db s))
          (CSRFProtect (requireAuthenticated (fun _ a _ => Served a))) (rq_http r) with
  | Served a => Some a
  | Refused _ => None
  end.

Lemma admin_serve_ran TN e r s :
  ran (request_op (from_option a_TenantID [] (admitted e r s)) r) s (admin_serve marshal TN e r s).2.
Proof.
  unfold admin_serve, admitted. cbv zeta.
  destruct (Middleware _ _ _) as [actor|status]; cbn [from_option].
  - eapply ran_trans; [apply touch_ran; by split; [|intros ? (?&?&?&?&?)]|]. apply Wrap_ran, admin_mux_ran.
  - apply touch_ran. by split; [|intros ? (?&?&?&?&?)].
Qed.
End ApiFacts.

(** ** Histories of the admin plane *)

(** A request, a check of the data plane's gate, or an operation of another
    part of the service (a login, the bootstrap). *)
Inductive event :=
| EvRequest (TN : bytes) (e : admin_env) (r : admin_req)
| EvGate (x : bool) (now ttl : Z) (tok : bytes)
| EvDb (op : db_op).

(** No event names this token in a revocation. *)
Definition spares (id : bytes) (ev : event) : Prop :=
  match ev with
  | EvRequest _ _ r => ∀ role scope, Mount (q_Method (rq_http r)) (rq_segs r) ≠ Some (role, scope, ERevokeToken id)
  | EvGate _ _ _ _ => True
  | EvDb op => ¬ revokes id op
  end.

Section Histories.
Context `{PgTypes, GoUnicode} {Q : Type} `{River Q} {C : Type} `{MetaCache C} (marshal : audit_meta → bytes).
Implicit Types (e : admin_env) (r : admin_req) (actor : Actor) (s : admin Q C) (h : list event).

Definition plane_step s (ev : event) : admin Q C :=
  match ev with
  | EvRequest TN e r => (admin_serve marshal TN e r s).2
  | EvGate x now ttl tok => (gate_check x now ttl tok s).2
  | EvDb op => set_db s (db_step (ad_db s) op)
  end.

Definition plane_run s h : admin Q C := foldl plane_step s h.

Lemma gate_check_db x now ttl tok s : ad_db (gate_check x now ttl tok s).2 = ad_db s.
Proof. unfold gate_check. repeat (case_match; try done). Qed.

Lemma gate_check_wired x now ttl tok s : is_Some (ad_pat s) → is_Some (ad_pat (gate_check x now ttl tok s).2).
Proof. unfold gate_check. intros Hp. repeat (case_match; try done). Qed.

Lemma plane_step_db s ev :
  ∃ ops, ad_db (plane_step s ev) = db_run (ad_db s) ops ∧ ∀ id, spares id ev → Forall (fun op => ¬ revokes id op) ops.
Proof.
  destruct ev as [TN e r|x now ttl tok|op]; cbn [plane_step].
  - destruct (admin_serve_ran marshal TN e r s) as [(ops & Hd & Ho) _]. exists ops. split; [done|].
    intros id Hsp. eapply Forall_impl; [exact Ho|]. intros op [_ Hr] Hid. destruct (Hr id Hid) as (role & scope & Hm).
    by destruct (Hsp role scope).
  - exists []. split; [apply gate_check_db|by constructor].
  - exists [op]. split; [done|]. intros id Hid. by apply Forall_singleton.
Qed.

Lemma plane_run_db h s :
  ∃ ops, ad_db (plane_run s h) = db_run (ad_db s) ops ∧ ∀ id, Forall (spares id) h → Forall (fun op => ¬ revokes id op) ops.
Proof.
  revert s. induction h as [|ev h IH]; intros s; [by exists []|].
  destruct (plane_step_db s ev) as (ops & Hd & Ho). destruct (IH (plane_step s ev)) as (ops' & Hd' & Ho').
  exists (ops ++ ops'). split.
  - change (plane_run s (ev :: h)) with (plane_run (plane_step s ev) h). unfold db_run in *. by rewrite foldl_app, Hd', Hd.
  - intros id [Hev Hh]%Forall_cons. apply Forall_app. by split; [apply Ho|apply Ho'].
Qed.

(** Whoever's token it is, the row is kept by operations that spare it. *)
Lemma run_token_spared ops d id t :
  db_tokens d !! id = Some t → Forall (fun op => ¬ revokes id op) ops → db_tokens (db_run d ops) !! id = Some t.
Proof.
  intros Ht Ho. apply run_token_kept; [done|]. eapply Forall_impl; [exact Ho|]. intros op Hn x x' now ->.
  apply Hn. by do 4 eexists.
Qed.

(** A reply that shows a secret is that of [createToken]. *)
Lemma handle_created ep e r actor s id t secret status b s' :
  handle marshal ep e r actor s = (mkReply status (PCreated id t secret) b, s') → ep = ECreateToken.
Proof.
  destruct ep; cbn [handle]; try done;
    unfold getTenant, listUsers, listTokens, revokeToken, listSettings, putSetting, listAudit, listImports, createImport, getImport,
      cancelImport, forceCancelImport, deleteImport, job_change, listModels, listModelsGrouped, cacheStats, purgeCache,
      unavailable, noContent, writeError, writeJSON; repeat (case_match; try done); intros [=].
Qed.

Lemma mint_token_inv e actor name scopes expires s id t secret status b s' :
  mint_token e actor name scopes expires s = (mkReply status (PCreated id t secret) b, s') →
  status = 201 ∧ b = false ∧ ∃ prefix hash owner, GeneratePAT (e_rand e) (e_rand' e) = Some (secret, prefix, hash)
    ∧ CreateToken (e_stmt e) (e_now e) (e_id e) (a_TenantID actor) owner name prefix hash scopes expires (ad_db s)
      = (Some (id, t), ad_db s') ∧ s' = set_db s (ad_db s').
Proof.
  unfold mint_token. destruct (GeneratePAT _ _) as [[[display prefix] hash]|]; [|done]. cbv zeta.
  set (owner := match a_Type actor with ActorToken => _ | _ => _ end).
  destruct (CreateToken _ _ _ _ _ _ _ _ _ _ _) as [[[id' t']|] d] eqn:E; [|done].
  intros [= <- <- <- <- <- <-]. split_and!; [done..|]. by exists prefix, hash, owner.
Qed.

Lemma scopes_checked scopes :
  List.find (fun sc => negb (bool_decide (sc ∈ allowedTokenScopes))) scopes = None → Forall (.∈ allowedTokenScopes) scopes.
Proof.
  intros Ef. apply Forall_forall. intros sc Hsc%list_elem_of_In. pose proof (find_none _ _ Ef sc Hsc) as E. cbv beta in E.
  apply negb_false_iff in E. by apply bool_decide_eq_true in E.
Qed.

Lemma createToken_inv e r actor s id t secret status b s' :
  createToken e r actor s = (mkReply status (PCreated id t secret) b, s') →
  ∃ req expires, rq_token r = Some req
    ∧ mint_token e actor (ct_Name req) (match ct_Scopes req with [] => [bs "models:read"] | l => l end) expires s
      = (mkReply status (PCreated id t secret) b, s')
    ∧ Forall (.∈ allowedTokenScopes) (match ct_Scopes req with [] => [bs "models:read"] | l => l end)
    ∧ match ct_ExpiresIn req with
      | None => expires = None
      | Some secs => ∃ ttl, token_ttl secs = Ok ttl ∧ expires = Some (e_gonow e + ttl)
      end.
Proof.
  unfold createToken. destruct (rq_token r) as [req|]; [|done]. destruct (beq _ _); [done|]. cbv zeta.
  set (scopes := match ct_Scopes req with [] => _ | _ => _ end).
  destruct (List.find _ scopes) eqn:Ef; [done|].
  apply scopes_checked in Ef as Hsc.
  destruct (ct_ExpiresIn req) as [secs|] eqn:Ee.
  - destruct (token_ttl secs) as [ttl|] eqn:Et; [|done]. intros E. exists req, (Some (e_gonow e + ttl)).
    rewrite Ee. split_and!; try done. by exists ttl.
  - intros E. exists req, None. by rewrite Ee.
Qed.
End Histories.

(** ** Minting *)

Lemma token_ttl_spec secs ttl :
  is_int64 secs → token_ttl secs = Ok ttl ↔ 1 ≤ secs ≤ 31622400 ∧ ttl = secs * Second.
Proof.
  intros Hi. unfold token_ttl. change maxTokenTTL with (31622400 * Second). change (31622400 * Second / Second) with 31622400.
  destruct (secs =? 0) eqn:E0; [apply Z.eqb_eq in E0; split; [done|lia]|]. apply Z.eqb_neq in E0.
  destruct (secs <? 0) eqn:E1; [apply Z.ltb_lt in E1; split; [done|lia]|]. apply Z.ltb_ge in E1.
  destruct (secs >? 31622400) eqn:E2.
  { rewrite orb_true_r. rewrite Z.gtb_lt in E2. split; [done|lia]. }
  rewrite orb_false_r. rewrite Z.gtb_ltb in E2. apply Z.ltb_ge in E2.
  assert (wrap64 (secs * Second) = secs * Second) as -> by (apply wrap64_id; unfold Second; zlia).
  destruct (_ >? _) eqn:E3; [apply Z.gtb_lt in E3; unfold Second in E3; lia|].
  split; [intros [= <-]; split; [lia|done]|by intros [_ ->]].
Qed.

Section Minting.
Context `{PgTypes, GoUnicode} {Q : Type} `{River Q} {C : Type} `{MetaCache C} (marshal : audit_meta → bytes).
Implicit Types (e : admin_env) (r : admin_req) (actor : Actor) (s : admin Q C) (h : list event).

Lemma ran_ok P s s' : ran P s s' → db_ok (ad_db s) → db_ok (ad_db s').
Proof. intros [(ops & -> & _) _] Hd. by apply db_run_ok. Qed.

(** What a 201 with a secret went through: the caller was admitted, the insert
    succeeded, and only the audit row came after it. *)
Lemma served_created TN e r s id t secret b s1 :
  db_ok (ad_db s) → admin_serve marshal TN e r s = (mkReply 201 (PCreated id t secret) b, s1) →
  ∃ actor s0 s0', admitted e r s = Some actor ∧ db_ok (ad_db s0)
    ∧ createToken e r actor s0 = (mkReply 201 (PCreated id t secret) false, s0')
    ∧ ran (fun op => ¬ revokes id op) s0' s1.
Proof.
  intros Hok. unfold admin_serve, admitted. cbv zeta.
  destruct (Middleware _ _ _) as [actor|status]; [|done]. set (s0 := set_db s _).
  assert (db_ok (ad_db s0)) as Hok0.
  { eapply ran_ok; [|exact Hok]. by apply (touch_ran (fun _ => True)). }
  intros E. exists actor, s0.
  assert (∃ s0' b', admin_mux marshal e r actor s0 = (mkReply 201 (PCreated id t secret) b', s0')
    ∧ ran (fun op => ¬ revokes id op) s0' s1) as (s0' & b' & Em & Hran).
  { revert E. unfold Wrap. destruct (negb _); [intros E; by exists s1, b; split; [|apply ran_refl]|].
    destruct (admin_mux marshal e r actor s0) as [[st body rep] s0']. cbn [rp_status rp_body rp_replay].
    destruct rep; intros [= -> -> _ <-]; [by exists s0', true; split; [|apply ran_refl]|].
    exists s0', false. split; [done|]. unfold record_audit. destruct (mapAction _ _) as [action resource].
    destruct (beq action []); [apply ran_refl|]. cbv zeta. destruct (beq (if beq _ _ then _ else _) []); [apply ran_refl|].
    eapply (ran_step _ _ _ (OInsertAudit _ _ _ _ _ _ _ _ _ _ _)); [done..|]. by intros (?&?&?&?&?). }
  revert Em. unfold admin_mux. destruct (Mount _ _) as [[[role scope] ep]|]; [|done].
  destruct (requireAccess _ _ _ _ _ _); [|done]. intros Em. pose proof (handle_created _ _ _ _ _ _ _ _ _ _ _ _ Em) as ->.
  cbn [handle] in Em. exists s0'. split_and!; try done.
  destruct (createToken_inv _ _ _ _ _ _ _ _ _ _ Em) as (req & ex & _ & Hm & _).
  by destruct (mint_token_inv _ _ _ _ _ _ _ _ _ _ _ _ Hm) as (_ & -> & _).
Qed.
End Minting.

(** a token works once minted: after a request answered 201 with a secret,
    and any history of requests, gate checks and other operations that does
    not revoke it, a request bearing the secret is, until the expiry the row
    has, the token's actor with the caller's tenant and the scopes stored, and
    the data plane's gate admits the secret. *)
Theorem minted_token_works `{PgTypes, GoUnicode} {Q} `{River Q} {C} `{MetaCache C} marshal TN e r (s : admin Q C) id t secret b s1
    h now ttl http :
  db_ok (ad_db s) → draws_bytes (e_rand e) → draws_bytes (e_rand' e) →
  admin_serve marshal TN e r s = (mkReply 201 (PCreated id t secret) b, s1) →
  Forall (spares id) h →
  match tk_expires t with Some x => pg_time now < x | None => True end →
  q_Authorization http = bs "Bearer " ++ secret →
  let s2 := plane_run marshal s1 h in
  ActorFromRequest (pg_store false false now (ad_db s2)) http
  = Ok (mkActor ActorToken (tk_tenant t) (default [] (tk_owner t)) id [] (tk_scopes t) [], [])
  ∧ Some (tk_tenant t) = a_TenantID <$> admitted e r s
  ∧ (is_Some (ad_pat s2) → (gate_check false now ttl secret s2).1 = true).
Proof.
  intros Hok Hr Hr' E Hsp Hexp Hauth s2.
  destruct (served_created _ _ _ _ _ _ _ _ _ _ Hok E) as (actor & s0 & s0' & Ha & Hok0 & Ec & Hran).
  destruct (createToken_inv _ _ _ _ _ _ _ _ _ _ Ec) as (req & ex & _ & Hm & _).
  destruct (mint_token_inv _ _ _ _ _ _ _ _ _ _ _ _ Hm) as (_ & _ & prefix & hash & owner & Hg & Hc & _).
  destruct (GeneratePAT_inv _ _ _ _ _ Hr Hr' Hg) as (Hh & Hpat & Hvis & Hne).
  assert (db_ok (ad_db s0')) as Hok0'.
  { pose proof (db_step_ok (ad_db s0) (OCreateToken (e_stmt e) (e_now e) (e_id e) (a_TenantID actor) owner (ct_Name req) prefix hash
      (match ct_Scopes req with [] => [bs "models:read"] | l => l end) ex) Hok0) as Hs. cbn [db_step] in Hs. by rewrite Hc in Hs. }
  destruct (CreateToken_inv _ _ _ _ _ _ _ _ _ _ _ _ _ Hc) as (Et & Ed & _). injection Et as Eid Et.
  assert (∃ ops, ad_db s2 = db_run (ad_db s0') ops ∧ Forall (fun op => ¬ revokes id op) ops) as (ops & Es2 & Hops).
  { destruct Hran as [(ops1 & E1 & H1') _]. destruct (plane_run_db marshal h s1) as (ops2 & E2 & H2').
    exists (ops1 ++ ops2). split; [subst s2; by unfold db_run in *; rewrite E2, E1, foldl_app|]. apply Forall_app. by split; [|apply H2']. }
  assert (db_tokens (ad_db s2) !! id = Some t) as Hrow.
  { rewrite Es2. apply run_token_spared; [|done]. rewrite Ed. cbn. by rewrite Eid, lookup_insert_eq. }
  assert (pg_LookupAPIToken false now secret (ad_db s2) = Ok (id, t)) as Hlook.
  { apply live_token_found; [rewrite Es2; by apply db_run_ok|done|by rewrite Et|done|].
    unfold token_live. rewrite Et in Hexp |- *. cbn in Hexp |- *. destruct ex; [by apply Z.ltb_lt|done]. }
  split_and!.
  - unfold ActorFromRequest, presented_pat. rewrite Hauth, ParseBearer_visible, Hpat by done.
    unfold actorFromPAT, pg_store. cbn [LookupAPIToken]. by rewrite Hlook.
  - rewrite Ha. by rewrite Et.
  - intros [c Hc']. unfold gate_check. rewrite Hc', Hpat. cbn [negb].
    destruct (lookupCached now c secret) as [hit c']. destruct hit; [done|]. by rewrite Hlook.
Qed.

(** ** Revoking *)

Section Revoking.
Context `{PgTypes, GoUnicode} {Q : Type} `{River Q} {C : Type} `{MetaCache C} (marshal : audit_meta → bytes).
Implicit Types (e : admin_env) (r : admin_req) (actor : Actor) (s : admin Q C) (h : list event).

(** A token whose row is revoked and that the gate has not cached. *)
Definition locked_out (hash : bytes) s : Prop :=
  db_ok (ad_db s) ∧ token_dead hash (ad_db s) ∧ match ad_pat s with Some c => c !! hash = None | None => True end.

Lemma locked_out_ran P hash s s' : locked_out hash s → ran P s s' → locked_out hash s'.
Proof.
  intros (Hok & Hd & Hp) [(ops & E & _) Hpat]. split_and!; [by rewrite E; apply db_run_ok|by rewrite E; apply run_token_dead|].
  destruct (ad_pat s') as [c'|]; [|done]. destruct Hpat as (c & Hc & Hsub). rewrite Hc in Hp.
  by eapply lookup_weaken_None.
Qed.

Lemma locked_out_refused x now ttl tok s : locked_out (TokenHash tok) s → (gate_check x now ttl tok s).1 = false.
Proof.
  intros (Hok & Hd & Hp). unfold gate_check. destruct (ad_pat s) as [c|]; [|done]. destruct (negb _); [done|].
  unfold lookupCached. rewrite Hp. by destruct (dead_token_refused x now tok (ad_db s) Hok Hd) as [er ->].
Qed.

Lemma locked_out_gate hash x now ttl tok s : locked_out hash s → locked_out hash (gate_check x now ttl tok s).2.
Proof.
  intros Hs. pose proof Hs as (Hok & Hd & Hp). unfold gate_check. destruct (ad_pat s) as [c|]; [|exact Hs].
  destruct (negb _); [exact Hs|]. unfold lookupCached, storeCached.
  destruct (c !! TokenHash tok) as [expires|] eqn:El.
  - assert (TokenHash tok ≠ hash) as N by congruence. destruct (expires <? now); [|done].
    assert (delete (TokenHash tok) c !! hash = None) as Hdel by by rewrite lookup_delete_ne.
    destruct (pg_LookupAPIToken _ _ _ _); [|done]. split_and!; [done..|]. cbn. by rewrite lookup_insert_ne.
  - destruct (decide (TokenHash tok = hash)) as [E|N].
    + subst hash. by destruct (dead_token_refused x now tok (ad_db s) Hok Hd) as [er ->].
    + destruct (pg_LookupAPIToken _ _ _ _); [|done]. split_and!; [done..|]. cbn. by rewrite lookup_insert_ne.
Qed.

Lemma locked_out_run hash h s : locked_out hash s → locked_out hash (plane_run marshal s h).
Proof.
  revert s. induction h as [|ev h IH]; intros s Hl; [done|]. apply (IH (plane_step marshal s ev)).
  destruct ev as [TN e r|x now ttl tok|op]; cbn [plane_step].
  - eapply locked_out_ran; [done|apply admin_serve_ran].
  - by apply locked_out_gate.
  - eapply locked_out_ran; [done|]. by apply (ran_step (fun _ => True) _ _ op).
Qed.

Lemma touch_tokens e http (d : db) : db_tokens (authenticate_touch e http d) = db_tokens d.
Proof. unfold authenticate_touch, TouchSession. repeat (case_match; try done). Qed.

Lemma RevokeToken_hash x x' now tenant id d hash b d' t :
  RevokeToken x x' now tenant id d = (Ok (hash, b), d') → db_tokens d !! id = Some t → hash = tk_hash t.
Proof. unfold RevokeToken. intros E Ht. rewrite Ht in E. cbv zeta in E. repeat case_match; by simplify_eq. Qed.

Lemma revokeToken_locks e id actor s body b s' t :
  db_ok (ad_db s) → db_tokens (ad_db s) !! id = Some t → length (tk_hash t) = 32%nat →
  revokeToken e id actor s = (mkReply 204 body b, s') → locked_out (tk_hash t) s'.
Proof.
  intros Hok Ht Hl. unfold revokeToken. destruct (beq _ _); [done|].
  destruct (RevokeToken _ _ _ _ _ _) as [[[hash rev]|[]] d] eqn:E; try done. intros [= _ _ <-].
  pose proof (RevokeToken_hash _ _ _ _ _ _ _ _ _ _ E Ht) as ->.
  split_and!; [|by eapply RevokeToken_dead|].
  - pose proof (db_step_ok _ (ORevokeToken (e_stmt e) (e_stmt' e) (e_now e) (a_TenantID actor) id) Hok) as Hs.
    cbn [db_step] in Hs. by rewrite E in Hs.
  - cbn. destruct (ad_pat s) as [c|]; [|done]. unfold InvalidateByHash. rewrite Hl. cbn. apply lookup_delete_eq.
Qed.

Lemma Middleware_status st http status :
  Middleware st (CSRFProtect (requireAuthenticated (fun _ a _ => Served a))) http = Refused status → status = 401 ∨ status = 403.
Proof.
  unfold Middleware, CSRFProtect, requireAuthenticated. repeat (case_match; try done); intros [= <-]; auto.
Qed.

Lemma requireAccess_status role scope http actor csrf status :
  requireAccess role scope (fun _ a _ => Served a) http actor csrf = Refused status → status = 401 ∨ status = 403.
Proof. unfold requireAccess. repeat (case_match; try done); intros [= <-]; auto. Qed.

Lemma mux_revoke e r actor s role scope id t secret rep s' :
  db_ok (ad_db s) → db_tokens (ad_db s) !! id = Some t → tk_hash t = TokenHash secret →
  Mount (q_Method (rq_http r)) (rq_segs r) = Some (role, scope, ERevokeToken id) →
  admin_mux marshal e r actor s = (rep, s') → rp_status rep = 204 → locked_out (TokenHash secret) s'.
Proof.
  intros Hok Ht Hh Hm. unfold admin_mux. rewrite Hm. destruct (requireAccess _ _ _ _ _ _) eqn:Er.
  - cbn [handle]. destruct rep as [st body b]. cbn [rp_status]. rewrite <-Hh. intros E ->.
    eapply revokeToken_locks; [done|done|by rewrite Hh; apply Sum256_length|exact E].
  - intros [= <- <-]. cbn. intros ->. by apply requireAccess_status in Er as [|].
Qed.

Lemma served_revoke TN e r s role scope id t secret body b s1 :
  db_ok (ad_db s) → db_tokens (ad_db s) !! id = Some t → tk_hash t = TokenHash secret →
  Mount (q_Method (rq_http r)) (rq_segs r) = Some (role, scope, ERevokeToken id) →
  admin_serve marshal TN e r s = (mkReply 204 body b, s1) → locked_out (TokenHash secret) s1.
Proof.
  intros Hok Ht Hh Hm. unfold admin_serve. cbv zeta. destruct (Middleware _ _ _) as [actor|status] eqn:Ea.
  2:{ intros [= -> _ _ _]. by apply Middleware_status in Ea as [|]. }
  set (s0 := set_db s _). unfold Wrap. destruct (admin_mux marshal e r actor s0) as [rep s0'] eqn:Em.
  assert (rp_status rep = 204 → locked_out (TokenHash secret) s0') as Hl.
  { eapply mux_revoke; [| |done|done|exact Em].
    - eapply ran_ok; [|exact Hok]. by apply (touch_ran (fun _ => True)).
    - subst s0. cbn. by rewrite touch_tokens. }
  destruct (negb _); [intros [= -> ->]; by apply Hl|]. destruct (rp_replay rep); intros [= E _ _ <-]; [by apply Hl|].
  eapply locked_out_ran; [by apply Hl|]. apply record_audit_ran.
Qed.
End Revoking.


(** ** The audit trail *)

(** The database takes a row of this tenant, actor and address. *)
Definition audit_accepts `{PgTypes} (x : bool) (d : db) (tenant : bytes) (actorID : option bytes) (ip : bytes) : bool :=
  negb x && bool_decide (is_Some (db_tenants d !! tenant)) && match actorID with Some a => uuid_ok a | None => true end
  && (beq ip [] || inet_ok ip).

Lemma InsertAudit_log `{PgTypes} x now tenant typ actorID action resource outcome meta ip agent d :
  typ ∈ audit_actor_types → outcome ∈ audit_outcomes →
  db_audit (InsertAudit x now tenant typ actorID action resource outcome meta ip agent d).2
  = db_audit d ++ (if audit_accepts x d tenant actorID ip
                   then [mkAudit tenant typ actorID action (nullString resource) outcome (if beq meta [] then bs "{}" else meta)
                           (nullString ip) (nullString agent) (pg_time now)]
                   else []).
Proof.
  intros Ht Ho. unfold InsertAudit, audit_accepts. cbv zeta. rewrite (bool_decide_eq_true_2 _ Ht), (bool_decide_eq_true_2 _ Ho).
  destruct x; cbn [negb andb orb]; [by rewrite app_nil_r|]. destruct (bool_decide (is_Some _)); cbn [negb andb orb]; [|by rewrite app_nil_r].
  destruct (match actorID with Some _ => _ | None => _ end); cbn [negb andb orb]; [|by rewrite app_nil_r].
  destruct (beq ip [] || inet_ok ip); cbn [negb]; [done|by rewrite app_nil_r].
Qed.

Lemma actor_type_known t : actor_type t ∈ audit_actor_types.
Proof. destruct t; vm_decide. Qed.

Lemma outcome_known status : outcomeForStatus status ∈ audit_outcomes.
Proof. unfold outcomeForStatus. destruct (_ && _); [vm_decide|]. destruct (_ || _); vm_decide. Qed.

Lemma InsertAudit_tenants `{PgTypes} x now tenant typ actorID action resource outcome meta ip agent d :
  db_tenants (InsertAudit x now tenant typ actorID action resource outcome meta ip agent d).2 = db_tenants d.
Proof. unfold InsertAudit. cbv zeta. by destruct (_ || _). Qed.

Section AuditFacts.
Context `{PgTypes, GoUnicode} {Q : Type} `{River Q} {C : Type} `{MetaCache C} (marshal : audit_meta → bytes).
Implicit Types (e : admin_env) (r : admin_req) (actor : Actor) (s : admin Q C).

(** The operations on import jobs and the purge write rows of their own. *)
Definition self_audited (ep : endpoint) : bool :=
  match ep with
  | ECreateImport | ECancelImport _ | EForceCancelImport _ | EDeleteImport _ | EPurge => true
  | _ => false
  end.

(** The rows a handler adds: at most one, of the caller's tenant and address,
    and only where it succeeded. *)
Definition handler_rows (ep : endpoint) r actor (rep : admin_reply) (rows : list AuditEntry) : Prop :=
  rows = [] ∨ ∃ row, rows = [row] ∧ self_audited ep = true ∧ outcomeForStatus (rp_status rep) = bs "success"
    ∧ au_tenant row = a_TenantID actor ∧ au_outcome row = bs "success" ∧ (beq (clientIP r) [] || inet_ok (clientIP r)) = true.

Definition logs (ep : endpoint) r actor s (res : admin_reply * admin Q C) : Prop :=
  db_tenants (ad_db res.2) = db_tenants (ad_db s)
  ∧ ∃ rows, db_audit (ad_db res.2) = db_audit (ad_db s) ++ rows ∧ handler_rows ep r actor res.1 rows.

Lemma logs_same ep r actor s rep s' :
  db_tenants (ad_db s') = db_tenants (ad_db s) → db_audit (ad_db s') = db_audit (ad_db s) → logs ep r actor s (rep, s').
Proof. intros Ht Ha. split; [done|]. exists []. rewrite app_nil_r. split; [done|by left]. Qed.

Lemma insertAudit_logs ep e r actor action resource meta s s0 rep :
  self_audited ep = true → outcomeForStatus (rp_status rep) = bs "success" → ad_db s = ad_db s0 →
  logs ep r actor s0 (rep, insertAudit marshal e r actor action resource (bs "success") meta s).
Proof.
  intros Hs Ho Hd. split; [cbn; by rewrite InsertAudit_tenants, Hd|]. eexists. split.
  - cbn. rewrite InsertAudit_log, Hd; [done|apply actor_type_known|vm_decide].
  - destruct (audit_accepts _ _ _ _ _) eqn:E; [|by left]. right. eexists. split; [done|].
    split_and!; try done. unfold audit_accepts in E. by apply andb_true_iff in E as [_ E].
Qed.

Lemma handle_logs ep e r actor s : logs ep r actor s (handle marshal ep e r actor s).
Proof.
  destruct ep; cbn [handle]; try (by apply logs_same).
  - unfold createToken, mint_token, CreateToken. repeat (case_match; try by apply logs_same); simplify_eq; by apply logs_same.
  - unfold revokeToken, RevokeToken. repeat (case_match; try by apply logs_same); simplify_eq; by apply logs_same.
  - unfold putSetting, UpsertSetting. repeat (case_match; try by apply logs_same); simplify_eq; by apply logs_same.
  - unfold createImport. cbv zeta. repeat (case_match; try by apply logs_same); by apply insertAudit_logs.
  - unfold cancelImport, job_change. repeat (case_match; try by apply logs_same); by apply insertAudit_logs.
  - unfold forceCancelImport, job_change. repeat (case_match; try by apply logs_same); by apply insertAudit_logs.
  - unfold deleteImport, job_change. repeat (case_match; try by apply logs_same); by apply insertAudit_logs.
  - unfold purgeCache. repeat (case_match; try by apply logs_same); by apply insertAudit_logs.
Qed.

(** A replay is the revocation of a token already revoked, and changes no
    table. *)
Lemma handle_replay ep e r actor s rep s' :
  handle marshal ep e r actor s = (rep, s') → rp_replay rep = true →
  ∃ id t, ep = ERevokeToken id ∧ db_tokens (ad_db s) !! id = Some t ∧ is_Some (tk_revoked t) ∧ ad_db s' = ad_db s.
Proof.
  destruct ep; cbn [handle];
    unfold getTenant, listUsers, listTokens, createToken, mint_token, listSettings, putSetting, listAudit, listImports, createImport,
      getImport, cancelImport, forceCancelImport, deleteImport, job_change, listModels, listModelsGrouped, cacheStats, purgeCache,
      unavailable, noContent, writeError, writeJSON;
    try (by repeat case_match; intros [= <- _]).
  unfold revokeToken, RevokeToken. destruct (beq _ _); [by intros [= <- _]|]. destruct (_ || _); [by intros [= <- _]|].
  destruct (db_tokens (ad_db s) !! id) as [t|] eqn:Et; [|by destruct (e_stmt' e); intros [= <- _]]. cbv zeta.
  destruct (beq _ _ && negb _); cbn [andb]; [|by destruct (e_stmt' e); intros [= <- _]].
  case_bool_decide as Hr; [by intros [= <- _]|]. destruct (e_stmt' e); intros [= <- <-]; [done|]. intros _.
  exists id, t. split_and!; try done. by apply not_eq_None_Some.
Qed.
End AuditFacts.

(** The rows the request's handler wrote itself. *)
Definition own_rows `{PgTypes} (r : admin_req) (actor : Actor) (rep : admin_reply) (rows : list AuditEntry) : Prop :=
  rows = [] ∨ ∃ role scope ep, Mount (q_Method (rq_http r)) (rq_segs r) = Some (role, scope, ep) ∧ handler_rows ep r actor rep rows.

(** The row of the middleware. *)
Definition request_row (marshal : audit_meta → bytes) (e : admin_env) (r : admin_req) (actor : Actor) (status : Z) : AuditEntry :=
  let http := rq_http r in
  let meta := marshal (MRequest (q_Method http) (q_Path http) status) in
  mkAudit (a_TenantID actor) (actor_type (a_Type actor)) (actorIDPtr actor) (mapAction (q_Method http) (q_Path http)).1
    (nullString (mapAction (q_Method http) (q_Path http)).2) (outcomeForStatus status) (if beq meta [] then bs "{}" else meta)
    (nullString (clientIP r)) (nullString (rq_agent r)) (pg_time (e_now e)).

Lemma mapAction_api method path : HasPrefix path api_prefix = true → (mapAction method path).1 ≠ [].
Proof. intros Hp. unfold mapAction. cbv zeta. rewrite Hp. by repeat case_match. Qed.

Section AuditTheorem.
Context `{PgTypes, GoUnicode} {Q : Type} `{River Q} {C : Type} `{MetaCache C} (marshal : audit_meta → bytes).
Implicit Types (e : admin_env) (r : admin_req) (actor : Actor) (s : admin Q C).

Lemma mux_logs e r actor s rep s' :
  admin_mux marshal e r actor s = (rep, s') →
  db_tenants (ad_db s') = db_tenants (ad_db s)
  ∧ ∃ rows, db_audit (ad_db s') = db_audit (ad_db s) ++ rows ∧ own_rows r actor rep rows.
Proof.
  unfold admin_mux. destruct (Mount _ _) as [[[role scope] ep]|] eqn:Em.
  2:{ intros [= _ <-]. split; [done|]. exists []. rewrite app_nil_r. by split; [|left]. }
  destruct (requireAccess _ _ _ _ _ _).
  2:{ intros [= _ <-]. split; [done|]. exists []. rewrite app_nil_r. by split; [|left]. }
  intros E. destruct (handle_logs marshal ep e r actor s) as [Ht (rows & Ha & Hr)]. rewrite E in Ht, Ha, Hr.
  split; [done|]. exists rows. split; [done|]. right. by exists role, scope, ep.
Qed.

Lemma mux_replay e r actor s rep s' :
  admin_mux marshal e r actor s = (rep, s') → rp_replay rep = true →
  ad_db s' = ad_db s ∧ ∃ role scope id t, Mount (q_Method (rq_http r)) (rq_segs r) = Some (role, scope, ERevokeToken id)
    ∧ db_tokens (ad_db s) !! id = Some t ∧ is_Some (tk_revoked t).
Proof.
  unfold admin_mux. destruct (Mount _ _) as [[[role scope] ep]|]; [|by intros [= <- _]].
  destruct (requireAccess _ _ _ _ _ _); [|by intros [= <- _]]. intros E Hr.
  destruct (handle_replay marshal _ _ _ _ _ _ _ E Hr) as (id & t & -> & ? & ? & ?). split; [done|]. by exists role, scope, id, t.
Qed.

Lemma touch_keeps e http (d : db) :
  db_audit (authenticate_touch e http d) = db_audit d ∧ db_tenants (authenticate_touch e http d) = db_tenants d.
Proof. unfold authenticate_touch, TouchSession. repeat (case_match; try done). Qed.
End AuditTheorem.


(** A client address the database does not parse keeps the request out of the
    log: the address is the client's own X-Forwarded-For, and the error of the
    insert is dropped. *)
Lemma forged_address_unaudited `{PgTypes, GoUnicode} {Q} `{River Q} {C} `{MetaCache C} marshal TN e r (s : admin Q C) :
  clientIP r ≠ [] → inet_ok (clientIP r) = false →
  db_audit (ad_db (admin_serve marshal TN e r s).2) = db_audit (ad_db s).
Proof.
  intros Hne Hip. assert (beq (clientIP r) [] || inet_ok (clientIP r) = false) as Hrej
    by by rewrite (proj2 (beq_false _ _) Hne), Hip.
  unfold admin_serve. cbv zeta. destruct (touch_keeps e (rq_http r) (ad_db s)) as [Ka _].
  destruct (Middleware _ _ _) as [actor|]; [|exact Ka]. set (s0 := set_db s _).
  assert (db_audit (ad_db (admin_mux marshal e r actor s0).2) = db_audit (ad_db s)) as Hm.
  { destruct (admin_mux marshal e r actor s0) as [rep s'] eqn:Em.
    destruct (mux_logs marshal _ _ _ _ _ _ Em) as [_ (rows & Hau & [->|(? & ? & ? & _ & [->|(? & _ & _ & _ & _ & _ & E)])])];
      [rewrite app_nil_r in Hau..|by rewrite Hrej in E]; cbn; by rewrite Hau. }
  unfold Wrap. destruct (negb _); [done|]. destruct (admin_mux marshal e r actor s0) as [rep s']. destruct (rp_replay rep); [done|].
  unfold record_audit. destruct (mapAction _ _) as [action resource]. destruct (beq action []); [done|]. cbv zeta.
  destruct (beq (if beq _ _ then _ else _) []); [done|]. cbn [snd ad_db set_db].
  rewrite InsertAudit_log by (apply actor_type_known || apply outcome_known). unfold audit_accepts. rewrite Hrej, andb_false_r, app_nil_r.
  exact Hm.
Qed.

(** A purge that fails or is denied is not in the log: the middleware leaves
    the route to its handler, which writes only of success. *)
Lemma failed_purge_unaudited `{PgTypes, GoUnicode} {Q} `{River Q} {C} `{MetaCache C} marshal TN e r (s : admin Q C) rep s1 :
  q_Method (rq_http r) = bs "DELETE" → q_Path (rq_http r) = bs "/admin/api/v1/models/cache" →
  admin_serve marshal TN e r s = (rep, s1) → outcomeForStatus (rp_status rep) ≠ bs "success" →
  db_audit (ad_db s1) = db_audit (ad_db s).
Proof.
  intros Hm Hp. unfold admin_serve. cbv zeta. destruct (touch_keeps e (rq_http r) (ad_db s)) as [Ka _].
  destruct (Middleware _ _ _) as [actor|]; [|by intros [= _ <-]]. unfold Wrap. rewrite Hm, Hp.
  assert (shouldAudit (bs "DELETE") (bs "/admin/api/v1/models/cache") = false) as -> by (vm_compute; reflexivity). cbn [negb].
  intros Em Hf. apply mux_logs in Em as [_ (rows & -> & [->|(? & ? & ? & _ & [->|(? & _ & _ & Ho & _)])])];
    [by rewrite app_nil_r|by rewrite app_nil_r|done].
Qed.

(** A handler's row of a token with an owner has the owner's id, the
    middleware's the token's. *)
Lemma token_actor_ids_differ `{PgTypes, GoUnicode} {Q} `{River Q} {C} `{MetaCache C} marshal e r (s : admin Q C) actor action resource meta :
  a_Type actor = ActorToken → a_UserID actor ≠ [] →
  audit_accepts (e_haudit e) (ad_db s) (a_TenantID actor) (Some (a_UserID actor)) (clientIP r) = true →
  (au_actor <$> last (db_audit (ad_db (insertAudit marshal e r actor action resource (bs "success") meta s)))) = Some (Some (a_UserID actor))
  ∧ actorIDPtr actor = nullString (a_TokenID actor).
Proof.
  intros Ht Hu Hacc. split; [|unfold actorIDPtr; by rewrite Ht]. unfold insertAudit. cbv zeta. rewrite (proj2 (beq_false _ _) Hu). cbn [negb ad_db set_db].
  rewrite InsertAudit_log; [|apply actor_type_known|vm_decide]. by rewrite Hacc, last_snoc.
Qed.

(** ** Tenants *)

(** Every row of the tables that is not of tenant [T]. *)
Definition others_kept (T : bytes) (d d' : db) : Prop :=
  db_users d' = db_users d ∧ db_providers d' = db_providers d ∧ db_tenants d' = db_tenants d
  ∧ (∀ id t, tk_tenant t ≠ T → db_tokens d' !! id = Some t ↔ db_tokens d !! id = Some t)
  ∧ (∀ k, k.1.1 ≠ T → db_settings d' !! k = db_settings d !! k)
  ∧ (∀ T', T' ≠ T → List.filter (fun a => beq (au_tenant a) T') (db_audit d') = List.filter (fun a => beq (au_tenant a) T') (db_audit d)).

Lemma others_kept_refl T d : others_kept T d d.
Proof. by split_and!. Qed.

Lemma others_kept_trans T d1 d2 d3 : others_kept T d1 d2 → others_kept T d2 d3 → others_kept T d1 d3.
Proof.
  intros (U1 & P1 & T1 & K1 & S1 & A1) (U2 & P2 & T2 & K2 & S2 & A2). split_and!; [congruence..| | |].
  - intros id t Ht. by rewrite K2, K1.
  - intros k Hk. by rewrite S2, S1.
  - intros T' HT. by rewrite A2, A1.
Qed.

Lemma others_kept_tokens T d id t :
  tk_tenant t = T → (∀ u, db_tokens d !! id = Some u → tk_tenant u = T) →
  others_kept T d (with_tokens d (<[id := t]> (db_tokens d))).
Proof.
  intros Ht Hold. split_and!; try done. intros j u Hu. cbn. rewrite lookup_insert_Some. split.
  - intros [[_ <-]|[_ ?]]; [done|done].
  - intros Hj. right. split; [|done]. intros ->. by apply Hold in Hj.
Qed.

Lemma step_others `{PgTypes} T d op : tenant_op T op → others_kept T d (db_step d op).
Proof.
  destruct op; cbn [tenant_op]; try done; cbn [db_step].
  - intros _. unfold TouchSession. repeat (case_match; try apply others_kept_refl). by split_and!.
  - intros ->. destruct (CreateToken _ _ _ _ _ _ _ _ _ _ d) as [[r'|] d'] eqn:E.
    + apply CreateToken_inv in E as (-> & -> & Hn & _). apply others_kept_tokens; [done|]. intros u Hu. congruence.
    + revert E. unfold CreateToken. cbv zeta. case_match; intros [= <-]. apply others_kept_refl.
  - intros ->. destruct (RevokeToken x x' now T id d) as [res d'] eqn:E.
    apply RevokeToken_inv in E as [->|(t & Ht & Htn & _ & _ & -> & _)]; [apply others_kept_refl|].
    apply others_kept_tokens; [done|]. intros u Hu. congruence.
  - intros ->. destruct (UpsertSetting _ _ _ _ _ _ _ _ d) as [res d'] eqn:E.
    apply UpsertSetting_inv in E as [[-> _]|(v & st & _ & _ & _ & -> & _)]; [apply others_kept_refl|].
    split_and!; try done. intros k Hk. cbn. rewrite lookup_insert_ne; [done|]. by intros <-.
  - intros ->. unfold InsertAudit. cbv zeta. destruct (_ || _); [apply others_kept_refl|]. split_and!; try done.
    intros T' HT. cbn. rewrite List.filter_app. cbn. rewrite (proj2 (beq_false _ _)); [by rewrite app_nil_r|]. by intros <-.
Qed.

Lemma run_others `{PgTypes} T ops d : Forall (tenant_op T) ops → others_kept T d (db_run d ops).
Proof.
  revert d. induction ops as [|op ops IH]; intros d Ho; [apply others_kept_refl|]. apply Forall_cons in Ho as [Hop Ho].
  eapply others_kept_trans; [by apply step_others|]. by apply IH.
Qed.

(** What a reply may show to a caller of tenant [T]. *)
Definition shows (T : bytes) (p : payload) : Prop :=
  match p with
  | PUsers l => Forall (fun u => us_tenant u.2 = T) l
  | PTokens l => Forall (fun t => tk_tenant t.2 = T) l
  | PCreated _ t _ => tk_tenant t = T
  | PSettings l => Forall (fun kv => kv.1.1.1 = T) l
  | PAudit l => Forall (fun a => au_tenant a = T) l
  | PJob j => ij_TenantID j = T
  | PJobs l => Forall (fun j => ij_TenantID j = T) l
  | _ => True
  end.

Section TenantFacts.
Context `{PgTypes, GoUnicode} {Q : Type} `{River Q} {C : Type} `{MetaCache C} (marshal : audit_meta → bytes).
Implicit Types (e : admin_env) (r : admin_req) (actor : Actor) (s : admin Q C).

Lemma jobFromRow_tenant T row j : T ≠ [] → jobFromRow row T = Some j → ij_TenantID j = T.
Proof.
  intros HT. unfold jobFromRow. rewrite (proj2 (beq_false _ _) HT). cbn [negb andb].
  destruct (beq _ T) eqn:E; [|done]. intros [= <-]. by apply beq_true in E.
Qed.

Lemma recent_shows {A} (at_ : A → Z) (tn : A → bytes) (P : A → bool) T limit rows :
  Forall (fun a => tn a = T) (recent at_ (fun a => beq (tn a) T && P a) limit rows).
Proof. apply Forall_forall. intros a Ha. apply recent_elem in Ha as [_ Ha]. by apply andb_true_iff in Ha as [?%beq_true _]. Qed.

Lemma mint_shows e actor name scopes expires s : shows (a_TenantID actor) (rp_body (mint_token e actor name scopes expires s).1).
Proof.
  unfold mint_token. destruct (GeneratePAT _ _) as [[[display prefix] hash]|]; [|done]. cbv zeta.
  destruct (CreateToken _ _ _ _ _ _ _ _ _ _ _) as [[[id t]|] d] eqn:E; [|done].
  apply CreateToken_inv in E as ([= _ ->] & _). done.
Qed.

Lemma createImport_shows e r actor s : a_TenantID actor ≠ [] → shows (a_TenantID actor) (rp_body (createImport marshal e r actor s).1).
Proof.
  intros HT. unfold createImport. cbv zeta. destruct (ad_jobs s) as [q|]; [|done]. destruct (rq_import r) as [req|]; [|done].
  destruct (beq _ _); [done|]. destruct (negb _); [done|]. destruct (negb (validHFRevision _)); [done|].
  destruct (CreateImportJob _ _ _ _ _ q) as [[[id [job|]]|er] q'] eqn:E; try done. cbn.
  revert E. unfold CreateImportJob. destruct (_ && _); [done|]. destruct (parseSpec _); [|done]. cbv zeta.
  destruct (rv_insert _ _ _ _ q) as [jid q2]. destruct (rv_get q2 jid) as [row|]; [|done]. intros [= _ Hj _].
  by eapply jobFromRow_tenant.
Qed.

Lemma handle_shows ep e r actor s : a_TenantID actor ≠ [] → shows (a_TenantID actor) (rp_body (handle marshal ep e r actor s).1).
Proof.
  intros HT. destruct ep; cbn [handle fst];
    try (by apply createImport_shows);
    try (by unfold getTenant, revokeToken, putSetting, cancelImport, forceCancelImport, deleteImport, job_change, listModels,
           listModelsGrouped, cacheStats, purgeCache; repeat case_match).
  - unfold listUsers, ListUsers. destruct (e_stmt e); [done|]. apply (recent_shows _ (fun u => us_tenant u.2)).
  - unfold listTokens, ListTokens. destruct (e_stmt e); [done|]. apply (recent_shows _ (fun t => tk_tenant t.2)).
  - unfold createToken. repeat (case_match; try done); apply mint_shows.
  - unfold listSettings, ListSettings. destruct (e_stmt e); [done|]. cbn. apply Forall_forall. intros kv Hkv%list_elem_of_In.
    apply filter_In in Hkv as [_ Hkv]. by apply andb_true_iff in Hkv as [?%beq_true _].
  - unfold listAudit, ListAudit. destruct (e_stmt e); [done|]. cbn. apply Forall_forall. intros a Ha.
    apply recent_elem in Ha as [_ Ha]. by apply beq_true in Ha.
  - unfold listImports, ListImportJobs. destruct (ad_jobs s) as [q|]; [|done].
    destruct (mapM _ _) as [l|] eqn:E; [|done]. cbn. apply mapM_Some in E. apply Forall_forall. intros j Hj.
    apply list_elem_of_lookup in Hj as [i Hi]. destruct (Forall2_lookup_r _ _ _ _ _ E Hi) as (row & _ & Hrow).
    by eapply jobFromRow_tenant.
  - unfold getImport. destruct (ad_jobs s) as [q|]; [|done]. destruct (beq _ _); [done|].
    destruct (GetImportJob _ _ _) as [job|[]] eqn:E; try done. apply GetImportJob_own in E as (i & row & _ & _ & _ & Hj).
    by eapply jobFromRow_tenant.
Qed.

(** The import jobs of other tenants. *)
Definition jobs_kept (T : bytes) s s' : Prop :=
  ∀ q id row, ad_jobs s = Some q → rv_get q id = Some row → ¬ own T row →
  ∃ q', ad_jobs s' = Some q' ∧ rv_get q' id = Some row.

Lemma jobs_kept_same T s s' : ad_jobs s' = ad_jobs s → jobs_kept T s s'.
Proof. intros E q id row Hq Hr _. exists q. by rewrite E. Qed.

Lemma jobs_kept_step (Hlaws : river_laws Q) T s s' q op :
  ad_jobs s = Some q → ad_jobs s' = Some (job_step q op) → job_tenant op = T → jobs_kept T s s'.
Proof.
  intros Hq Hs' <- q0 id row Hq0 Hr Hn. assert (q0 = q) as -> by congruence. eexists. split; [done|]. by apply job_step_other.
Qed.

Lemma job_change_kept (Hlaws : river_laws Q) e r id actor s change running action failed op :
  (∀ q, (change q).2 = job_step q op) → job_tenant op = a_TenantID actor →
  jobs_kept (a_TenantID actor) s (job_change marshal e r id actor s change running action failed).2.
Proof.
  intros Hc Ht. unfold job_change. destruct (ad_jobs s) as [q|] eqn:Eq; [|by apply jobs_kept_same].
  destruct (beq _ _); [by apply jobs_kept_same|]. specialize (Hc q). destruct (change q) as [[[]|] q']; cbn in Hc; subst q';
    by eapply jobs_kept_step.
Qed.

Lemma handle_jobs (Hlaws : river_laws Q) ep e r actor s : jobs_kept (a_TenantID actor) s (handle marshal ep e r actor s).2.
Proof.
  destruct ep; cbn [handle snd]; try (by apply jobs_kept_same).
  - apply jobs_kept_same. unfold createToken, mint_token. by repeat (case_match; simplify_eq/=).
  - apply jobs_kept_same. unfold revokeToken. by repeat (case_match; simplify_eq/=).
  - apply jobs_kept_same. unfold putSetting. by repeat (case_match; simplify_eq/=).
  - unfold createImport. destruct (ad_jobs s) as [q|] eqn:Eq; [|by apply jobs_kept_same].
    destruct (rq_import r) as [req|]; [|by apply jobs_kept_same]. cbv zeta. destruct (beq _ _); [by apply jobs_kept_same|].
    destruct (negb _); [by apply jobs_kept_same|]. destruct (negb (validHFRevision _)); [by apply jobs_kept_same|].
    set (by_ := match a_Type actor with ActorToken => _ | _ => _ end). set (spec := mkSpec _ _ _).
    eapply (jobs_kept_step Hlaws _ _ _ q (JCreate (e_now e) (a_TenantID actor) by_ ImportJobTypeHFCacheImport spec)); [done| |done].
    cbn [job_step]. by destruct (CreateImportJob _ _ _ _ _ q) as [[[i [j|]]|] q'].
  - by apply (job_change_kept Hlaws _ _ _ _ _ _ _ _ _ (JCancelOp (e_now e) (a_TenantID actor) id)).
  - by apply (job_change_kept Hlaws _ _ _ _ _ _ _ _ _ (JForce (e_now e) (a_TenantID actor) id)).
  - by apply (job_change_kept Hlaws _ _ _ _ _ _ _ _ _ (JDelete (a_TenantID actor) id)).
  - apply jobs_kept_same. unfold purgeCache. by repeat (case_match; simplify_eq/=).
Qed.
End TenantFacts.

(** C20: a request acts for the caller's tenant only: whatever it asks, the
    users, identity providers, tokens, settings, audit rows and import jobs of
    every other tenant are as they were, and the reply shows only rows of the
    caller's tenant. *)
Theorem tenant_rows_isolated `{PgTypes, GoUnicode} {Q} `{River Q} {C} `{MetaCache C} marshal TN e r (s : admin Q C) actor rep s1 :
  river_laws Q → admitted e r s = Some actor → a_TenantID actor ≠ [] → admin_serve marshal TN e r s = (rep, s1) →
  others_kept (a_TenantID actor) (ad_db s) (ad_db s1) ∧ jobs_kept (a_TenantID actor) s s1 ∧ shows (a_TenantID actor) (rp_body rep).
Proof.
  intros Hlaws Ha HT E. split.
  { pose proof (admin_serve_ran marshal TN e r s) as [(ops & Hd & Ho) _]. rewrite Ha, E in *. cbn [from_option snd] in *. rewrite Hd.
    apply run_others. eapply Forall_impl; [exact Ho|]. intros op [Hop _]. by apply Hop. }
  assert (∀ s0, ad_jobs s0 = ad_jobs s → let '(rep0, s0') := admin_mux marshal e r actor s0 in
    jobs_kept (a_TenantID actor) s s0' ∧ shows (a_TenantID actor) (rp_body rep0)) as Hmux.
  { intros s0 Hs0. unfold admin_mux. destruct (Mount _ _) as [[[role scope] ep]|]; [|by split; [apply jobs_kept_same|]].
    destruct (requireAccess _ _ _ _ _ _); [|by split; [apply jobs_kept_same|]].
    pose proof (handle_jobs marshal Hlaws ep e r actor s0) as Hj. pose proof (handle_shows marshal ep e r actor s0 HT) as Hsh.
    destruct (handle marshal ep e r actor s0) as [rep0 s0']. split; [|exact Hsh].
    intros q id row Hq. apply Hj. by rewrite Hs0. }
  revert Ha E. unfold admitted, admin_serve. cbv zeta. destruct (Middleware _ _ _) as [a|]; [|done]. intros [= ->]. unfold Wrap.
  set (s0 := set_db s _). specialize (Hmux s0 eq_refl). destruct (admin_mux marshal e r actor s0) as [rep0 s0'].
  destruct (negb _); [by intros [= <- <-]|]. destruct (rp_replay rep0); intros [= <- <-]; [done|].
  split; [|apply Hmux]. assert (ad_jobs (record_audit marshal TN e r actor (rp_status rep0) s0') = ad_jobs s0') as Hr
    by (unfold record_audit; by repeat case_match).
  intros q id row Hq Hrow Hn. rewrite Hr. by apply (proj1 Hmux q).
Qed.

(** C39: what can be minted: a request is refused with 400 and changes nothing
    if its name is empty, a scope is not on the list or its lifetime, any
    int64, is not between one second and 366 days; a token that is created has
    the scopes asked for (or models:read) and expires exactly that lifetime
    after the service's clock, without overflow. *)
Theorem minted_token_bounded `{PgTypes} {Q C} e r actor (s : admin Q C) req :
  rq_token r = Some req → match ct_ExpiresIn req with Some secs => is_int64 secs | None => True end →
  let scopes := match ct_Scopes req with [] => [bs "models:read"] | l => l end in
  let valid := ct_Name req ≠ [] ∧ Forall (.∈ allowedTokenScopes) scopes
    ∧ match ct_ExpiresIn req with Some secs => 1 ≤ secs ≤ 31622400 | None => True end in
  (¬ valid → rp_status (createToken e r actor s).1 = 400 ∧ (createToken e r actor s).2 = s)
  ∧ ∀ id t secret b s', createToken e r actor s = (mkReply 201 (PCreated id t secret) b, s') →
      valid ∧ tk_scopes t = scopes
      ∧ tk_expires t = match ct_ExpiresIn req with Some secs => Some (pg_time (e_gonow e + secs * 1000000000)) | None => None end.
Proof.
  intros Hreq Hi scopes valid. split.
  - intros Hv. unfold createToken. rewrite Hreq. destruct (beq (ct_Name req) []) eqn:En; [done|]. apply beq_false in En. cbv zeta.
    fold scopes. destruct (List.find _ scopes) eqn:Ef; [done|].
    destruct (ct_ExpiresIn req) as [secs|] eqn:Ee.
    + destruct (token_ttl secs) as [ttl|] eqn:Et; [|done]. exfalso. apply Hv. apply (token_ttl_spec _ _ Hi) in Et as [Hs _].
      split_and!; try done; try lia. by apply scopes_checked.
    + exfalso. apply Hv. split_and!; try done. by apply scopes_checked.
  - intros id t secret b s' E. destruct (createToken_inv _ _ _ _ _ _ _ _ _ _ E) as (req' & ex & Hreq' & Hm & Hsc & Hex).
    assert (req' = req) as -> by congruence. fold scopes in Hm, Hsc.
    destruct (mint_token_inv _ _ _ _ _ _ _ _ _ _ _ _ Hm) as (_ & _ & prefix & hash & owner & _ & Hc & _).
    apply CreateToken_inv in Hc as ([= _ ->] & _). cbn [tk_scopes tk_expires].
    assert (ct_Name req ≠ []) as Hn.
    { intros En. unfold createToken in E. by rewrite Hreq, En, beq_refl in E. }
    destruct (ct_ExpiresIn req) as [secs|]; [|by subst ex; split_and!].
    destruct Hex as (ttl & Ht & ->). apply (token_ttl_spec _ _ Hi) in Ht as [Hs ->]. by split_and!; try done; try lia.
Qed.

(** ** Witnesses *)

(** One case folding, one test of uuids and of addresses. *)
Definition demo_types : PgTypes := {|
  citext_fold := map lower_byte;
  uuid_ok := fun s => negb (beq s []);
  inet_ok := fun s => negb (beq s []) && forallb (fun c => is_digit c || (c =? 46)) s;
|}.

Definition demo_faults : faults := mkFaults false false false false false false false false.

Definition demo_env : admin_env :=
  mkEnv 5000 6000 (bs "k2") (fun n => Some (replicate n 7)) (fun n => Some (replicate n 9)) false false false false false [] false false
    (Some []) 0 demo_faults false [].

Definition root_secret : bytes := bs "pulsys_root".
Definition root_hash : bytes := Eval vm_compute in TokenHash root_secret.

(** A tenant with one administrator token. *)
Definition demo_db : db :=
  mkDb {[bs "t1" := mkTenant (bs "default") (bs "Default") 0 false]} ∅ ∅
    {[bs "k1" := mkTokenRow (bs "t1") None (bs "root") (bs "root") root_hash [bs "admin:*"] None 0 None false]} ∅ ∅ [].

Lemma demo_db_ok : db_ok demo_db.
Proof.
  split_and!; [|by intros ????|apply map_Forall_empty|apply map_Forall_empty]. cbn [db_tokens demo_db].
  intros i j t u [<- <-]%lookup_singleton_Some [<- <-]%lookup_singleton_Some. done.
Qed.

Definition demo_plane : admin queue (lru Meta) := mkAdmin demo_db (Some demo_queue) (Some ∅) None.

Definition demo_request (method : string) (path : string) (segs : list string) (tok : option createTokenRequest) : admin_req :=
  mkReq (mkHttp (bs method) (bs path) (bs "Bearer pulsys_root") [] None None) (bs <$> segs) [] [] (bs "10.0.0.1:5") (bs "ua")
    tok None None None.

Definition mint_request : admin_req :=
  demo_request "POST" "/admin/api/v1/tokens" ["tokens"%string] (Some (mkCreateToken (bs "ci") [bs "models:write"] (Some 60))).

Definition revoke_request : admin_req := demo_request "DELETE" "/admin/api/v1/tokens/k1" ["tokens"; "k1"]%string None.

Section Witness.
#[local] Existing Instance ascii_unicode.
#[local] Existing Instance demo_types.

Definition no_json (m : audit_meta) : bytes := [].

Definition mint_result : admin_reply * admin queue (lru Meta) :=
  Eval vm_compute in admin_serve no_json (bs "default") demo_env mint_request demo_plane.

(** The id, the row and the secret of the reply. *)
Definition minted : bytes * Token * bytes :=
  Eval vm_compute in
  match rp_body mint_result.1 with
  | PCreated id t secret => (id, t, secret)
  | _ => ([], mkTokenRow [] None [] [] [] [] None 0 None false, [])
  end.

Lemma mint_result_eq :
  admin_serve no_json (bs "default") demo_env mint_request demo_plane
  = (mkReply 201 (PCreated minted.1.1 minted.1.2 minted.2) false, mint_result.2).
Proof. vm_compute. reflexivity. Qed.

Lemma draws_const c : is_byte c → draws_bytes (fun n => Some (replicate n c)).
Proof. intros Hc n b [= <-]. split; [by apply Forall_replicate|apply length_replicate]. Qed.

Lemma minted_token_works_witness :
  let s2 := plane_run no_json mint_result.2 [EvGate false 7000 0 minted.2] in
  ActorFromRequest (pg_store false false 8000 (ad_db s2)) (mkHttp (bs "GET") [] (bs "Bearer " ++ minted.2) [] None None)
    = Ok (mkActor ActorToken (bs "t1") [] (bs "k2") [] [bs "models:write"] [], [])
  ∧ (gate_check false 8000 0 minted.2 s2).1 = true.
Proof.
  assert (minted.1.1 = bs "k2" ∧ tk_tenant minted.1.2 = bs "t1" ∧ tk_owner minted.1.2 = None ∧ tk_scopes minted.1.2 = [bs "models:write"]
    ∧ tk_expires minted.1.2 = Some (pg_time (5000 + 60 * 1000000000))) as (Ei & Et & Eo & Es & Ee) by (vm_compute; done).
  destruct (minted_token_works no_json (bs "default") demo_env mint_request demo_plane minted.1.1 minted.1.2 minted.2 false mint_result.2
    [EvGate false 7000 0 minted.2] 8000 0 (mkHttp (bs "GET") [] (bs "Bearer " ++ minted.2) [] None None)) as (Ha & _ & Hg).
  - apply demo_db_ok.
  - apply draws_const. zlia.
  - apply draws_const. zlia.
  - exact mint_result_eq.
  - by apply Forall_singleton.
  - rewrite Ee. done.
  - done.
  - cbv zeta. rewrite Ei, Et, Eo, Es in Ha. split; [exact Ha|]. apply Hg.
    apply (gate_check_wired false 7000 0 minted.2 mint_result.2). by eexists.
Defined.

Definition revoke_result : admin_reply * admin queue (lru Meta) :=
  Eval vm_compute in admin_serve no_json (bs "default") demo_env revoke_request demo_plane.

Lemma revoke_result_eq :
  admin_serve no_json (bs "default") demo_env revoke_request demo_plane = (mkReply 204 PEmpty false, revoke_result.2).
Proof. vm_compute. reflexivity. Qed.

Lemma root_hash_eq : root_hash = TokenHash root_secret.
Proof. vm_compute. reflexivity. Qed.


Definition demo_actor : Actor := mkActor ActorToken (bs "t1") [] (bs "k1") [] [bs "admin:*"] [].

Lemma demo_admitted : admitted demo_env mint_request demo_plane = Some demo_actor.
Proof. vm_compute. reflexivity. Qed.


(** One request, two rows of the same action. *)
Lemma import_audited_twice :
  au_action <$> db_audit (ad_db (admin_serve no_json (bs "default") demo_env
    (mkReq (mkHttp (bs "POST") (bs "/admin/api/v1/imports") (bs "Bearer pulsys_root") [] None None) [bs "imports"] [] [] (bs "10.0.0.1:5") []
       None None (Some (mkCreateImport (bs "acme/m") [])) None) demo_plane).2)
  = [bs "import.create"; bs "import.create"].
Proof. vm_compute. reflexivity. Qed.

Lemma tenant_rows_isolated_witness :
  others_kept (bs "t1") demo_db (ad_db mint_result.2) ∧ tk_tenant minted.1.2 = bs "t1".
Proof.
  destruct (tenant_rows_isolated no_json (bs "default") demo_env mint_request demo_plane demo_actor _ _
    queue_laws demo_admitted ltac:(done) mint_result_eq) as (Ho & _ & Hs).
  split; [exact Ho|exact Hs].
Defined.

Lemma minted_token_bounded_witness :
  rp_status (createToken demo_env (demo_request "POST" "/" [] (Some (mkCreateToken (bs "ci") [] (Some (2 ^ 62))))) demo_actor demo_plane).1 = 400.
Proof.
  apply (minted_token_bounded demo_env (demo_request "POST" "/" [] (Some (mkCreateToken (bs "ci") [] (Some (2 ^ 62))))) demo_actor demo_plane
    (mkCreateToken (bs "ci") [] (Some (2 ^ 62)))); [reflexivity|cbn; zlia|]. intros (_ & _ & Hs). cbn in Hs. lia.
Defined.
End Witness.
