(* ===== verification/Login.v ===== *)
(** * Logging in and out
    (src/internal/auth/oidc/service.go, src/internal/auth/httpx/handler.go,
    the /auth/ routes of src/internal/admin/server.go)

    The service verifies an id_token of the tenant's identity provider,
    provisions the user with the role of its groups, and opens a session whose
    token becomes a cookie.  Discovery and the verification of the token are
    go-oidc's, arguments of the model. *)

From stdpp Require Import base strings numbers gmap sorting list.
From S2P Require Import Prelude GoStd Sha256 Spans CacheKey Lru Store MetaLru Models Listing PatGate Auth Importer AdminStore AdminApi.

Local Open Scope Z_scope.

(** ** Claims *)

(** A decoded JSON value, as far as the service looks at it. *)
Inductive claim := CStr (s : bytes) | CArr (l : list claim) | COther.

Abbreviation claims := (gmap bytes claim).

(** [v, _ := claims[k].(string)] *)
Definition claim_string (k : bytes) (c : claims) : bytes := match c !! k with Some (CStr s) => s | _ => [] end.

Definition extractGroups (c : claims) (claimName : bytes) : list bytes :=
  match c !! (if beq claimName [] then bs "groups" else claimName) with
  | Some (CArr l) => omap (fun v => match v with CStr s => Some s | _ => None end) l
  | Some (CStr s) => if beq s [] then [] else [s]
  | _ => []
  end.

(** strings.Fields of an ASCII string *)
Fixpoint fields_from (cur : bytes) (s : bytes) : list bytes :=
  match s with
  | [] => if beq cur [] then [] else [cur]
  | c :: s => if ascii_space c then (if beq cur [] then fields_from [] s else cur :: fields_from [] s) else fields_from (cur ++ [c]) s
  end.

Definition provider_scopes (p : OIDCProvider) : list bytes :=
  match fields_from [] (p_Scopes p) with [] => [bs "openid"; bs "profile"; bs "email"] | l => l end.

Definition PublicConfig (p : OIDCProvider) : payload :=
  PConfig (p_Issuer p) (p_ClientID p) (p_RedirectURI p) (provider_scopes p).

(** ** The service *)

(** What a login meets beside the environment of a request: the uuids of a new
    user and of the session, and which statements fail. *)
Record login_env := mkLoginEnv {
  l_env : admin_env;
  l_uid : bytes;
  l_provider : bool; l_find : bool; l_write : bool; l_session : bool; l_tenant : bool; l_lookup : bool; l_lookup' : bool; l_revoke : bool;
}.

(** A login: the body read and decoded to an id_token and a tenant name
    ([None]: it could not be). *)
Record login_req := mkLoginReq { lr_req : admin_req; lr_readerr : bool; lr_body : option (bytes * bytes) }.

(** The issuer's URL, or the base set in the environment. *)
Definition discoveryURL (base : bytes) (p : OIDCProvider) : bytes :=
  let base := reverse (drop_while (fun c => c =? 47) (reverse base)) in
  if beq base [] then p_Issuer p else base.

Section Login.
Context `{PgTypes}.
(** go-oidc: whether discovery at a URL succeeds, and the claims of a token
    that verifies against an issuer and a client. *)
Context (discover : bytes → bytes → bool) (verify : bytes → bytes → bytes → option claims).
Context (discovery_base : bytes) (SessionTTL : Z).

Definition sessionTTL : Z := if SessionTTL >? 0 then SessionTTL else 8 * 3600 * Second.

Definition provisionUser (le : login_env) (p : OIDCProvider) (sub email name role : bytes) (d : db)
    : option (bytes * bytes) * db :=
  match FindUserByOIDCSub (l_find le) (p_TenantID p) sub d with
  | Err _ => (None, d)
  | Ok (Some (id, u)) =>
      match UpdateUserProfile (l_write le) id email name role d with
      | (Ok _, d) => (Some (id, us_tenant u), d)
      | (Err _, d) => (None, d)
      end
  | Ok None =>
      if p_RequirePreprovisioned p then (None, d)
      else match CreateUserOIDC (l_write le) (e_now (l_env le)) (l_uid le) (p_TenantID p) email name role sub d with
           | (Ok id, d) => (Some (id, p_TenantID p), d)
           | (Err _, d) => (None, d)
           end
  end.

(** The email and the name a login stores. *)
Definition claim_email (c : claims) : bytes :=
  let email := claim_string (bs "email") c in
  if beq email [] then claim_string (bs "sub") c ++ bs "@oidc.local" else email.

Definition claim_name (c : claims) : bytes :=
  let name := claim_string (bs "name") c in if beq name [] then claim_email c else name.

Definition claim_role (p : OIDCProvider) (c : claims) : bytes :=
  RoleFromGroups (extractGroups c (p_GroupsClaim p)) (p_OwnerGroups p) (p_AdminGroups p) (p_JITDefaultRole p).

(** The session's plaintext and row, the user's id, email and role. *)
Definition EstablishSession (le : login_env) (tenantID rawIDToken : bytes) (d : db)
    : option ((bytes * Session) * (bytes * bytes * bytes)) * db :=
  if beq rawIDToken [] then (None, d)
  else match GetOIDCProviderByTenant (l_provider le) tenantID d with
       | Err _ => (None, d)
       | Ok p =>
           if negb (discover (discoveryURL discovery_base p) (p_Issuer p)) then (None, d)
           else match verify (p_Issuer p) (p_ClientID p) rawIDToken with
                | None => (None, d)
                | Some c =>
                    let sub := claim_string (bs "sub") c in
                    if beq sub [] then (None, d)
                    else match provisionUser le p sub (claim_email c) (claim_name c) (claim_role p c) d with
                         | (None, d) => (None, d)
                         | (Some (uid, tenant), d) =>
                             let e := l_env le in
                             match CreateSession (l_session le) (e_rand e) (e_rand' e) (e_gonow e) (e_now e) (e_id e) uid tenant
                                     sessionTTL d with
                             | (Some s, d) => (Some (s, (uid, claim_email c, claim_role p c)), d)
                             | (None, d) => (None, d)
                             end
                         end
                end
       end.

(** ** The handlers *)

Definition resolveTenantWithOverride (TenantName : bytes) (le : login_env) (r : admin_req) (override : bytes) (d : db)
    : result store_error bytes :=
  let tid := query_get (bs "tenant_id") (rq_query r) in
  if negb (beq tid []) then Ok tid
  else
    let name := if beq override [] then TenantName else override in
    GetTenantIDByName (l_tenant le) (if beq name [] then bs "default" else name) d.

Definition refused : admin_reply := writeError 401 "session establishment failed".

Definition establishSession (TenantName : bytes) (le : login_env) (r : login_req) (d : db) : admin_reply * db :=
  if lr_readerr r then (writeError 400 "bad request", d)
  else match lr_body r with
       | None => (writeError 400 "id_token required", d)
       | Some (idToken, tenant) =>
           if beq idToken [] then (writeError 400 "id_token required", d)
           else match resolveTenantWithOverride TenantName le (lr_req r) tenant d with
                | Err _ => (refused, d)
                | Ok tenantID =>
                    match EstablishSession le tenantID idToken d with
                    | (None, d) => (refused, d)
                    | (Some ((plain, s), (uid, email, role)), d) =>
                        (writeJSON 200 (PLogin plain (se_csrf s) uid email role (e_gonow (l_env le) + sessionTTL)), d)
                    end
                end
       end.

Definition oidcConfig (TenantName : bytes) (le : login_env) (r : login_req) (d : db) : admin_reply :=
  let unconfigured := writeError 503 "OIDC not configured for this tenant" in
  match resolveTenantWithOverride TenantName le (lr_req r) [] d with
  | Err _ => unconfigured
  | Ok tenantID =>
      match GetOIDCProviderByTenant (l_provider le) tenantID d with
      | Ok p => writeJSON 200 (PublicConfig p)
      | Err SErrNoProvider => unconfigured
      | Err _ => writeError 500 "failed to load OIDC config"
      end
  end.

Definition csrfToken (le : login_env) (r : login_req) (d : db) : admin_reply :=
  let unauthorized := writeError 401 "unauthorized" in
  match q_SessionCookie (rq_http (lr_req r)) with
  | None => unauthorized
  | Some v =>
      if beq v [] then unauthorized
      else match pg_LookupSession (l_lookup le) (l_lookup' le) (e_now (l_env le)) v d with
           | Err _ => unauthorized
           | Ok ((_, s), _) => writeJSON 200 (PCsrf (se_csrf s))
           end
  end.

(** The cookies are cleared whether or not a session was revoked. *)
Definition logout (le : login_env) (r : login_req) (d : db) : admin_reply * db :=
  (noContent,
   match q_SessionCookie (rq_http (lr_req r)) with
   | Some v => if beq v [] then d else RevokeSession (l_revoke le) (e_now (l_env le)) v d
   | None => d
   end).

(** ** The /auth/ routes *)

Definition auth_mux (TenantName : bytes) (le : login_env) (r : login_req) (d : db) : admin_reply * db :=
  let method := q_Method (rq_http (lr_req r)) in
  let path := q_Path (rq_http (lr_req r)) in
  let get := bool_decide (method ∈ [bs "GET"; bs "HEAD"]) in
  let post := beq method (bs "POST") in
  if beq path (bs "/auth/oidc/config") then
    (if get then oidcConfig TenantName le r d else mkReply 405 PEmpty false, d)
  else if beq path (bs "/auth/csrf") then (if get then csrfToken le r d else mkReply 405 PEmpty false, d)
  else if beq path (bs "/auth/session") then
    if post then establishSession TenantName le r d else (mkReply 405 PEmpty false, d)
  else if beq path (bs "/auth/logout") then if post then logout le r d else (mkReply 405 PEmpty false, d)
  else (mkReply 404 PEmpty false, d).

Definition auth_serve {Q C} (marshal : audit_meta → bytes) (TenantName : bytes) (le : login_env) (r : login_req) (s : admin Q C)
    : admin_reply * admin Q C :=
  let e := l_env le in
  let http := rq_http (lr_req r) in
  let s' := set_db s (authenticate_touch e http (ad_db s)) in
  match Middleware (pg_store (e_auth e) (e_auth' e) (e_now e) (ad_db s)) (CSRFProtect (fun _ a _ => Served a)) http with
  | Refused status => (mkReply status PEmpty false, s')
  | Served actor =>
      Wrap marshal TenantName e (lr_req r) actor
        (fun s => let '(rep, d) := auth_mux TenantName le r (ad_db s) in (rep, set_db s d)) s'
  end.

End Login.

(** ** Refusals *)

(** a login that fails says nothing of why: for every database, provider,
    tenant and fault, a login with a readable body and a token either opens a
    session or gets the same reply, so that neither tenants nor provisioned
    users can be told apart by it. *)
Theorem login_refusals_uniform `{PgTypes} discover verify base ttl TN le r d idToken tenant :
  lr_readerr r = false → lr_body r = Some (idToken, tenant) → idToken ≠ [] →
  let rep := (establishSession discover verify base ttl TN le r d).1 in
  rep = mkReply 401 (PError (bs "session establishment failed")) false
  ∨ ∃ cookie csrf uid email role expires, rep = mkReply 200 (PLogin cookie csrf uid email role expires) false.
Proof.
  intros Hr Hb Hn. unfold establishSession. rewrite Hr, Hb, (proj2 (beq_false _ _) Hn).
  destruct (resolveTenantWithOverride _ _ _ _ _) as [tid|]; [|by left].
  destruct (EstablishSession _ _ _ _ _ _ _ _) as [[[[plain s] [[uid email] role]]|] d']; [|by left].
  right. by do 6 eexists.
Qed.

(** ** A session that was opened *)

Section LoginFacts.
Context `{PgTypes} (discover : bytes → bytes → bool) (verify : bytes → bytes → bytes → option claims).
Context (discovery_base : bytes) (SessionTTL : Z).

Lemma provisionUser_inv le p sub email name role d uid tenant d' :
  provisionUser le p sub email name role d = (Some (uid, tenant), d') →
  tenant = p_TenantID p ∧ db_sessions d' = db_sessions d ∧ db_tenants d' = db_tenants d
  ∧ ∃ u, db_users d' !! uid = Some u ∧ us_tenant u = tenant ∧ us_email u = email ∧ us_role u = role ∧ us_deleted u = false
      ∧ us_active u = match find_row (user_with_sub (p_TenantID p) sub) (db_users d) with Some (_, u0) => us_active u0 | None => true end.
Proof.
  unfold provisionUser, FindUserByOIDCSub. destruct (l_find le); [done|].
  destruct (find_row _ _) as [[id u]|] eqn:Ef.
  - apply find_row_Some in Ef as [Hu E]. apply andb_true_iff in E as [[E1%beq_true _]%andb_true_iff E2%negb_true_iff].
    unfold UpdateUserProfile. destruct (l_write le); [done|]. rewrite Hu, E2. cbv zeta. destruct (negb _); [done|].
    intros E. injection E as <- <- <-. split_and!; try done. eexists. cbn. rewrite lookup_insert_eq. by split_and!.
  - destruct (p_RequirePreprovisioned p); [done|]. unfold CreateUserOIDC. cbv zeta. destruct (_ || _); [done|].
    intros E. injection E as <- <- <-. split_and!; try done. eexists. cbn. rewrite lookup_insert_eq. by split_and!.
Qed.

(** What a login that succeeds went through and left. *)
Lemma EstablishSession_inv le tenantID raw d plain se uid email role d' :
  db_ok d →
  EstablishSession discover verify discovery_base SessionTTL le tenantID raw d = (Some ((plain, se), (uid, email, role)), d') →
  ∃ p c u, GetOIDCProviderByTenant (l_provider le) tenantID d = Ok p ∧ verify (p_Issuer p) (p_ClientID p) raw = Some c
    ∧ role = claim_role p c ∧ email = claim_email c ∧ p_TenantID p = tenantID
    ∧ db_users d' !! uid = Some u ∧ us_tenant u = tenantID ∧ us_email u = email ∧ us_role u = role ∧ us_deleted u = false
    ∧ us_active u = match find_row (user_with_sub tenantID (claim_string (bs "sub") c)) (db_users d) with
                    | Some (_, u0) => us_active u0 | None => true end
    ∧ db_sessions d' !! e_id (l_env le) = Some se ∧ se_user se = uid ∧ se_hash se = TokenHash plain ∧ se_revoked se = None
    ∧ se_expires se = pg_time (e_gonow (l_env le) + sessionTTL SessionTTL)
    ∧ RandomToken (e_rand (l_env le)) 32 = Some plain ∧ RandomToken (e_rand' (l_env le)) 16 = Some (se_csrf se)
    ∧ session_hashes_unique (db_sessions d').
Proof.
  intros (_ & Hus & _ & Hkey). unfold EstablishSession. destruct (beq raw []); [done|].
  destruct (GetOIDCProviderByTenant _ _ _) as [p|] eqn:Ep; [|done].
  assert (p_TenantID p = tenantID) as Ht.
  { revert Ep. unfold GetOIDCProviderByTenant. destruct (_ || _); [done|]. destruct (db_providers d !! tenantID) as [p'|] eqn:El; [|done].
    destruct (p_Enabled p'); [|done]. intros [= ->]. by apply Hkey in El. }
  destruct (negb _); [done|]. destruct (verify _ _ _) as [c|] eqn:Ev; [|done]. cbv zeta. destruct (beq _ []); [done|].
  destruct (provisionUser _ _ _ _ _ _ _) as [[[uid' tenant]|] d1] eqn:Epr; [|done].
  apply provisionUser_inv in Epr as (-> & Hse & _ & u & Hu & Hut & Hue & Hur & Hud & Hua).
  destruct (CreateSession _ _ _ _ _ _ _ _ _ d1) as [[r'|] d2] eqn:Ec; [|done]. intros E. injection E as -> <- <- <- <-.
  apply CreateSession_inv in Ec as (csrf & Hr & Hr' & Er & -> & Hn & _ & _ & Hh). cbn [fst snd] in *. rewrite Ht in Hua, Hut.
  exists p, c, u. cbn [db_users db_sessions with_sessions]. rewrite lookup_insert_eq. subst se. split_and!; try done.
  rewrite <-Hse in Hus. apply hashes_unique_insert; [done|]. intros j s Hj Hs E. by destruct (Hh j s Hj Hs).
Qed.
End LoginFacts.

Lemma RandomToken_visible rand n tok : draws_bytes rand → RandomToken rand n = Some tok → Forall visible tok ∧ tok ≠ [].
Proof.
  intros Hr. unfold RandomToken. cbv zeta. set (k := if (n <? 16)%nat then 16%nat else n).
  assert (16 ≤ k)%nat as Hk by (subst k; destruct (n <? 16)%nat eqn:E; [done|apply Nat.ltb_ge in E; lia]).
  destruct (rand k) as [b|] eqn:Eb; [|done]. apply Hr in Eb as [Hb Hl]. intros [= <-].
  split; [by apply RawURLEncode_visible|]. destruct b as [|a [|b' [|c b]]]; cbn in Hl; [lia|done..].
Qed.

Lemma logout_dead le r d v :
  l_revoke le = false → q_SessionCookie (rq_http (lr_req r)) = Some v → v ≠ [] → session_dead (TokenHash v) (logout le r d).2.
Proof.
  intros Hx Hc Hn. unfold logout. cbn [snd]. rewrite Hc, (proj2 (beq_false _ _) Hn), Hx. apply RevokeSession_dead.
Qed.

(** C22: what a login gives: the reply 200 means that the provider of the
    resolved tenant verified the id_token, and the cookie it sets is then the
    user of that tenant with the role its groups map to, on safe requests and
    on those that carry the CSRF token, until the session expires; a user who
    was deactivated before is still refused. *)
Theorem login_opens_session `{PgTypes} discover verify base ttl TN le r d cookie csrf uid email role expires b d' :
  db_ok d → draws_bytes (e_rand (l_env le)) → draws_bytes (e_rand' (l_env le)) →
  establishSession discover verify base ttl TN le r d = (mkReply 200 (PLogin cookie csrf uid email role expires) b, d') →
  ∃ idToken override tenant p c,
    lr_body r = Some (idToken, override) ∧ resolveTenantWithOverride TN le (lr_req r) override d = Ok tenant
    ∧ GetOIDCProviderByTenant (l_provider le) tenant d = Ok p ∧ verify (p_Issuer p) (p_ClientID p) idToken = Some c
    ∧ role = RoleFromGroups (extractGroups c (p_GroupsClaim p)) (p_OwnerGroups p) (p_AdminGroups p) (p_JITDefaultRole p)
    ∧ ∀ now http, pg_time now < pg_time expires → presented_pat http = None → q_SessionCookie http = Some cookie →
        SafeMethod (q_Method http) = true ∨ (q_CSRFHeader http = csrf ∧ q_CSRFCookie http = Some csrf) →
        Middleware (pg_store false false now d') (CSRFProtect (requireAuthenticated (fun _ a _ => Served a))) http
        = if match find_row (user_with_sub tenant (claim_string (bs "sub") c)) (db_users d) with Some (_, u) => us_active u | None => true end
          then Served (mkActor ActorUser tenant uid [] role [] email) else Refused 401.
Proof.
  intros Hok Hr Hr' E. revert E. unfold establishSession. destruct (lr_readerr r); [done|].
  destruct (lr_body r) as [[idToken override]|]; [|done]. destruct (beq idToken []); [done|].
  destruct (resolveTenantWithOverride _ _ _ _ _) as [tenant|] eqn:Et; [|done].
  destruct (EstablishSession _ _ _ _ _ _ _ _) as [[[[plain se] [[uid' email'] role']]|] d1] eqn:Ee; [|done].
  intros E. injection E as -> <- -> -> -> <- _ ->.
  apply EstablishSession_inv in Ee as (p & c & u & Hp & Hv & Hrole & Hem & Htn & Hu & Hut & Hue & Hur & Hud & Hua & Hs & Hsu & Hsh & Hsr & Hse & Hpl & Hcs & Huniq); [|done].
  destruct (RandomToken_visible _ _ _ Hr Hpl) as [_ Hne]. destruct (RandomToken_visible _ _ _ Hr' Hcs) as [Hcv Hcn].
  exists idToken, override, tenant, p, c. split_and!; try done.
  intros now http Hexp Hpat Hcook Hcsrf. rewrite <-Hua.
  unfold Middleware, ActorFromRequest. rewrite Hpat, Hcook, (proj2 (beq_false _ _) Hne). unfold actorFromSession, pg_store.
  cbn [LookupSession]. unfold pg_LookupSession.
  rewrite (find_row_unique _ _ (e_id (l_env le)) se); [|done| |].
  2:{ unfold live_session. rewrite Hsh, beq_refl, Hsr, Hse. cbn. by apply Z.ltb_lt. }
  2:{ intros j s Hj El. unfold live_session in El. apply andb_true_iff in El as [[E1%beq_true E2%bool_decide_eq_true]%andb_true_iff _].
      eapply (Huniq j _ s se); try done. congruence. }
  rewrite Hsu, Hu, Hud. destruct (us_active u); cbn [negb]; [|done]. rewrite Hut, Hue, Hur. unfold CSRFProtect.
  destruct (SafeMethod _ || _) eqn:Esafe; [done|]. apply orb_false_iff in Esafe as [Esafe _].
  destruct Hcsrf as [?|[Hch Hcc]]; [congruence|]. cbn [a_Type].
  rewrite (bool_decide_eq_false_2 (ActorUser = NoActor)) by done.
  match goal with |- context [ValidateCSRF ?r ?a ?c] => rewrite (proj2 (ValidateCSRF_user r a c eq_refl)) end; [done|].
  split_and!; [done| |done]. by rewrite Hch, TrimSpace_visible.
Qed.

(** a logout is final: once the revocation it asked for ran, no request
    with the session's cookie is authenticated again, after any operations on
    the database that do not draw the same token for another session. *)
Theorem logout_is_final `{PgTypes} le r d v ops x x' now http :
  l_revoke le = false → q_SessionCookie (rq_http (lr_req r)) = Some v → v ≠ [] →
  Forall (fun op => ¬ draws (TokenHash v) op) ops →
  presented_pat http = None → q_SessionCookie http = Some v →
  ∃ e, ActorFromRequest (pg_store x x' now (db_run (logout le r d).2 ops)) http = Err e.
Proof.
  intros Hx Hc Hn Hops Hp Hv. unfold ActorFromRequest. rewrite Hp, Hv, (proj2 (beq_false _ _) Hn).
  unfold actorFromSession, pg_store. cbn [LookupSession].
  destruct (dead_session_refused x x' now v (db_run (logout le r d).2 ops)) as [e He]; [|rewrite He; by eauto].
  apply run_session_dead; [|done]. by apply logout_dead.
Qed.

(** A login that presents a session cookie the store refuses never reaches the
    handler: the browser keeps the cookie and the user cannot log in again. *)
Lemma stale_cookie_blocks_login `{PgTypes} {Q C} discover verify base ttl marshal TN le r (s : admin Q C) v er :
  presented_pat (rq_http (lr_req r)) = None → q_SessionCookie (rq_http (lr_req r)) = Some v → v ≠ [] →
  pg_LookupSession (e_auth (l_env le)) (e_auth' (l_env le)) (e_now (l_env le)) v (ad_db s) = Err er →
  (auth_serve discover verify base ttl marshal TN le r s).1 = mkReply 401 PEmpty false.
Proof.
  intros Hp Hc Hn Hl. unfold auth_serve. cbv zeta. unfold Middleware, ActorFromRequest.
  rewrite Hp, Hc, (proj2 (beq_false _ _) Hn). unfold actorFromSession, pg_store. cbn [LookupSession]. by rewrite Hl.
Qed.

(** ** Witnesses *)

Section LoginWitness.
#[local] Existing Instance demo_types.

Definition demo_provider : OIDCProvider :=
  mkProvider (bs "t1") (bs "https://idp") (bs "client") (bs "s") (bs "https://x/cb") [] true [] [bs "owners"] [bs "admins"] RoleMember false.

Definition demo_verify (issuer client raw : bytes) : option claims :=
  if beq raw (bs "jwt") then Some {[bs "sub" := CStr (bs "alice"); bs "groups" := CArr [CStr (bs "admins"); COther]]} else None.

Definition login_db : db := with_providers demo_db {[bs "t1" := demo_provider]}.

Lemma login_db_ok : db_ok login_db.
Proof.
  destruct demo_db_ok as (Ht & Hs & Hv & _). split_and!; [exact Ht|exact Hs|exact Hv|]. by apply map_Forall_singleton.
Qed.

Definition demo_login_env : login_env := mkLoginEnv demo_env (bs "u9") false false false false false false false false.

Definition demo_login : login_req :=
  mkLoginReq (mkReq (mkHttp (bs "POST") (bs "/auth/session") [] [] None None) [] [] [] [] [] None None None None) false (Some (bs "jwt", [])).

Definition login_result : admin_reply * db :=
  Eval vm_compute in establishSession (fun _ _ => true) demo_verify [] 0 [] demo_login_env demo_login login_db.

Definition login_cookies : bytes * bytes :=
  Eval vm_compute in match rp_body login_result.1 with PLogin c x _ _ _ _ => (c, x) | _ => ([], []) end.

Definition login_expiry : Z := Eval vm_compute in 5000 + 8 * 3600 * Second.

Lemma login_result_eq :
  establishSession (fun _ _ => true) demo_verify [] 0 [] demo_login_env demo_login login_db
  = (mkReply 200 (PLogin login_cookies.1 login_cookies.2 (bs "u9") (bs "alice@oidc.local") RoleAdmin login_expiry) false, login_result.2).
Proof. vm_compute. reflexivity. Qed.

Definition delete_with_csrf : HttpRequest :=
  mkHttp (bs "DELETE") (bs "/admin/api/v1/tokens/k1") [] login_cookies.2 (Some login_cookies.1) (Some login_cookies.2).

Lemma login_opens_session_witness :
  ∃ tenant, Middleware (pg_store false false 9000 login_result.2) (CSRFProtect (requireAuthenticated (fun _ a _ => Served a))) delete_with_csrf
  = Served (mkActor ActorUser tenant (bs "u9") [] RoleAdmin [] (bs "alice@oidc.local")).
Proof.
  destruct (login_opens_session (fun _ _ => true) demo_verify [] 0 [] demo_login_env demo_login login_db _ _ _ _ _ _ _ _
    login_db_ok (draws_const 7 ltac:(zlia)) (draws_const 9 ltac:(zlia)) login_result_eq)
    as (idToken & override & tenant & p & c & _ & _ & _ & _ & _ & Hs).
  exists tenant. rewrite (Hs 9000 delete_with_csrf); [|vm_compute; reflexivity|vm_compute; reflexivity|reflexivity|right; split; reflexivity].
  by rewrite find_row_none.
Defined.

Lemma login_refusals_uniform_witness :
  ¬ ∃ cookie csrf uid email role expires,
    (establishSession (fun _ _ => true) demo_verify [] 0 [] demo_login_env
       (mkLoginReq (lr_req demo_login) false (Some (bs "forged", bs "acme"))) login_db).1
    = mkReply 200 (PLogin cookie csrf uid email role expires) false.
Proof.
  destruct (login_refusals_uniform (fun _ _ => true) demo_verify [] 0 [] demo_login_env
    (mkLoginReq (lr_req demo_login) false (Some (bs "forged", bs "acme"))) login_db (bs "forged") (bs "acme") eq_refl eq_refl ltac:(done))
    as [E|(cookie & csrf & uid & email & role & expires & E)].
  - rewrite E. by intros (? & ? & ? & ? & ? & ? & ?).
  - vm_compute in E. discriminate E.
Defined.

Definition demo_logout : login_req := mkLoginReq (mkReq delete_with_csrf [] [] [] [] [] None None None None) false None.

Lemma logout_is_final_witness :
  ∃ e, ActorFromRequest (pg_store false false 9000 (db_run (logout demo_login_env demo_logout login_result.2).2
    [ORevokeToken false false 9000 (bs "t1") (bs "k1")])) delete_with_csrf = Err e.
Proof.
  apply (logout_is_final demo_login_env demo_logout login_result.2 login_cookies.1
    [ORevokeToken false false 9000 (bs "t1") (bs "k1")] false false 9000 delete_with_csrf); try reflexivity; try done.
  apply Forall_singleton. intros [].
Defined.
End LoginWitness.
