(* ===== verification/GoFlag.v ===== *)
(** * Go's flag, strconv and time parsing, as the program uses them

    [ParseInt] with base 0, [strconv.ParseBool], [time.ParseDuration] with its
    64-bit overflow checks and its float64 fraction, and the argument loop of
    [flag.FlagSet].  Nothing here is code of the repository; Config.v is
    written against it. *)

From Stdlib Require Import SpecFloat.
From stdpp Require Import base strings numbers gmap list.
From S2P Require Import Prelude GoStd.

Local Open Scope Z_scope.

(** ** Integers *)

Definition lower (c : Z) : Z := Z.lor c 32.

(** The value of a digit of any base. *)
Definition digit_value (c : Z) : option Z :=
  if is_digit c then Some (c - 48)
  else if (97 <=? lower c) && (lower c <=? 122) then Some (lower c - 87)
  else None.

Fixpoint base_digits (base : Z) (acc : Z) (s : bytes) : option Z :=
  match s with
  | [] => Some acc
  | c :: s =>
      if c =? 95 then base_digits base acc s
      else match digit_value c with
           | Some d => if d >=? base then None else base_digits base (base * acc + d) s
           | None => None
           end
  end.

(** What stands before a byte, for [underscoreOK]. *)
Inductive before := BStart | BDigit | BUnderscore | BOther.

Fixpoint underscore_loop (hex : bool) (i : before) (s : bytes) : bool :=
  match s with
  | [] => match i with BUnderscore => false | _ => true end
  | c :: s =>
      if is_digit c || (hex && (97 <=? lower c) && (lower c <=? 102)) then underscore_loop hex BDigit s
      else if c =? 95 then match i with BDigit => underscore_loop hex BUnderscore s | _ => false end
      else match i with BUnderscore => false | _ => underscore_loop hex BOther s end
  end.

(** The base prefix of an unsigned literal: base, digits, and whether letters
    follow the zero. *)
Definition base_prefix (s : bytes) : Z * bytes * bool :=
  match s with
  | 48 :: c :: d :: rest =>
      if lower c =? 98 then (2, d :: rest, true)
      else if lower c =? 111 then (8, d :: rest, true)
      else if lower c =? 120 then (16, d :: rest, true)
      else (8, c :: d :: rest, false)
  | 48 :: rest => (8, rest, false)
  | _ => (10, s, false)
  end.

Definition underscoreOK (s : bytes) : bool :=
  match s with
  | 48 :: c :: rest =>
      if (lower c =? 98) || (lower c =? 111) || (lower c =? 120) then underscore_loop (lower c =? 120) BDigit rest
      else underscore_loop false BStart s
  | _ => underscore_loop false BStart s
  end.

Definition ParseUint0 (s : bytes) : option Z :=
  match s with
  | [] => None
  | _ =>
      let '(base, ds, _) := base_prefix s in
      match base_digits base 0 ds with
      | Some n => if bool_decide (95 ∈ ds) && negb (underscoreOK s) then None else Some n
      | None => None
      end
  end.

(** [strconv.ParseInt(s, 0, 64)] *)
Definition ParseInt0 (s : bytes) : option Z :=
  let '(neg, ds) := match s with 43 :: r => (false, r) | 45 :: r => (true, r) | _ => (false, s) end in
  match ParseUint0 ds with
  | Some n =>
      let v := if (neg : bool) then - n else n in
      if (int64_min <=? v) && (v <=? int64_max) then Some v else None
  | None => None
  end.

Definition ParseBool (s : bytes) : option bool :=
  if existsb (beq s) (bs <$> ["1"; "t"; "T"; "TRUE"; "true"; "True"]%string) then Some true
  else if existsb (beq s) (bs <$> ["0"; "f"; "F"; "FALSE"; "false"; "False"]%string) then Some false
  else None.

(** ** Durations *)

Definition two63 : Z := 2 ^ 63.

(** [leadingInt]; [None] on overflow. *)
Fixpoint leadingInt (x : Z) (s : bytes) : option (Z * bytes) :=
  match s with
  | c :: s' =>
      if is_digit c then
        if x >? two63 / 10 then None
        else let x := x * 10 + (c - 48) in if x >? two63 then None else leadingInt x s'
      else Some (x, s)
  | [] => Some (x, [])
  end.

(** [leadingFraction]: value and number of digits counted. *)
Fixpoint leadingFraction (x : Z) (digits : Z) (overflow : bool) (s : bytes) : Z * Z * bytes :=
  match s with
  | c :: s' =>
      if is_digit c then
        if overflow || (x >? (two63 - 1) / 10) then leadingFraction x digits true s'
        else
          let y := x * 10 + (c - 48) in
          if y >? two63 then leadingFraction x digits true s' else leadingFraction y (digits + 1) false s'
      else (x, digits, s)
  | [] => (x, digits, [])
  end.

(** float64 *)
Definition float_of (z : Z) : spec_float := binary_normalize 53 1024 z 0 false.

Definition float_trunc (f : spec_float) : Z :=
  match f with
  | S754_finite s m e =>
      let v := if e >=? 0 then Zpos m * 2 ^ e else Zpos m / 2 ^ (- e) in if s then - v else v
  | _ => 0
  end.

(** [uint64(float64(f) * (float64(unit) / scale))]; the scale is a power of ten
    below 10^22 and exact. *)
Definition fraction_value (f unit digits : Z) : Z :=
  float_trunc (SFmul 53 1024 (float_of f) (SFdiv 53 1024 (float_of unit) (float_of (10 ^ digits)))).

Definition units : list (bytes * Z) :=
  [(bs "ns", 1); (bs "us", 1000); ([194; 181; 115], 1000); ([206; 188; 115], 1000);
   (bs "ms", 1000000); (bs "s", 1000000000); (bs "m", 60000000000); (bs "h", 3600000000000)].

Fixpoint unit_span (s : bytes) : bytes :=
  match s with
  | c :: s' => if (c =? 46) || is_digit c then [] else c :: unit_span s'
  | [] => []
  end.

(** One number with its unit. *)
Definition duration_term (s : bytes) : option (Z * bytes) :=
  match s with
  | [] => None
  | c :: _ =>
      if negb ((c =? 46) || is_digit c) then None
      else
        match leadingInt 0 s with
        | None => None
        | Some (v, s1) =>
            let pre := negb (length s1 =? length s)%nat in
            let '(f, digits, s2, post) :=
              match s1 with
              | 46 :: t => let '(f, digits, t') := leadingFraction 0 0 false t in (f, digits, t', negb (length t' =? length t)%nat)
              | _ => (0, 0, s1, false)
              end in
            if negb pre && negb post then None
            else
              let u := unit_span s2 in
              match List.find (λ e, beq e.1 u) units with
              | None => None
              | Some (_, unit) =>
                  if v >? two63 / unit then None
                  else
                    let v := v * unit in
                    let v := if f >? 0 then v + fraction_value f unit digits else v in
                    if v >? two63 then None else Some (v, drop (length u) s2)
              end
        end
  end.

Fixpoint duration_loop (fuel : nat) (d : Z) (s : bytes) : option Z :=
  match fuel with
  | O => None
  | S fuel =>
      match s with
      | [] => Some d
      | _ =>
          match duration_term s with
          | None => None
          | Some (v, s) => if d + v >? two63 then None else duration_loop fuel (d + v) s
          end
      end
  end.

(** [time.ParseDuration], in nanoseconds. *)
Definition ParseDuration (s : bytes) : option Z :=
  let '(neg, s) := match s with 45 :: r => (true, r) | 43 :: r => (false, r) | _ => (false, s) end in
  if beq s (bs "0") then Some 0
  else if beq s [] then None
  else
    match duration_loop (S (length s)) 0 s with
    | None => None
    | Some d => if (neg : bool) then Some (- d) else if d >? int64_max then None else Some d
    end.

(** ** Flag sets *)

Inductive flag_kind := FString | FInt | FDuration | FBool.

Inductive flag_value := VStr (s : bytes) | VInt (z : Z) | VBool (b : bool).

Inductive flag_error :=
| ErrHelp
| ErrBadSyntax (s : bytes)
| ErrUndefined (name : bytes)
| ErrNeedsArgument (name : bytes)
| ErrInvalidValue (name value : bytes).

Definition Set_ (k : flag_kind) (value : bytes) : option flag_value :=
  match k with
  | FString => Some (VStr value)
  | FInt => VInt <$> ParseInt0 value
  | FDuration => VInt <$> ParseDuration value
  | FBool => VBool <$> ParseBool value
  end.

(** What [parseOne] makes of one argument. *)
Inductive arg_shape := ArgStop (consumed : bool) | ArgBad | ArgFlag (name : bytes) (value : option bytes).

Definition split_value (name : bytes) : bytes * option bytes :=
  match name with
  | [] => ([], None)
  | c :: rest => match IndexByte rest 61 with Some i => (c :: take i rest, Some (drop (S i) rest)) | None => (name, None) end
  end.

Definition arg_of (s : bytes) : arg_shape :=
  match s with
  | 45 :: ((c :: rest) as name) =>
      let dashes := c =? 45 in
      if dashes && beq rest [] then ArgStop true
      else
        let name := if dashes then rest else name in
        match name with
        | [] => ArgBad
        | c :: _ => if (c =? 45) || (c =? 61) then ArgBad else let '(n, v) := split_value name in ArgFlag n v
        end
  | _ => ArgStop false
  end.

Section flagset.
Context (formal : gmap bytes flag_kind).

Definition set_flag (vars : gmap bytes flag_value) (name : bytes) (k : flag_kind) (value : bytes) : option (gmap bytes flag_value) :=
  (λ v, <[name := v]> vars) <$> Set_ k value.

(** [FlagSet.Parse]: the variables and the remaining arguments. *)
Fixpoint flag_Parse (args : list bytes) (vars : gmap bytes flag_value) : result flag_error (gmap bytes flag_value * list bytes) :=
  match args with
  | [] => Ok (vars, [])
  | s :: args' =>
      match arg_of s with
      | ArgStop consumed => Ok (vars, if consumed then args' else args)
      | ArgBad => Err (ErrBadSyntax s)
      | ArgFlag name value =>
          match formal !! name with
          | None => if beq name (bs "help") || beq name (bs "h") then Err ErrHelp else Err (ErrUndefined name)
          | Some FBool =>
              let v := default (bs "true") value in
              match set_flag vars name FBool v with
              | Some vars => flag_Parse args' vars
              | None => Err (ErrInvalidValue name v)
              end
          | Some k =>
              match value with
              | Some v =>
                  match set_flag vars name k v with
                  | Some vars => flag_Parse args' vars
                  | None => Err (ErrInvalidValue name v)
                  end
              | None =>
                  match args' with
                  | [] => Err (ErrNeedsArgument name)
                  | v :: args'' =>
                      match set_flag vars name k v with
                      | Some vars => flag_Parse args'' vars
                      | None => Err (ErrInvalidValue name v)
                      end
                  end
              end
          end
      end
  end.
End flagset.

(** ** Types and bounds *)

Definition sign_false (f : spec_float) : Prop :=
  match f with S754_zero s | S754_infinity s | S754_finite s _ _ => s = false | S754_nan => True end.

Lemma round_aux_sign prec emax m e l : sign_false (binary_round_aux prec emax false m e l).
Proof.
  unfold binary_round_aux. destruct (shr_fexp prec emax m e l) as [r e']. destruct (shr_fexp prec emax _ e' _) as [r' e''].
  destruct (shr_m r'); [done| |done]. by destruct (e'' <=? _).
Qed.

Lemma float_of_sign z : 0 ≤ z → sign_false (float_of z).
Proof.
  unfold float_of, binary_normalize. destruct z; intros; [done| |lia].
  unfold binary_round. destruct (shl_align _ _ _). apply round_aux_sign.
Qed.

Lemma SFmul_sign x y : sign_false x → sign_false y → sign_false (SFmul 53 1024 x y).
Proof. destruct x, y; cbn -[binary_round_aux]; intros; subst; try done. apply round_aux_sign. Qed.

Lemma SFdiv_sign x y : sign_false x → sign_false y → sign_false (SFdiv 53 1024 x y).
Proof.
  destruct x, y; cbn -[binary_round_aux SFdiv_core_binary]; intros; subst; try done.
  destruct (SFdiv_core_binary _ _ _ _ _ _) as [[? ?] ?]. apply round_aux_sign.
Qed.

Lemma float_trunc_nonneg f : sign_false f → 0 ≤ float_trunc f.
Proof.
  destruct f as [| | |s m e]; cbn; intros; subst; try done. destruct (Z.geb_spec e 0).
  - apply Z.mul_nonneg_nonneg; [lia|]. apply Z.pow_nonneg. lia.
  - apply Z.div_pos; [lia|]. apply Z.pow_pos_nonneg; lia.
Qed.

Lemma fraction_value_nonneg f unit digits : 0 ≤ f → 0 ≤ unit → 0 ≤ fraction_value f unit digits.
Proof.
  intros. apply float_trunc_nonneg, SFmul_sign; [by apply float_of_sign|].
  apply SFdiv_sign; apply float_of_sign; [done|]. apply Z.pow_nonneg. lia.
Qed.

Lemma is_digit_range c : is_digit c = true → 48 ≤ c ≤ 57.
Proof. unfold is_digit. lia. Qed.

Lemma leadingInt_nonneg s x v r : 0 ≤ x → leadingInt x s = Some (v, r) → 0 ≤ v.
Proof.
  revert x. induction s as [|c s IH]; intros x Hx; cbn [leadingInt]; [by intros [= <- <-]|].
  destruct (is_digit c) eqn:Ed; [|by intros [= <- <-]]. apply is_digit_range in Ed.
  destruct (_ >? _); [done|]. destruct (_ >? _); [done|]. apply IH. lia.
Qed.

Lemma units_pos u unit : List.find (λ e, beq e.1 u) units = Some (u, unit) → 0 < unit.
Proof.
  intros [Hin _]%find_some. cbn in Hin.
  repeat match goal with H : _ ∨ _ |- _ => destruct H as [H|H] end; try done; injection Hin as <- <-; lia.
Qed.

Lemma duration_term_bound s v r : duration_term s = Some (v, r) → 0 ≤ v ≤ two63.
Proof.
  unfold duration_term. destruct s as [|c s]; [done|]. destruct (negb _); [done|].
  destruct (leadingInt 0 (c :: s)) as [[n s1]|] eqn:El; [|done]. apply leadingInt_nonneg in El; [|done].
  set (p := match s1 with 46 :: _ => _ | _ => _ end). destruct p as [[[f digits] s2] post].
  destruct (_ && _); [done|]. destruct (List.find _ units) as [[u unit]|] eqn:Ef; [|done].
  assert (u = unit_span s2) as -> by (by apply find_some in Ef as [_ ?%beq_true]).
  apply units_pos in Ef. destruct (_ >? _); [done|].
  destruct (Z.gtb_spec f 0).
  - pose proof (fraction_value_nonneg f unit digits ltac:(lia) ltac:(lia)).
    destruct (Z.gtb_spec (n * unit + fraction_value f unit digits) two63); [done|]. intros [= <- <-]. nia.
  - destruct (Z.gtb_spec (n * unit) two63); [done|]. intros [= <- <-]. nia.
Qed.

Lemma duration_loop_bound fuel d s v : 0 ≤ d ≤ two63 → duration_loop fuel d s = Some v → 0 ≤ v ≤ two63.
Proof.
  revert d s. induction fuel as [|fuel IH]; intros d s Hd; [done|]. cbn [duration_loop].
  destruct s as [|c s]; [by intros [= <-]|]. destruct (duration_term (c :: s)) as [[w r]|] eqn:Et; [|done].
  apply duration_term_bound in Et. destruct (Z.gtb_spec (d + w) two63); [done|]. apply IH. lia.
Qed.

Lemma ParseDuration_int64 s v : ParseDuration s = Some v → is_int64 v.
Proof.
  unfold ParseDuration.
  set (p := match s with 45 :: r => (true, r) | 43 :: r => (false, r) | _ => (false, s) end).
  destruct p as [neg t]. destruct (beq t (bs "0")); [intros [= <-]; done|]. destruct (beq t []); [done|].
  destruct (duration_loop _ 0 t) as [d|] eqn:El; [|done].
  apply duration_loop_bound in El; [|done]. unfold is_int64, int64_min, int64_max, two63 in *.
  destruct neg; [intros [= <-]; lia|]. destruct (Z.gtb_spec d (2 ^ 63 - 1)); [done|]. intros [= <-]. lia.
Qed.

Lemma ParseInt0_int64 s v : ParseInt0 s = Some v → is_int64 v.
Proof.
  unfold ParseInt0. set (p := match s with 43 :: r => (false, r) | 45 :: r => (true, r) | _ => (false, s) end).
  destruct p as [neg t]. destruct (ParseUint0 t); [|done].
  set (w := if neg then _ else _). destruct (Z.leb_spec int64_min w), (Z.leb_spec w int64_max); try done.
  intros [= <-]. done.
Qed.

(** A value of a flag's kind; numbers are 64-bit. *)
Definition has_kind (k : flag_kind) (v : flag_value) : Prop :=
  match k, v with
  | FString, VStr _ | FBool, VBool _ => True
  | (FInt | FDuration), VInt z => is_int64 z
  | _, _ => False
  end.

Definition vars_typed (formal : gmap bytes flag_kind) (vars : gmap bytes flag_value) : Prop :=
  ∀ name k, formal !! name = Some k → ∃ v, vars !! name = Some v ∧ has_kind k v.

Lemma Set_kind k s v : Set_ k s = Some v → has_kind k v.
Proof.
  unfold Set_. destruct k; [by intros [= <-]|intros (x & Hx & ->)%fmap_Some..]; cbn; [| |done].
  - by eapply ParseInt0_int64.
  - by eapply ParseDuration_int64.
Qed.

Lemma set_flag_typed formal vars name k s vars' :
  vars_typed formal vars → formal !! name = Some k → set_flag vars name k s = Some vars' → vars_typed formal vars'.
Proof.
  intros Ht Hk. unfold set_flag. intros (v & Hv & ->)%fmap_Some n k' Hn. destruct (decide (n = name)) as [->|].
  - simplify_eq. rewrite lookup_insert_eq. eauto using Set_kind.
  - rewrite lookup_insert_ne by done. by apply Ht.
Qed.

(** Parsing keeps every variable of its flag's kind. *)
Lemma flag_Parse_typed formal args vars vars' rest :
  vars_typed formal vars → flag_Parse formal args vars = Ok (vars', rest) → vars_typed formal vars'.
Proof.
  remember (length args) as n eqn:Hn. revert args vars Hn.
  induction (lt_wf n) as [n _ IH]; intros args vars -> Ht. destruct args as [|s args]; cbn [flag_Parse]; [by intros [= <- <-]|].
  destruct (arg_of s) as [consumed| |name value]; [by intros [= <- _]|done|].
  destruct (formal !! name) as [k|] eqn:Ek; [|by destruct (_ || _)].
  assert (∀ a w vars1, (length a < length (s :: args))%nat → set_flag vars name k w = Some vars1 →
    flag_Parse formal a vars1 = Ok (vars', rest) → vars_typed formal vars') as Hgo.
  { intros a w vars1 Hl Hs. eapply (IH (length a)); [done|done|]. by eapply set_flag_typed. }
  destruct k, value as [v|]; cbn [default];
    try (destruct (set_flag _ _ _ _) as [vars1|] eqn:Es; [|done]; eapply Hgo; [cbn; lia|exact Es]);
    destruct args as [|v args]; try done;
    destruct (set_flag _ _ _ _) as [vars1|] eqn:Es; try done; (eapply Hgo; [cbn; lia|exact Es]).
Qed.

(** ** Command lines *)

(** A flag's name as the loop can read it back. *)
Definition plain_name (name : bytes) : bool :=
  match name with
  | c :: _ => negb (c =? 45) && forallb (λ c, negb (c =? 61)) name
  | [] => false
  end.

(** -name=value *)
Definition flag_arg (name value : bytes) : bytes := 45 :: name ++ 61 :: value.

Lemma arg_of_flag name value : plain_name name = true → arg_of (flag_arg name value) = ArgFlag name (Some value).
Proof.
  destruct name as [|c name]; [done|]. cbn [plain_name forallb]. intros Hp.
  assert (c ≠ 45 ∧ c ≠ 61 ∧ 61 ∉ name) as (Hc & Hc' & Hn).
  { rewrite !andb_true_iff, !negb_true_iff, !Z.eqb_neq in Hp. destruct Hp as (H1 & H2 & H3).
    split_and!; [done..|]. intros Hin. rewrite forallb_forall in H3. apply list_elem_of_In in Hin.
    by apply H3 in Hin. }
  unfold arg_of, flag_arg. cbn [app]. rewrite (proj2 (Z.eqb_neq c 45)), (proj2 (Z.eqb_neq c 61)) by done.
  cbn [andb orb]. unfold split_value. rewrite IndexByte_app by done.
  rewrite take_app_length, (drop_app_ge name) by lia. replace (S (length name) - length name)%nat with 1%nat by lia.
  cbn [drop]. by rewrite drop_0, (proj2 (Z.eqb_neq c 45)) by done.
Qed.

(** The settings of a command line, one after the other. *)
Fixpoint apply_settings (formal : gmap bytes flag_kind) (l : list (bytes * bytes)) (vars : gmap bytes flag_value)
    : option (gmap bytes flag_value) :=
  match l with
  | [] => Some vars
  | (name, value) :: l =>
      match formal !! name with
      | Some k => match set_flag vars name k value with Some vars => apply_settings formal l vars | None => None end
      | None => None
      end
  end.

Lemma flag_Parse_settings formal l vars vars' rest :
  map_Forall (λ name _, plain_name name = true) formal →
  apply_settings formal l vars = Some vars' →
  flag_Parse formal ((λ nv, flag_arg nv.1 nv.2) <$> l) vars = Ok (vars', []) ∧
  ∀ p, arg_of p = ArgStop false →
    flag_Parse formal (((λ nv, flag_arg nv.1 nv.2) <$> l) ++ p :: rest) vars = Ok (vars', p :: rest).
Proof.
  intros Hp. revert vars. induction l as [|[name value] l IH]; intros vars; cbn [apply_settings].
  { intros [= <-]. split; [done|]. intros p Hpp. cbn. by rewrite Hpp. }
  destruct (formal !! name) as [k|] eqn:Ek; [|done]. destruct (set_flag vars name k value) as [vars1|] eqn:Es; [|done].
  intros Ha. destruct (IH _ Ha) as [H1 H2]. rewrite fmap_cons. cbn [fst snd app flag_Parse].
  rewrite (arg_of_flag name value), Ek by (by eapply (Hp name)).
  change (default (bs "true") (Some value)) with value. destruct k; rewrite Es; split; done.
Qed.
