(* ===== verification/Config.v ===== *)
(** * Command-line configuration (src/internal/config/config.go)

    [ParseFlags]: the flags with their kinds and defaults, and the checks that
    turn the parsed values into a [Config].  Flag parsing is GoFlag.v's,
    [url.Parse] is NetUrl.v's. *)

From stdpp Require Import base strings numbers gmap list.
From S2P Require Import Prelude GoStd CacheKey HostAllow NetUrl GoFlag.

Local Open Scope Z_scope.

Definition sec : Z := 1000000000.

Record Config := mkCfg {
  Listen : bytes;
  AdminListen : bytes;
  PprofListen : bytes;
  CacheDir : bytes;
  DefaultHost : bytes;
  cf_UpstreamScheme : bytes;
  PublicBaseURL : url;
  cf_AllowHost : list bytes;
  LogLevel : bytes;
  cf_ReadTimeout : Z;
  cf_WriteTimeout : Z;
  InflightAcquireTimeout : Z;
  cf_IdleTimeout : Z;
  cf_ReadHeaderTimeout : Z;
  MaxConnsPerIP : Z;
  MaxIdle : Z;
  TLSCertFile : bytes;
  TLSKeyFile : bytes;
  FsyncPolicy : bytes;
  MaxRedirects : Z;
  SocketSendBuf : Z;
  TCPCork : bool;
  IoUring : bool;
  Listeners : Z;
  Offline : bool;
  StrictOffline : bool;
  CacheMaxBytes : Z;
  LFSMaxBytes : Z;
  CommitMaxBytes : Z;
  UpstreamHFToken : bytes;
}.

Definition defaultAllowHosts : list bytes :=
  bs <$> ["huggingface.co"; "hf.co"; "huggingface.com"; "cdn-lfs.huggingface.co"; "lfs.huggingface.co";
          "cas-bridge.xethub.hf.co"; "xethub.hf.co"]%string.

(** The registered flags, with their defaults. *)
Definition flags : list (bytes * (flag_kind * flag_value)) :=
  [(bs "listen", (FString, VStr (bs ":8080")));
   (bs "admin-listen", (FString, VStr (bs "127.0.0.1:6060")));
   (bs "pprof-listen", (FString, VStr []));
   (bs "cache-dir", (FString, VStr (bs "./pulsys-cache")));
   (bs "default-upstream-host", (FString, VStr (bs "huggingface.co")));
   (bs "upstream-scheme", (FString, VStr (bs "https")));
   (bs "public-base-url", (FString, VStr []));
   (bs "allow-host", (FString, VStr (Join defaultAllowHosts (bs ","))));
   (bs "log-level", (FString, VStr (bs "info")));
   (bs "read-timeout", (FDuration, VInt (300 * sec)));
   (bs "write-timeout", (FDuration, VInt (300 * sec)));
   (bs "inflight-acquire-timeout", (FDuration, VInt (5 * sec)));
   (bs "commit-max-bytes", (FInt, VInt 0));
   (bs "idle-timeout", (FDuration, VInt 0));
   (bs "read-header-timeout", (FDuration, VInt 0));
   (bs "max-conns-per-ip", (FInt, VInt 0));
   (bs "max-idle-conn-timeout", (FDuration, VInt (90 * sec)));
   (bs "tls-cert", (FString, VStr []));
   (bs "tls-key", (FString, VStr []));
   (bs "fsync", (FString, VStr (bs "none")));
   (bs "max-redirects", (FInt, VInt 10));
   (bs "socket-send-buf", (FInt, VInt 0));
   (bs "tcp-cork", (FBool, VBool true));
   (bs "iouring", (FBool, VBool false));
   (bs "listeners", (FInt, VInt 1));
   (bs "offline", (FBool, VBool true));
   (bs "strict-offline", (FBool, VBool false));
   (bs "cache-max-bytes", (FInt, VInt 0));
   (bs "lfs-max-bytes", (FInt, VInt 0))].

Definition formal : gmap bytes flag_kind := list_to_map (prod_map id fst <$> flags).
Definition initial : gmap bytes flag_value := list_to_map (prod_map id snd <$> flags).

Inductive config_error :=
| FlagError (e : flag_error)
| PublicBaseRequired
| InvalidPublicBase (s : bytes)
| AllowHostEmpty
| InvalidFsync (s : bytes)
| InvalidScheme (s : bytes).

(** The variable behind a flag. *)
Definition str (vars : gmap bytes flag_value) (name : string) : bytes :=
  match vars !! bs name with Some (VStr s) => s | _ => [] end.
Definition num (vars : gmap bytes flag_value) (name : string) : Z :=
  match vars !! bs name with Some (VInt z) => z | _ => 0 end.
Definition flg (vars : gmap bytes flag_value) (name : string) : bool :=
  match vars !! bs name with Some (VBool b) => b | _ => false end.

Definition fsync_policies : list bytes := bs <$> ["none"; "per-file"; "dir"]%string.
Definition upstream_schemes : list bytes := bs <$> ["https"; "http"]%string.

Section parse_flags.
Context `{GoUnicode}.

(** The loop over the comma-separated list. *)
Fixpoint allow_hosts (ps : list bytes) : list bytes :=
  match ps with
  | [] => []
  | p :: ps =>
      let p := ToLower (TrimSpace p) in
      if negb (beq p []) then p :: allow_hosts ps else allow_hosts ps
  end.

(** What follows [fs.Parse]. *)
Definition check_vars (token : bytes) (vars : gmap bytes flag_value) : result config_error Config :=
  let publicBase := str vars "public-base-url" in
  if beq publicBase [] then Err PublicBaseRequired
  else
    match Parse publicBase with
    | None => Err (InvalidPublicBase publicBase)
    | Some u =>
        if beq (ur_Scheme u) [] || beq (ur_Host u) [] then Err (InvalidPublicBase publicBase)
        else
          let defaultHost := ToLower (TrimSpace (str vars "default-upstream-host")) in
          let allow := allow_hosts (Split (str vars "allow-host") 44) in
          if (length allow =? 0)%nat then Err AllowHostEmpty
          else if negb (existsb (beq (str vars "fsync")) fsync_policies) then Err (InvalidFsync (str vars "fsync"))
          else if negb (existsb (beq (str vars "upstream-scheme")) upstream_schemes)
          then Err (InvalidScheme (str vars "upstream-scheme"))
          else
            Ok {| Listen := str vars "listen";
                  AdminListen := str vars "admin-listen";
                  PprofListen := str vars "pprof-listen";
                  CacheDir := str vars "cache-dir";
                  DefaultHost := defaultHost;
                  cf_UpstreamScheme := str vars "upstream-scheme";
                  PublicBaseURL := u;
                  cf_AllowHost := allow;
                  LogLevel := str vars "log-level";
                  cf_ReadTimeout := num vars "read-timeout";
                  cf_WriteTimeout := num vars "write-timeout";
                  InflightAcquireTimeout := num vars "inflight-acquire-timeout";
                  cf_IdleTimeout := num vars "idle-timeout";
                  cf_ReadHeaderTimeout := num vars "read-header-timeout";
                  MaxConnsPerIP := num vars "max-conns-per-ip";
                  MaxIdle := num vars "max-idle-conn-timeout";
                  TLSCertFile := str vars "tls-cert";
                  TLSKeyFile := str vars "tls-key";
                  FsyncPolicy := str vars "fsync";
                  MaxRedirects := num vars "max-redirects";
                  SocketSendBuf := num vars "socket-send-buf";
                  TCPCork := flg vars "tcp-cork";
                  IoUring := flg vars "iouring";
                  Listeners := num vars "listeners";
                  Offline := flg vars "offline";
                  StrictOffline := flg vars "strict-offline";
                  CacheMaxBytes := num vars "cache-max-bytes";
                  LFSMaxBytes := num vars "lfs-max-bytes";
                  CommitMaxBytes := num vars "commit-max-bytes";
                  UpstreamHFToken := TrimSpace token |}
    end.

(** [hf_token] is the environment's PULSYS_HF_TOKEN. *)
Definition ParseFlags (hf_token : bytes) (args : list bytes) : result config_error Config :=
  match flag_Parse formal args initial with
  | Err e => Err (FlagError e)
  | Ok (vars, _) => check_vars hf_token vars
  end.
End parse_flags.

(** ** Lemmas *)

Lemma formal_plain : map_Forall (λ name _, plain_name name = true) formal.
Proof. vm_decide. Qed.

Lemma initial_typed : vars_typed formal initial.
Proof.
  assert (Forall (λ e, has_kind e.2.1 e.2.2) flags) as Hf.
  { unfold flags. repeat (constructor; [cbn; unfold sec; try zlia; done|]). constructor. }
  assert (NoDup flags.*1) as Hd by vm_decide.
  intros name k Hk. unfold formal in Hk. apply elem_of_list_to_map_2 in Hk.
  apply list_elem_of_fmap in Hk as ([n [k' v]] & [= -> ->] & Hin). exists v.
  rewrite Forall_forall in Hf. specialize (Hf _ Hin). split; [|exact Hf].
  unfold initial. apply elem_of_list_to_map_1.
  - by rewrite <-list_fmap_compose.
  - apply list_elem_of_fmap. by exists (n, (k', v)).
Qed.

Lemma num_int64 vars name : vars_typed formal vars → is_Some (formal !! bs name) → is_int64 (num vars name).
Proof.
  intros Ht [k Hk]. destruct (Ht _ _ Hk) as (v & Hv & Hkv). unfold num. rewrite Hv. destruct k, v; done.
Qed.

Lemma existsb_beq s l : existsb (beq s) l = true → s ∈ l.
Proof. intros (x & Hx & ->%beq_true)%existsb_exists. by apply list_elem_of_In. Qed.

Section lemmas.
Context `{GoUnicode}.

Lemma allow_hosts_nonempty ps : Forall (.≠ []) (allow_hosts ps).
Proof.
  induction ps as [|p ps IH]; cbn [allow_hosts]; [constructor|].
  destruct (beq (ToLower (TrimSpace p)) []) eqn:E; cbn [negb]; [done|]. constructor; [|done]. by apply beq_false.
Qed.

Lemma ParseFlags_ok tok args c :
  ParseFlags tok args = Ok c →
  ∃ vars rest, flag_Parse formal args initial = Ok (vars, rest) ∧ vars_typed formal vars ∧ check_vars tok vars = Ok c.
Proof.
  unfold ParseFlags. destruct (flag_Parse _ _ _) as [[vars rest]|e] eqn:E; [|done]. intros Hc.
  exists vars, rest. split_and!; [done| |done]. eapply flag_Parse_typed; [apply initial_typed|exact E].
Qed.

Lemma check_vars_token tok vars c : check_vars tok vars = Ok c → UpstreamHFToken c = TrimSpace tok.
Proof.
  unfold check_vars. destruct (beq _ []); [done|]. destruct (Parse _) as [u|]; [|done].
  destruct (_ || _); [done|]. destruct (_ =? _)%nat; [done|]. destruct (negb _); [done|]. destruct (negb _); [done|].
  by intros [= <-].
Qed.

(** ** Properties *)

(** an accepted configuration is well formed: the public base URL has a
    scheme and a host, the allow list has entries and none of them is empty,
    the durability policy and the upstream scheme are among those the program
    knows, every limit and timeout is a 64-bit number, and the Hub token
    carries no space at its ends. *)
Theorem config_well_formed tok args c :
  ParseFlags tok args = Ok c →
  ur_Scheme (PublicBaseURL c) ≠ [] ∧ ur_Host (PublicBaseURL c) ≠ [] ∧
  cf_AllowHost c ≠ [] ∧ Forall (.≠ []) (cf_AllowHost c) ∧
  FsyncPolicy c ∈ fsync_policies ∧ cf_UpstreamScheme c ∈ upstream_schemes ∧
  Forall is_int64 [cf_ReadTimeout c; cf_WriteTimeout c; InflightAcquireTimeout c; cf_IdleTimeout c; cf_ReadHeaderTimeout c;
    MaxConnsPerIP c; MaxIdle c; MaxRedirects c; SocketSendBuf c; Listeners c; CacheMaxBytes c; LFSMaxBytes c; CommitMaxBytes c] ∧
  trimmed (UpstreamHFToken c).
Proof.
  intros (vars & rest & _ & Ht & Hc)%ParseFlags_ok. unfold check_vars in Hc.
  destruct (beq _ []); [done|]. destruct (Parse _) as [u|]; [|done].
  destruct (beq (ur_Scheme u) []) eqn:E1; [done|]. destruct (beq (ur_Host u) []) eqn:E2; [done|]. cbn [orb] in Hc.
  destruct (Nat.eqb_spec (length (allow_hosts (Split (str vars "allow-host") 44))) 0) as [|Ha]; [done|].
  destruct (existsb _ fsync_policies) eqn:E3; [|done]. destruct (existsb _ upstream_schemes) eqn:E4; [|done].
  cbn [negb] in Hc. injection Hc as <-.
  cbn [PublicBaseURL cf_AllowHost FsyncPolicy cf_UpstreamScheme cf_ReadTimeout cf_WriteTimeout InflightAcquireTimeout
    cf_IdleTimeout cf_ReadHeaderTimeout MaxConnsPerIP MaxIdle MaxRedirects SocketSendBuf Listeners CacheMaxBytes
    LFSMaxBytes CommitMaxBytes UpstreamHFToken].
  split_and!; [by apply beq_false|by apply beq_false|by intros Hn; rewrite Hn in Ha|apply allow_hosts_nonempty| | | |].
  - by apply existsb_beq in E3.
  - by apply existsb_beq in E4.
  - repeat (constructor; [apply num_int64; [done|vm_decide]|]). constructor.
  - apply TrimSpace_trimmed.
Qed.

End lemmas.

(** ** Concrete command lines *)

#[local] Existing Instance ascii_unicode.

Definition sample_settings : list (bytes * bytes) :=
  [(bs "public-base-url", bs "https://hub.example.com"); (bs "offline", bs "false");
   (bs "read-timeout", bs "1m1.5s"); (bs "cache-max-bytes", bs "0x10_0000"); (bs "read-timeout", bs "2h45m")].

Definition sample_args : list bytes := (λ nv, flag_arg nv.1 nv.2) <$> sample_settings.

Definition sample_vars : gmap bytes flag_value := default ∅ (apply_settings formal sample_settings initial).

Lemma sample_vars_ok : apply_settings formal sample_settings initial = Some sample_vars.
Proof.
  assert (is_Some (apply_settings formal sample_settings initial)) as [v Hv] by vm_decide.
  unfold sample_vars. by rewrite Hv.
Qed.


Definition sample_config : result config_error Config := Eval vm_compute in ParseFlags (bs " hf_x ") sample_args.

Lemma config_well_formed_witness :
  match sample_config with
  | Ok c => ParseFlags (bs " hf_x ") sample_args = Ok c ∧ UpstreamHFToken c = bs "hf_x" ∧ FsyncPolicy c ∈ fsync_policies
  | Err _ => False
  end.
Proof.
  cbn [sample_config]. split; [vm_compute; reflexivity|]. split; [reflexivity|].
  eapply (config_well_formed (bs " hf_x ") sample_args). vm_compute. reflexivity.
Defined.

(** A value written apart from a Boolean flag is an argument of its own: the
    flag is set, and the quota that follows is dropped without an error. *)
Lemma detached_bool_drops_quota :
  ∃ c, ParseFlags (bs "hf_x")
         (bs <$> ["-public-base-url"; "http://h"; "-offline"; "false"; "-cache-max-bytes"; "1000"]%string) = Ok c ∧
    Offline c = true ∧ CacheMaxBytes c = 0.
Proof. eexists. split; [vm_compute; reflexivity|]. by split. Qed.

(** Timeouts are not checked for their sign. *)
Lemma negative_timeout_accepted :
  ∃ c, ParseFlags (bs "hf_x") (bs <$> ["-public-base-url=http://h"; "-read-timeout=-5s"]%string) = Ok c ∧
    cf_ReadTimeout c = -5 * sec.
Proof. eexists. split; [vm_compute; reflexivity|]. done. Qed.
