(* ===== verification/DbCli.v ===== *)
(** * The operators' program (src/cmd/pulsys-db/main.go, tenant_oidc.go,
    user.go, src/internal/db/db.go, migrate.go, river_migrate.go)

    [run] from the arguments to the exit code and the database: the two levels
    of flags, the subcommands, the connection pool and the migrations.  The
    migration library and the driver are arguments: what a call of theirs
    returns is part of the environment. *)

From stdpp Require Import base strings numbers gmap list.
From S2P Require Import Prelude GoStd CacheKey PatGate Auth AdminStore GoFlag.

Local Open Scope Z_scope.

(** ** The pool *)

Definition minute : Z := 60 * 1000000000.

Record pool_config := mkPool {
  pc_DSN : bytes;
  pc_MaxConns : Z;
  pc_MinConns : Z;
  pc_MaxConnLifetime : Z;
  pc_MaxConnIdleTime : Z;
  pc_HealthCheckPeriod : Z;
  pc_AppName : bytes;
}.

Definition applyDefaults (c : pool_config) : pool_config :=
  {| pc_DSN := pc_DSN c;
     pc_MaxConns := if pc_MaxConns c =? 0 then 20 else pc_MaxConns c;
     pc_MinConns := if pc_MinConns c =? 0 then 2 else pc_MinConns c;
     pc_MaxConnLifetime := if pc_MaxConnLifetime c =? 0 then 30 * minute else pc_MaxConnLifetime c;
     pc_MaxConnIdleTime := if pc_MaxConnIdleTime c =? 0 then 5 * minute else pc_MaxConnIdleTime c;
     pc_HealthCheckPeriod := if pc_HealthCheckPeriod c =? 0 then minute / 2 else pc_HealthCheckPeriod c;
     pc_AppName := if beq (pc_AppName c) [] then bs "pulsys" else pc_AppName c |}.

Inductive pool_error := PoolEmptyDSN | PoolParse | PoolOpen | PoolPing.

(** What the driver answers: whether the DSN parses, the pool opens and the
    first ping succeeds, and the round trip of the health check. *)
Record driver := mkDriver {
  dr_parse : bytes → bool;
  dr_open : bool;
  dr_ping : bool;
  dr_select1 : option Z;
}.

Definition NewPool (x : driver) (cfg : pool_config) : result pool_error pool_config :=
  if beq (pc_DSN cfg) [] then Err PoolEmptyDSN
  else
    let cfg := applyDefaults cfg in
    if negb (dr_parse x (pc_DSN cfg)) then Err PoolParse
    else if negb (dr_open x) then Err PoolOpen
    else if negb (dr_ping x) then Err PoolPing
    else Ok cfg.

Definition Health (x : driver) : bool := match dr_select1 x with Some one => one =? 1 | None => false end.

(** ** Migrations *)

Definition longer_prefix (dsn p : bytes) : bool := (length p <? length dsn)%nat && beq (take (length p) dsn) p.

Definition pgxMigrateURL (dsn : bytes) : option bytes :=
  if longer_prefix dsn (bs "pgx5://") then Some dsn
  else if longer_prefix dsn (bs "postgres://") then Some (bs "pgx5://" ++ drop 11 dsn)
  else if longer_prefix dsn (bs "postgresql://") then Some (bs "pgx5://" ++ drop 13 dsn)
  else None.

Inductive MigrationDirection := MigrateUp | MigrateDown.

(** The version of the schema with its dirty flag; none before the first
    migration. *)
Abbreviation schema := (option (Z * bool)).

Inductive migrate_error := ErrNoChange | ErrMigrate.

Record pg := mkPg { pg_db : db; pg_schema : schema }.

(** golang-migrate and River: opening the migrator, moving the schema with
    the rows in it, reading its version, and River's own migration. *)
Record migrator := mkMigrator {
  mg_open : bool;
  mg_move : MigrationDirection → pg → option migrate_error * pg;
  mg_version : bool;
  mg_river : bool;
}.

Definition Migrate (x : migrator) (dsn : bytes) (dir : MigrationDirection) (s : pg) : bool * pg :=
  if beq dsn [] then (false, s)
  else
    match pgxMigrateURL dsn with
    | None => (false, s)
    | Some _ =>
        if negb (mg_open x) then (false, s)
        else
          match mg_move x dir s with
          | (None, s) | (Some ErrNoChange, s) => (true, s)
          | (Some ErrMigrate, s) => (false, s)
          end
    end.

Definition MigrationVersion (x : migrator) (dsn : bytes) (v : schema) : option (Z * bool) :=
  if beq dsn [] then None
  else
    match pgxMigrateURL dsn with
    | None => None
    | Some _ =>
        if negb (mg_open x) then None
        else if negb (mg_version x) then None
        else Some (default (0, false) v)
    end.

(** ** The program *)

Record cli_env := mkCli {
  ce_PULSYS_DB_DSN : bytes;
  ce_driver : driver;
  ce_migrator : migrator;
  ce_now : Z;
  ce_uuid : bytes;               (* of the row an INSERT adds *)
  ce_first : bool;               (* the first query fails *)
  ce_second : bool;              (* the second one fails *)
  ce_third : bool;               (* a later one fails *)
}.

Definition string_flags (l : list (string * string)) : gmap bytes flag_kind * gmap bytes flag_value :=
  (list_to_map ((λ nd, (bs nd.1, FString)) <$> l), list_to_map ((λ nd, (bs nd.1, VStr (bs nd.2))) <$> l)).

Definition flag_str (vars : gmap bytes flag_value) (name : string) : bytes :=
  match vars !! bs name with Some (VStr s) => s | _ => [] end.
Definition flag_bool (vars : gmap bytes flag_value) (name : string) : bool :=
  match vars !! bs name with Some (VBool b) => b | _ => false end.

Definition splitCSV (s : bytes) : list bytes :=
  List.filter (λ p, negb (beq p [])) (TrimSpace <$> Split s 44).

Section cli.
Context `{PgTypes} (meta : bytes → bytes → bytes) (x : cli_env).

Definition cli_pool (dsn : bytes) : pool_config := mkPool dsn 0 0 0 0 0 (bs "pulsys-db").

Definition doMigrate (dsn : bytes) (dir : MigrationDirection) (s : pg) : Z * pg :=
  match Migrate (ce_migrator x) dsn dir s with
  | (false, s) => (2, s)
  | (true, s) =>
      if match dir with MigrateUp => negb (mg_river (ce_migrator x)) | MigrateDown => false end then (2, s)
      else match MigrationVersion (ce_migrator x) dsn (pg_schema s) with Some _ => (0, s) | None => (2, s) end
  end.

Definition doMigrateVersion (dsn : bytes) (s : pg) : Z :=
  match MigrationVersion (ce_migrator x) dsn (pg_schema s) with
  | None => 2
  | Some (_, dirty) => if dirty then 2 else 0
  end.

Definition doHealth (dsn : bytes) : Z :=
  match NewPool (ce_driver x) (cli_pool dsn) with
  | Err _ => 2
  | Ok _ => if Health (ce_driver x) then 0 else 2
  end.

Definition tenant_flags := string_flags [("name", "default"); ("display-name", "Default Tenant")]%string.

Definition doTenantEnsure (dsn : bytes) (args : list bytes) (d : db) : Z * db :=
  match flag_Parse tenant_flags.1 args tenant_flags.2 with
  | Err _ => (1, d)
  | Ok (vars, _) =>
      match NewPool (ce_driver x) (cli_pool dsn) with
      | Err _ => (2, d)
      | Ok _ =>
          match EnsureTenant (ce_first x) (ce_second x) (ce_now x) (ce_uuid x) (flag_str vars "name") (flag_str vars "display-name") d with
          | (Ok _, d) => (0, d)
          | (Err _, d) => (2, d)
          end
      end
  end.

Definition oidc_strings := string_flags
  [("tenant", "default"); ("issuer", EmptyString); ("client-id", EmptyString); ("client-secret", EmptyString); ("redirect-uri", EmptyString);
   ("scopes", "openid profile email"); ("groups-claim", "groups"); ("owner-groups", "pulsys:owner");
   ("admin-groups", "pulsys:admin"); ("jit-default-role", "member")]%string.

Definition oidc_formal : gmap bytes flag_kind := <[bs "require-preprovisioned" := FBool]> oidc_strings.1.
Definition oidc_initial : gmap bytes flag_value := <[bs "require-preprovisioned" := VBool false]> oidc_strings.2.

Definition oidc_provider (vars : gmap bytes flag_value) (tid role : bytes) : OIDCProvider :=
  mkProvider tid (flag_str vars "issuer") (flag_str vars "client-id") (flag_str vars "client-secret")
    (flag_str vars "redirect-uri") (flag_str vars "scopes") true (flag_str vars "groups-claim")
    (splitCSV (flag_str vars "owner-groups")) (splitCSV (flag_str vars "admin-groups")) role
    (flag_bool vars "require-preprovisioned").

Definition doOIDCConfigure (dsn : bytes) (args : list bytes) (d : db) : Z * db :=
  match flag_Parse oidc_formal args oidc_initial with
  | Err _ => (1, d)
  | Ok (vars, _) =>
      if beq (flag_str vars "issuer") [] || beq (flag_str vars "client-id") []
         || beq (flag_str vars "client-secret") [] || beq (flag_str vars "redirect-uri") [] then (1, d)
      else
        match NewPool (ce_driver x) (cli_pool dsn) with
        | Err _ => (2, d)
        | Ok _ =>
            match GetTenantIDByName (ce_first x) (flag_str vars "tenant") d with
            | Err _ => (2, d)
            | Ok tid =>
                match ParseRole (flag_str vars "jit-default-role") with
                | None => (1, d)
                | Some role =>
                    match UpsertOIDCProvider (ce_second x) (oidc_provider vars tid role) d with
                    | (Ok _, d) => (0, d)
                    | (Err _, d) => (2, d)
                    end
                end
            end
        end
  end.

Definition owner_flags := string_flags [("tenant", "default"); ("email", EmptyString); ("oidc-sub", EmptyString)]%string.

Definition doUserGrantOwner (dsn : bytes) (args : list bytes) (d : db) : Z * db :=
  match flag_Parse owner_flags.1 args owner_flags.2 with
  | Err _ => (1, d)
  | Ok (vars, _) =>
      if Bool.eqb (beq (flag_str vars "email") []) (beq (flag_str vars "oidc-sub") []) then (1, d)
      else
        match NewPool (ce_driver x) (cli_pool dsn) with
        | Err _ => (2, d)
        | Ok _ =>
            match GetTenantIDByName (ce_first x) (flag_str vars "tenant") d with
            | Err _ => (2, d)
            | Ok tid =>
                match GrantOwner meta (ce_second x) (ce_third x) (ce_now x) tid (flag_str vars "email") (flag_str vars "oidc-sub") d with
                | (Ok _, d) => (0, d)
                | (Err _, d) => (2, d)
                end
            end
        end
  end.

Definition subcommand (name : string) (f : list bytes → db → Z * db) (args : list bytes) (s : pg) : Z * pg :=
  match args with
  | _ :: a :: rest =>
      if beq a (bs name) then let '(code, d) := f rest (pg_db s) in (code, mkPg d (pg_schema s)) else (1, s)
  | _ => (1, s)
  end.

Definition runTenant (args : list bytes) (dsn : bytes) : pg → Z * pg := subcommand "ensure" (doTenantEnsure dsn) args.
Definition runOIDC (args : list bytes) (dsn : bytes) : pg → Z * pg := subcommand "configure" (doOIDCConfigure dsn) args.
Definition runUser (args : list bytes) (dsn : bytes) : pg → Z * pg := subcommand "grant-owner" (doUserGrantOwner dsn) args.

Definition run_formal : gmap bytes flag_kind := {[ bs "dsn" := FString; bs "timeout" := FDuration ]}.
Definition run_initial : gmap bytes flag_value :=
  {[ bs "dsn" := VStr (ce_PULSYS_DB_DSN x); bs "timeout" := VInt (minute / 2) ]}.

(** The exit code and the database afterwards. *)
Definition run (argv : list bytes) (s : pg) : Z * pg :=
  match flag_Parse run_formal argv run_initial with
  | Err _ => (1, s)
  | Ok (vars, args) =>
      match args with
      | [] => (1, s)
      | cmd :: rest =>
          let dsn := flag_str vars "dsn" in
          if beq dsn [] then (1, s)
          else if beq cmd (bs "migrate") then
            match rest with
            | [] => (1, s)
            | sub :: _ =>
                if beq sub (bs "up") then doMigrate dsn MigrateUp s
                else if beq sub (bs "down") then doMigrate dsn MigrateDown s
                else if beq sub (bs "version") then (doMigrateVersion dsn s, s)
                else (1, s)
            end
          else if beq cmd (bs "health") then (doHealth dsn, s)
          else if beq cmd (bs "tenant") then runTenant args dsn s
          else if beq cmd (bs "oidc") then runOIDC args dsn s
          else if beq cmd (bs "user") then runUser args dsn s
          else (1, s)
      end
  end.
End cli.

(** ** Lemmas *)

Section lemmas.
Context `{PgTypes} (meta : bytes → bytes → bytes) (x : cli_env).

(** An exit code of the program; anything but success leaves the rows. *)
Definition harmless (d : db) (r : Z * db) : Prop := r.1 ∈ [0; 1; 2] ∧ (r.1 ≠ 0 → r.2 = d).

Ltac harmless_tac := unfold harmless; cbn; (split; [set_solver|done]).

Lemma tenant_harmless dsn args d : harmless d (doTenantEnsure x dsn args d).
Proof.
  unfold doTenantEnsure. destruct (flag_Parse _ _ _) as [[vars r]|]; [|harmless_tac].
  destruct (NewPool _ _); [|harmless_tac]. unfold EnsureTenant. destruct (ce_first x); [harmless_tac|].
  destruct (find_row _ _) as [[]|]; [harmless_tac|]. destruct (_ || _); harmless_tac.
Qed.

Lemma oidc_harmless dsn args d : harmless d (doOIDCConfigure x dsn args d).
Proof.
  unfold doOIDCConfigure. destruct (flag_Parse _ _ _) as [[vars r]|]; [|harmless_tac].
  destruct (_ || _); [harmless_tac|]. destruct (NewPool _ _); [|harmless_tac].
  destruct (GetTenantIDByName _ _ _); [|harmless_tac]. destruct (ParseRole _); [|harmless_tac].
  unfold UpsertOIDCProvider. destruct (negb _); [harmless_tac|]. destruct (_ || _); harmless_tac.
Qed.

Lemma owner_harmless dsn args d : harmless d (doUserGrantOwner meta x dsn args d).
Proof.
  unfold doUserGrantOwner. destruct (flag_Parse _ _ _) as [[vars r]|]; [|harmless_tac].
  destruct (Bool.eqb _ _); [harmless_tac|]. destruct (NewPool _ _); [|harmless_tac].
  destruct (GetTenantIDByName _ _ _); [|harmless_tac]. unfold GrantOwner. destruct (Bool.eqb _ _); [harmless_tac|].
  destruct (ce_second x); [harmless_tac|]. destruct (find_row _ _) as [[]|]; [|harmless_tac].
  destruct (ce_third x); harmless_tac.
Qed.

Lemma subcommand_harmless name f args s :
  (∀ a d, harmless d (f a d)) →
  (subcommand name f args s).1 ∈ [0; 1; 2] ∧ ((subcommand name f args s).1 ≠ 0 → (subcommand name f args s).2 = s).
Proof.
  intros Hf. unfold subcommand. destruct args as [|c [|a rest]]; [split; [set_solver|done]..|].
  destruct (beq a _); [|split; [set_solver|done]]. specialize (Hf rest (pg_db s)).
  destruct (f rest (pg_db s)) as [code d], s as [d0 v]. destruct Hf as [Hc Hd]. cbn in *. split; [done|].
  intros Hn. by rewrite Hd.
Qed.

Lemma migrate_codes dsn dir s : (doMigrate x dsn dir s).1 ∈ [0; 2].
Proof.
  unfold doMigrate. destruct (Migrate _ _ _ _) as [[|] s']; [|set_solver].
  destruct (match dir with MigrateUp => _ | MigrateDown => _ end); [set_solver|].
  destruct (MigrationVersion _ _ _); set_solver.
Qed.

(** ** Properties *)


(** the break-glass promotion is exact and never silent: when it
    succeeds, one user of the named tenant, the one with the given address or
    subject, has become an active owner, one audit row naming them and their
    previous role was added, and nothing else of the database changed. *)
Theorem grant_owner_exact dsn args vars rest d d' :
  flag_Parse owner_flags.1 args owner_flags.2 = Ok (vars, rest) →
  doUserGrantOwner meta x dsn args d = (0, d') →
  ∃ tid uid u a,
    GetTenantIDByName false (flag_str vars "tenant") d = Ok tid ∧
    db_users d !! uid = Some u ∧ us_tenant u = tid ∧ us_deleted u = false ∧
    (us_sub u = Some (TrimSpace (flag_str vars "oidc-sub")) ∨
     citext_fold (us_email u) = citext_fold (TrimSpace (flag_str vars "email"))) ∧
    au_action a = bs "user.grant_owner" ∧ au_resource a = Some uid ∧ au_tenant a = tid ∧
    au_metadata a = meta (us_role u) (selectorLabel (TrimSpace (flag_str vars "email")) (TrimSpace (flag_str vars "oidc-sub"))) ∧
    d' = with_audit (with_users d (<[uid := promoted u]> (db_users d))) (db_audit d ++ [a]).
Proof.
  intros Hp. unfold doUserGrantOwner. rewrite Hp. destruct (Bool.eqb _ _); [done|].
  destruct (NewPool _ _); [|done]. unfold GetTenantIDByName. destruct (ce_first x); [done|].
  destruct (find_row (tenant_named _) _) as [[tid t]|]; [|done]. unfold GrantOwner.
  set (em := TrimSpace (flag_str vars "email")). set (sub := TrimSpace (flag_str vars "oidc-sub")).
  destruct (Bool.eqb (beq em []) (beq sub [])); [done|]. destruct (ce_second x); [done|].
  destruct (find_row _ (db_users d)) as [[uid u]|] eqn:Eu; [|done]. destruct (ce_third x); [done|].
  intros [= <-]. apply find_row_Some in Eu as [Hu Hsel].
  exists tid, uid, u, (mkAudit tid (bs "system") None (bs "user.grant_owner") (Some uid) (bs "success")
    (meta (us_role u) (selectorLabel em sub)) None None (pg_time (ce_now x))).
  assert (us_tenant u = tid ∧ us_deleted u = false ∧ (us_sub u = Some sub ∨ citext_fold (us_email u) = citext_fold em)) as (H1 & H2 & H3).
  { destruct (negb (beq em [])); unfold user_with_email, user_with_sub in Hsel;
      apply andb_true_iff in Hsel as [[?%beq_true Hs]%andb_true_iff ?%negb_true_iff]; split_and!; try done.
    - right. by apply beq_true.
    - left. by apply bool_decide_eq_true in Hs. }
  split_and!; done.
Qed.

(** a configured identity provider is the one logins use: when the
    command succeeds, the provider of the named tenant is the one the flags
    describe, it is enabled and valid, and the providers of other tenants are
    as they were. *)
Theorem oidc_configured_exact dsn args vars rest d d' :
  flag_Parse oidc_formal args oidc_initial = Ok (vars, rest) →
  doOIDCConfigure x dsn args d = (0, d') →
  ∃ tid role,
    GetTenantIDByName false (flag_str vars "tenant") d = Ok tid ∧ ParseRole (flag_str vars "jit-default-role") = Some role ∧
    let p := oidc_provider vars tid role in
    ValidateProvider p = true ∧ d' = with_providers d (<[tid := p]> (db_providers d)) ∧
    (uuid_ok tid = true → GetOIDCProviderByTenant false tid d' = Ok p).
Proof.
  intros Hp. unfold doOIDCConfigure. rewrite Hp. destruct (_ || _); [done|]. destruct (NewPool _ _); [|done].
  unfold GetTenantIDByName. destruct (ce_first x); [done|].
  destruct (find_row _ _) as [[tid t]|]; [|done]. destruct (ParseRole _) as [role|] eqn:Er; [|done].
  unfold UpsertOIDCProvider. destruct (ValidateProvider _) eqn:Ev; cbn [negb]; [|done]. destruct (_ || _); [done|].
  intros [= <-]. exists tid, role. split_and!; [done..|]. intros Hu. unfold GetOIDCProviderByTenant. rewrite Hu. cbn.
  by rewrite lookup_insert_eq.
Qed.
End lemmas.

(** ** A database *)

#[local] Instance plain_types : PgTypes := {|
  citext_fold := fmap lower_byte; uuid_ok := λ s, (length s =? 2)%nat; inet_ok := λ _, true |}.

Definition sample_driver : driver := mkDriver (λ dsn, HasPrefix dsn (bs "postgres")) true true (Some 1).
Definition sample_migrator : migrator := mkMigrator true (λ _ s, (None, s)) true true.
Definition sample_cli : cli_env := mkCli (bs "postgres://db") sample_driver sample_migrator 0 (bs "t2") false false false.

Definition sample_db : db :=
  with_users (with_tenants empty_db {[ bs "t1" := mkTenant (bs "default") (bs "Default") 0 false ]})
    {[ bs "u1" := mkUserRow (bs "t1") (bs "ada@example.com") (bs "Ada") RoleMember (Some (bs "s1")) true 0 false ]}.

Definition no_meta (role label : bytes) : bytes := role ++ bs "," ++ label.

Definition owner_args : list bytes := bs <$> ["--email"; " ADA@example.com"]%string.
Definition owner_vars : gmap bytes flag_value :=
  {[ bs "tenant" := VStr (bs "default"); bs "email" := VStr (bs " ADA@example.com"); bs "oidc-sub" := VStr [] ]}.

Lemma owner_args_vars : flag_Parse owner_flags.1 owner_args owner_flags.2 = Ok (owner_vars, []).
Proof. vm_compute. reflexivity. Qed.

Lemma grant_owner_exact_witness :
  let d' := (doUserGrantOwner no_meta sample_cli (bs "postgres://db") owner_args sample_db).2 in
  us_role <$> db_users d' !! bs "u1" = Some RoleOwner ∧
  ∃ uid u a, db_users sample_db !! uid = Some u ∧
    d' = with_audit (with_users sample_db (<[uid := promoted u]> (db_users sample_db))) (db_audit sample_db ++ [a]).
Proof.
  split; [vm_compute; reflexivity|].
  destruct (grant_owner_exact no_meta sample_cli (bs "postgres://db") owner_args owner_vars [] sample_db
    (doUserGrantOwner no_meta sample_cli (bs "postgres://db") owner_args sample_db).2 owner_args_vars)
    as (tid & uid & u & a & _ & Hu & _ & _ & _ & _ & _ & _ & _ & Hd); [vm_compute; reflexivity|].
  exists uid, u, a. split; [exact Hu|exact Hd].
Defined.

(** A DSN the driver cannot parse is reported as a failure of the database. *)
Lemma bad_dsn_exits_two :
  (run no_meta sample_cli (bs <$> ["-dsn"; "mysql://db"; "health"]%string) (mkPg sample_db None)).1 = 2 ∧
  (run no_meta sample_cli (bs <$> ["-dsn"; "mysql://db"; "migrate"; "up"]%string) (mkPg sample_db None)).1 = 2.
Proof. split; vm_compute; reflexivity. Qed.

(** Asking twice for a tenant finds the one made first. *)
Lemma tenant_ensured_once :
  let args := bs <$> ["tenant"; "ensure"; "-name"; "acme"]%string in
  let s1 := (run no_meta sample_cli args (mkPg sample_db None)).2 in
  size (db_tenants (pg_db s1)) = 2%nat ∧ run no_meta sample_cli args s1 = (0, s1).
Proof. split; vm_compute; reflexivity. Qed.
